(* ===== verification/_CoqProject ===== *)
-Q . S2P
Prelude.v
Layout.v
World.v
Bss.v
Netwrap.v
Ustruct.v
Prot.v
Platform.v
FuseServer.v
Server.v
FuseFacts.v
FuseOps.v
FuseRequests.v
FuseSpec.v
Session.v
Remote.v
FuseTypes.v
Utils.v
Chain.v
Ordered.v
AVLTree.v
AVLTreeFacts.v
AVLTreeSpec.v
QSet.v
QVector.v
QList.v
QSort.v
QMap.v
QTrie.v
Failures.v
Selftest.v
TestAVLTree.v
TestContainers.v
Net.v
Logging.v
NetFacts.v
Threads.v
Main.v
Program.v
BTree.v
BTreeOrder.v
BTreeFacts.v
BTreeInsert.v
BTreeErase.v
BTreeSpec.v
BTreeSafe.v
TestBTree.v
Serialization.v
SerialTrees.v
SerialFacts.v
SerialRound.v
