(* ===== verification/Prelude.v ===== *)
(** * zhwkrfsp: a remote file system server and its library, verified

    ** The program

    zhwkrfsp mounts with libfuse a file system that lives on another machine.
    server.c waits for one TCP connection of the peer, then hands the event loop
    to libfuse, which calls the functions of fuse_server.c, one for each system
    call on the mounted tree.  Such a function builds a request (a header and a C
    structure of prot.h, sent as they lie in memory, and at times some bytes
    more), sends it with [sockwrite] of netwrap.c, waits with [wait_reply] and
    [re_read] of prot.c for the reply, and turns it into what libfuse expects
    with the conversions of ustruct.c.  All of it is written on top of the
    author's library zhwkre: binary safe strings, vectors, lists, a sort, hash
    maps, tries, a threaded AVL tree, sets, a B-tree, a serialization, wrappers
    of sockets, mutexes and threads, and a global error number.

    ** The parts and their files

    - Prelude.v (this file): bytes, machine integers, byte buffers, C strings, the
      outcomes of C code and the state monad, with their lemmas, tactics and the
      rewriting database [buf].
    - Layout.v: the memory layout of C structures, which is the wire format.
    - World.v: the state shared with the outside (zhwkre/error/error.c,
      zhwkre/concurrent/mutex.c, malloc, read and write): the error number, the
      allocator, the socket, the mutex [mu], the counter [opuid].
    - Bss.v: zhwkre/bss/bss.c.
    - Netwrap.v: [qStreamSocket_read] and [qStreamSocket_write] of
      zhwkre/network/tcp.c and netwrap.c.
    - Ustruct.v: ustruct.h and ustruct.c.
    - Prot.v: prot.h and prot.c.
    - Platform.v: the default*.h headers: the structures of the system on x86-64
      and on i386, the unified structures that follow from them, and the
      constants they are used with.
    - FuseServer.v: fuse_server.c, a definition per function, split in the request
      ([req_*]), the exchange with the peer ([exchange]) and the end
      ([finish_*]); Server.v: the table of server.c and the event loop.
    - FuseFacts.v, FuseOps.v, FuseRequests.v, FuseSpec.v: the theorems about single
      operations; Session.v: whole sessions, on the server's side and on the
      peer's; Remote.v: the interface [Peer] of the other machine and the file system
      that results; FuseTypes.v: the types of what operations
      return, and that they do nothing undefined.
    - Net.v: zhwkre/network/socket.c, the rest of zhwkre/network/tcp.c, udp.c, and
      [listenat] of netwrap.c; NetFacts.v: their theorems.
    - Threads.v: the creation of mutexes (zhwkre/concurrent/mutex.c),
      zhwkre/concurrent/threading.c and [serveat] of netwrap.c.
    - Main.v: [main] of server.c; Program.v: the whole server against a [Peer].
    - Logging.v: zhwkre/format/format.c, zhwkre/log.h and the few conversions of
      [printf] they use.
    - Utils.v: zhwkre/utils/utils.c, and the class [Comparator], the contract
      between a comparison function and the containers that use one.
    - Chain.v: the doubly linked nodes that the tree and the list share;
      Ordered.v: sorted keys, shared by the two trees.
    - AVLTree.v and AVLTreeFacts.v: zhwkre/containers/AVLTree.c; AVLTreeSpec.v: the
      ordered set it implements; QSet.v: zhwkre/containers/set.c.
    - QVector.v: zhwkre/containers/vector.c.
    - QList.v: zhwkre/containers/list.c; QSort.v: zhwkre/algorithm/bubble_sort.c;
      QMap.v: zhwkre/containers/unordered_map.c.
    - QTrie.v: zhwkre/containers/trie.c.
    - BTree.v: zhwkre/containers/btree.c; BTreeOrder.v: the sorted lists that are
      its specification; BTreeFacts.v: the shape of the tree, the search and the
      iterators; BTreeInsert.v and BTreeErase.v: insertion and deletion;
      BTreeSpec.v: the sorted list it implements; BTreeSafe.v: what holds of any
      insertion, deletion and order, whatever the comparison function answers.
    - Failures.v: receiving, the lists, the maps, the vectors and the tries when the
      allocator fails.
    - Selftest.v, TestAVLTree.v, TestBTree.v, TestContainers.v: the test programs of
      zhwkre/tests for the two trees, the strings and the vectors, composed of the
      operations of the other files.
    - Serialization.v: zhwkre/serialization/serialization.c, on top of the lists,
      the hash maps and the strings; SerialTrees.v: nested lists as trees and the
      strings they are written as; SerialFacts.v: the serialization;
      SerialRound.v: the unserialization and the round trip.

    ** How C becomes Rocq

    A C function is a function of the monad [prog world]: it maps a [world] to an
    outcome, a result and a new world ([Ok]), undefined behaviour ([Undef]: a bad
    pointer, an access out of bounds), a call of [abort] ([Aborted]), a loop that
    has used its fuel ([Diverged]) or a system call that never returns
    ([Blocked]).  What the environment does is a script in the world: which
    allocations fail, what each [read] finds, how much each [write] accepts and
    whether it fails or waits for a peer that does not read; the theorems quantify
    over the scripts, so they hold for every partial read and write.  Objects that a function changes through a pointer are taken and
    returned.  Integers are [Z], wrapped to the width of the C type wherever the
    code can leave it ([u32], [s32], [u64]); signed overflow that the code can
    reach is [Undef].  Local structures that the source does not initialise have
    arbitrary contents ([junk]), and the theorems hold whatever they are.
    Containers whose nodes point to each other keep the pointers in stores
    indexed by addresses; where a node is owned by one other the nodes are an
    inductive type.  The lists of the serialization, whose elements hold
    descriptors of other lists, share one store.  The sockets, the threads and
    [main] run over a second script, the answers of the system calls (Net.v).

    ** What is shown

    The server: the mutex and the operation numbers over a whole session
    ([session_discipline], [op_discipline]); the bytes of every request and that
    the peer's receivers get back what was asked ([request_framed],
    [request_received]); the result of every operation when a transfer fails,
    when the peer answers with an error, with a size that is not expected, and
    when it succeeds ([op_transfer_failed], [op_error_reply], [bad_size_aborts],
    [op_refused], and one [*_reply] theorem for each kind of reply, all of them in
    one statement in [op_answered]); whole sessions, composed of these: every call
    gets the result its own reply stands for and the requests go out in order
    ([session_served]), a peer that uses prot.c understands all of them
    ([session_understood]), so that against a peer which answers in the protocol
    the mounted file system is the peer's ([remote_refines]); whatever the peer
    does the results have their C types and nothing undefined happens, except
    after two kinds of reply headers ([session_safe]); the outcome of the transfer
    loops for every script, and the one case where a loop of theirs does not
    terminate ([sockread_spec], [sockwrite_spec]); the structures of the system keep the
    fields that count through the unified structures and back
    ([ustruct_roundtrip], [platform_roundtrip]).  What crosses the connection has
    the layout of the platform: two machines of one kind agree
    ([x86_64_same_shapes], [wire_platform]), and a peer on i386 sends attributes
    of another size, on which the server aborts ([i386_peer_aborts]).

    The way to the event loop: [main] makes its calls in order and serves
    operations only when all have succeeded ([main_spec]); with the sessions, the
    whole program from its start to its exit ([server_runs]); what the wrappers of
    the sockets pass to the system and store, in particular the addresses
    ([bind_spec], [connect_spec], [accept_spec], [send_spec],
    [address_text_roundtrip]); the accept loop and the threads ([serveat_spec],
    [run_creation_failure]).

    The containers: the functional behaviour of the trees, the sets, the vectors,
    the lists, the maps and the tries against lists, finite maps and sets as
    abstractions, four of them as refinements over sequences of calls
    ([list_refines], [map_refines], [tree_refines], [btree_refines]), the B-tree
    also against insertion and removal in a sorted list ([btree_insert_spec],
    [btree_erase_spec], [btree_search_spec]); for a B-tree in any order and any
    comparison function, that the calls keep the shape and change the multiset of
    the pairs by exactly what their results say, and that every block is accounted
    for ([btree_safe]);
    the invariants each operation keeps; the number of live blocks, which shows
    the leaks; termination of iterations, destructors and the sort.

    The serialization: nested lists are written level by level
    ([serialize_spec]) and come back with the same elements, recursively, in
    memory that was free ([serialization_roundtrip]); both theorems count the
    blocks that stay allocated, among them those that are leaked.

    The author's tests: the programs avltree_test.c, btree_test.c, bss_test.c and
    vector_test.c return 0, for any number of elements in a range instead of the
    one they are compiled with ([avltree_test_passes], [btree_test_passes],
    [bss_test_passes], [vector_test_passes]); the proofs compose the theorems of
    the operations.

    Failing allocations: a reply that is received without memory is replaced by
    zeros ([recv_nomem]), a list keeps a node without data ([push_back_nomem]), a
    map counts an entry it does not have, or follows that node's NULL data in the
    next search ([map_insert_nomem]), a vector stays as
    it is ([vec_push_back_nomem]), a trie drops a payload ([trie_insert_nomem]).

    What the code does not do is shown too, by theorems on the code as it is: the
    AVL tree does not stay balanced ([insert_unbalances]), loses keys when an
    allocation fails ([insert_alloc_failure_loses]) and frees the node of a
    neighbour when it erases an inner node ([erase_spec]), the B-tree loses keys when
    the first child of a node is split and stores keys twice
    ([btree_insert_loses], [btree_insert_duplicates]), the vector underflows
    ([pop_back_underflow]), the sort does not terminate with a three-way
    comparator ([bubble_sort_diverges]), the trie indexes its arrays with signed
    characters ([trie_high_byte]), an operation called while the mutex is held
    waits for ever ([op_deadlock]), the sockets use 0.0.0.0 whatever the address
    ([bind_spec]).

    ** Fuel

    Loops that follow pointers or the socket take fuel, and a theorem shows that
    what the code passes is enough: [sockread] one more than the events of the
    script, [sockwrite] two more ([sockwrite_spec]); the loops over a tree or a
    list one more than the nodes in the store ([iteration_spec],
    [destructor_spec], [list_copy_destroy]); the set loops one more than the
    elements; [bubble_sort] more than the square of the length
    ([bubble_sort_spec]).  Fuel runs out only where the source loops for ever.

    The recursions over a B-tree are structural; [q__list_serialize] takes the
    depth of the nesting as fuel, and [serialize_spec] shows that the depth is
    enough; the loops of the unserialization take more than the bytes of a string,
    its recursion the number of strings.  The loops of the test programs take one
    more than the number of elements.

    ** What is not modelled

    libfuse, the kernel and libc are the environment: the functions of libc that
    the code relies on are written out where they are used, or parameters
    ([inet_pton] and [inet_ntoa] in Net.v).  The calls of the log are left out of
    the functions that make them (Logging.v gives what they write): nothing that
    the program reads depends on them.  With them goes [strmode] of libbsd, which
    three operations call for a message only, on an array that is one byte too
    short for what it stores: [with_mode_text] of FuseServer.v is the call, and
    [strmode_overflow] shows that, by the letter of C, nothing can be said of
    these operations, and what has to be assumed for the theorems to be about
    them.  Of zhwkre/tests, map_test.cpp is C++, and
    serialization_test.c calls [qList_initdesc], which nothing defines, so that it
    cannot be built; main.c, client.c, fuse_client.c, expreval.c and prompt.c are
    empty.  The header of libfuse only declares what the operation table is made
    of.  Of i386 the layouts are modelled, not the server: the definitions of
    fuse_server.c use the constants of x86-64 Linux.  What a thread started by
    [qRun] does is not modelled, nor are data races: the server uses one thread;
    nor is the size of the stack. *)

From Stdlib Require Import Strings.Byte.
From Stdlib Require Export ZArith Lia.
From stdpp Require Export base list gmap strings option.

Local Open Scope Z_scope.

(** ** Notations of the development *)

Declare Scope c_scope.
Delimit Scope c_scope with c.

Abbreviation byte := Byte.byte.
Abbreviation NUL := Byte.x00.

(** ** Bytes as integers *)

#[export] Instance byte_eq_dec : EqDecision byte := Byte.byte_eq_dec.

(** The value of an [unsigned char]. *)
Definition byte_to_Z (b : byte) : Z := Z.of_N (Byte.to_N b).

(** Conversion of an integer to [unsigned char]: reduction modulo 256. *)
Definition byte_of_Z (z : Z) : byte :=
  match Byte.of_N (Z.to_N (z mod 256)) with
  | Some b => b
  | None => NUL
  end.

(** The value of a plain [char], which is signed on x86-64. *)
Definition schar (b : byte) : Z :=
  if byte_to_Z b <? 128 then byte_to_Z b else byte_to_Z b - 256.

(** ** Machine integers

    A [w]-bit unsigned integer is a [Z] reduced modulo [2^w]; a signed one is
    the two's complement representative. *)

Definition uwrap (w z : Z) : Z := z mod 2 ^ w.
Definition swrap (w z : Z) : Z := (z + 2 ^ (w - 1)) mod 2 ^ w - 2 ^ (w - 1).

Abbreviation u8 := (uwrap 8).
Abbreviation u16 := (uwrap 16).
Abbreviation u32 := (uwrap 32).
Abbreviation u64 := (uwrap 64).
Abbreviation s16 := (swrap 16).
Abbreviation s32 := (swrap 32).
Abbreviation s64 := (swrap 64).

(** ** Little-endian representation *)

Fixpoint le_enc (n : nat) (z : Z) : list byte :=
  match n with
  | O => []
  | S n' => byte_of_Z z :: le_enc n' (z / 256)
  end.

Fixpoint le_dec (bs : list byte) : Z :=
  match bs with
  | [] => 0
  | b :: bs' => byte_to_Z b + 256 * le_dec bs'
  end.

(** ** Byte buffers

    Lengths and offsets of buffers are integers, so that a 4096-byte file name
    is a small term. *)

Definition blen {A} (buf : list A) : Z := Z.of_nat (length buf).

Definition btake {A} (n : Z) (buf : list A) : list A := take (Z.to_nat n) buf.
Definition bdrop {A} (n : Z) (buf : list A) : list A := drop (Z.to_nat n) buf.

(** [n] bytes of [buf] from offset [off]. *)
Definition bslice {A} (off n : Z) (buf : list A) : list A :=
  btake n (bdrop off buf).

(** [buf] with [bs] stored at offset [off]. *)
Definition bstore {A} (off : Z) (bs buf : list A) : list A :=
  btake off buf ++ bs ++ bdrop (off + blen bs) buf.

Definition zeros (n : Z) : list byte := replicate (Z.to_nat n) NUL.

(** ** C strings

    A [char*] is the list of bytes it points to; the string ends before the
    first NUL, and the end of the list stands for a NUL terminator. *)

Fixpoint cstr (s : list byte) : list byte :=
  match s with
  | [] => []
  | b :: s' => if decide (b = NUL) then [] else b :: cstr s'
  end.

Definition strlen (s : list byte) : Z := blen (cstr s).

(** ** Outcomes of C code

    [Ok] is a normal return, [Undef] undefined behaviour (a bad pointer, an
    access out of bounds), [Aborted] a call of [abort()], [Diverged] a loop that
    has used all its fuel, [Blocked] a system call that does not return. *)

Inductive res (A : Type) : Type :=
| Ok (a : A)
| Undef
| Aborted
| Diverged
| Blocked.
Arguments Ok {A} a.
Arguments Undef {A}.
Arguments Aborted {A}.
Arguments Diverged {A}.
Arguments Blocked {A}.

#[export] Instance res_ret : MRet res := @Ok.

#[export] Instance res_bind : MBind res := fun A B f r =>
  match r with
  | Ok a => f a
  | Undef => Undef
  | Aborted => Aborted
  | Diverged => Diverged
  | Blocked => Blocked
  end.

(** Programs over a state [S]. *)
Definition prog (S A : Type) : Type := S -> res (A * S).

#[export] Instance prog_ret {S} : MRet (prog S) := fun A a s => Ok (a, s).

#[export] Instance prog_bind {S} : MBind (prog S) := fun A B f m s =>
  match m s with
  | Ok (a, s') => f a s'
  | Undef => Undef
  | Aborted => Aborted
  | Diverged => Diverged
  | Blocked => Blocked
  end.

Definition lift_res {S A} (r : res A) : prog S A := fun s =>
  match r with
  | Ok a => Ok (a, s)
  | Undef => Undef
  | Aborted => Aborted
  | Diverged => Diverged
  | Blocked => Blocked
  end.

Definition pget {S} : prog S S := fun s => Ok (s, s).
Definition pmodify {S} (f : S -> S) : prog S unit := fun s => Ok (tt, f s).
Definition pundef {S A} : prog S A := fun _ => Undef.
Definition pabort {S A} : prog S A := fun _ => Aborted.

(** [memcpy(dst + off, src, n)]: undefined when either side is too short. *)
Definition memcpy (dst : list byte) (off : Z) (src : list byte) (n : Z)
  : res (list byte) :=
  if (0 <=? off) && (0 <=? n) && (off + n <=? blen dst) && (n <=? blen src)
  then Ok (bstore off (btake n src) dst)
  else Undef.

(** [errno] constants of Linux the program uses. *)
Definition EBUSY : Z := 16.
Definition EINVAL : Z := 22.

(** ** Lemmas on bytes and machine integers *)

Lemma byte_to_Z_range b : 0 <= byte_to_Z b < 256.
Proof. unfold byte_to_Z. pose proof (Byte.to_N_bounded b). lia. Qed.

Lemma byte_of_to b : byte_of_Z (byte_to_Z b) = b.
Proof.
  unfold byte_of_Z. rewrite Z.mod_small by apply byte_to_Z_range.
  unfold byte_to_Z. by rewrite N2Z.id, Byte.of_to_N.
Qed.

#[export] Instance byte_countable : Countable byte := inj_countable' byte_to_Z byte_of_Z byte_of_to.

Lemma byte_to_of z : byte_to_Z (byte_of_Z z) = z mod 256.
Proof.
  unfold byte_of_Z. pose proof (Z.mod_pos_bound z 256).
  destruct (Byte.of_N _) as [b|] eqn:E.
  - apply Byte.to_of_N in E. unfold byte_to_Z. rewrite E. lia.
  - apply Byte.of_N_None_iff in E. lia.
Qed.

Lemma byte_to_Z_inj a b : byte_to_Z a = byte_to_Z b -> a = b.
Proof. intros H. by rewrite <- (byte_of_to a), <- (byte_of_to b), H. Qed.

Lemma uwrap_range w z : 0 <= w -> 0 <= uwrap w z < 2 ^ w.
Proof. intros. apply Z.mod_pos_bound. lia. Qed.

Lemma uwrap_small w z : 0 <= z < 2 ^ w -> uwrap w z = z.
Proof. apply Z.mod_small. Qed.

Lemma swrap_range w z : 0 < w -> - 2 ^ (w - 1) <= swrap w z < 2 ^ (w - 1).
Proof.
  intros Hw. unfold swrap.
  pose proof (Z.mod_pos_bound (z + 2 ^ (w - 1)) (2 ^ w) ltac:(lia)).
  assert (2 ^ w = 2 * 2 ^ (w - 1)) by (rewrite <- Z.pow_succ_r by lia; f_equal; lia).
  lia.
Qed.

Lemma swrap_small w z :
  0 < w -> - 2 ^ (w - 1) <= z < 2 ^ (w - 1) -> swrap w z = z.
Proof.
  intros Hw Hz. unfold swrap.
  assert (2 ^ w = 2 * 2 ^ (w - 1)) by (rewrite <- Z.pow_succ_r by lia; f_equal; lia).
  rewrite Z.mod_small by lia. lia.
Qed.

Lemma swrap_uwrap w z : 0 <= w -> swrap w (uwrap w z) = swrap w z.
Proof.
  intros. unfold swrap, uwrap. f_equal. by rewrite Zplus_mod_idemp_l.
Qed.

(** A narrowing conversion forgets a wider one. *)
Lemma swrap_uwrap_le w v z : 0 <= w <= v -> swrap w (uwrap v z) = swrap w z.
Proof.
  intros. unfold swrap, uwrap. f_equal.
  rewrite <- (Zplus_mod_idemp_l (z mod 2 ^ v)), Z.mod_mod_divide; [apply Zplus_mod_idemp_l|].
  exists (2 ^ (v - w)). rewrite <- Z.pow_add_r by lia. f_equal. lia.
Qed.

Lemma uwrap_swrap w z : 0 <= w -> uwrap w (swrap w z) = uwrap w z.
Proof.
  intros. unfold swrap, uwrap. rewrite Zminus_mod_idemp_l. f_equal. lia.
Qed.

Lemma uwrap_uwrap w z : 0 <= w -> uwrap w (uwrap w z) = uwrap w z.
Proof. intros. by apply Z.mod_mod, Z.pow_nonzero. Qed.

(** ** Lemmas on the little-endian representation *)

Lemma length_le_enc n z : length (le_enc n z) = n.
Proof. revert z. induction n as [|n IH]; intros z; cbn; [done|by rewrite IH]. Qed.

Lemma le_dec_enc n z : le_dec (le_enc n z) = uwrap (8 * Z.of_nat n) z.
Proof.
  revert z. induction n as [|n IH]; intros z.
  - unfold uwrap. by rewrite Z.mod_1_r.
  - cbn [le_enc le_dec]. rewrite IH, byte_to_of. unfold uwrap.
    replace (8 * Z.of_nat (S n)) with (8 + 8 * Z.of_nat n) by lia.
    rewrite Z.pow_add_r by lia. change (2 ^ 8) with 256.
    rewrite Z.rem_mul_r; lia.
Qed.

Lemma le_dec_range bs : 0 <= le_dec bs < 2 ^ (8 * blen bs).
Proof.
  unfold blen. induction bs as [|b bs IH]; [done|].
  cbn [le_dec length]. pose proof (byte_to_Z_range b).
  replace (8 * Z.of_nat (S (length bs))) with (8 + 8 * Z.of_nat (length bs)) by lia.
  rewrite Z.pow_add_r by lia. change (2 ^ 8) with 256. lia.
Qed.

Lemma le_enc_dec bs : le_enc (length bs) (le_dec bs) = bs.
Proof.
  induction bs as [|b bs IH]; [done|]. cbn [le_enc le_dec length].
  pose proof (byte_to_Z_range b). f_equal.
  - rewrite <- (byte_of_to b) at 2. unfold byte_of_Z. do 2 f_equal.
    rewrite (Z.mul_comm 256), Z.mod_add by lia. by rewrite (Z.mod_small (byte_to_Z b) 256).
  - rewrite (Z.mul_comm 256), Z.div_add, Z.div_small by lia. by rewrite Z.add_0_l.
Qed.

(** ** Lemmas on buffers *)

(** [blia] solves linear goals about lengths of buffers. *)
Ltac blia :=
  unfold blen, btake, bdrop, zeros in *;
  repeat (rewrite ?length_app, ?length_take, ?length_drop, ?length_replicate,
    ?length_le_enc in *); cbn [length] in *; lia.

Lemma blen_nil {A} : blen (@nil A) = 0.
Proof. done. Qed.

Lemma blen_cons {A} (x : A) l : blen (x :: l) = 1 + blen l.
Proof. unfold blen. cbn. lia. Qed.

Lemma blen_app {A} (l1 l2 : list A) : blen (l1 ++ l2) = blen l1 + blen l2.
Proof. blia. Qed.

Lemma blen_nonneg {A} (l : list A) : 0 <= blen l.
Proof. unfold blen. lia. Qed.

Lemma blen_le_enc n z : blen (le_enc n z) = Z.of_nat n.
Proof. blia. Qed.

Lemma blen_zeros n : 0 <= n -> blen (zeros n) = n.
Proof. intros. blia. Qed.

Lemma blen_btake {A} n (l : list A) : 0 <= n <= blen l -> blen (btake n l) = n.
Proof. intros. blia. Qed.

Lemma blen_bslice {A} off n (l : list A) :
  0 <= off -> 0 <= n -> off + n <= blen l -> blen (bslice off n l) = n.
Proof. unfold bslice. intros. blia. Qed.

Lemma blen_bstore {A} off (bs l : list A) :
  0 <= off -> off + blen bs <= blen l -> blen (bstore off bs l) = blen l.
Proof. unfold bstore. intros. blia. Qed.

Lemma btake_app {A} (l1 l2 : list A) : btake (blen l1) (l1 ++ l2) = l1.
Proof. unfold btake, blen. rewrite Nat2Z.id. apply take_app_length. Qed.

Lemma bdrop_app {A} (l1 l2 : list A) : bdrop (blen l1) (l1 ++ l2) = l2.
Proof. unfold bdrop, blen. rewrite Nat2Z.id. apply drop_app_length. Qed.

Lemma btake_app_eq {A} n (l1 l2 : list A) : n = blen l1 -> btake n (l1 ++ l2) = l1.
Proof. intros ->. apply btake_app. Qed.

Lemma bdrop_app_eq {A} n (l1 l2 : list A) : n = blen l1 -> bdrop n (l1 ++ l2) = l2.
Proof. intros ->. apply bdrop_app. Qed.

Lemma btake_all {A} n (l : list A) : blen l <= n -> btake n l = l.
Proof. intros. apply take_ge. blia. Qed.

Lemma btake_bdrop {A} n (l : list A) : btake n l ++ bdrop n l = l.
Proof. apply take_drop. Qed.

Lemma bstore_0 {A} (bs l : list A) : bstore 0 bs l = bs ++ bdrop (blen bs) l.
Proof. done. Qed.

Lemma bslice_bstore {A} off (bs l : list A) :
  0 <= off <= blen l -> bslice off (blen bs) (bstore off bs l) = bs.
Proof.
  intros. unfold bslice, bstore.
  rewrite bdrop_app_eq by blia. apply btake_app_eq. blia.
Qed.

Lemma bslice_bstore_eq {A} off n (bs l : list A) :
  n = blen bs -> 0 <= off <= blen l -> bslice off n (bstore off bs l) = bs.
Proof. intros ->. apply bslice_bstore. Qed.

Lemma bslice_bstore_before {A} off n off' (bs l : list A) :
  0 <= off -> 0 <= n -> off + n <= off' -> off' <= blen l ->
  bslice off n (bstore off' bs l) = bslice off n l.
Proof.
  intros. unfold bslice, bstore, btake, bdrop.
  rewrite drop_app_le by blia. rewrite take_app_le by blia.
  rewrite skipn_firstn_comm, take_take. f_equal. blia.
Qed.

Lemma bslice_bstore_after {A} off n off' (bs l : list A) :
  0 <= off' -> off' + blen bs <= off -> off <= blen l ->
  bslice off n (bstore off' bs l) = bslice off n l.
Proof.
  intros. unfold bslice, bstore, btake, bdrop. f_equal.
  rewrite drop_app_ge by blia. rewrite drop_app_ge by blia.
  rewrite drop_drop. f_equal. blia.
Qed.

Lemma bslice_mid {A} n (a b c : list A) : n = blen b -> bslice (blen a) n (a ++ b ++ c) = b.
Proof. intros ->. unfold bslice. by rewrite bdrop_app, btake_app. Qed.

Lemma bstore_mid {A} (a b b' c : list A) :
  blen b' = blen b -> bstore (blen a) b' (a ++ b ++ c) = a ++ b' ++ c.
Proof.
  intros E. unfold bstore. rewrite btake_app. do 2 f_equal.
  rewrite app_assoc. apply bdrop_app_eq. rewrite blen_app. lia.
Qed.

(** ** Lemmas on C strings *)

Lemma cstr_app_nul s t : Forall (fun b => b <> NUL) s -> cstr (s ++ NUL :: t) = s.
Proof.
  induction 1 as [|b s Hb _ IH]; cbn; [done|].
  by rewrite decide_False, IH.
Qed.

Lemma cstr_no_nul s : Forall (fun b => b <> NUL) (cstr s).
Proof. induction s as [|b s IH]; cbn; [done|]. case_decide; by constructor. Qed.

Lemma cstr_id s : Forall (fun b => b <> NUL) s -> cstr s = s.
Proof. induction 1; cbn; [done|]. rewrite decide_False by done. by f_equal. Qed.

Lemma cstr_cstr s : cstr (cstr s) = cstr s.
Proof. apply cstr_id, cstr_no_nul. Qed.

(** ** Lemmas on [memcpy] *)

Lemma memcpy_ok dst off src n :
  0 <= off -> 0 <= n -> off + n <= blen dst -> n <= blen src ->
  memcpy dst off src n = Ok (bstore off (btake n src) dst).
Proof.
  intros. unfold memcpy. rewrite !(proj2 (Z.leb_le _ _)) by lia. done.
Qed.

(** ** Running programs *)

Lemma prog_bind_ok {S A B} (m : prog S A) (f : A -> prog S B) s a s' :
  m s = Ok (a, s') -> (m ≫= f) s = f a s'.
Proof. intros E. unfold mbind, prog_bind. by rewrite E. Qed.

Lemma prog_bind_undef {S A B} (m : prog S A) (f : A -> prog S B) s :
  m s = Undef -> (m ≫= f) s = Undef.
Proof. intros E. unfold mbind, prog_bind. by rewrite E. Qed.

Lemma prog_bind_blocked {S A B} (m : prog S A) (f : A -> prog S B) s :
  m s = Blocked -> (m ≫= f) s = Blocked.
Proof. intros E. unfold mbind, prog_bind. by rewrite E. Qed.

Lemma prog_bind_diverged {S A B} (m : prog S A) (f : A -> prog S B) s :
  m s = Diverged -> (m ≫= f) s = Diverged.
Proof. intros E. unfold mbind, prog_bind. by rewrite E. Qed.

Lemma prog_bind_inv {S A B} (m : prog S A) (f : A -> prog S B) s b s'' :
  (m ≫= f) s = Ok (b, s'') -> exists a s', m s = Ok (a, s') /\ f a s' = Ok (b, s'').
Proof. unfold mbind, prog_bind. destruct (m s) as [[a s']| | | |]; try done. eauto. Qed.

(** [prun] unfolds the monad one level at a time in the goal. *)
Ltac prun :=
  unfold mbind, mret, prog_bind, prog_ret, pget, pmodify, pundef, pabort, lift_res;
  cbv beta iota.

(** [pstep H] runs the first command of the goal's program by the equation [H]. *)
Tactic Notation "pstep" uconstr(H) := erewrite prog_bind_ok by (eapply H; eauto).

(** ** Automation *)

Create HintDb crepr.
#[export] Hint Resolve blen_nonneg byte_to_Z_range : crepr.
Create Rewrite HintDb buf.
#[export] Hint Rewrite @blen_nil @blen_cons @blen_app @blen_le_enc : buf.
#[export] Hint Rewrite @blen_zeros @blen_btake @blen_bstore using blia : buf.

(** [outcome] splits on the scrutinee of the outermost match of the goal. *)
Ltac outcome :=
  match goal with
  | |- context [match ?x with _ => _ end] => destruct x eqn:?; simplify_eq/=
  end.
