(* ===== verification/Layout.v ===== *)
(** * Memory layout of C structures

    The protocol sends C structures as they lie in memory, so the wire format is
    the layout the compiler gives them: fields in order, each at the next
    multiple of its alignment, the size rounded up to the largest alignment
    (System V ABI, x86-64).  A structure in memory is a list of bytes; [getf] and
    [setf] are the loads and stores of its integer fields, [getb] and
    [strcpyf] those of its character arrays. *)

From S2P Require Import Prelude.
Local Open Scope Z_scope.

(** ** Definitions *)

(** The type of a field: an integer (signed or not) of [n] bytes, or an array of
    [n] characters. *)
Inductive ctype : Type :=
| CInt (signed : bool) (n : nat)
| CBytes (n : Z).

Definition csize (t : ctype) : Z :=
  match t with CInt _ n => Z.of_nat n | CBytes n => Z.max 0 n end.

Definition calign (t : ctype) : Z :=
  match t with CInt _ n => Z.max 1 (Z.of_nat n) | CBytes _ => 1 end.

Definition cstruct : Type := list (string * ctype).

Definition align_up (off a : Z) : Z := a * ((off + a - 1) / a).

(** Offset and type of field [f] when the fields [fs] start at [off]. *)
Fixpoint field_at (off : Z) (fs : cstruct) (f : string) : option (Z * ctype) :=
  match fs with
  | [] => None
  | (g, t) :: fs' =>
      let o := align_up off (calign t) in
      if decide (g = f) then Some (o, t) else field_at (o + csize t) fs' f
  end.

(** The offset after the last field. *)
Fixpoint end_at (off : Z) (fs : cstruct) : Z :=
  match fs with
  | [] => off
  | (_, t) :: fs' => end_at (align_up off (calign t) + csize t) fs'
  end.

Fixpoint salign (fs : cstruct) : Z :=
  match fs with
  | [] => 1
  | (_, t) :: fs' => Z.max (calign t) (salign fs')
  end.

Definition sizeof (st : cstruct) : Z := align_up (end_at 0 st) (salign st).

(** The value of an [n]-byte integer of the given signedness. *)
Definition cwrap (signed : bool) (n : nat) (z : Z) : Z :=
  if signed then swrap (8 * Z.of_nat n) z else uwrap (8 * Z.of_nat n) z.

(** Load of an integer field. *)
Definition getf (st : cstruct) (f : string) (buf : list byte) : Z :=
  match field_at 0 st f with
  | Some (o, CInt s n) => cwrap s n (le_dec (bslice o (Z.of_nat n) buf))
  | _ => 0
  end.

(** Store into an integer field. *)
Definition setf (st : cstruct) (f : string) (z : Z) (buf : list byte) : list byte :=
  match field_at 0 st f with
  | Some (o, CInt _ n) => bstore o (le_enc n z) buf
  | _ => buf
  end.

(** The bytes of a character array. *)
Definition getb (st : cstruct) (f : string) (buf : list byte) : list byte :=
  match field_at 0 st f with
  | Some (o, CBytes n) => bslice o n buf
  | _ => []
  end.

(** [strcpy(buf.f, s)]: the characters of [s] and the NUL; undefined when the
    array is too short for them. *)
Definition strcpyf (st : cstruct) (f : string) (s : list byte) (buf : list byte)
  : res (list byte) :=
  match field_at 0 st f with
  | Some (o, CBytes n) =>
      if strlen s <? n then Ok (bstore o (cstr s ++ [NUL]) buf) else Undef
  | _ => Undef
  end.

(** [memcpy(buf.f, s, n)] where [n] is the size of the array. *)
Definition memcpyf (st : cstruct) (f : string) (s : list byte) (buf : list byte)
  : res (list byte) :=
  match field_at 0 st f with
  | Some (o, CBytes n) => memcpy buf o s n
  | _ => Undef
  end.

(** The value read back from field [f] after a store of [z]. *)
Definition field_wrap (st : cstruct) (f : string) (z : Z) : Z :=
  match field_at 0 st f with
  | Some (_, CInt s n) => cwrap s n z
  | _ => 0
  end.

(** The buffer holds a whole structure. *)
Definition fits (st : cstruct) (buf : list byte) : Prop := sizeof st <= blen buf.

(** Names used twice would make a field unreachable. *)
Definition layout_ok (st : cstruct) : bool :=
  bool_decide (NoDup (st.*1)).

(** ** Placement of fields *)

Lemma calign_pos t : 0 < calign t.
Proof. destruct t; cbn; lia. Qed.

Lemma csize_nonneg t : 0 <= csize t.
Proof. destruct t; cbn; lia. Qed.

Lemma align_up_ge off a : 0 < a -> off <= align_up off a.
Proof.
  intros. unfold align_up.
  pose proof (Z.div_mod (off + a - 1) a ltac:(lia)).
  pose proof (Z.mod_pos_bound (off + a - 1) a ltac:(lia)). lia.
Qed.

Lemma align_up_lt off a : 0 < a -> align_up off a < off + a.
Proof.
  intros. unfold align_up.
  pose proof (Z.div_mod (off + a - 1) a ltac:(lia)).
  pose proof (Z.mod_pos_bound (off + a - 1) a ltac:(lia)). lia.
Qed.

Lemma align_up_divide off a : (a | align_up off a).
Proof. exists ((off + a - 1) / a). unfold align_up. lia. Qed.

Lemma salign_pos st : 0 < salign st.
Proof. induction st as [|[g t] st IH]; cbn; lia. Qed.

Lemma end_at_ge off st : off <= end_at off st.
Proof.
  revert off. induction st as [|[g t] st IH]; intros off; cbn; [lia|].
  specialize (IH (align_up off (calign t) + csize t)).
  pose proof (align_up_ge off _ (calign_pos t)). pose proof (csize_nonneg t). lia.
Qed.

Lemma field_at_range off st f o t :
  field_at off st f = Some (o, t) -> off <= o /\ o + csize t <= end_at off st.
Proof.
  revert off. induction st as [|[g u] st IH]; intros off; cbn; [done|].
  pose proof (align_up_ge off _ (calign_pos u)). pose proof (csize_nonneg u).
  case_decide.
  - intros [= <- <-]. split; [done|]. apply end_at_ge.
  - intros (? & ?)%IH. lia.
Qed.

Lemma field_at_disjoint off st f g o t o' t' :
  f <> g ->
  field_at off st f = Some (o, t) -> field_at off st g = Some (o', t') ->
  o + csize t <= o' \/ o' + csize t' <= o.
Proof.
  intros Hne. revert off. induction st as [|[h u] st IH]; intros off; cbn; [done|].
  repeat case_decide; subst; [done| | |].
  - intros [= <- <-] (? & _)%field_at_range. by left.
  - intros (? & _)%field_at_range [= <- <-]. by right.
  - apply IH.
Qed.

Lemma sizeof_ge st : end_at 0 st <= sizeof st.
Proof. apply align_up_ge, salign_pos. Qed.

Lemma field_in_struct st f o t :
  field_at 0 st f = Some (o, t) -> 0 <= o /\ o + csize t <= sizeof st.
Proof.
  intros (? & ?)%field_at_range. pose proof (sizeof_ge st). lia.
Qed.

(** ** Loads after stores *)

Section accesses.
Context (st : cstruct) (buf : list byte) (Hlen : fits st buf).

Lemma blen_setf f z : blen (setf st f z buf) = blen buf.
Proof using Hlen.
  unfold setf, fits in *. destruct (field_at 0 st f) as [[o [s n|n]]|] eqn:E; try done.
  apply field_in_struct in E as [? ?]. cbn in *. apply blen_bstore; blia.
Qed.

Lemma getf_setf f z : getf st f (setf st f z buf) = field_wrap st f z.
Proof using Hlen.
  unfold getf, setf, field_wrap, fits in *.
  destruct (field_at 0 st f) as [[o [s n|n]]|] eqn:E; try done.
  apply field_in_struct in E as [? ?]. cbn in *.
  rewrite bslice_bstore_eq by blia. rewrite le_dec_enc. unfold cwrap.
  destruct s; [apply swrap_uwrap|apply uwrap_uwrap]; lia.
Qed.

(** A store into field [g] does not touch the bytes of another field. *)
Lemma bslice_store_ne f g o t o' t' bs :
  f <> g -> field_at 0 st f = Some (o, t) -> field_at 0 st g = Some (o', t') ->
  blen bs <= csize t' -> bslice o (csize t) (bstore o' bs buf) = bslice o (csize t) buf.
Proof using Hlen.
  intros Hne Ef Eg Hbs. unfold fits in *.
  pose proof (field_at_disjoint _ _ _ _ _ _ _ _ Hne Ef Eg) as Hd.
  pose proof (csize_nonneg t). pose proof (blen_nonneg bs).
  apply field_in_struct in Ef as [? ?], Eg as [? ?].
  destruct Hd; [apply bslice_bstore_before|apply bslice_bstore_after]; lia.
Qed.

Lemma getf_setf_ne f g z :
  f <> g -> getf st f (setf st g z buf) = getf st f buf.
Proof using Hlen.
  intros Hne. unfold getf, setf.
  destruct (field_at 0 st g) as [[o' [s' n'|n']]|] eqn:Eg; try done.
  destruct (field_at 0 st f) as [[o [s n|n]]|] eqn:Ef; try done.
  do 2 f_equal. eapply (bslice_store_ne _ _ _ (CInt s n)); [done..|]. cbn. blia.
Qed.

(** The bytes of an array after a store into another field. *)
Lemma getb_store_ne f g o' t' bs :
  f <> g -> field_at 0 st g = Some (o', t') -> blen bs <= csize t' ->
  getb st f (bstore o' bs buf) = getb st f buf.
Proof using Hlen.
  intros Hne Eg Hbs. unfold getb.
  destruct (field_at 0 st f) as [[o [s n|n]]|] eqn:Ef; try done.
  pose proof (bslice_store_ne _ _ _ _ _ _ _ Hne Ef Eg Hbs) as H. cbn in H.
  unfold bslice, btake in *. by replace (Z.to_nat (Z.max 0 n)) with (Z.to_nat n) in H by lia.
Qed.

Lemma getb_setf f g z :
  f <> g -> getb st f (setf st g z buf) = getb st f buf.
Proof using Hlen.
  intros Hne. unfold setf.
  destruct (field_at 0 st g) as [[o' [s' n'|n']]|] eqn:Eg; try done.
  eapply getb_store_ne; [done..|]. cbn. blia.
Qed.

(** A store of [bs] at the start of the array [g]. *)
Lemma getf_array f g o n (bs : list byte) :
  field_at 0 st g = Some (o, CBytes n) -> f <> g -> blen bs <= n ->
  getf st f (bstore o bs buf) = getf st f buf.
Proof using Hlen.
  intros Eg Hne Hbs. unfold getf.
  destruct (field_at 0 st f) as [[o' [s' n'|n']]|] eqn:Ef; try done.
  do 2 f_equal. eapply (bslice_store_ne _ _ _ (CInt s' n')); [done..|]. cbn [csize]. lia.
Qed.

Lemma strcpyf_inv f s buf' :
  strcpyf st f s buf = Ok buf' ->
  exists o n, field_at 0 st f = Some (o, CBytes n) /\ strlen s < n /\
    buf' = bstore o (cstr s ++ [NUL]) buf.
Proof using Type.
  unfold strcpyf. destruct (field_at 0 st f) as [[o [?|n]]|]; try done.
  destruct (Z.ltb_spec (strlen s) n); [intros [= <-]; eauto|done].
Qed.

Lemma blen_strcpyf f s buf' : strcpyf st f s buf = Ok buf' -> blen buf' = blen buf.
Proof using Hlen.
  intros (o & n & E & Hs & ->)%strcpyf_inv. apply field_in_struct in E as [? ?].
  unfold fits in *. cbn in *. unfold strlen in *. apply blen_bstore; blia.
Qed.

Lemma getf_strcpyf f g s buf' :
  f <> g -> strcpyf st g s buf = Ok buf' -> getf st f buf' = getf st f buf.
Proof using Hlen.
  intros Hne (o & n & E & Hs & ->)%strcpyf_inv. unfold strlen in *.
  eapply getf_array; [done|done|]. blia.
Qed.

(** The array read back as a C string is the string copied, whatever the array
    held before. *)
Lemma getb_strcpyf f s buf' :
  strcpyf st f s buf = Ok buf' -> cstr (getb st f buf') = cstr s.
Proof using Hlen.
  intros (o & n & E & Hs & ->)%strcpyf_inv. unfold getb, fits in *. rewrite E.
  apply field_in_struct in E as [? ?]. cbn in *. unfold strlen in *.
  unfold bslice, bstore. rewrite bdrop_app_eq by blia.
  unfold btake, blen in *. rewrite <- app_assoc. rewrite take_app_ge by lia.
  destruct (Z.to_nat n - length (cstr s))%nat as [|k] eqn:Ek; [lia|].
  cbn. apply cstr_app_nul, cstr_no_nul.
Qed.

Lemma strcpyf_ok f s :
  (exists o n, field_at 0 st f = Some (o, CBytes n) /\ strlen s < n) ->
  exists buf', strcpyf st f s buf = Ok buf'.
Proof using Type.
  intros (o & n & E & H). unfold strcpyf. rewrite E, (proj2 (Z.ltb_lt _ _)) by done. eauto.
Qed.

Lemma memcpyf_ok f s o n :
  field_at 0 st f = Some (o, CBytes n) -> blen s = n ->
  memcpyf st f s buf = Ok (bstore o s buf).
Proof using Hlen.
  intros E Hs. unfold memcpyf, fits in *. rewrite E. pose proof (blen_nonneg s).
  apply field_in_struct in E as [? ?]. cbn in *.
  rewrite memcpy_ok by lia. by rewrite btake_all by lia.
Qed.

Lemma getb_array f o n s :
  field_at 0 st f = Some (o, CBytes n) -> blen s = n ->
  getb st f (bstore o s buf) = s.
Proof using Hlen.
  intros E Hs. unfold getb, fits in *. rewrite E. pose proof (blen_nonneg s).
  apply field_in_struct in E as [? ?]. cbn in *. apply bslice_bstore_eq; lia.
Qed.

End accesses.

Lemma fits_setf st f z buf : fits st buf -> fits st (setf st f z buf).
Proof. intros H. unfold fits. by rewrite blen_setf. Qed.

Lemma fits_strcpyf st f s buf buf' :
  strcpyf st f s buf = Ok buf' -> fits st buf -> fits st buf'.
Proof. intros E H. unfold fits. by rewrite (blen_strcpyf _ _ H _ _ _ E). Qed.

Lemma fits_exact st buf : blen buf = sizeof st -> fits st buf.
Proof. unfold fits. lia. Qed.

(** A structure at the start of a longer buffer. *)
Lemma bslice_app off n (u tl : list byte) :
  0 <= off -> 0 <= n -> off + n <= blen u -> bslice off n (u ++ tl) = bslice off n u.
Proof.
  intros. unfold bslice, btake, bdrop. rewrite drop_app_le by blia. apply take_app_le. blia.
Qed.

Lemma getf_app st f u tl : fits st u -> getf st f (u ++ tl) = getf st f u.
Proof.
  intros Hf. unfold getf, fits in *. destruct (field_at 0 st f) as [[o [s n|n]]|] eqn:E; try done.
  apply field_in_struct in E as [? ?]. cbn in *. by rewrite bslice_app by lia.
Qed.

(** ** Automation: evaluation of loads after stores *)

(** [fits] proves that a buffer reached by stores from a known one is large
    enough for its structure. *)
Ltac fits :=
  lazymatch goal with
  | |- fits _ (setf _ _ _ _) => apply fits_setf; fits
  | H : strcpyf ?st _ _ _ = Ok ?b |- fits ?st ?b => apply (fits_strcpyf _ _ _ _ _ H); fits
  | H : fits ?st ?b |- fits ?st ?b => exact H
  | |- fits _ _ => apply fits_exact; assumption
  end.

(** Replaces [field_wrap st f z] by the conversion of the field's type. *)
Ltac eval_field :=
  repeat match goal with
  | |- context [field_wrap ?st ?f ?z] =>
      let r := eval cbv [field_wrap] in (field_wrap st f z) in
      let x := eval vm_compute in (field_at 0 st f) in
      let e := constr:(match x with Some (_, CInt s n) => cwrap s n z | _ => 0 end) in
      let e' := eval cbv [cwrap Z.of_nat Pos.of_succ_nat Pos.succ Z.mul Pos.mul Pos.add] in e in
      change (field_wrap st f z) with e'
  end.

Ltac layout :=
  repeat match goal with
  | |- context [getf ?st ?f (setf ?st ?f ?z ?b)] =>
      rewrite (getf_setf st b ltac:(fits) f z)
  | |- context [getf ?st ?f (setf ?st ?g ?z ?b)] =>
      rewrite (getf_setf_ne st b ltac:(fits) f g z ltac:(discriminate))
  | |- context [getb ?st ?f (setf ?st ?g ?z ?b)] =>
      rewrite (getb_setf st b ltac:(fits) f g z ltac:(discriminate))
  | H : strcpyf ?st ?g ?s ?b = Ok ?b' |- context [getf ?st ?f ?b'] =>
      rewrite (getf_strcpyf st b ltac:(fits) f g s b' ltac:(discriminate) H)
  | H : strcpyf ?st ?f ?s ?b = Ok ?b' |- context [cstr (getb ?st ?f ?b')] =>
      rewrite (getb_strcpyf st b ltac:(fits) f s b' H)
  end;
  eval_field.
