(* ===== verification/World.v ===== *)
(** * The machine state

    What the program shares with the outside: the global [zhwk_error] of
    zhwkre/error/error.c, the allocator, the connected stream socket, the mutex
    [mu] and the operation counter [opuid] of fuse_server.c.

    The environment is a script consumed by the program: [w_alloc] says which of
    the next allocations succeed (all of them once the script is empty), [w_rd]
    what the next [read(2)] calls on the socket find, [w_wr] what the next
    [write(2)] calls do: accept some bytes, fail, or wait for ever because the
    peer reads nothing (they accept everything once it is empty).  Theorems
    quantify over the scripts. *)

From S2P Require Import Prelude.
Local Open Scope Z_scope.

(** ** Error codes (zhwkre/error.h) *)

Definition ZHWK_ERR_LIST_EMPTY : Z := 10.
Definition ZHWK_ERR_MM_ALLOC_FAIL : Z := 20.
Definition ZHWK_ERR_TCP_READ_FAIL : Z := 43.
Definition ZHWK_ERR_TCP_WRITE_FAIL : Z := 45.
Definition ZHWK_ERR_MUTEX_LOCK_FAIL : Z := 61.
Definition ZHWK_ERR_MUTEX_RELEASE_FAIL : Z := 62.
Definition ZHWK_ERR_TREE_ELEM_EXIST : Z := 80.
Definition ZHWK_ERR_TREE_ELEM_NOTEXIST : Z := 81.
Definition ZHWK_ERR_TREE_INVALID_OPERATION : Z := 82.

(** ** The state *)

(** A [read] finds a transient error, some bytes, or the end of the stream,
    which is final. *)
Inductive rd_event : Type :=
| RdErr
| RdData (bs : list byte)
| RdEof.

(** A [write] fails, accepts at most [n] bytes, or does not return: the peer has
    stopped reading and the buffers between the machines are full. *)
Inductive wr_event : Type :=
| WrErr
| WrMax (n : Z)
| WrBlock.

#[export] Instance rd_event_eq_dec : EqDecision rd_event.
Proof. solve_decision. Defined.

#[export] Instance wr_event_eq_dec : EqDecision wr_event.
Proof. solve_decision. Defined.

Set Primitive Projections.

Record world : Type := World {
  w_err : Z;               (* zhwk_error *)
  w_alloc : list bool;     (* outcomes of the next allocations *)
  w_live : Z;              (* heap blocks allocated and not freed *)
  w_rd : list rd_event;    (* what the next reads of the socket find *)
  w_wr : list wr_event;    (* what the next writes of the socket do *)
  w_tx : list byte;        (* bytes written to the socket so far *)
  w_mu : bool;             (* the mutex is locked *)
  w_badunlock : bool;      (* an unlocked mutex has been unlocked *)
  w_opuid : Z              (* static uint32_t opuid *)
}.

Unset Primitive Projections.

Definition set_err (e : Z) (w : world) : world :=
  World e (w_alloc w) (w_live w) (w_rd w) (w_wr w) (w_tx w) (w_mu w) (w_badunlock w) (w_opuid w).
Definition set_alloc (a : list bool) (w : world) : world :=
  World (w_err w) a (w_live w) (w_rd w) (w_wr w) (w_tx w) (w_mu w) (w_badunlock w) (w_opuid w).
Definition set_live (n : Z) (w : world) : world :=
  World (w_err w) (w_alloc w) n (w_rd w) (w_wr w) (w_tx w) (w_mu w) (w_badunlock w) (w_opuid w).
Definition set_rd (es : list rd_event) (w : world) : world :=
  World (w_err w) (w_alloc w) (w_live w) es (w_wr w) (w_tx w) (w_mu w) (w_badunlock w) (w_opuid w).
Definition set_wr (es : list wr_event) (w : world) : world :=
  World (w_err w) (w_alloc w) (w_live w) (w_rd w) es (w_tx w) (w_mu w) (w_badunlock w) (w_opuid w).
Definition set_tx (bs : list byte) (w : world) : world :=
  World (w_err w) (w_alloc w) (w_live w) (w_rd w) (w_wr w) bs (w_mu w) (w_badunlock w) (w_opuid w).
Definition set_mu (b : bool) (w : world) : world :=
  World (w_err w) (w_alloc w) (w_live w) (w_rd w) (w_wr w) (w_tx w) b (w_badunlock w) (w_opuid w).
Definition set_badunlock (b : bool) (w : world) : world :=
  World (w_err w) (w_alloc w) (w_live w) (w_rd w) (w_wr w) (w_tx w) (w_mu w) b (w_opuid w).
Definition set_opuid (n : Z) (w : world) : world :=
  World (w_err w) (w_alloc w) (w_live w) (w_rd w) (w_wr w) (w_tx w) (w_mu w) (w_badunlock w) n.

Abbreviation io := (prog world).

(** ** zhwkre/error/error.c *)

Definition SETERR (e : Z) : io unit := pmodify (set_err e).

(** A pending error is reported and stays pending. *)
Definition chkerr : io Z :=
  w ← pget;
  if w_err w =? 0 then pmodify (set_err 0);; mret 0 else mret (-1).

(** [exit(-1)] is an abnormal end of the program. *)
Definition fatalerr : io unit :=
  w ← pget;
  if w_err w =? 0 then pmodify (set_err 0) else pabort.

Definition clrerr : io unit := pmodify (set_err 0).

(** ** The allocator *)

(** [malloc(n) != NULL]. *)
Definition malloc : io bool := fun w =>
  match w_alloc w with
  | [] => Ok (true, set_live (w_live w + 1) w)
  | true :: a => Ok (true, set_live (w_live w + 1) (set_alloc a w))
  | false :: a => Ok (false, set_alloc a w)
  end.

(** [free] of an allocated block. *)
Definition free : io unit := pmodify (fun w => set_live (w_live w - 1) w).

(** [malloc(n)] and [memcpy] of [n] bytes of [src] into the block. *)
Definition duplicate (src : list byte) (n : Z) : io (option (list byte)) :=
  ok ← malloc;
  if negb ok then SETERR ZHWK_ERR_MM_ALLOC_FAIL;; mret None
  else
    b ← lift_res (memcpy (zeros n) 0 src n);
    mret (Some b).

(** ** The socket *)

(** [read(fd, buf, n)]: its result and the bytes stored. *)
Definition sys_read (n : Z) : io (Z * list byte) := fun w =>
  match w_rd w with
  | [] => Blocked
  | RdErr :: es => Ok ((-1, []), set_rd es w)
  | RdEof :: _ => Ok ((0, []), w)
  | RdData bs :: es =>
      if blen bs <=? n then Ok ((blen bs, bs), set_rd es w)
      else Ok ((n, btake n bs), set_rd (RdData (bdrop n bs) :: es) w)
  end.

(** [write(fd, content, n)]. *)
Definition sys_write (content : list byte) (n : Z) : io Z := fun w =>
  if blen content <? n then Undef else
  match w_wr w with
  | [] => Ok (n, set_tx (w_tx w ++ btake n content) w)
  | WrErr :: es => Ok (-1, set_wr es w)
  | WrMax k :: es =>
      let m := Z.max 0 (Z.min k n) in
      Ok (m, set_tx (w_tx w ++ btake m content) (set_wr es w))
  | WrBlock :: _ => Blocked
  end.

(** ** The mutex (zhwkre/concurrent/mutex.c)

    A default pthread mutex, as glibc implements it: locking a locked mutex
    never returns, unlocking frees it whoever holds it.  POSIX leaves the unlock
    of a mutex that is not held undefined; [w_badunlock] records that it
    happened.  Neither call fails with [-1]: pthread functions return a positive
    error number, so the [SETERR] of the wrappers is not reached. *)

Definition pthread_mutex_lock : io Z := fun w =>
  if w_mu w then Blocked else Ok (0, set_mu true w).

Definition pthread_mutex_unlock : io Z := fun w =>
  if w_mu w then Ok (0, set_mu false w)
  else Ok (0, set_badunlock true w).

Definition q__Mutex_lock : io unit :=
  errn ← pthread_mutex_lock;
  if errn =? -1 then SETERR ZHWK_ERR_MUTEX_LOCK_FAIL else mret tt.

Definition q__Mutex_unlock : io unit :=
  errn ← pthread_mutex_unlock;
  if errn =? -1 then SETERR ZHWK_ERR_MUTEX_RELEASE_FAIL else mret tt.

(** ** Scripts of the peer *)

(** The bytes a script of reads delivers before anything else happens. *)
Fixpoint stream (es : list rd_event) : list byte :=
  match es with
  | RdData bs :: es' => bs ++ stream es'
  | _ => []
  end.

(** A process that has just connected to a peer with the script [rd]. *)
Definition start (rd : list rd_event) : world := World 0 [] 0 rd [] [] false false 0.

(** Every allocation succeeds. *)
Definition mem_ok (w : world) : Prop := w_alloc w = [].

(** No write fails, and the peer goes on reading. *)
Definition accepting (e : wr_event) : Prop :=
  match e with WrMax _ => True | WrErr | WrBlock => False end.

Definition wr_ok (w : world) : Prop := Forall accepting (w_wr w).

(** ** Lemmas *)

Lemma set_live_id n w : n = w_live w -> set_live n w = w.
Proof. by intros ->. Qed.

Lemma malloc_ok w : mem_ok w -> malloc w = Ok (true, set_live (w_live w + 1) w).
Proof. unfold mem_ok, malloc. by intros ->. Qed.

Lemma free_malloc w : free (set_live (w_live w + 1) w) = Ok (tt, w).
Proof.
  unfold free, pmodify. change (Ok (tt, set_live (w_live w + 1 - 1) w) = Ok (tt, w)).
  rewrite set_live_id; [done|lia].
Qed.

Lemma duplicate_ok src n w :
  mem_ok w -> blen src = n -> duplicate src n w = Ok (Some src, set_live (w_live w + 1) w).
Proof.
  intros Hm Hl. unfold duplicate. rewrite (prog_bind_ok _ _ _ _ _ (malloc_ok w Hm)). cbn [negb].
  pose proof (blen_nonneg src). rewrite memcpy_ok by (rewrite ?blen_zeros; lia).
  erewrite prog_bind_ok by reflexivity. unfold mret, prog_ret. do 3 f_equal.
  rewrite btake_all, bstore_0 by lia.
  replace (bdrop (blen src) (zeros n)) with (@nil byte); [by rewrite app_nil_r|].
  symmetry. apply drop_ge. unfold blen, zeros in *. rewrite length_replicate. lia.
Qed.
