(* ===== verification/Bss.v ===== *)
(** * Binary safe strings (zhwkre/bss.h, zhwkre/bss/bss.c)

    A growable byte buffer: [str] is the allocated block (its length is the
    number of bytes allocated), [size] the bytes in use.  Sizes are [unsigned
    int] and wrap at 2^32. *)

From S2P Require Import Prelude World.
Local Open Scope Z_scope.

(** ** Definitions *)

Record qBinarySafeString : Type := Bss {
  str : option (list byte);   (* None is NULL *)
  size : Z;
  capacity : Z
}.

(** When the allocation fails [size] and [capacity] are left uninitialised. *)
Definition qbss_constructor : io qBinarySafeString :=
  ok ← malloc;
  if negb ok then SETERR ZHWK_ERR_MM_ALLOC_FAIL;; mret (Bss None 0 0)
  else mret (Bss (Some (zeros 64)) 0 64).

Definition q__bss_append (bss : qBinarySafeString) (s : list byte) (len : Z)
  : io qBinarySafeString :=
  match str bss with
  | None => pundef
  | Some buf =>
      let need := u32 (2 * u32 (size bss + len)) in
      if capacity bss <? need then
        ok ← malloc;
        if negb ok then SETERR ZHWK_ERR_MM_ALLOC_FAIL;; mret bss
        else
          tmp ← lift_res (memcpy (zeros need) 0 buf (size bss));
          free;;
          buf' ← lift_res (memcpy tmp (size bss) s len);
          mret (Bss (Some buf') (u32 (size bss + len)) need)
      else
        buf' ← lift_res (memcpy buf (size bss) s len);
        mret (Bss (Some buf') (u32 (size bss + len)) (capacity bss))
  end.

Definition qbss__from_array (arr : list byte) (sz : Z) : io qBinarySafeString :=
  bss ← qbss_constructor;
  e ← chkerr;
  if e =? 0 then q__bss_append bss arr sz else mret bss.

(** [free(NULL)] does nothing. *)
Definition qbss_destructor (bss : qBinarySafeString) : io unit :=
  match str bss with Some _ => free | None => mret tt end.

(** The bytes in use. *)
Definition content (bss : qBinarySafeString) : list byte :=
  btake (size bss) (default [] (str bss)).

(** The invariant of a string in use: the block has [capacity] bytes, at least
    twice the bytes in use, and the unused part is zero. *)
Definition bss_ok (bss : qBinarySafeString) : Prop :=
  exists buf, str bss = Some buf /\ blen buf = capacity bss /\
    0 <= size bss /\ 64 <= capacity bss < 2 ^ 32 /\ 2 * size bss <= capacity bss /\
    bdrop (size bss) buf = zeros (capacity bss - size bss).

(** ** Behaviour of the operations *)

Lemma qbss_constructor_eq w :
  mem_ok w ->
  qbss_constructor w = Ok (Bss (Some (zeros 64)) 0 64, set_live (w_live w + 1) w).
Proof. unfold qbss_constructor, malloc, mem_ok. intros E. prun. by rewrite E. Qed.

Lemma qbss_new_ok : bss_ok (Bss (Some (zeros 64)) 0 64).
Proof. exists (zeros 64). by repeat split. Qed.

Lemma memcpy_zeros_tail buf sz s len :
  0 <= sz -> 0 <= len -> len <= blen s -> sz + len <= blen buf ->
  bdrop sz buf = zeros (blen buf - sz) ->
  exists buf', memcpy buf sz s len = Ok buf' /\ blen buf' = blen buf /\
    btake (sz + len) buf' = btake sz buf ++ btake len s /\
    bdrop (sz + len) buf' = zeros (blen buf' - (sz + len)).
Proof.
  intros Hsz Hlen Hs Hfit Hz. rewrite memcpy_ok by lia. eexists. split; [done|].
  assert (Hl : blen (bstore sz (btake len s) buf) = blen buf).
  { apply blen_bstore; [done|]. rewrite blen_btake by lia. lia. }
  rewrite Hl. split; [done|]. unfold bstore. rewrite blen_btake by lia. split.
  - rewrite app_assoc. apply btake_app_eq. blia.
  - rewrite app_assoc. rewrite bdrop_app_eq by blia.
    unfold bdrop, zeros in *. rewrite Z2Nat.inj_add by lia.
    rewrite <- drop_drop, Hz, drop_replicate. f_equal. lia.
Qed.

(** [append] copies the bytes after the content and keeps the invariant, and
    leaves the number of live blocks unchanged, growing the block or not. *)
Lemma q__bss_append_ok bss s len w :
  bss_ok bss -> mem_ok w -> 0 <= len <= blen s -> size bss + len < 2 ^ 31 ->
  exists bss', q__bss_append bss s len w = Ok (bss', w) /\ bss_ok bss' /\
    size bss' = size bss + len /\ content bss' = content bss ++ btake len s.
Proof.
  intros (buf & Hstr & Hbuf & Hsz & Hcap & H2 & Hz) Hmem Hlen Hbound.
  unfold q__bss_append. rewrite Hstr.
  rewrite (uwrap_small 32 (size bss + len)) by lia.
  rewrite (uwrap_small 32 (2 * (size bss + len))) by lia.
  unfold content. prun.
  destruct (Z.ltb_spec (capacity bss) (2 * (size bss + len))) as [Hlt|Hge].
  - unfold malloc. rewrite Hmem. cbv beta iota. cbn [negb].
    rewrite memcpy_ok by (rewrite ?blen_zeros by lia; lia). cbv beta iota.
    set (tmp := bstore 0 (btake (size bss) buf) (zeros (2 * (size bss + len)))).
    assert (Htmp : blen tmp = 2 * (size bss + len)).
    { unfold tmp. rewrite blen_bstore; rewrite ?blen_btake, ?blen_zeros; lia. }
    assert (Htmp' : btake (size bss) tmp = btake (size bss) buf).
    { unfold tmp. rewrite bstore_0. apply btake_app_eq. rewrite blen_btake; lia. }
    assert (Htmpz : bdrop (size bss) tmp = zeros (blen tmp - size bss)).
    { rewrite Htmp. unfold tmp. rewrite bstore_0, bdrop_app_eq by (rewrite blen_btake; lia).
      rewrite blen_btake by lia. unfold bdrop, zeros. rewrite drop_replicate. f_equal. lia. }
    destruct (memcpy_zeros_tail tmp (size bss) s len) as (buf' & -> & Hl & Ht & Hd);
      [lia..|done|].
    rewrite free_malloc. eexists. split; [done|].
    cbn -[Z.mul]. split.
    { exists buf'. cbn -[Z.mul]. rewrite Hl, Htmp in *. repeat split; try lia. done. }
    split; [done|]. by rewrite Hstr, Ht, Htmp'.
  - destruct (memcpy_zeros_tail buf (size bss) s len) as (buf' & -> & Hl & Ht & Hd);
      [try lia; done..|by rewrite Hbuf|].
    eexists. split; [done|]. cbn. split.
    { exists buf'. cbn. rewrite Hl, Hbuf in *. repeat split; try lia. done. }
    split; [done|]. by rewrite Hstr, Ht.
Qed.

(** The block of a string in use starts with its content. *)
Lemma bss_ok_block bss :
  bss_ok bss -> exists buf, str bss = Some buf /\ size bss <= blen buf /\
    0 <= size bss /\ content bss = btake (size bss) buf.
Proof.
  intros (buf & E & Hl & ? & ? & ? & _). exists buf. unfold content. rewrite E.
  split_and!; try done. lia.
Qed.

(** ** A string from an array *)

(** [qbss_from_array] copies the whole array, unless an error raised earlier is
    still pending: then the string comes out empty, because [chkerr] reports the
    old error and leaves it pending.  One block is allocated in both cases. *)
Theorem qbss_from_array_spec arr w :
  mem_ok w -> blen arr < 2 ^ 31 ->
  exists bss w', qbss__from_array arr (blen arr) w = Ok (bss, w') /\ bss_ok bss /\
    content bss = (if w_err w =? 0 then arr else []) /\
    w_live w' = w_live w + 1 /\ w_err w' = w_err w.
Proof.
  intros Hm Hl. unfold qbss__from_array.
  rewrite (prog_bind_ok _ _ _ _ _ (qbss_constructor_eq w Hm)). set (w1 := set_live _ w).
  unfold chkerr. prun. change (w_err w1) with (w_err w). destruct (Z.eqb_spec (w_err w) 0) as [E|E].
  - destruct (q__bss_append_ok (Bss (Some (zeros 64)) 0 64) arr (blen arr) (set_err 0 w1))
      as (b & Ea & Hok & _ & Hc); [apply qbss_new_ok|done|pose proof (blen_nonneg arr); lia|done|].
    cbv beta iota. cbn [Z.eqb]. rewrite Ea. exists b, (set_err 0 w1). split_and!; try done.
    by rewrite Hc, btake_all by lia.
  - cbn [Z.eqb]. exists (Bss (Some (zeros 64)) 0 64), w1. split_and!; try done. apply qbss_new_ok.
Qed.

Lemma qbss_from_array_spec_witness :
  exists bss w', qbss__from_array [NUL; NUL] 2 (World 0 [] 0 [] [] [] false false 0) = Ok (bss, w') /\
    content bss = [NUL; NUL].
Proof.
  destruct (qbss_from_array_spec [NUL; NUL] (World 0 [] 0 [] [] [] false false 0) eq_refl eq_refl)
    as (b & w' & E & _ & Hc & _).
  exists b, w'. split; [exact E|exact Hc].
Defined.
