(* ===== verification/Netwrap.v ===== *)
(** * Socket input and output (zhwkre/network/tcp.c, netwrap.c)

    [sockread] and [sockwrite] turn the partial reads and writes of a stream
    socket into complete ones.  The loops take fuel; [sockread] starts with one
    unit more than the script of reads has events, which is enough unless the
    stream has ended: then the loop of the source never stops
    ([sockread_spec]). *)

From S2P Require Import Prelude World Bss.
Local Open Scope Z_scope.

(** ** Definitions *)

(** The buffer is cleared before the read. *)
Definition qStreamSocket_read (buffer_size : Z) : io (Z * list byte) :=
  '(actrlen, bs) ← sys_read buffer_size;
  (if actrlen =? -1 then SETERR ZHWK_ERR_TCP_READ_FAIL else mret tt);;
  mret (actrlen, bs ++ zeros (buffer_size - blen bs)).

Definition qStreamSocket_write (cont : list byte) (sz : Z) : io Z :=
  written ← sys_write cont sz;
  (if written =? -1 then SETERR ZHWK_ERR_TCP_WRITE_FAIL else mret tt);;
  mret written.

Fixpoint sockread_loop (fuel : nat) (bss : qBinarySafeString) (remain : Z)
  : io (Z * qBinarySafeString) :=
  match fuel with
  | O => fun _ => Diverged
  | S fuel' =>
      if remain =? 0 then mret (0, bss)
      else
        '(actr, buf) ← qStreamSocket_read remain;
        if actr =? -1 then mret (-1, bss)
        else
          bss' ← q__bss_append bss buf actr;
          sockread_loop fuel' bss' (remain - actr)
  end.

(** [char buf[intended]] has no meaning for a negative size. *)
Definition sockread (bss : qBinarySafeString) (intended : Z)
  : io (Z * qBinarySafeString) :=
  if intended <? 0 then pundef
  else
    w ← pget;
    sockread_loop (S (length (w_rd w))) bss intended.

Fixpoint sockwrite_loop (fuel : nat) (buf : list byte) (bss : qBinarySafeString)
    (auto_free : bool) (already : Z) : io Z :=
  match fuel with
  | O => fun _ => Diverged
  | S fuel' =>
      if u32 (size bss - already) =? 0 then mret 0
      else
        actw ← qStreamSocket_write (bdrop already buf) (u32 (size bss - already));
        if actw =? -1 then
          (if auto_free then qbss_destructor bss else mret tt);;
          mret (-1)
        else sockwrite_loop fuel' buf bss auto_free (already + actw)
  end.

(** The block is freed on the error path only. *)
Definition sockwrite (bss : qBinarySafeString) (auto_free : bool) : io Z :=
  match str bss with
  | None => pundef
  | Some buf =>
      w ← pget;
      sockwrite_loop (S (S (length (w_wr w)))) buf bss auto_free 0
  end.

(** ** Scripts *)

(** The script left once [n] bytes have been read. *)
Fixpoint skip (n : Z) (es : list rd_event) : list rd_event :=
  if n =? 0 then es else
  match es with
  | RdData bs :: es' =>
      if blen bs <=? n then skip (n - blen bs) es' else RdData (bdrop n bs) :: es'
  | _ => es
  end.

(** What a reader finds after the bytes of the stream. *)
Fixpoint stop (es : list rd_event) : option rd_event :=
  match es with
  | [] => None
  | RdData _ :: es' => stop es'
  | e :: _ => Some e
  end.

(** Nothing that follows the data has happened yet: the script ends, or fails,
    exactly at the end of the stream. *)
Fixpoint skip_all (es : list rd_event) : list rd_event :=
  match es with
  | RdData _ :: es' => skip_all es'
  | _ => es
  end.

Lemma skip_0 es : skip 0 es = es.
Proof. by destruct es. Qed.

Lemma skip_stream n es :
  0 <= n <= blen (stream es) -> stream (skip n es) = bdrop n (stream es).
Proof.
  revert n. induction es as [|e es IH]; intros n Hn.
  { cbn [stream] in Hn. replace n with 0 by blia. done. }
  cbn [skip]. destruct (Z.eqb_spec n 0) as [->|]; [done|].
  destruct e as [|bs|]; cbn [stream] in *; [blia| |blia].
  rewrite blen_app in Hn. destruct (Z.leb_spec (blen bs) n).
  - rewrite IH by lia. unfold bdrop. rewrite drop_app_ge by blia. f_equal. blia.
  - cbn [stream]. unfold bdrop. by rewrite drop_app_le by blia.
Qed.

Lemma skip_stop n es : stop (skip n es) = stop es.
Proof.
  revert n. induction es as [|e es IH]; intros n; cbn [skip]; case_match; try done.
  destruct e as [|bs|]; try done. case_match; cbn; [apply IH|done].
Qed.

Lemma skip_add n m es :
  0 <= n <= blen (stream es) -> 0 <= m -> skip m (skip n es) = skip (n + m) es.
Proof.
  revert n. induction es as [|e es IH]; intros n Hn Hm.
  { cbn [stream] in Hn. by replace n with 0 by blia. }
  cbn [skip]. destruct (Z.eqb_spec n 0) as [->|].
  { rewrite Z.add_0_l. done. }
  destruct (Z.eqb_spec (n + m) 0); [lia|].
  destruct e as [|bs|]; cbn [stream] in Hn; try blia.
  rewrite blen_app in Hn. destruct (Z.leb_spec (blen bs) n).
  - destruct (Z.leb_spec (blen bs) (n + m)); [|lia].
    rewrite IH by lia. f_equal. lia.
  - cbn [skip]. destruct (Z.eqb_spec m 0) as [->|].
    + rewrite Z.add_0_r. by destruct (Z.leb_spec (blen bs) n); [lia|].
    + replace (blen (bdrop n bs)) with (blen bs - n) by blia.
      destruct (Z.leb_spec (blen bs - n) m), (Z.leb_spec (blen bs) (n + m)); try lia.
      * f_equal. lia.
      * unfold bdrop. rewrite drop_drop. do 3 f_equal. lia.
Qed.

(** ** One read *)

Lemma qStreamSocket_read_data n bs es w :
  0 < n -> w_rd w = RdData bs :: es ->
  exists buf, qStreamSocket_read n w =
    Ok ((Z.min n (blen bs), buf),
        set_rd (if blen bs <=? n then es else RdData (bdrop n bs) :: es) w) /\
    Z.min n (blen bs) <= blen buf /\ btake (Z.min n (blen bs)) buf = btake n bs.
Proof.
  intros Hn E. pose proof (blen_nonneg bs). unfold qStreamSocket_read, sys_read. prun.
  rewrite E. destruct (Z.leb_spec (blen bs) n).
  - destruct (Z.eqb_spec (blen bs) (-1)); [lia|]. cbv beta iota.
    rewrite Z.min_r by lia. eexists. split; [done|]. split; [blia|].
    rewrite btake_app. by rewrite btake_all.
  - destruct (Z.eqb_spec n (-1)); [lia|]. cbv beta iota.
    rewrite Z.min_l by lia. eexists. split; [done|].
    split; [rewrite blen_app, blen_btake by lia; blia|].
    rewrite btake_app_eq; [done|]. rewrite blen_btake; lia.
Qed.

Lemma qStreamSocket_read_eof n es w :
  w_rd w = RdEof :: es -> qStreamSocket_read n w = Ok ((0, zeros n), w).
Proof.
  intros E. unfold qStreamSocket_read, sys_read. prun. rewrite E. cbn.
  by rewrite Z.sub_0_r.
Qed.

(** ** The read loop *)

(** One turn of the loop on a packet: all of it is taken when it is not longer
    than what remains, else just what remains. *)
Lemma sockread_loop_step fuel bss n w bs es :
  w_rd w = RdData bs :: es -> bss_ok bss -> mem_ok w -> 0 < n -> size bss + n < 2 ^ 31 ->
  exists bss', sockread_loop (S fuel) bss n w =
      sockread_loop fuel bss' (n - Z.min n (blen bs))
        (set_rd (if blen bs <=? n then es else RdData (bdrop n bs) :: es) w) /\
    bss_ok bss' /\ size bss' = size bss + Z.min n (blen bs) /\
    content bss' = content bss ++ btake n bs.
Proof.
  intros E Hok Hmem Hn Hsz. pose proof (blen_nonneg bs). cbn [sockread_loop].
  destruct (Z.eqb_spec n 0); [lia|].
  destruct (qStreamSocket_read_data n bs es w) as (buf & Hr & Hb & Hbt); [lia|done|].
  rewrite (prog_bind_ok _ _ _ _ _ Hr). cbv beta iota.
  destruct (Z.eqb_spec (Z.min n (blen bs)) (-1)); [lia|].
  set (w' := set_rd _ w).
  destruct (q__bss_append_ok bss buf (Z.min n (blen bs)) w') as (bss' & Ha & Hok' & Hs' & Hc');
    [done|done|lia|lia|].
  rewrite (prog_bind_ok _ _ _ _ _ Ha). exists bss'. by rewrite Hc', Hbt.
Qed.

(** Enough data: the loop returns the bytes asked for and no more, however the
    peer has cut the stream into packets. *)
Lemma sockread_loop_ok fuel bss n w :
  (length (w_rd w) < fuel)%nat ->
  bss_ok bss -> mem_ok w -> 0 <= n <= blen (stream (w_rd w)) -> size bss + n < 2 ^ 31 ->
  exists bss', sockread_loop fuel bss n w = Ok ((0, bss'), set_rd (skip n (w_rd w)) w) /\
    bss_ok bss' /\ content bss' = content bss ++ btake n (stream (w_rd w)) /\
    size bss' = size bss + n.
Proof.
  revert bss n w. induction fuel as [|fuel IH]; intros bss n w Hf Hok Hmem Hn Hsz; [lia|].
  destruct (Z.eq_dec n 0) as [->|].
  { cbn [sockread_loop]. rewrite Z.eqb_refl. exists bss. rewrite skip_0.
    split_and!; [done|done| |lia].
    change (btake 0 (stream (w_rd w))) with (@nil byte). by rewrite app_nil_r. }
  destruct (w_rd w) as [|[|bs|] es] eqn:E; cbn [stream] in Hn; try blia.
  pose proof (blen_nonneg bs). rewrite blen_app in Hn.
  destruct (sockread_loop_step fuel bss n w bs es) as (bss' & -> & Hok' & Hs' & Hc');
    [done|done|done|lia|lia|].
  cbn [skip stream length] in *. destruct (Z.eqb_spec n 0); [done|].
  destruct (Z.leb_spec (blen bs) n) as [Hle|Hgt].
  - rewrite Z.min_r in * by lia.
    destruct (IH bss' (n - blen bs) (set_rd es w)) as (bss'' & -> & Hok'' & Hc'' & Hs'');
      [cbn; lia|done|done|cbn; lia|lia|].
    exists bss''. split_and!; [done|done| |lia].
    rewrite Hc'', Hc', <- app_assoc. f_equal. cbn. unfold btake.
    rewrite take_app, (take_ge bs) by blia. do 2 f_equal. blia.
  - rewrite Z.min_l in * by lia. rewrite Z.sub_diag.
    destruct fuel as [|fuel]; [lia|]. cbn [sockread_loop]. rewrite Z.eqb_refl.
    exists bss'. split_and!; [done|done| |lia].
    rewrite Hc'. f_equal. unfold btake. by rewrite take_app_le by blia.
Qed.

(** Not enough data: the loop fails on an error, waits when the peer is silent,
    and never stops when the stream has ended. *)
Lemma sockread_loop_short fuel bss n w :
  bss_ok bss -> mem_ok w -> blen (stream (w_rd w)) < n -> size bss + n < 2 ^ 31 ->
  (length (w_rd w) < fuel)%nat \/ stop (w_rd w) = Some RdEof ->
  match stop (w_rd w) with
  | None => sockread_loop fuel bss n w = Blocked
  | Some RdEof => sockread_loop fuel bss n w = Diverged
  | Some _ => exists bss', bss_ok bss' /\ sockread_loop fuel bss n w =
      Ok ((-1, bss'), set_err ZHWK_ERR_TCP_READ_FAIL (set_rd (tail (skip_all (w_rd w))) w))
  end.
Proof.
  revert bss n w. induction fuel as [|fuel IH]; intros bss n w Hok Hmem Hn Hsz Hf.
  { destruct Hf as [?| ->]; [lia|done]. }
  pose proof (blen_nonneg (stream (w_rd w))).
  destruct (w_rd w) as [|[|bs|] es] eqn:E; cbn [stream stop length skip_all tail] in *.
  - cbn [sockread_loop]. destruct (Z.eqb_spec n 0); [lia|].
    apply prog_bind_blocked. unfold qStreamSocket_read, sys_read. prun. by rewrite E.
  - exists bss. split; [done|]. cbn [sockread_loop]. destruct (Z.eqb_spec n 0); [lia|].
    unfold qStreamSocket_read, sys_read. prun. by rewrite E.
  - rewrite blen_app in Hn. pose proof (blen_nonneg (stream es)).
    destruct (sockread_loop_step fuel bss n w bs es) as (bss' & Hst & Hok' & Hs' & Hc');
      [done|done|done|pose proof (blen_nonneg bs); lia|lia|].
    rewrite Hst, (proj2 (Z.leb_le (blen bs) n)), Z.min_r in * by lia.
    specialize (IH bss' (n - blen bs) (set_rd es w) Hok' Hmem).
    cbn in IH. specialize (IH ltac:(lia) ltac:(lia)).
    apply IH. destruct Hf; [left; lia|by right].
  - cbn [sockread_loop]. destruct (Z.eqb_spec n 0); [lia|].
    rewrite (prog_bind_ok _ _ _ _ _ (qStreamSocket_read_eof n es w E)). cbn [Z.eqb].
    destruct (q__bss_append_ok bss (zeros n) 0 w)
      as (bss' & Ha & Hok' & Hs' & _); [done|done|split; [lia|apply blen_nonneg]|lia|].
    rewrite (prog_bind_ok _ _ _ _ _ Ha), Z.sub_0_r. specialize (IH bss' n w Hok' Hmem). rewrite E in IH.
    apply IH; [done|lia|by right].
Qed.

(** ** [sockread] *)

Lemma sockread_ok bss n w :
  bss_ok bss -> mem_ok w -> 0 <= n <= blen (stream (w_rd w)) -> size bss + n < 2 ^ 31 ->
  exists bss', sockread bss n w = Ok ((0, bss'), set_rd (skip n (w_rd w)) w) /\
    bss_ok bss' /\ content bss' = content bss ++ btake n (stream (w_rd w)) /\
    size bss' = size bss + n.
Proof.
  intros. unfold sockread. rewrite (proj2 (Z.ltb_ge _ _)) by lia.
  apply sockread_loop_ok; [lia|done..].
Qed.

Lemma sockread_err bss n w :
  bss_ok bss -> mem_ok w -> blen (stream (w_rd w)) < n -> size bss + n < 2 ^ 31 ->
  stop (w_rd w) = Some RdErr ->
  exists bss', bss_ok bss' /\ sockread bss n w =
    Ok ((-1, bss'), set_err ZHWK_ERR_TCP_READ_FAIL (set_rd (tail (skip_all (w_rd w))) w)).
Proof.
  intros Hok Hmem Hn Hsz Hs. pose proof (blen_nonneg (stream (w_rd w))).
  unfold sockread. rewrite (proj2 (Z.ltb_ge _ _)) by lia.
  pose proof (sockread_loop_short (S (length (w_rd w))) bss n w Hok Hmem Hn Hsz) as H1.
  rewrite Hs in H1. apply H1. left. lia.
Qed.

(** ** The write loop *)

(** How the script [es] of writes deals with [n] bytes: it takes them all, it
    fails when [unsent] of them are left, or it waits for ever. *)
Inductive delivery : Type :=
| Sent (es : list wr_event)
| WriteFailed (unsent : Z) (es : list wr_event)
| WriteBlocked.

Fixpoint deliver_all (n : Z) (es : list wr_event) : delivery :=
  if n =? 0 then Sent es else
  match es with
  | [] => Sent []
  | WrErr :: es' => WriteFailed n es'
  | WrBlock :: _ => WriteBlocked
  | WrMax k :: es' => deliver_all (n - Z.max 0 (Z.min k n)) es'
  end.

Lemma deliver_all_failed n es m es' :
  0 <= n -> deliver_all n es = WriteFailed m es' -> 0 < m <= n /\ WrErr ∈ es.
Proof.
  revert n. induction es as [|e es IH]; intros n Hn; cbn [deliver_all];
    (destruct (Z.eqb_spec n 0); [done|]); [done|].
  destruct e as [|k|]; [intros [= -> ->]; split; [lia|left]| |done].
  intros [? ?]%IH; [split; [lia|by right]|lia].
Qed.

Lemma deliver_all_blocked n es : deliver_all n es = WriteBlocked -> WrBlock ∈ es.
Proof.
  revert n. induction es as [|e es IH]; intros n; cbn [deliver_all]; (destruct (_ =? 0); [done|]); [done|].
  destruct e as [|k|]; [done|intros ?%IH; by right|intros _; left].
Qed.

Lemma deliver_all_ok n es :
  Forall accepting es -> exists es', deliver_all n es = Sent es' /\ Forall accepting es'.
Proof.
  revert n. induction es as [|e es IH]; intros n Ha; cbn [deliver_all]; case_match; try by eexists.
  apply Forall_cons_iff in Ha as [He Ha]. destruct e as [|k|]; try done. by apply IH.
Qed.

(** The world after a write has failed: [sent] has gone out, and the string has
    been freed if [sockwrite] was told to. *)
Definition write_failed (auto_free : bool) (sent : list byte) (es : list wr_event) (w : world) : world :=
  set_err ZHWK_ERR_TCP_WRITE_FAIL (set_live (w_live w - (if auto_free then 1 else 0))
    (set_wr es (set_tx (w_tx w ++ sent) w))).

Lemma bslice_step already m n (buf : list byte) :
  0 <= already -> 0 <= m <= n -> btake m (bdrop already buf) ++ bslice (already + m) (n - m) buf =
    bslice already n buf.
Proof.
  intros Ha Hm. unfold bslice, btake, bdrop. rewrite Z2Nat.inj_add by lia.
  rewrite <- drop_drop, take_take_drop. f_equal. lia.
Qed.

Lemma qStreamSocket_write_eq cont n w :
  0 <= n <= blen cont ->
  qStreamSocket_write cont n w =
    match w_wr w with
    | [] => Ok (n, set_tx (w_tx w ++ btake n cont) w)
    | WrErr :: es => Ok (-1, set_err ZHWK_ERR_TCP_WRITE_FAIL (set_wr es w))
    | WrMax k :: es => let m := Z.max 0 (Z.min k n) in
        Ok (m, set_wr es (set_tx (w_tx w ++ btake m cont) w))
    | WrBlock :: _ => Blocked
    end.
Proof.
  intros Hn. unfold qStreamSocket_write, sys_write. prun. rewrite (proj2 (Z.ltb_ge _ _)) by lia.
  destruct (w_wr w) as [|[|k|] es]; cbv zeta; try done.
  - by rewrite (proj2 (Z.eqb_neq n (-1))) by lia.
  - by rewrite (proj2 (Z.eqb_neq (Z.max 0 (Z.min k n)) (-1))) by lia.
Qed.

Lemma sockwrite_loop_spec fuel buf bss af already w :
  (S (length (w_wr w)) < fuel)%nat -> str bss = Some buf ->
  0 <= already <= size bss -> size bss <= blen buf -> size bss < 2 ^ 32 ->
  sockwrite_loop fuel buf bss af already w =
    match deliver_all (size bss - already) (w_wr w) with
    | Sent es => Ok (0, set_wr es (set_tx (w_tx w ++ bslice already (size bss - already) buf) w))
    | WriteFailed n es => Ok (-1, write_failed af (bslice already (size bss - already - n) buf) es w)
    | WriteBlocked => Blocked
    end.
Proof.
  intros Hf Hstr. revert already w Hf.
  induction fuel as [|fuel IH]; intros already w Hf Ha Hb Hs; [lia|].
  cbn [sockwrite_loop]. rewrite uwrap_small by lia.
  destruct (Z.eqb_spec (size bss - already) 0) as [Hz|Hnz].
  { rewrite Hz. change (bslice already 0 buf) with (@nil byte). rewrite app_nil_r.
    by destruct w as [? ? ? ? []]. }
  assert (Hbl : 0 <= size bss - already <= blen (bdrop already buf)) by blia.
  pose proof (qStreamSocket_write_eq (bdrop already buf) (size bss - already) w Hbl) as Hw.
  apply Z.eqb_neq in Hnz as Hnz'.
  destruct (w_wr w) as [|[|k|] es] eqn:E; cbn [deliver_all]; rewrite Hnz'.
  - rewrite (prog_bind_ok _ _ _ _ _ Hw), (proj2 (Z.eqb_neq (size bss - already) (-1))) by lia.
    destruct fuel as [|fuel]; [cbn in Hf; lia|]. cbn [sockwrite_loop].
    replace (size bss - (already + (size bss - already))) with 0 by lia.
    change (u32 0 =? 0) with true. cbv iota. unfold bslice. cbn. by rewrite <- E.
  - rewrite (prog_bind_ok _ _ _ _ _ Hw). cbn [Z.eqb]. rewrite Z.sub_diag.
    change (bslice already 0 buf) with (@nil byte). unfold write_failed, qbss_destructor.
    rewrite Hstr, app_nil_r. destruct af; [done|]. by rewrite Z.sub_0_r.
  - cbv zeta in Hw. rewrite (prog_bind_ok _ _ _ _ _ Hw). set (m := Z.max 0 (Z.min k (size bss - already))).
    rewrite (proj2 (Z.eqb_neq m (-1))) by lia.
    rewrite IH by (cbn in *; lia). cbn [w_wr set_wr set_tx w_tx].
    replace (size bss - (already + m)) with (size bss - already - m) by lia.
    destruct (deliver_all (size bss - already - m) es) as [es'|u es'|] eqn:Ed; [| |done].
    + by rewrite <- app_assoc, bslice_step by lia.
    + apply deliver_all_failed in Ed as [Hu _]; [|lia]. unfold write_failed. cbn.
      rewrite <- app_assoc.
      replace (size bss - already - m - u) with (size bss - already - u - m) by lia.
      by rewrite bslice_step by lia.
  - by apply prog_bind_blocked.
Qed.

(** ** [sockwrite] *)

(** What [sockwrite] does is determined by the script of writes. *)
Lemma sockwrite_eq bss af w :
  bss_ok bss ->
  sockwrite bss af w =
    match deliver_all (size bss) (w_wr w) with
    | Sent es => Ok (0, set_wr es (set_tx (w_tx w ++ content bss) w))
    | WriteFailed n es => Ok (-1, write_failed af (btake (size bss - n) (content bss)) es w)
    | WriteBlocked => Blocked
    end.
Proof.
  intros (buf & Hstr & Hbuf & Hsz & Hcap & H2 & Hz). unfold sockwrite, content. rewrite Hstr.
  erewrite prog_bind_ok by reflexivity.
  rewrite sockwrite_loop_spec, Z.sub_0_r by (done || lia). change (bslice 0 ?n buf) with (btake n buf).
  destruct (deliver_all (size bss) (w_wr w)) as [es|n es|] eqn:E; [done| |done].
  apply deliver_all_failed in E as [Hn _]; [|done]. do 3 f_equal.
  unfold btake. cbn [from_option id]. rewrite take_take. f_equal. lia.
Qed.

(** Without a write error everything is sent; whatever the kernel accepts at a
    time, nothing but the outgoing bytes and the script of writes changes. *)
Lemma sockwrite_ok bss af w :
  bss_ok bss -> wr_ok w ->
  exists es', Forall accepting es' /\
    sockwrite bss af w = Ok (0, set_wr es' (set_tx (w_tx w ++ content bss) w)).
Proof.
  intros Hb Hw. destruct (deliver_all_ok (size bss) (w_wr w) Hw) as (es & E & He).
  exists es. by rewrite sockwrite_eq, E.
Qed.

(** ** Specifications *)

(** C14. [sockread] of [n] bytes, for every script of the peer.  With [n] bytes in
    the stream it appends exactly those, however they are cut into packets, and
    takes nothing else.  With fewer it fails after a read error, waits when the
    peer is silent, and loops for ever at the end of the stream: no amount of
    fuel makes it return, since a read of 0 bytes is not an error. *)
Theorem sockread_spec bss n w :
  bss_ok bss -> mem_ok w -> 0 <= n -> size bss + n < 2 ^ 31 ->
  if n <=? blen (stream (w_rd w)) then
    exists bss', sockread bss n w = Ok ((0, bss'), set_rd (skip n (w_rd w)) w) /\
      content bss' = content bss ++ btake n (stream (w_rd w)) /\
      stream (skip n (w_rd w)) = bdrop n (stream (w_rd w))
  else
    match stop (w_rd w) with
    | None => sockread bss n w = Blocked
    | Some RdEof => forall fuel, sockread_loop fuel bss n w = Diverged
    | Some _ => exists bss' w', sockread bss n w = Ok ((-1, bss'), w') /\
        w_err w' = ZHWK_ERR_TCP_READ_FAIL
    end.
Proof.
  intros Hok Hm Hn Hsz. destruct (Z.leb_spec n (blen (stream (w_rd w)))) as [Hle|Hgt].
  - destruct (sockread_ok bss n w) as (b & E & _ & Hc & _); [done..|].
    exists b. split_and!; [done|done|by apply skip_stream].
  - assert (Hsr : sockread bss n w = sockread_loop (S (length (w_rd w))) bss n w).
    { unfold sockread. by rewrite (proj2 (Z.ltb_ge _ _)) by lia. }
    pose proof (fun fuel => sockread_loop_short fuel bss n w Hok Hm Hgt Hsz) as H.
    destruct (stop (w_rd w)) as [[|bs|]|] eqn:Es.
    + destruct (H (S (length (w_rd w)))) as (b & _ & E); [left; lia|].
      rewrite Hsr, E. eexists _, _. split; [done|]. done.
    + destruct (H (S (length (w_rd w)))) as (b & _ & E); [left; lia|].
      rewrite Hsr, E. eexists _, _. split; [done|]. done.
    + intros fuel. apply H. by right.
    + rewrite Hsr. apply H. left. lia.
Qed.

(** C15. [sockwrite], for every script of writes.  When the writes accept the
    bytes of the string, in whatever portions, all of its content and nothing
    else goes out.  When one fails before that, the result is -1, the bytes
    accepted until then have gone out, a strict prefix of the content, and the
    string has been freed if the caller asked for it.  When one waits for ever
    because the peer does not read, so does [sockwrite].  Its own loop never runs
    for ever: the fuel it starts with, two more than the writes in the script, is
    enough in every case. *)
Theorem sockwrite_spec bss af w :
  bss_ok bss ->
  match deliver_all (size bss) (w_wr w) with
  | Sent es => sockwrite bss af w = Ok (0, set_wr es (set_tx (w_tx w ++ content bss) w))
  | WriteFailed n es => 0 < n <= size bss /\
      sockwrite bss af w = Ok (-1, write_failed af (btake (size bss - n) (content bss)) es w)
  | WriteBlocked => WrBlock ∈ w_wr w /\ sockwrite bss af w = Blocked
  end.
Proof.
  intros Hok. rewrite (sockwrite_eq bss af w Hok). destruct (bss_ok_block bss Hok) as (_ & _ & _ & Hs & _).
  destruct (deliver_all (size bss) (w_wr w)) as [es|n es|] eqn:E; [done| |].
  - by apply deliver_all_failed in E as [? _].
  - by apply deliver_all_blocked in E.
Qed.

Lemma sockread_spec_witness :
  (exists bss', sockread (Bss (Some (zeros 64)) 0 64) 2
      (start [RdData [NUL]; RdData [NUL; NUL]]) =
      Ok ((0, bss'), start [RdData [NUL]]) /\ content bss' = [NUL; NUL]) /\
  forall fuel, sockread_loop fuel (Bss (Some (zeros 64)) 0 64) 2 (start [RdData [NUL]; RdEof]) = Diverged.
Proof.
  split.
  - destruct (sockread_spec (Bss (Some (zeros 64)) 0 64) 2 (start [RdData [NUL]; RdData [NUL; NUL]])
      qbss_new_ok eq_refl ltac:(done) eq_refl) as (b & E & Hc & _).
    exists b. split; [exact E|exact Hc].
  - exact (sockread_spec (Bss (Some (zeros 64)) 0 64) 2 (start [RdData [NUL]; RdEof])
      qbss_new_ok eq_refl ltac:(done) eq_refl).
Defined.

(** Three bytes: sent in two portions with a write that accepts nothing between
    them; cut off by an error after one byte; and held up by the peer. *)
Definition three : qBinarySafeString :=
  Bss (Some ([Byte.x61; Byte.x62; Byte.x63] ++ zeros 61)) 3 64.

Lemma three_ok : bss_ok three.
Proof. eexists. by repeat split. Qed.

Lemma sockwrite_spec_witness :
  sockwrite three true (set_wr [WrMax 1; WrMax 0; WrMax 7; WrErr] (start [])) =
    Ok (0, set_wr [WrErr] (set_tx [Byte.x61; Byte.x62; Byte.x63] (start []))) /\
  sockwrite three true (set_wr [WrMax 1; WrErr] (set_live 1 (start []))) =
    Ok (-1, set_err ZHWK_ERR_TCP_WRITE_FAIL (set_tx [Byte.x61] (start []))) /\
  sockwrite three true (set_wr [WrMax 1; WrBlock] (start [])) = Blocked.
Proof.
  split; [|split].
  - exact (sockwrite_spec three true (set_wr [WrMax 1; WrMax 0; WrMax 7; WrErr] (start [])) three_ok).
  - exact (proj2 (sockwrite_spec three true (set_wr [WrMax 1; WrErr] (set_live 1 (start []))) three_ok)).
  - exact (proj2 (sockwrite_spec three true (set_wr [WrMax 1; WrBlock] (start [])) three_ok)).
Defined.
