(* ===== verification/Ustruct.v ===== *)
(** * Unified structures (ustruct.h, ustruct.c)

    [struct Udirent], [struct Ustat] and [struct Ustatvfs] are the platform
    independent forms of [dirent], [stat] and [statvfs] that travel on the wire.
    They are byte layouts; the platform's structures are records whose fields
    are integers of the widths Linux x86-64 gives them. *)

From S2P Require Import Prelude Layout.
Local Open Scope Z_scope.

(** ** The unified structures *)

Definition Udirent : cstruct :=
  [("d_ino", CInt false 8); ("d_off", CInt false 8); ("d_reclen", CInt false 2);
   ("d_type", CInt false 1); ("d_name", CBytes 256)].

Definition Ustat : cstruct :=
  [("st_dev", CInt false 8); ("st_ino", CInt false 8); ("st_mode", CInt false 4);
   ("st_nlink", CInt false 8); ("st_uid", CInt false 4); ("st_gid", CInt false 4);
   ("st_rdev", CInt false 8); ("st_size", CInt false 8);
   ("st_atim", CInt true 8); ("st_atimensec", CInt false 8);
   ("st_mtim", CInt true 8); ("st_mtimensec", CInt false 8);
   ("st_ctim", CInt true 8); ("st_ctimensec", CInt false 8)].

Definition Ustatvfs : cstruct :=
  [("f_bsize", CInt false 8); ("f_frsize", CInt false 8); ("f_blocks", CInt false 8);
   ("f_bfree", CInt false 8); ("f_bavail", CInt false 8); ("f_files", CInt false 8);
   ("f_ffree", CInt false 8); ("f_favail", CInt false 8); ("f_fsid", CInt false 8);
   ("f_flag", CInt false 8); ("f_namemax", CInt false 8)].

(** ** The platform's structures *)

Record stat : Type := Stat {
  st_dev : Z;        (* unsigned 64 *)
  st_ino : Z;        (* unsigned 64 *)
  st_mode : Z;       (* unsigned 32 *)
  st_nlink : Z;      (* unsigned 64 *)
  st_uid : Z;        (* unsigned 32 *)
  st_gid : Z;        (* unsigned 32 *)
  st_rdev : Z;       (* unsigned 64 *)
  st_size : Z;       (* signed 64 *)
  st_blksize : Z;    (* signed 64, not transmitted *)
  st_blocks : Z;     (* signed 64, not transmitted *)
  st_atim_sec : Z;   (* signed 64, as the next five *)
  st_atim_nsec : Z;
  st_mtim_sec : Z;
  st_mtim_nsec : Z;
  st_ctim_sec : Z;
  st_ctim_nsec : Z
}.

(** All fields unsigned 64. *)
Record statvfs : Type := Statvfs {
  f_bsize : Z; f_frsize : Z; f_blocks : Z; f_bfree : Z; f_bavail : Z; f_files : Z;
  f_ffree : Z; f_favail : Z; f_fsid : Z; f_flag : Z; f_namemax : Z
}.

Record dirent : Type := Dirent {
  d_ino : Z;             (* unsigned 64 *)
  d_off : Z;             (* signed 64 *)
  d_reclen : Z;          (* unsigned 16 *)
  d_type : Z;            (* unsigned 8 *)
  d_name : list byte     (* char[256] *)
}.

(** ** Conversions *)

Definition unify_stat (ustat : list byte) (st : stat) : list byte :=
  let u := setf Ustat "st_dev" (st_dev st) ustat in
  let u := setf Ustat "st_ino" (st_ino st) u in
  let u := setf Ustat "st_mode" (st_mode st) u in
  let u := setf Ustat "st_nlink" (st_nlink st) u in
  let u := setf Ustat "st_uid" (st_uid st) u in
  let u := setf Ustat "st_gid" (st_gid st) u in
  let u := setf Ustat "st_rdev" (st_rdev st) u in
  let u := setf Ustat "st_size" (st_size st) u in
  let u := setf Ustat "st_atim" (st_atim_sec st) u in
  let u := setf Ustat "st_atimensec" (st_atim_nsec st) u in
  let u := setf Ustat "st_mtim" (st_mtim_sec st) u in
  let u := setf Ustat "st_mtimensec" (st_mtim_nsec st) u in
  let u := setf Ustat "st_ctim" (st_ctim_sec st) u in
  setf Ustat "st_ctimensec" (st_ctim_nsec st) u.

Definition fall_stat (st : stat) (ustat : list byte) : stat := {|
  st_dev := u64 (getf Ustat "st_dev" ustat);
  st_ino := u64 (getf Ustat "st_ino" ustat);
  st_mode := u32 (getf Ustat "st_mode" ustat);
  st_nlink := u64 (getf Ustat "st_nlink" ustat);
  st_uid := u32 (getf Ustat "st_uid" ustat);
  st_gid := u32 (getf Ustat "st_gid" ustat);
  st_rdev := u64 (getf Ustat "st_rdev" ustat);
  st_size := s64 (getf Ustat "st_size" ustat);
  st_blksize := st_blksize st;
  st_blocks := st_blocks st;
  st_atim_sec := s64 (getf Ustat "st_atim" ustat);
  st_atim_nsec := s64 (getf Ustat "st_atimensec" ustat);
  st_mtim_sec := s64 (getf Ustat "st_mtim" ustat);
  st_mtim_nsec := s64 (getf Ustat "st_mtimensec" ustat);
  st_ctim_sec := s64 (getf Ustat "st_ctim" ustat);
  st_ctim_nsec := s64 (getf Ustat "st_ctimensec" ustat)
|}.

Definition unify_statvfs (uvfs : list byte) (vfs : statvfs) : list byte :=
  let u := setf Ustatvfs "f_bsize" (f_bsize vfs) uvfs in
  let u := setf Ustatvfs "f_frsize" (f_frsize vfs) u in
  let u := setf Ustatvfs "f_blocks" (f_blocks vfs) u in
  let u := setf Ustatvfs "f_bfree" (f_bfree vfs) u in
  let u := setf Ustatvfs "f_bavail" (f_bavail vfs) u in
  let u := setf Ustatvfs "f_files" (f_files vfs) u in
  let u := setf Ustatvfs "f_ffree" (f_ffree vfs) u in
  let u := setf Ustatvfs "f_favail" (f_favail vfs) u in
  let u := setf Ustatvfs "f_fsid" (f_fsid vfs) u in
  let u := setf Ustatvfs "f_flag" (f_flag vfs) u in
  setf Ustatvfs "f_namemax" (f_namemax vfs) u.

Definition fall_statvfs (uvfs : list byte) : statvfs := {|
  f_bsize := u64 (getf Ustatvfs "f_bsize" uvfs);
  f_frsize := u64 (getf Ustatvfs "f_frsize" uvfs);
  f_blocks := u64 (getf Ustatvfs "f_blocks" uvfs);
  f_bfree := u64 (getf Ustatvfs "f_bfree" uvfs);
  f_bavail := u64 (getf Ustatvfs "f_bavail" uvfs);
  f_files := u64 (getf Ustatvfs "f_files" uvfs);
  f_ffree := u64 (getf Ustatvfs "f_ffree" uvfs);
  f_favail := u64 (getf Ustatvfs "f_favail" uvfs);
  f_fsid := u64 (getf Ustatvfs "f_fsid" uvfs);
  f_flag := u64 (getf Ustatvfs "f_flag" uvfs);
  f_namemax := u64 (getf Ustatvfs "f_namemax" uvfs)
|}.

Definition unify_dirent (udir : list byte) (dir : dirent) : res (list byte) :=
  let u := setf Udirent "d_ino" (d_ino dir) udir in
  let u := setf Udirent "d_off" (d_off dir) u in
  let u := setf Udirent "d_reclen" (d_reclen dir) u in
  let u := setf Udirent "d_type" (d_type dir) u in
  memcpyf Udirent "d_name" (d_name dir) u.

Definition fall_dirent (udir : list byte) : dirent := {|
  d_ino := u64 (getf Udirent "d_ino" udir);
  d_off := s64 (getf Udirent "d_off" udir);
  d_reclen := u16 (getf Udirent "d_reclen" udir);
  d_type := u8 (getf Udirent "d_type" udir);
  d_name := getb Udirent "d_name" udir
|}.

(** ** Values of the platform's types *)

Definition in_u (w z : Z) : Prop := 0 <= z < 2 ^ w.
Definition in_s (w z : Z) : Prop := - 2 ^ (w - 1) <= z < 2 ^ (w - 1).

Definition stat_wf (st : stat) : Prop :=
  in_u 64 (st_dev st) /\ in_u 64 (st_ino st) /\ in_u 32 (st_mode st) /\
  in_u 64 (st_nlink st) /\ in_u 32 (st_uid st) /\ in_u 32 (st_gid st) /\
  in_u 64 (st_rdev st) /\ in_s 64 (st_size st) /\
  in_s 64 (st_atim_sec st) /\ in_s 64 (st_atim_nsec st) /\
  in_s 64 (st_mtim_sec st) /\ in_s 64 (st_mtim_nsec st) /\
  in_s 64 (st_ctim_sec st) /\ in_s 64 (st_ctim_nsec st).

Definition statvfs_wf (vfs : statvfs) : Prop :=
  Forall (in_u 64) [f_bsize vfs; f_frsize vfs; f_blocks vfs; f_bfree vfs;
    f_bavail vfs; f_files vfs; f_ffree vfs; f_favail vfs; f_fsid vfs; f_flag vfs;
    f_namemax vfs].

Definition dirent_wf (dir : dirent) : Prop :=
  in_u 64 (d_ino dir) /\ in_s 64 (d_off dir) /\ in_u 16 (d_reclen dir) /\
  in_u 8 (d_type dir) /\ blen (d_name dir) = 256.

(** ** Lemmas *)

Lemma sizeof_Ustat : sizeof Ustat = 104.
Proof. reflexivity. Qed.

Lemma sizeof_Ustatvfs : sizeof Ustatvfs = 88.
Proof. reflexivity. Qed.

Lemma sizeof_Udirent : sizeof Udirent = 280.
Proof. reflexivity. Qed.

(** A conversion to the width it comes from changes nothing. *)
Lemma wrap_s_u_s w z : 0 < w -> in_s w z -> swrap w (uwrap w z) = z.
Proof. intros ? ?. rewrite swrap_uwrap by lia. apply swrap_small; assumption. Qed.

Lemma wrap_s_s w z : 0 < w -> in_s w z -> swrap w (swrap w z) = z.
Proof. intros ? H. rewrite !(swrap_small w z) by assumption. done. Qed.

Lemma wrap_u_u w z : 0 <= w -> in_u w z -> uwrap w (uwrap w z) = z.
Proof. intros ? H. rewrite uwrap_uwrap by done. apply uwrap_small; assumption. Qed.

#[export] Hint Rewrite wrap_s_u_s wrap_s_s wrap_u_u using (first [assumption | lia]) : buf.

(** ** Round trips *)

(** A [struct stat] unified by the sender into any memory and recovered by the
    receiver keeps every transmitted field; block size and block count, which
    [Ustat] has no room for, stay as the receiver had them. *)
Lemma stat_roundtrip junk st0 st :
  stat_wf st -> blen junk = sizeof Ustat ->
  fall_stat st0 (unify_stat junk st) =
    Stat (st_dev st) (st_ino st) (st_mode st) (st_nlink st) (st_uid st) (st_gid st)
      (st_rdev st) (st_size st) (st_blksize st0) (st_blocks st0)
      (st_atim_sec st) (st_atim_nsec st) (st_mtim_sec st) (st_mtim_nsec st)
      (st_ctim_sec st) (st_ctim_nsec st).
Proof.
  intros (? & ? & ? & ? & ? & ? & ? & ? & ? & ? & ? & ? & ? & ?) Hj%fits_exact.
  unfold fall_stat, unify_stat. cbv zeta.
  f_equal; layout; by autorewrite with buf.
Qed.

(** The eleven fields of a [struct statvfs] survive unification and recovery. *)
Lemma statvfs_roundtrip junk vfs :
  statvfs_wf vfs -> blen junk = sizeof Ustatvfs ->
  fall_statvfs (unify_statvfs junk vfs) = vfs.
Proof.
  intros Hwf Hj%fits_exact. unfold statvfs_wf in Hwf.
  rewrite !Forall_cons_iff in Hwf. destruct_and! Hwf.
  trans (Statvfs (f_bsize vfs) (f_frsize vfs) (f_blocks vfs) (f_bfree vfs)
    (f_bavail vfs) (f_files vfs) (f_ffree vfs) (f_favail vfs) (f_fsid vfs)
    (f_flag vfs) (f_namemax vfs)); [|by destruct vfs].
  unfold fall_statvfs, unify_statvfs. cbv zeta. f_equal; layout; by autorewrite with buf.
Qed.

(** The fields of a unified directory entry. *)
Lemma unify_dirent_fields junk dir u :
  dirent_wf dir -> blen junk = sizeof Udirent -> unify_dirent junk dir = Ok u ->
  blen u = 280 /\ getf Udirent "d_ino" u = d_ino dir /\
  getf Udirent "d_off" u = u64 (d_off dir) /\ getf Udirent "d_reclen" u = d_reclen dir /\
  getf Udirent "d_type" u = d_type dir /\ getb Udirent "d_name" u = d_name dir.
Proof.
  intros (? & ? & ? & ? & Hn) Hj. pose proof (fits_exact _ _ Hj) as Hf.
  unfold unify_dirent. cbv zeta. set (v := setf _ _ _ _).
  assert (Hv : fits Udirent v) by (unfold v; fits).
  assert (Hlv : blen v = 280) by (unfold v; rewrite !blen_setf by fits; exact Hj).
  rewrite (memcpyf_ok Udirent v Hv "d_name" _ 19 256 eq_refl Hn). intros [= <-].
  rewrite !(getf_array Udirent v Hv _ "d_name" 19 256) by (done || lia).
  rewrite (getb_array Udirent v Hv "d_name" 19 256) by done.
  rewrite blen_bstore by (rewrite ?Hn, ?Hlv; lia).
  unfold v. split_and!; layout; (done || by apply uwrap_small).
Qed.

Lemma unify_dirent_ok junk dir :
  dirent_wf dir -> blen junk = sizeof Udirent -> exists u, unify_dirent junk dir = Ok u.
Proof.
  intros (_ & _ & _ & _ & Hn) Hj. pose proof (fits_exact _ _ Hj) as Hf.
  unfold unify_dirent. cbv zeta. set (v := setf _ _ _ _).
  assert (Hv : fits Udirent v) by (unfold v; fits).
  rewrite (memcpyf_ok Udirent v Hv "d_name" _ 19 256 eq_refl Hn). eauto.
Qed.

(** A directory entry survives unification and recovery, its 256 name bytes
    included. *)
Lemma dirent_roundtrip junk dir :
  dirent_wf dir -> blen junk = sizeof Udirent ->
  exists u, unify_dirent junk dir = Ok u /\ blen u = sizeof Udirent /\ fall_dirent u = dir.
Proof.
  intros Hwf Hj. destruct (unify_dirent_ok junk dir Hwf Hj) as [u E]. exists u.
  destruct (unify_dirent_fields junk dir u Hwf Hj E) as (Hl & E1 & E2 & E3 & E4 & E5).
  split_and!; [done|done|]. unfold fall_dirent. rewrite E1, E2, E3, E4, E5.
  destruct Hwf as (? & ? & ? & ? & _). autorewrite with buf. destruct dir. f_equal; by apply uwrap_small.
Qed.

(** Round trips.  Whatever the sender's memory held before, a [struct stat], a
    [struct statvfs] and a directory entry that are unified by the sender are
    recovered by the receiver: every field but the block size and the block count
    of [struct stat], which [Ustat] has no room for and which stay as the
    receiver had them, and all the 256 bytes of an entry's name. *)
Theorem ustruct_roundtrip ju jv jd st0 st vfs dir :
  stat_wf st -> statvfs_wf vfs -> dirent_wf dir ->
  blen ju = sizeof Ustat -> blen jv = sizeof Ustatvfs -> blen jd = sizeof Udirent ->
  fall_stat st0 (unify_stat ju st) =
    Stat (st_dev st) (st_ino st) (st_mode st) (st_nlink st) (st_uid st) (st_gid st)
      (st_rdev st) (st_size st) (st_blksize st0) (st_blocks st0)
      (st_atim_sec st) (st_atim_nsec st) (st_mtim_sec st) (st_mtim_nsec st)
      (st_ctim_sec st) (st_ctim_nsec st) /\
  fall_statvfs (unify_statvfs jv vfs) = vfs /\
  exists u, unify_dirent jd dir = Ok u /\ blen u = sizeof Udirent /\ fall_dirent u = dir.
Proof.
  intros. split_and!; [by apply stat_roundtrip|by apply statvfs_roundtrip|by apply dirent_roundtrip].
Qed.

(** ** Witness *)

Definition stat_ex : stat :=
  Stat 2049 42 33188 1 1000 1000 0 5 0 0 1600000000 7 1600000001 8 1600000002 9.

Definition statvfs_ex : statvfs := Statvfs 4096 4096 1000 500 400 100 50 50 7 0 255.

Lemma ustruct_roundtrip_witness :
  fall_stat stat_ex (unify_stat (zeros 104) stat_ex) = stat_ex /\
  fall_statvfs (unify_statvfs (zeros 88) statvfs_ex) = statvfs_ex /\
  exists u, unify_dirent (zeros 280) (Dirent 42 7 280 8 (zeros 256)) = Ok u /\
    blen u = sizeof Udirent /\ fall_dirent u = Dirent 42 7 280 8 (zeros 256).
Proof.
  apply (ustruct_roundtrip (zeros 104) (zeros 88) (zeros 280) stat_ex stat_ex statvfs_ex);
    [unfold stat_wf, in_u, in_s; cbn; lia| | |reflexivity|reflexivity|reflexivity].
  - unfold statvfs_wf, in_u. repeat constructor; cbn; lia.
  - unfold dirent_wf, in_u, in_s. split_and!; first [reflexivity | cbn; lia].
Defined.
