(* ===== verification/Prot.v ===== *)
(** * The protocol (prot.h, prot.c)

    The structures of the wire format and the functions that receive them.
    [as_*] are the receiving side of requests, [wait_reply] and [re_*] that of
    replies. *)

From S2P Require Import Prelude Layout World Bss Netwrap.
Local Open Scope Z_scope.

(** ** Constants *)

Definition FILENAME_LEN : Z := 4096.

Definition OPER_OPEN : Z := 0.
Definition OPER_READ : Z := 1.
Definition OPER_WRITE : Z := 2.
Definition OPER_CLOSE : Z := 3.

Definition OPEN_CREAT : Z := 1.
Definition OPEN_DIRECT : Z := 2.
Definition OPEN_DIRECTORY : Z := 4.
Definition OPEN_NOFOLLOW : Z := 8.
Definition OPEN_TRUNC : Z := 16.
Definition OPEN_MKDIR : Z := 32.

Definition RD_REGULAR : Z := 0.
Definition RD_STAT : Z := 1.
Definition RD_STATFS : Z := 2.
Definition RD_LINK : Z := 3.
Definition RD_DIR : Z := 4.

Definition WR_REGULAR : Z := 0.
Definition WR_CHMOD : Z := 1.
Definition WR_SYMLINK : Z := 2.
Definition WR_REMOVE : Z := 3.
Definition WR_TRUNC : Z := 4.
Definition WR_ACCES : Z := 5.
Definition WR_RMDIR : Z := 6.
Definition WR_MODTIME : Z := 7.

Definition TM_ANOW : Z := 1.
Definition TM_AIGN : Z := 2.
Definition TM_MNOW : Z := 4.
Definition TM_MIGN : Z := 8.

(** ** Structures *)

Definition OpHdr : cstruct :=
  [("size", CInt false 4); ("ouid", CInt false 4); ("opid", CInt false 4)].

Definition RpHdr : cstruct :=
  [("size", CInt false 4); ("ouid", CInt false 4); ("rtvl", CInt true 4)].

Definition OpOpen : cstruct :=
  [("filename", CBytes FILENAME_LEN); ("flags", CInt false 1); ("mode", CInt false 2)].

Definition RpOpen : cstruct :=
  [("file_handle", CInt false 8); ("ignore_above", CInt false 1)].

Definition OpRead : cstruct :=
  [("filename", CBytes FILENAME_LEN); ("file_handle", CInt false 8);
   ("offset", CInt false 8); ("count", CInt false 8); ("read_mode", CInt false 1)].

Definition OpWrit : cstruct :=
  [("filename", CBytes FILENAME_LEN); ("file_handle", CInt false 8);
   ("offset", CInt false 8); ("count", CInt false 8); ("write_mode", CInt false 1)].

Definition TimeModder : cstruct :=
  [("atime", CInt true 8); ("atime_nsec", CInt true 8); ("mtime", CInt true 8);
   ("mtime_nsec", CInt true 8); ("flags", CInt false 1)].

Definition OpClos : cstruct :=
  [("file_handle", CInt false 8); ("is_dir", CInt false 1)].

(** ** Receiving *)

(** The body the receiving functions share: [sz] bytes are read into a fresh
    string and copied over [dest]; [dest] is untouched when the read fails. *)
Definition recv (dest : list byte) (sz : Z) : io (Z * list byte) :=
  recvbuf ← qbss_constructor;
  '(r, recvbuf) ← sockread recvbuf (s32 sz);
  if negb (r =? 0) then
    qbss_destructor recvbuf;;
    mret (-1, dest)
  else
    dest' ← lift_res (memcpy dest 0 (default [] (str recvbuf)) sz);
    qbss_destructor recvbuf;;
    mret (0, dest').

Definition wait_operation (desthdr : list byte) : io (Z * list byte) :=
  recv desthdr (sizeof OpHdr).

Definition as_open (dest : list byte) : io (Z * list byte) := recv dest (sizeof OpOpen).

Definition as_read (dest : list byte) : io (Z * list byte) := recv dest (sizeof OpRead).

(** The header, then [remain - sizeof(struct OpWrit)] bytes into [buffer]; the
    difference is stored in an [int]. *)
Definition as_write (dest buffer : list byte) (remain : Z)
  : io (Z * list byte * list byte) :=
  let extra := s32 (u64 (remain - sizeof OpWrit)) in
  '(r, dest') ← recv dest (sizeof OpWrit);
  if negb (r =? 0) then mret (-1, dest', buffer)
  else
    recvbuf ← qbss_constructor;
    '(r, recvbuf) ← sockread recvbuf extra;
    if negb (r =? 0) then
      qbss_destructor recvbuf;;
      mret (-1, dest', buffer)
    else
      buffer' ← lift_res (memcpy buffer 0 (default [] (str recvbuf)) extra);
      qbss_destructor recvbuf;;
      mret (0, dest', buffer').

Definition as_close (dest : list byte) : io (Z * list byte) := recv dest (sizeof OpClos).

Definition wait_reply (rephdr : list byte) : io (Z * list byte) :=
  recv rephdr (sizeof RpHdr).

Definition re_open (dest : list byte) : io (Z * list byte) := recv dest (sizeof RpOpen).

Definition re_read (buffer : list byte) (remain : Z) : io (Z * list byte) :=
  recv buffer remain.

(** ** Sizes *)

Lemma sizeof_OpHdr : sizeof OpHdr = 12. Proof. reflexivity. Qed.
Lemma sizeof_RpHdr : sizeof RpHdr = 12. Proof. reflexivity. Qed.
Lemma sizeof_OpOpen : sizeof OpOpen = 4100. Proof. reflexivity. Qed.
Lemma sizeof_RpOpen : sizeof RpOpen = 16. Proof. reflexivity. Qed.
Lemma sizeof_OpRead : sizeof OpRead = 4128. Proof. reflexivity. Qed.
Lemma sizeof_OpWrit : sizeof OpWrit = 4128. Proof. reflexivity. Qed.
Lemma sizeof_TimeModder : sizeof TimeModder = 40. Proof. reflexivity. Qed.
Lemma sizeof_OpClos : sizeof OpClos = 16. Proof. reflexivity. Qed.

Create Rewrite HintDb csizes.
#[export] Hint Rewrite sizeof_OpHdr sizeof_RpHdr sizeof_OpOpen sizeof_RpOpen
  sizeof_OpRead sizeof_OpWrit sizeof_TimeModder sizeof_OpClos : csizes.

(** ** Receiving from a stream *)

Lemma content_new : content (Bss (Some (zeros 64)) 0 64) = [].
Proof. done. Qed.

Lemma free_after_alloc w f :
  (forall w, w_live (f w) = w_live w) -> (forall n w, set_live n (f w) = f (set_live n w)) ->
  free (f (set_live (w_live w + 1) w)) = Ok (tt, f w).
Proof.
  intros Hl Hc. unfold free, pmodify. rewrite Hl, Hc.
  replace (w_live (set_live (w_live w + 1) w) - 1) with (w_live w) by (cbn; lia). done.
Qed.

(** Enough data: [dest] starts with the next [sz] bytes of the stream, exactly
    those are consumed, and no block stays allocated. *)
Lemma recv_ok dest sz w :
  mem_ok w -> 0 <= sz < 2 ^ 31 -> sz <= blen dest -> sz <= blen (stream (w_rd w)) ->
  recv dest sz w =
    Ok ((0, btake sz (stream (w_rd w)) ++ bdrop sz dest), set_rd (skip sz (w_rd w)) w).
Proof.
  intros Hm Hsz Hd Hs. unfold recv. rewrite swrap_small by lia.
  pstep qbss_constructor_eq. cbv beta. set (w1 := set_live _ w).
  destruct (sockread_ok (Bss (Some (zeros 64)) 0 64) sz w1) as (b & Hr & Hok & Hc & Hsize);
    [apply qbss_new_ok|done|unfold w1; cbn; lia|cbn; lia|].
  rewrite (prog_bind_ok _ _ _ _ _ Hr). cbv beta iota. cbn [Z.eqb negb].
  destruct (bss_ok_block b Hok) as (buf & Hstr & Hbl & _ & Hcont).
  cbn [size] in Hsize. rewrite Z.add_0_l in Hsize. rewrite Hsize in *.
  rewrite Hstr. cbn [from_option id]. rewrite memcpy_ok by lia.
  erewrite prog_bind_ok by reflexivity. cbv beta.
  unfold qbss_destructor. rewrite Hstr.
  rewrite (prog_bind_ok free _ _ tt (set_rd (skip sz (w_rd w)) w)).
  2:{ exact (free_after_alloc w (set_rd (skip sz (w_rd w1))) ltac:(done) ltac:(done)). }
  unfold mret, prog_ret. do 3 f_equal. rewrite bstore_0.
  rewrite content_new, app_nil_l in Hc. rewrite <- Hcont, Hc. f_equal.
  change (w_rd w1) with (w_rd w). f_equal. rewrite blen_btake by lia. done.
Qed.

(** Not enough data: [recv] fails on a read error and leaves [dest] alone, waits
    for a silent peer, and never returns once the stream has ended. *)
Lemma recv_short dest sz w :
  mem_ok w -> 0 <= sz < 2 ^ 31 -> blen (stream (w_rd w)) < sz ->
  match stop (w_rd w) with
  | None => recv dest sz w = Blocked
  | Some RdEof => recv dest sz w = Diverged
  | Some _ => recv dest sz w = Ok ((-1, dest),
      set_err ZHWK_ERR_TCP_READ_FAIL (set_rd (tail (skip_all (w_rd w))) w))
  end.
Proof.
  intros Hm Hsz Hs. unfold recv. rewrite swrap_small by lia.
  rewrite (prog_bind_ok _ _ _ _ _ (qbss_constructor_eq w Hm)). set (w1 := set_live _ w).
  set (b0 := Bss _ 0 64). cbv beta.
  assert (Hsr : sockread b0 sz w1 = sockread_loop (S (length (w_rd w1))) b0 sz w1).
  { unfold sockread. by rewrite (proj2 (Z.ltb_ge _ _)) by lia. }
  pose proof (sockread_loop_short (S (length (w_rd w1))) b0 sz w1 qbss_new_ok Hm Hs
    ltac:(cbn [size b0]; lia) ltac:(left; lia)) as H. rewrite <- Hsr in H.
  change (w_rd w1) with (w_rd w) in H.
  destruct (stop (w_rd w)) as [[|bs|]|]; [|..|by apply prog_bind_diverged|by apply prog_bind_blocked];
  destruct H as (b & Hb & E); rewrite (prog_bind_ok _ _ _ _ _ E); cbv beta iota; cbn [Z.eqb negb];
  destruct (bss_ok_block b Hb) as (buf & Hstr & _); unfold qbss_destructor; rewrite Hstr;
  rewrite (prog_bind_ok free _ _ tt
    (set_err ZHWK_ERR_TCP_READ_FAIL (set_rd (tail (skip_all (w_rd w))) w))); try done;
  exact (free_after_alloc w (fun w' => set_err ZHWK_ERR_TCP_READ_FAIL
    (set_rd (tail (skip_all (w_rd w))) w')) ltac:(done) ltac:(done)).
Qed.

(** The second half of [as_write] receives [extra] bytes as [recv] does. *)
Lemma as_write_extra dest' buffer extra w :
  0 <= extra < 2 ^ 31 ->
  ((recvbuf ← qbss_constructor;
   '(r, recvbuf) ← sockread recvbuf extra;
   if negb (r =? 0) then qbss_destructor recvbuf;; mret (-1, dest', buffer)
   else
     buffer' ← lift_res (memcpy buffer 0 (default [] (str recvbuf)) extra);
     qbss_destructor recvbuf;; mret (0, dest', buffer')) : io (Z * list byte * list byte)) w =
  ('(r, buffer') ← recv buffer extra; mret (r, dest', buffer') : io (Z * list byte * list byte)) w.
Proof.
  intros H. unfold recv. rewrite swrap_small by lia. prun.
  destruct (qbss_constructor w) as [[b w1]| | | |]; try done.
  destruct (sockread b extra w1) as [[[r b'] w2]| | | |]; try done.
  destruct (negb (r =? 0)).
  - by destruct (qbss_destructor b' w2) as [[]| | | |].
  - destruct (memcpy _ _ _ _); try done. by destruct (qbss_destructor b' w2) as [[]| | | |].
Qed.

(** Enough data: the structure, then the [remain - sizeof(struct OpWrit)] bytes
    that follow it, and nothing more. *)
Lemma as_write_ok dest buffer remain w :
  mem_ok w -> sizeof OpWrit <= remain < 2 ^ 31 -> remain <= blen (stream (w_rd w)) ->
  sizeof OpWrit <= blen dest -> remain - sizeof OpWrit <= blen buffer ->
  as_write dest buffer remain w =
    Ok ((0, btake (sizeof OpWrit) (stream (w_rd w)) ++ bdrop (sizeof OpWrit) dest,
         bslice (sizeof OpWrit) (remain - sizeof OpWrit) (stream (w_rd w)) ++
           bdrop (remain - sizeof OpWrit) buffer),
        set_rd (skip remain (w_rd w)) w).
Proof.
  rewrite sizeof_OpWrit. intros Hm Hr Hs Hd Hb. unfold as_write. rewrite sizeof_OpWrit.
  rewrite uwrap_small, swrap_small by lia.
  rewrite (prog_bind_ok _ _ _ _ _ (recv_ok dest 4128 w Hm ltac:(lia) Hd ltac:(lia))).
  cbv beta iota. cbn [Z.eqb negb]. rewrite as_write_extra by lia.
  set (w1 := set_rd _ w). assert (Hst : stream (w_rd w1) = bdrop 4128 (stream (w_rd w)))
    by (apply skip_stream; lia).
  erewrite prog_bind_ok.
  2:{ apply recv_ok; [done|lia|done|rewrite Hst; blia]. }
  unfold mret, prog_ret. rewrite Hst. cbn [w_rd w1 set_rd]. unfold w1. cbn [w_rd set_rd].
  rewrite skip_add by lia. replace (4128 + (remain - 4128)) with remain by lia. done.
Qed.
