(* ===== verification/Platform.v ===== *)
(** * The platform's structures in memory (defaultstat.h, defaultstatvfs.h, defaultdirent.h)

    The repository keeps copies of three headers of the C library, whose
    structures depend on macros and on types of the platform: these are the
    argument of the layouts below, which have all the branches of the headers.
    [load_*] and [store_*] relate a structure in the memory of the host to the
    records of Ustruct.v, whose functions work on the fields.  At the end the
    layouts that the 32-bit and the 64-bit platform give to the structures on the
    wire are compared. *)

From S2P Require Import Prelude Layout World Bss Netwrap Ustruct Prot.
Local Open Scope Z_scope.

(** ** Platforms *)

(** The macros that the headers test, the largest alignment of a field, and the
    types of bits/types.h. *)
Record platform : Type := Platform {
  x86_64 : bool;               (* __x86_64__; the word size is 32 without it *)
  use_file_offset64 : bool;    (* __USE_FILE_OFFSET64 *)
  use_xopen2k8 : bool;         (* __USE_XOPEN2K8 *)
  max_align : Z;
  dev_t : ctype; ino_t : ctype; ino64_t : ctype; mode_t : ctype; nlink_t : ctype;
  uid_t : ctype; gid_t : ctype; off_t : ctype; off64_t : ctype; blksize_t : ctype;
  blkcnt_t : ctype; blkcnt64_t : ctype; time_t : ctype; slong_t : ctype; ulong_t : ctype;
  fsblkcnt_t : ctype; fsblkcnt64_t : ctype; fsfilcnt_t : ctype; fsfilcnt64_t : ctype
}.

(** The types of Linux. *)
Definition linux_x86_64 (offset64 xopen : bool) : platform := {|
  x86_64 := true; use_file_offset64 := offset64; use_xopen2k8 := xopen; max_align := 8;
  dev_t := CInt false 8; ino_t := CInt false 8; ino64_t := CInt false 8; mode_t := CInt false 4;
  nlink_t := CInt false 8; uid_t := CInt false 4; gid_t := CInt false 4; off_t := CInt true 8;
  off64_t := CInt true 8; blksize_t := CInt true 8; blkcnt_t := CInt true 8; blkcnt64_t := CInt true 8;
  time_t := CInt true 8; slong_t := CInt true 8; ulong_t := CInt false 8;
  fsblkcnt_t := CInt false 8; fsblkcnt64_t := CInt false 8; fsfilcnt_t := CInt false 8; fsfilcnt64_t := CInt false 8
|}.

(** Integers of eight bytes are aligned to four in structures. *)
Definition linux_i386 (offset64 xopen : bool) : platform := {|
  x86_64 := false; use_file_offset64 := offset64; use_xopen2k8 := xopen; max_align := 4;
  dev_t := CInt false 8; ino_t := CInt false 4; ino64_t := CInt false 8; mode_t := CInt false 4;
  nlink_t := CInt false 4; uid_t := CInt false 4; gid_t := CInt false 4; off_t := CInt true 4;
  off64_t := CInt true 8; blksize_t := CInt true 4; blkcnt_t := CInt true 4; blkcnt64_t := CInt true 8;
  time_t := CInt true 4; slong_t := CInt true 4; ulong_t := CInt false 4;
  fsblkcnt_t := CInt false 4; fsblkcnt64_t := CInt false 8; fsfilcnt_t := CInt false 4; fsfilcnt64_t := CInt false 8
|}.

(** libfuse wants 64-bit offsets. *)
Definition host : platform := linux_x86_64 true true.

(** ** Layouts *)

Section layouts.
Context (p : platform).

(** The timestamps: three [struct timespec], or two fields each. *)
Definition stat_times : cstruct :=
  if use_xopen2k8 p then
    [("st_atim.tv_sec", time_t p); ("st_atim.tv_nsec", slong_t p);
     ("st_mtim.tv_sec", time_t p); ("st_mtim.tv_nsec", slong_t p);
     ("st_ctim.tv_sec", time_t p); ("st_ctim.tv_nsec", slong_t p)]
  else
    [("st_atime", time_t p); ("st_atimensec", ulong_t p);
     ("st_mtime", time_t p); ("st_mtimensec", ulong_t p);
     ("st_ctime", time_t p); ("st_ctimensec", ulong_t p)].

(** Three longs, at a multiple of their size. *)
Definition glibc_reserved : cstruct := [("__glibc_reserved", CBytes 24)].

Definition struct_stat : cstruct :=
  let long := x86_64 p || negb (use_file_offset64 p) in
  [("st_dev", dev_t p)] ++
  (if negb (x86_64 p) then [("__pad1", CInt false 2)] else []) ++
  (if long then [("st_ino", ino_t p)] else [("__st_ino", ino_t p)]) ++
  (if negb (x86_64 p) then [("st_mode", mode_t p); ("st_nlink", nlink_t p)]
   else [("st_nlink", nlink_t p); ("st_mode", mode_t p)]) ++
  [("st_uid", uid_t p); ("st_gid", gid_t p)] ++
  (if x86_64 p then [("__pad0", CInt true 4)] else []) ++
  [("st_rdev", dev_t p)] ++
  (if negb (x86_64 p) then [("__pad2", CInt false 2)] else []) ++
  [("st_size", if long then off_t p else off64_t p); ("st_blksize", blksize_t p);
   ("st_blocks", if long then blkcnt_t p else blkcnt64_t p)] ++
  stat_times ++
  (if x86_64 p then glibc_reserved
   else if negb (use_file_offset64 p) then [("__glibc_reserved4", ulong_t p); ("__glibc_reserved5", ulong_t p)]
   else [("st_ino", ino64_t p)]).

Definition struct_stat64 : cstruct :=
  [("st_dev", dev_t p)] ++
  (if x86_64 p then [("st_ino", ino64_t p); ("st_nlink", nlink_t p); ("st_mode", mode_t p)]
   else [("__pad1", CInt false 4); ("__st_ino", ino_t p); ("st_mode", mode_t p); ("st_nlink", nlink_t p)]) ++
  [("st_uid", uid_t p); ("st_gid", gid_t p)] ++
  (if x86_64 p then [("__pad0", CInt true 4); ("st_rdev", dev_t p); ("st_size", off_t p)]
   else [("st_rdev", dev_t p); ("__pad2", CInt false 4); ("st_size", off64_t p)]) ++
  [("st_blksize", blksize_t p); ("st_blocks", blkcnt64_t p)] ++
  stat_times ++
  (if x86_64 p then glibc_reserved else [("st_ino", ino64_t p)]).

(** [__f_unused] is there when the word size is 32; [__f_spare] is an array of six
    ints. *)
Definition f_unused : cstruct := if x86_64 p then [] else [("__f_unused", CInt true 4)].

Definition struct_statvfs : cstruct :=
  let blk := if use_file_offset64 p then fsblkcnt64_t p else fsblkcnt_t p in
  let fil := if use_file_offset64 p then fsfilcnt64_t p else fsfilcnt_t p in
  [("f_bsize", ulong_t p); ("f_frsize", ulong_t p); ("f_blocks", blk); ("f_bfree", blk); ("f_bavail", blk);
   ("f_files", fil); ("f_ffree", fil); ("f_favail", fil); ("f_fsid", ulong_t p)] ++
  f_unused ++
  [("f_flag", ulong_t p); ("f_namemax", ulong_t p); ("__f_spare", CBytes 24)].

Definition struct_statvfs64 : cstruct :=
  [("f_bsize", ulong_t p); ("f_frsize", ulong_t p); ("f_blocks", fsblkcnt64_t p); ("f_bfree", fsblkcnt64_t p);
   ("f_bavail", fsblkcnt64_t p); ("f_files", fsfilcnt64_t p); ("f_ffree", fsfilcnt64_t p);
   ("f_favail", fsfilcnt64_t p); ("f_fsid", ulong_t p)] ++
  f_unused ++
  [("f_flag", ulong_t p); ("f_namemax", ulong_t p); ("__f_spare", CBytes 24)].

Definition struct_dirent : cstruct :=
  (if negb (use_file_offset64 p) then [("d_ino", ino_t p); ("d_off", off_t p)]
   else [("d_ino", ino64_t p); ("d_off", off64_t p)]) ++
  [("d_reclen", CInt false 2); ("d_type", CInt false 1); ("d_name", CBytes 256)].

Definition struct_dirent64 : cstruct :=
  [("d_ino", ino64_t p); ("d_off", off64_t p); ("d_reclen", CInt false 2); ("d_type", CInt false 1);
   ("d_name", CBytes 256)].

End layouts.

(** The structures of the host. *)
Definition host_stat : cstruct := Eval vm_compute in struct_stat host.
Definition host_statvfs : cstruct := Eval vm_compute in struct_statvfs host.
Definition host_dirent : cstruct := Eval vm_compute in struct_dirent host.

Lemma host_layouts : host_stat = struct_stat host /\ host_statvfs = struct_statvfs host /\ host_dirent = struct_dirent host.
Proof. done. Qed.

(** [struct RdDir] of prot.h, which no function uses: the fields of [filestat] lie
    as in a [struct stat] of their own ([rddir_filestat]). *)
Definition RDDIR_HAVESTAT : Z := 1.

Definition RdDir : cstruct :=
  [("filename", CBytes FILENAME_LEN); ("extflags", CInt false 1)] ++
  map (fun '(f, t) => (String.append "filestat." f, t)) host_stat.

(** ** Constants *)

(** The file types in a mode, and the bits they take (octal in the source). *)
Definition __S_IFMT : Z := 0xf000.
Definition __S_IFDIR : Z := 0x4000.
Definition __S_IFCHR : Z := 0x2000.
Definition __S_IFBLK : Z := 0x6000.
Definition __S_IFREG : Z := 0x8000.
Definition __S_IFIFO : Z := 0x1000.
Definition __S_IFLNK : Z := 0xa000.
Definition __S_IFSOCK : Z := 0xc000.

Definition file_types : list Z := [__S_IFDIR; __S_IFCHR; __S_IFBLK; __S_IFREG; __S_IFIFO; __S_IFLNK; __S_IFSOCK].

Definition __S_ISUID : Z := 0x800.
Definition __S_ISGID : Z := 0x400.
Definition __S_ISVTX : Z := 0x200.
Definition __S_IREAD : Z := 0x100.
Definition __S_IWRITE : Z := 0x80.
Definition __S_IEXEC : Z := 0x40.

Definition UTIME_NOW : Z := 2 ^ 30 - 1.
Definition UTIME_OMIT : Z := 2 ^ 30 - 2.

(** The flags of [f_flag]. *)
Definition ST_RDONLY : Z := 1.
Definition ST_NOSUID : Z := 2.
Definition ST_NODEV : Z := 4.
Definition ST_NOEXEC : Z := 8.
Definition ST_SYNCHRONOUS : Z := 16.
Definition ST_MANDLOCK : Z := 64.
Definition ST_WRITE : Z := 128.
Definition ST_APPEND : Z := 256.
Definition ST_IMMUTABLE : Z := 512.
Definition ST_NOATIME : Z := 1024.
Definition ST_NODIRATIME : Z := 2048.
Definition ST_RELATIME : Z := 4096.

Definition mount_flags : list Z :=
  [ST_RDONLY; ST_NOSUID; ST_NODEV; ST_NOEXEC; ST_SYNCHRONOUS; ST_MANDLOCK; ST_WRITE; ST_APPEND;
   ST_IMMUTABLE; ST_NOATIME; ST_NODIRATIME; ST_RELATIME].

(** ** Structures in memory *)

(** The record for a [struct stat] in memory, and the memory after its fields have
    been assigned; the padding is not touched. *)
Definition load_stat (st : list byte) : stat :=
  let f := fun name => getf host_stat name st in
  Stat (f "st_dev") (f "st_ino") (f "st_mode") (f "st_nlink") (f "st_uid") (f "st_gid")
    (f "st_rdev") (f "st_size") (f "st_blksize") (f "st_blocks")
    (f "st_atim.tv_sec") (f "st_atim.tv_nsec") (f "st_mtim.tv_sec") (f "st_mtim.tv_nsec")
    (f "st_ctim.tv_sec") (f "st_ctim.tv_nsec").

Definition store_stat (s : stat) (st : list byte) : list byte :=
  let f := setf host_stat in
  f "st_dev" (st_dev s) (f "st_ino" (st_ino s) (f "st_mode" (st_mode s) (f "st_nlink" (st_nlink s)
  (f "st_uid" (st_uid s) (f "st_gid" (st_gid s) (f "st_rdev" (st_rdev s) (f "st_size" (st_size s)
  (f "st_blksize" (st_blksize s) (f "st_blocks" (st_blocks s)
  (f "st_atim.tv_sec" (st_atim_sec s) (f "st_atim.tv_nsec" (st_atim_nsec s)
  (f "st_mtim.tv_sec" (st_mtim_sec s) (f "st_mtim.tv_nsec" (st_mtim_nsec s)
  (f "st_ctim.tv_sec" (st_ctim_sec s) (f "st_ctim.tv_nsec" (st_ctim_nsec s) st))))))))))))))).

Definition load_statvfs (vfs : list byte) : statvfs :=
  let f := fun name => getf host_statvfs name vfs in
  Statvfs (f "f_bsize") (f "f_frsize") (f "f_blocks") (f "f_bfree") (f "f_bavail") (f "f_files")
    (f "f_ffree") (f "f_favail") (f "f_fsid") (f "f_flag") (f "f_namemax").

Definition store_statvfs (v : statvfs) (vfs : list byte) : list byte :=
  let f := setf host_statvfs in
  f "f_bsize" (f_bsize v) (f "f_frsize" (f_frsize v) (f "f_blocks" (f_blocks v) (f "f_bfree" (f_bfree v)
  (f "f_bavail" (f_bavail v) (f "f_files" (f_files v) (f "f_ffree" (f_ffree v) (f "f_favail" (f_favail v)
  (f "f_fsid" (f_fsid v) (f "f_flag" (f_flag v) (f "f_namemax" (f_namemax v) vfs)))))))))).

Definition load_dirent (dir : list byte) : dirent :=
  let f := fun name => getf host_dirent name dir in
  Dirent (f "d_ino") (f "d_off") (f "d_reclen") (f "d_type") (getb host_dirent "d_name" dir).

Definition store_dirent (d : dirent) (dir : list byte) : res (list byte) :=
  let f := setf host_dirent in
  memcpyf host_dirent "d_name" (d_name d)
    (f "d_type" (d_type d) (f "d_reclen" (d_reclen d) (f "d_off" (d_off d) (f "d_ino" (d_ino d) dir)))).

(** ** Shapes *)

(** Places and widths of the fields and the size of the whole structure, as a
    platform with the given largest alignment has them. *)
Definition place (cap off : Z) (t : ctype) : Z := align_up off (Z.min cap (calign t)).

Fixpoint shape_from (cap off : Z) (st : cstruct) : list (Z * Z) :=
  match st with
  | [] => []
  | (_, t) :: st' => (place cap off t, csize t) :: shape_from cap (place cap off t + csize t) st'
  end.

Fixpoint size_from (cap off : Z) (st : cstruct) : Z :=
  match st with
  | [] => off
  | (_, t) :: st' => size_from cap (place cap off t + csize t) st'
  end.

Definition shape (p : platform) (st : cstruct) : list (Z * Z) := shape_from (max_align p) 0 st.

Definition size_on (p : platform) (st : cstruct) : Z :=
  align_up (size_from (max_align p) 0 st) (Z.min (max_align p) (salign st)).

(** Where no field is aligned beyond the limit these are the layouts of Layout.v. *)
Lemma shape_field cap st : forall off f o t,
  Forall (fun '(_, t) => calign t <= cap) st -> field_at off st f = Some (o, t) -> (o, csize t) ∈ shape_from cap off st.
Proof.
  induction st as [|[g u] st IH]; intros off f o t Hst; [done|]. apply Forall_cons_iff in Hst as [Hu Hst].
  cbn [field_at shape_from]. unfold place. rewrite Z.min_r by done. case_decide; [|intros E; right; by eapply IH].
  intros [= <- <-]. left.
Qed.

Lemma size_from_end cap st : forall off,
  Forall (fun '(_, t) => calign t <= cap) st -> size_from cap off st = end_at off st.
Proof.
  induction st as [|[g u] st IH]; intros off Hst; [done|]. apply Forall_cons_iff in Hst as [Hu Hst].
  cbn [size_from end_at]. unfold place. rewrite Z.min_r by done. by apply IH.
Qed.

Lemma size_on_sizeof p st :
  Forall (fun '(_, t) => calign t <= max_align p) st -> 1 <= max_align p -> size_on p st = sizeof st.
Proof.
  intros Hst Hp. unfold size_on, sizeof. rewrite size_from_end by done. f_equal. apply Z.min_r.
  induction Hst as [|[g u] st Hu _ IH]; cbn; lia.
Qed.

(** "Note stat64 has the same shape as stat for x86-64.": whatever the other
    macros are.  So have the other pairs of structures. *)
Lemma x86_64_same_shapes x y x' y' :
  let p := linux_x86_64 x y in let q := linux_x86_64 x' y' in
  shape p (struct_stat64 p) = shape q (struct_stat q) /\ size_on p (struct_stat64 p) = 144 /\
  shape p (struct_statvfs64 p) = shape q (struct_statvfs q) /\ size_on p (struct_statvfs64 p) = 112 /\
  shape p (struct_dirent64 p) = shape q (struct_dirent q) /\ size_on p (struct_dirent64 p) = 280.
Proof. by destruct x, y, x', y'. Qed.

(** On i386 they agree only with 64-bit offsets, and then up to the padding. *)
Lemma i386_shapes y :
  let p := linux_i386 false y in let q := linux_i386 true y in
  map (size_on p) [struct_stat p; struct_statvfs p; struct_dirent p] = [88; 72; 268] /\
  map (size_on q) [struct_stat q; struct_statvfs q; struct_dirent q] = [96; 96; 276] /\
  map (size_on q) [struct_stat64 q; struct_statvfs64 q; struct_dirent64 q] = [96; 96; 276] /\
  map fst (shape q (struct_stat q)) = map fst (shape q (struct_stat64 q)).
Proof. by destruct y. Qed.

(** The directory entry of the host lies in memory as the unified one does; the
    others are longer than theirs. *)
Lemma unified_shapes :
  shape host host_dirent = shape host Udirent /\ sizeof Ustat < sizeof host_stat /\
  sizeof Ustatvfs < sizeof host_statvfs.
Proof. done. Qed.

(** The unified forms are there because the structures depend on the platform, but
    their layouts depend on it too: those of the headers of all messages, of the
    requests to open and of [Ustatvfs] agree; a receiver on the other platform
    finds the fields of most of the others but takes them to be of another size;
    the fields of [Ustat] are elsewhere, from [st_nlink] on. *)
Definition wire_ok : list cstruct := [OpHdr; RpHdr; OpOpen; Ustatvfs].
Definition wire_size : list cstruct := [RpOpen; OpRead; OpWrit; OpClos; TimeModder; Udirent].

Lemma wire_platform x y x' y' :
  let p := linux_x86_64 x y in let q := linux_i386 x' y' in
  Forall (fun st => shape p st = shape q st /\ size_on p st = size_on q st) wire_ok /\
  Forall (fun st => shape p st = shape q st /\ size_on p st = size_on q st + 4) wire_size /\
  take 3 (shape p Ustat) = take 3 (shape q Ustat) /\
  Forall2 (fun a b => b.1 < a.1) (drop 3 (shape p Ustat)) (drop 3 (shape q Ustat)) /\
  size_on p Ustat = 104 /\ size_on q Ustat = 100.
Proof. intros p q. subst p q. destruct x, y, x', y'; (split_and!; [by repeat constructor..|done|by repeat constructor|done|done]). Qed.

(** The structure inside [struct RdDir] begins at 4104, after the padding. *)
Lemma rddir_filestat :
  shape host RdDir = [(0, 4096); (4096, 1)] ++ map (fun '(o, n) => (4104 + o, n)) (shape host host_stat) /\
  sizeof RdDir = 4104 + sizeof host_stat.
Proof. done. Qed.

(** A type from a directory entry, in the place it has in a mode, is a file type of
    the header exactly when it is that type without the twelve bits below. *)
Lemma file_type_shift ty t :
  In t file_types -> 0 <= ty < 16 -> Z.land (Z.shiftl ty 12) __S_IFMT = Z.shiftl ty 12 /\
  (Z.shiftl ty 12 = t <-> ty = Z.shiftr t 12).
Proof.
  intros Ht Hty. split.
  - change __S_IFMT with (Z.shiftl 15 12). rewrite <- Z.shiftl_land. f_equal.
    change 15 with (Z.ones 4). rewrite Z.land_ones by lia. by apply Z.mod_small.
  - rewrite Z.shiftl_mul_pow2 by lia. cbn in Ht.
    change (2 ^ 12) with 4096.
    repeat destruct Ht as [<-|Ht]; try done;
      match goal with |- context [Z.shiftr ?a 12] =>
        let v := eval vm_compute in (Z.shiftr a 12) in change (Z.shiftr a 12) with v; unfold a; lia
      end.
Qed.

(** The flags are different bits. *)
Lemma mount_flags_bits i j f g :
  mount_flags !! i = Some f -> mount_flags !! j = Some g -> i <> j -> Z.land f g = 0.
Proof.
  intros Hi Hj Hne. assert (i < 12 /\ j < 12)%nat as [Hi' Hj'].
  { apply lookup_lt_Some in Hi, Hj. done. }
  do 12 (destruct i as [|i]; [cbn in Hi; injection Hi as <-;
    do 12 (destruct j as [|j]; [cbn in Hj; by injection Hj as <-|]); lia|]). lia.
Qed.

(** ** From one memory to another *)

(** What is loaded is a value of the field's type. *)
Lemma getf_u st f buf n o : field_at 0 st f = Some (o, CInt false n) -> in_u (8 * Z.of_nat n) (getf st f buf).
Proof. intros E. unfold getf, in_u. rewrite E. apply uwrap_range. lia. Qed.

Lemma getf_s st f buf n o : field_at 0 st f = Some (o, CInt true (S n)) -> in_s (8 * Z.of_nat (S n)) (getf st f buf).
Proof. intros E. unfold getf, in_s. rewrite E. apply swrap_range. lia. Qed.

Ltac field_range := first [solve [eapply (getf_u _ _ _ 8); reflexivity]|solve [eapply (getf_u _ _ _ 4); reflexivity]|solve [eapply (getf_u _ _ _ 2); reflexivity]
  |solve [eapply (getf_u _ _ _ 1); reflexivity]|solve [eapply (getf_s _ _ _ 7); reflexivity]|solve [eapply (getf_s _ _ _ 3); reflexivity]].

Lemma load_stat_wf st : stat_wf (load_stat st).
Proof. unfold stat_wf, load_stat. cbn [st_dev st_ino st_mode st_nlink st_uid st_gid st_rdev st_size st_atim_sec
  st_atim_nsec st_mtim_sec st_mtim_nsec st_ctim_sec st_ctim_nsec]. split_and!; field_range. Qed.

Lemma load_statvfs_wf vfs : statvfs_wf (load_statvfs vfs).
Proof. unfold statvfs_wf, load_statvfs. cbn. repeat constructor; field_range. Qed.

Lemma load_dirent_wf dir : blen dir = sizeof host_dirent -> dirent_wf (load_dirent dir).
Proof.
  intros H. unfold dirent_wf, load_dirent. cbn [d_ino d_off d_reclen d_type d_name].
  split_and!; [field_range..|]. change (getb _ _ _) with (bslice 19 256 dir). change (sizeof host_dirent) with 280 in H.
  rewrite blen_bslice; lia.
Qed.

(** Loads after stores.  What is not assigned is as it was. *)
Lemma load_store_stat s st :
  stat_wf s -> in_s 64 (st_blksize s) -> in_s 64 (st_blocks s) -> blen st = sizeof host_stat ->
  let st' := store_stat s st in
  load_stat st' = s /\ blen st' = blen st /\
  getf host_stat "__pad0" st' = getf host_stat "__pad0" st /\
  getb host_stat "__glibc_reserved" st' = getb host_stat "__glibc_reserved" st.
Proof.
  intros (? & ? & ? & ? & ? & ? & ? & ? & ? & ? & ? & ? & ? & ?) ? ? Hl%fits_exact.
  unfold load_stat, store_stat. cbv zeta beta. split_and!.
  - trans (Stat (st_dev s) (st_ino s) (st_mode s) (st_nlink s) (st_uid s) (st_gid s) (st_rdev s) (st_size s)
      (st_blksize s) (st_blocks s) (st_atim_sec s) (st_atim_nsec s) (st_mtim_sec s) (st_mtim_nsec s)
      (st_ctim_sec s) (st_ctim_nsec s)); [|by destruct s].
    f_equal; layout; (by apply uwrap_small || by apply swrap_small).
  - rewrite !blen_setf by fits. done.
  - by layout.
  - by layout.
Qed.

Lemma load_store_statvfs v vfs :
  statvfs_wf v -> blen vfs = sizeof host_statvfs ->
  let vfs' := store_statvfs v vfs in
  load_statvfs vfs' = v /\ blen vfs' = blen vfs /\
  getb host_statvfs "__f_spare" vfs' = getb host_statvfs "__f_spare" vfs.
Proof.
  intros Hwf Hl%fits_exact. unfold statvfs_wf in Hwf. rewrite !Forall_cons_iff in Hwf. destruct_and! Hwf.
  unfold load_statvfs, store_statvfs. cbv zeta beta. split_and!.
  - trans (Statvfs (f_bsize v) (f_frsize v) (f_blocks v) (f_bfree v) (f_bavail v) (f_files v)
      (f_ffree v) (f_favail v) (f_fsid v) (f_flag v) (f_namemax v)); [|by destruct v].
    f_equal; layout; by apply uwrap_small.
  - rewrite !blen_setf by fits. done.
  - by layout.
Qed.

Lemma load_store_dirent d dir :
  dirent_wf d -> blen dir = sizeof host_dirent ->
  exists dir', store_dirent d dir = Ok dir' /\ load_dirent dir' = d /\ blen dir' = blen dir.
Proof.
  intros (? & ? & ? & ? & Hn) Hl. pose proof (fits_exact _ _ Hl) as Hf.
  unfold store_dirent. cbv zeta beta. set (v := setf _ _ _ _).
  assert (Hv : fits host_dirent v) by (unfold v; fits).
  assert (Hlv : blen v = blen dir) by (unfold v; by rewrite !blen_setf by fits).
  rewrite (memcpyf_ok host_dirent v Hv "d_name" _ 19 256 eq_refl Hn). eexists. split; [done|].
  unfold load_dirent. cbv zeta beta.
  rewrite !(getf_array host_dirent v Hv _ "d_name" 19 256) by (done || lia).
  rewrite (getb_array host_dirent v Hv "d_name" 19 256) by done.
  change (sizeof host_dirent) with 280 in *.
  rewrite blen_bstore by (rewrite ?Hn, ?Hlv, ?Hl; lia). split; [|done].
  unfold v. destruct d. cbn in *. f_equal; layout; (by apply uwrap_small || by apply swrap_small).
Qed.

#[local] Opaque getf setf getb.

(** The record that the receiver's structure gets, in memory. *)
Lemma received_stat st st0 :
  blen st0 = sizeof host_stat ->
  let s := load_stat st in
  let st' := store_stat (Stat (st_dev s) (st_ino s) (st_mode s) (st_nlink s) (st_uid s) (st_gid s) (st_rdev s)
    (st_size s) (st_blksize (load_stat st0)) (st_blocks (load_stat st0)) (st_atim_sec s) (st_atim_nsec s)
    (st_mtim_sec s) (st_mtim_nsec s) (st_ctim_sec s) (st_ctim_nsec s)) st0 in
  blen st' = blen st0 /\
  (forall f, f ∈ ["st_dev"; "st_ino"; "st_nlink"; "st_mode"; "st_uid"; "st_gid"; "st_rdev"; "st_size";
     "st_atim.tv_sec"; "st_atim.tv_nsec"; "st_mtim.tv_sec"; "st_mtim.tv_nsec"; "st_ctim.tv_sec";
     "st_ctim.tv_nsec"] -> getf host_stat f st' = getf host_stat f st) /\
  (forall f, f ∈ ["st_blksize"; "st_blocks"; "__pad0"] ->
     getf host_stat f st' = getf host_stat f st0) /\
  getb host_stat "__glibc_reserved" st' = getb host_stat "__glibc_reserved" st0.
Proof.
  intros H0 s. subst s. set (s' := Stat _ _ _ _ _ _ _ _ _ _ _ _ _ _ _ _).
  destruct (load_store_stat s' st0) as (E & Hl & Hpad & Hres); [exact (load_stat_wf st)| | |exact H0|].
  1-2: unfold s', load_stat; cbn [st_blksize st_blocks]; field_range.
  cbv zeta. set (st' := store_stat s' st0) in *. clearbody st'. split_and!; [exact Hl| | |exact Hres].
  - intros f Hf. repeat (apply elem_of_cons in Hf as [->|Hf]; [
      first [ exact (f_equal st_dev E) | exact (f_equal st_ino E) | exact (f_equal st_nlink E)
            | exact (f_equal st_mode E) | exact (f_equal st_uid E) | exact (f_equal st_gid E)
            | exact (f_equal st_rdev E) | exact (f_equal st_size E) | exact (f_equal st_atim_sec E)
            | exact (f_equal st_atim_nsec E) | exact (f_equal st_mtim_sec E) | exact (f_equal st_mtim_nsec E)
            | exact (f_equal st_ctim_sec E) | exact (f_equal st_ctim_nsec E) ]|]). exfalso; exact (not_elem_of_nil f Hf).
  - intros f Hf. repeat (apply elem_of_cons in Hf as [->|Hf]; [
      first [ exact (f_equal st_blksize E) | exact (f_equal st_blocks E) | exact Hpad ]|]).
    exfalso; exact (not_elem_of_nil f Hf).
Qed.

(** C40. From the sender's memory to the receiver's.  Whatever bytes a [struct stat],
    a [struct statvfs] and a [struct dirent] of the sender consist of, the
    receiver's structures have the values of their fields after they have been
    unified and recovered; the block size and the number of blocks, for which
    [Ustat] has no room, the padding and the reserved bytes stay as the
    receiver had them.  A structure of the 64-bit interface has the same shape. *)
Theorem platform_roundtrip ju jv jd st vfs dir st0 vfs0 dir0 :
  blen ju = sizeof Ustat -> blen jv = sizeof Ustatvfs -> blen jd = sizeof Udirent ->
  blen st0 = sizeof host_stat -> blen vfs0 = sizeof host_statvfs ->
  blen dir = sizeof host_dirent -> blen dir0 = sizeof host_dirent ->
  let st' := store_stat (fall_stat (load_stat st0) (unify_stat ju (load_stat st))) st0 in
  let vfs' := store_statvfs (fall_statvfs (unify_statvfs jv (load_statvfs vfs))) vfs0 in
  (blen st' = blen st0 /\
   (forall f, f ∈ ["st_dev"; "st_ino"; "st_nlink"; "st_mode"; "st_uid"; "st_gid"; "st_rdev"; "st_size";
      "st_atim.tv_sec"; "st_atim.tv_nsec"; "st_mtim.tv_sec"; "st_mtim.tv_nsec"; "st_ctim.tv_sec";
      "st_ctim.tv_nsec"] -> getf host_stat f st' = getf host_stat f st) /\
   (forall f, f ∈ ["st_blksize"; "st_blocks"; "__pad0"] ->
      getf host_stat f st' = getf host_stat f st0) /\
   getb host_stat "__glibc_reserved" st' = getb host_stat "__glibc_reserved" st0) /\
  (blen vfs' = blen vfs0 /\ load_statvfs vfs' = load_statvfs vfs /\
   getb host_statvfs "__f_spare" vfs' = getb host_statvfs "__f_spare" vfs0) /\
  (exists u dir', unify_dirent jd (load_dirent dir) = Ok u /\ blen u = sizeof Udirent /\
     store_dirent (fall_dirent u) dir0 = Ok dir' /\ load_dirent dir' = load_dirent dir /\ blen dir' = blen dir0).
Proof.
  intros Hu Hv Hd H0 Hv0 Hdir Hd0. rewrite (stat_roundtrip ju (load_stat st0) _ (load_stat_wf st) Hu).
  rewrite statvfs_roundtrip by (done || apply load_statvfs_wf). cbv zeta. split_and!.
  - by apply received_stat.
  - by apply received_stat.
  - by apply received_stat.
  - by apply received_stat.
  - by apply load_store_statvfs; [apply load_statvfs_wf|].
  - by apply load_store_statvfs; [apply load_statvfs_wf|].
  - by apply load_store_statvfs; [apply load_statvfs_wf|].
  - destruct (dirent_roundtrip jd _ (load_dirent_wf dir Hdir) Hd) as (u & E & Hlu & Ef).
    destruct (load_store_dirent _ dir0 (load_dirent_wf dir Hdir) Hd0) as (dir' & E' & El & Hl).
    exists u, dir'. rewrite Ef. by split_and!.
Qed.

(** ** Witness *)

(** A receiver's [struct stat] full of ones. *)
Definition ones (n : nat) : list byte := replicate n Byte.xff.

Lemma platform_roundtrip_witness :
  let st' := store_stat (fall_stat (load_stat (ones 144)) (unify_stat (zeros 104) (load_stat (zeros 144)))) (ones 144) in
  blen st' = 144 /\ getf host_stat "st_mode" st' = 0 /\ getf host_stat "st_blksize" st' = -1 /\
  exists u dir', unify_dirent (zeros 280) (load_dirent (ones 280)) = Ok u /\
    store_dirent (fall_dirent u) (zeros 280) = Ok dir' /\ load_dirent dir' = load_dirent (ones 280).
Proof.
  pose proof (platform_roundtrip (zeros 104) (zeros 88) (zeros 280) (zeros 144) (zeros 112) (ones 280)
    (ones 144) (zeros 112) (zeros 280) eq_refl eq_refl eq_refl eq_refl eq_refl eq_refl eq_refl)
    as ((Hl & Hf & Hk & _) & _ & u & dir' & Eu & _ & Es & El & _).
  cbv zeta. split; [exact Hl|]. split; [|split; [|exists u, dir'; split; [exact Eu|split; [exact Es|exact El]]]].
  - rewrite Hf; [vm_compute; reflexivity|]. do 3 apply list_elem_of_further; apply list_elem_of_here.
  - rewrite Hk; [vm_compute; reflexivity|]. apply list_elem_of_here.
Defined.
