(* ===== verification/FuseServer.v ===== *)
(** * The FUSE operations (fuse_server.c)

    One definition per [fuse_*] function.  The functions share a body that the
    source repeats: build the request in a binary safe string, send it, wait for
    the reply header, return on a failure ([exchange]).  The calls of the log
    ([qLog*], Logging.v) are left out.  So is, from the definitions of the three
    functions that make it, the call of [strmode], which writes a mode as text for
    the log; [with_mode_text] puts it back, and [strmode_overflow] shows that the
    array for the text is too short.

    Local structures are not initialised by the source: [junk] gives the bytes
    they happen to contain, by variable and index, and the theorems hold for
    every [junk]. *)

From S2P Require Import Prelude Layout World Bss Netwrap Ustruct Prot Platform.
Local Open Scope Z_scope.

(** ** Types and constants of libfuse and of the platform *)

(** The members of [struct fuse_file_info] the program uses. *)
Record fuse_file_info : Type := FuseFileInfo {
  flags : Z;
  writepage : bool;
  direct_io : bool;
  fh : Z
}.

Definition set_fh (h : Z) (fi : fuse_file_info) : fuse_file_info :=
  FuseFileInfo (flags fi) (writepage fi) (direct_io fi) h.

Record timespec : Type := Timespec { tv_sec : Z; tv_nsec : Z }.

Definition O_EXCL : Z := 128.
Definition O_TRUNC : Z := 512.
Definition O_APPEND : Z := 1024.
Definition O_DSYNC : Z := 4096.
Definition O_ASYNC : Z := 8192.
Definition O_NOFOLLOW : Z := 131072.
Definition O_CLOEXEC : Z := 524288.
Definition O_SYNC : Z := 1052672.

(** [IFFLAG] *)
Definition has_flag (flg tst : Z) : bool := negb (Z.land flg tst =? 0).

(** ** Steps shared by the operations *)

(** [opuid ++] on a [uint32_t]. *)
Definition incr_opuid : io unit := pmodify (fun w => set_opuid (u32 (w_opuid w + 1)) w).

(** [WARN] and [WARNE]: release the mutex and return. *)
Definition WARN {A} (rtvl : A) : io A := q__Mutex_unlock;; mret rtvl.

(** [BSSAPP] for each part of a request. *)
Fixpoint append_all (bss : qBinarySafeString) (parts : list (list byte * Z))
  : io qBinarySafeString :=
  match parts with
  | [] => mret bss
  | (bs, len) :: parts' =>
      bss' ← q__bss_append bss bs (u32 len);
      append_all bss' parts'
  end.

Section operations.
Context (junk : string -> nat -> byte).

(** An uninitialised local variable [x] of type [st]. *)
Definition uninit (x : string) (st : cstruct) : list byte :=
  junk x <$> seq 0 (Z.to_nat (sizeof st)).

(** The header every request starts with. *)
Definition mk_head (opid size ouid : Z) : list byte :=
  let head := setf OpHdr "opid" opid (uninit "head" OpHdr) in
  let head := setf OpHdr "size" size head in
  setf OpHdr "ouid" ouid head.

(** Send the request and receive the header of the reply.  [inl] is the value to
    return at once: [-EBUSY] after a failed transfer, the negative return value
    of the peer; the mutex has been released then. *)
Definition exchange (parts : list (list byte * Z)) : io (Z + list byte) :=
  sendbuf ← qbss_constructor;
  sendbuf ← append_all sendbuf parts;
  r ← sockwrite sendbuf true;
  if negb (r =? 0) then WARN (inl (- EBUSY)) else
  '(r, rp) ← wait_reply (uninit "rp" RpHdr);
  if negb (r =? 0) then WARN (inl (- EBUSY)) else
  let rtvl := getf RpHdr "rtvl" rp in
  if rtvl <? 0 then WARN (inl rtvl) else
  mret (inr rp).

(** The end of the operations whose reply is just a header. *)
Definition finish_plain (x : Z + list byte) (result : list byte -> Z) : io Z :=
  match x with
  | inl e => mret e
  | inr rp =>
      if negb (getf RpHdr "size" rp =? sizeof RpHdr) then pabort else
      q__Mutex_unlock;;
      mret (result rp)
  end.

(** The end of the operations whose reply is a [struct RpOpen]. *)
Definition finish_open (x : Z + list byte) (fi : fuse_file_info)
  : io (Z * fuse_file_info) :=
  match x with
  | inl e => mret (e, fi)
  | inr rp =>
      if negb (getf RpHdr "size" rp =? sizeof RpHdr + sizeof RpOpen) then pabort else
      '(r, ro) ← re_read (uninit "ro" RpOpen) (sizeof RpOpen);
      if negb (r =? 0) then WARN (- EBUSY, fi) else
      let fi' := if getf RpOpen "ignore_above" ro =? 0
                 then set_fh (getf RpOpen "file_handle" ro) fi else fi in
      q__Mutex_unlock;;
      mret (0, fi')
  end.

(** ** Operations

    Each operation is the request it builds ([req_*], a list of buffers with the
    number of bytes to send of each) and the function itself ([fuse_*]). *)

Definition request : Type := list (list byte * Z).

(** Requests that consist of a header and a [struct OpRead] whose [filename] and
    [read_mode] only are set. *)
Definition req_read_name (fn : list byte) (mode ouid : Z) : res request :=
  let head := mk_head OPER_READ (sizeof OpHdr + sizeof OpRead) ouid in
  rd ← strcpyf OpRead "filename" fn (uninit "rd" OpRead);
  let rd := setf OpRead "read_mode" mode rd in
  mret [(head, sizeof OpHdr); (rd, sizeof OpRead)].

Definition req_getattr (fn : list byte) (ouid : Z) : res request :=
  req_read_name fn RD_STAT ouid.

(** [finish_*] is what follows the exchange. *)
Definition finish_getattr (x : Z + list byte) (st : stat) : io (Z * stat) :=
  match x with
  | inl e => mret (e, st)
  | inr rp =>
      if negb (getf RpHdr "size" rp =? sizeof RpHdr + sizeof Ustat) then pabort else
      '(r, ustat) ← re_read (uninit "ustat" Ustat) (sizeof Ustat);
      if negb (r =? 0) then WARN (- EBUSY, st) else
      let st' := fall_stat st ustat in
      q__Mutex_unlock;;
      mret (0, st')
  end.

Definition fuse_getattr (fn : list byte) (st : stat) : io (Z * stat) :=
  q__Mutex_lock;;
  incr_opuid;;
  w ← pget;
  parts ← lift_res (req_getattr fn (w_opuid w));
  x ← exchange parts;
  finish_getattr x st.

Definition req_readlink (fn : list byte) (ouid : Z) : res request :=
  req_read_name fn RD_LINK ouid.

(** [dest] is the caller's buffer of [buflen] bytes. *)
Definition finish_readlink (x : Z + list byte) (dest : list byte) (buflen : Z)
  : io (Z * list byte) :=
  match x with
  | inl e => mret (e, dest)
  | inr rp =>
      if sizeof RpHdr + buflen <? getf RpHdr "size" rp then pabort else
      '(r, dest') ← re_read dest (u64 (getf RpHdr "size" rp - sizeof RpHdr));
      if negb (r =? 0) then WARN (- EBUSY, dest') else
      q__Mutex_unlock;;
      mret (0, dest')
  end.

Definition fuse_readlink (fn dest : list byte) (buflen : Z) : io (Z * list byte) :=
  q__Mutex_lock;;
  incr_opuid;;
  w ← pget;
  parts ← lift_res (req_readlink fn (w_opuid w));
  x ← exchange parts;
  finish_readlink x dest buflen.

Definition req_mkdir (dn : list byte) (mode ouid : Z) : res request :=
  let head := mk_head OPER_OPEN (sizeof OpHdr + sizeof OpOpen) ouid in
  op ← strcpyf OpOpen "filename" dn (uninit "op" OpOpen);
  let op := setf OpOpen "flags" OPEN_MKDIR op in
  let op := setf OpOpen "mode" (u16 mode) op in
  mret [(head, sizeof OpHdr); (op, sizeof OpOpen)].

Definition fuse_mkdir (dn : list byte) (mode : Z) : io Z :=
  q__Mutex_lock;;
  incr_opuid;;
  w ← pget;
  parts ← lift_res (req_mkdir dn mode (w_opuid w));
  x ← exchange parts;
  finish_plain x (fun _ => 0).

Definition req_rmdir (dn : list byte) (ouid : Z) : res request :=
  let head := mk_head OPER_WRITE (sizeof OpHdr + sizeof OpWrit) ouid in
  wr ← strcpyf OpWrit "filename" dn (uninit "wr" OpWrit);
  let wr := setf OpWrit "write_mode" WR_RMDIR wr in
  mret [(head, sizeof OpHdr); (wr, sizeof OpWrit)].

Definition fuse_rmdir (dn : list byte) : io Z :=
  q__Mutex_lock;;
  incr_opuid;;
  w ← pget;
  parts ← lift_res (req_rmdir dn (w_opuid w));
  x ← exchange parts;
  finish_plain x (fun _ => 0).

(** The local [char srcbuf[FILENAME_LEN]] of [fuse_symlink]. *)
Definition Srcbuf : cstruct := [("srcbuf", CBytes FILENAME_LEN)].

(** The header announces [strlen(srcfn)] bytes after the structure and
    [FILENAME_LEN] are sent. *)
Definition req_symlink (fn srcfn : list byte) (ouid : Z) : res request :=
  let srcfnsz := u32 (strlen srcfn) in
  let head := mk_head OPER_WRITE (sizeof OpHdr + sizeof OpWrit + srcfnsz) ouid in
  wr ← strcpyf OpWrit "filename" fn (uninit "wr" OpWrit);
  srcbuf ← strcpyf Srcbuf "srcbuf" srcfn (uninit "srcbuf" Srcbuf);
  let wr := setf OpWrit "write_mode" WR_SYMLINK wr in
  mret [(head, sizeof OpHdr); (wr, sizeof OpWrit); (srcbuf, FILENAME_LEN)].

Definition fuse_symlink (fn srcfn : list byte) : io Z :=
  q__Mutex_lock;;
  incr_opuid;;
  w ← pget;
  parts ← lift_res (req_symlink fn srcfn (w_opuid w));
  x ← exchange parts;
  finish_plain x (fun _ => 0).

Definition req_chmod (fn : list byte) (mode ouid : Z) : res request :=
  let head := mk_head OPER_WRITE (sizeof OpHdr + sizeof OpWrit + 4) ouid in
  let wr := setf OpWrit "write_mode" WR_CHMOD (uninit "wr" OpWrit) in
  wr ← strcpyf OpWrit "filename" fn wr;
  mret [(head, sizeof OpHdr); (wr, sizeof OpWrit); (le_enc 4 mode, 4)].

(** The source neither takes the mutex nor increments [opuid] here, and
    releases the mutex at the end. *)
Definition fuse_chmod (fn : list byte) (mode : Z) : io Z :=
  w ← pget;
  parts ← lift_res (req_chmod fn mode (w_opuid w));
  x ← exchange parts;
  finish_plain x (fun _ => 0).

Definition req_truncate (fn : list byte) (pos ouid : Z) : res request :=
  let head := mk_head OPER_WRITE (sizeof OpHdr + sizeof OpWrit) ouid in
  wr ← strcpyf OpWrit "filename" fn (uninit "wr" OpWrit);
  let wr := setf OpWrit "write_mode" WR_TRUNC wr in
  let wr := setf OpWrit "offset" (u64 pos) wr in
  mret [(head, sizeof OpHdr); (wr, sizeof OpWrit)].

(** [head.ouid = opuid ++] increments a second time. *)
Definition fuse_truncate (fn : list byte) (pos : Z) : io Z :=
  q__Mutex_lock;;
  incr_opuid;;
  w ← pget;
  incr_opuid;;
  parts ← lift_res (req_truncate fn pos (w_opuid w));
  x ← exchange parts;
  finish_plain x (fun _ => 0).

(** The flags [fuse_open] and [fuse_creat] refuse. *)
Definition unsupported_flags : Z :=
  Z.lor O_APPEND (Z.lor O_ASYNC (Z.lor O_CLOEXEC (Z.lor O_DSYNC (Z.lor O_EXCL O_SYNC)))).

Definition or_if (b : bool) (bit fl : Z) : Z := if b then Z.lor fl bit else fl.

Definition req_open (fn : list byte) (fi : fuse_file_info) (ouid : Z) : res request :=
  let head := mk_head OPER_OPEN (sizeof OpHdr + sizeof OpOpen) ouid in
  op ← strcpyf OpOpen "filename" fn (uninit "op" OpOpen);
  let fl := or_if (has_flag (flags fi) O_TRUNC) OPEN_TRUNC 0 in
  let fl := or_if (has_flag (flags fi) O_NOFOLLOW) OPEN_NOFOLLOW fl in
  let fl := or_if (direct_io fi) OPEN_DIRECT fl in
  let op := setf OpOpen "flags" fl op in
  mret [(head, sizeof OpHdr); (op, sizeof OpOpen)].

Definition fuse_open (fn : list byte) (fi : fuse_file_info)
  : io (Z * fuse_file_info) :=
  q__Mutex_lock;;
  incr_opuid;;
  w ← pget;
  parts ← lift_res (req_open fn fi (w_opuid w));
  if writepage fi then WARN (- EINVAL, fi) else
  if has_flag (flags fi) unsupported_flags then WARN (- EINVAL, fi) else
  x ← exchange parts;
  finish_open x fi.

Definition req_read (fn : list byte) (bufsize pos : Z) (fi : fuse_file_info) (ouid : Z)
  : res request :=
  let head := mk_head OPER_READ (sizeof OpHdr + sizeof OpRead) ouid in
  rd ← strcpyf OpRead "filename" fn (uninit "rd" OpRead);
  let rd := setf OpRead "file_handle" (fh fi) rd in
  let rd := setf OpRead "read_mode" RD_REGULAR rd in
  let rd := setf OpRead "offset" (u64 pos) rd in
  let rd := setf OpRead "count" bufsize rd in
  mret [(head, sizeof OpHdr); (rd, sizeof OpRead)].

(** [buf] is the caller's buffer of [bufsize] bytes; the reply's size is compared
    with [bufsize] before its header is subtracted. *)
Definition finish_read (x : Z + list byte) (buf : list byte) (bufsize : Z)
  : io (Z * list byte) :=
  match x with
  | inl e => mret (e, buf)
  | inr rp =>
      let rtvl := getf RpHdr "rtvl" rp in
      if bufsize <? getf RpHdr "size" rp then pabort else
      if negb (getf RpHdr "size" rp =? u64 (sizeof RpHdr + rtvl)) then pabort else
      '(r, buf') ← re_read buf (u64 rtvl);
      if negb (r =? 0) then WARN (- EBUSY, buf') else
      q__Mutex_unlock;;
      mret (rtvl, buf')
  end.

Definition fuse_read (fn buf : list byte) (bufsize pos : Z) (fi : fuse_file_info)
  : io (Z * list byte) :=
  q__Mutex_lock;;
  incr_opuid;;
  w ← pget;
  parts ← lift_res (req_read fn bufsize pos fi (w_opuid w));
  x ← exchange parts;
  finish_read x buf bufsize.

Definition req_write (fn buf : list byte) (bufsize pos : Z) (fi : fuse_file_info)
    (ouid : Z) : res request :=
  let head := mk_head OPER_WRITE (sizeof OpHdr + sizeof OpWrit + bufsize) ouid in
  wr ← strcpyf OpWrit "filename" fn (uninit "wr" OpWrit);
  let wr := setf OpWrit "file_handle" (fh fi) wr in
  let wr := setf OpWrit "write_mode" WR_REGULAR wr in
  let wr := setf OpWrit "offset" pos wr in
  let wr := setf OpWrit "count" bufsize wr in
  mret [(head, sizeof OpHdr); (wr, sizeof OpWrit); (buf, bufsize)].

Definition fuse_write (fn buf : list byte) (bufsize pos : Z) (fi : fuse_file_info)
  : io Z :=
  q__Mutex_lock;;
  incr_opuid;;
  w ← pget;
  parts ← lift_res (req_write fn buf bufsize pos fi (w_opuid w));
  x ← exchange parts;
  finish_plain x (getf RpHdr "rtvl").

Definition req_statfs (fn : list byte) (ouid : Z) : res request :=
  req_read_name fn RD_STATFS ouid.

Definition finish_statfs (x : Z + list byte) (fstat : statvfs) : io (Z * statvfs) :=
  match x with
  | inl e => mret (e, fstat)
  | inr rp =>
      if negb (getf RpHdr "size" rp =? sizeof RpHdr + sizeof Ustatvfs) then pabort else
      '(r, uvfs) ← re_read (uninit "uvfs" Ustatvfs) (sizeof Ustatvfs);
      if negb (r =? 0) then WARN (- EBUSY, fstat) else
      let fstat' := fall_statvfs uvfs in
      q__Mutex_unlock;;
      mret (0, fstat')
  end.

Definition fuse_statfs (fn : list byte) (fstat : statvfs) : io (Z * statvfs) :=
  q__Mutex_lock;;
  incr_opuid;;
  w ← pget;
  parts ← lift_res (req_statfs fn (w_opuid w));
  x ← exchange parts;
  finish_statfs x fstat.

(** The request of [fuse_release] ([is_dir] is 0) and [fuse_releasedir] (1). *)
Definition req_close (is_dir : Z) (fi : fuse_file_info) (ouid : Z) : res request :=
  let head := mk_head OPER_CLOSE (sizeof OpHdr + sizeof OpClos) ouid in
  let cl := setf OpClos "file_handle" (fh fi) (uninit "cl" OpClos) in
  let cl := setf OpClos "is_dir" is_dir cl in
  mret [(head, sizeof OpHdr); (cl, sizeof OpClos)].

Definition fuse_release (fn : list byte) (fi : fuse_file_info) : io Z :=
  q__Mutex_lock;;
  incr_opuid;;
  w ← pget;
  parts ← lift_res (req_close 0 fi (w_opuid w));
  x ← exchange parts;
  finish_plain x (fun _ => 0).

Definition req_opendir (dn : list byte) (fi : fuse_file_info) (ouid : Z) : res request :=
  let head := mk_head OPER_OPEN (sizeof OpHdr + sizeof OpOpen) ouid in
  op ← strcpyf OpOpen "filename" dn (uninit "op" OpOpen);
  let fl := or_if (has_flag (flags fi) O_NOFOLLOW) OPEN_NOFOLLOW 0 in
  let fl := Z.lor fl OPEN_DIRECTORY in
  let op := setf OpOpen "flags" fl op in
  mret [(head, sizeof OpHdr); (op, sizeof OpOpen)].

Definition fuse_opendir (dn : list byte) (fi : fuse_file_info)
  : io (Z * fuse_file_info) :=
  q__Mutex_lock;;
  incr_opuid;;
  w ← pget;
  parts ← lift_res (req_opendir dn fi (w_opuid w));
  if writepage fi then WARN (- EINVAL, fi) else
  if has_flag (flags fi) (Z.lor O_TRUNC unsupported_flags) then WARN (- EINVAL, fi) else
  x ← exchange parts;
  finish_open x fi.

(** The zeroed [struct stat] passed to [fill] for a directory entry. *)
Definition entry_stat (ent : list byte) : stat :=
  Stat 0 (getf Udirent "d_ino" ent) (Z.shiftl (getf Udirent "d_type" ent) 12)
    0 0 0 0 0 0 0 0 0 0 0 0 0.

(** The loop over the entries of a reply: [fill buf name &st 0 0] for each until
    it returns a nonzero value.  The name is the C string that starts at
    [d_name], 19 bytes into the entry. *)
Fixpoint fill_loop {B} (fill : B -> list byte -> stat -> Z * B) (n : nat)
    (it : list byte) (buf : B) : B :=
  match n with
  | O => buf
  | S n' =>
      let '(stop, buf') := fill buf (cstr (bdrop 19 it)) (entry_stat it) in
      if negb (stop =? 0) then buf'
      else fill_loop fill n' (bdrop (sizeof Udirent) it) buf'
  end.

Definition req_readdir (dn : list byte) (offset : Z) (fi : fuse_file_info) (ouid : Z)
  : res request :=
  let head := mk_head OPER_READ (sizeof OpHdr + sizeof OpRead) ouid in
  rd ← strcpyf OpRead "filename" dn (uninit "rd" OpRead);
  let rd := setf OpRead "file_handle" (fh fi) rd in
  let rd := setf OpRead "read_mode" RD_DIR rd in
  let rd := setf OpRead "offset" offset rd in
  mret [(head, sizeof OpHdr); (rd, sizeof OpRead)].

Definition finish_readdir {B} (x : Z + list byte) (buf : B)
    (fill : B -> list byte -> stat -> Z * B) : io (Z * B) :=
  match x with
  | inl e => mret (e, buf)
  | inr rp =>
      let sz := getf RpHdr "size" rp in
      if sz <? sizeof RpHdr then pabort else
      repcont ← qbss_constructor;
      '(r, repcont) ← sockread repcont (s32 (sz - sizeof RpHdr));
      if negb (r =? 0) then qbss_destructor repcont;; WARN (- EBUSY, buf) else
      let dircnt := (sz - sizeof RpHdr) / sizeof Udirent in
      let buf' := fill_loop fill (Z.to_nat dircnt) (default [] (str repcont)) buf in
      qbss_destructor repcont;;
      q__Mutex_unlock;;
      mret (0, buf')
  end.

Definition fuse_readdir {B} (dn : list byte) (buf : B)
    (fill : B -> list byte -> stat -> Z * B) (offset : Z) (fi : fuse_file_info)
  : io (Z * B) :=
  q__Mutex_lock;;
  incr_opuid;;
  w ← pget;
  parts ← lift_res (req_readdir dn offset fi (w_opuid w));
  x ← exchange parts;
  finish_readdir x buf fill.

Definition fuse_releasedir (dn : list byte) (fi : fuse_file_info) : io Z :=
  q__Mutex_lock;;
  incr_opuid;;
  w ← pget;
  parts ← lift_res (req_close 1 fi (w_opuid w));
  x ← exchange parts;
  finish_plain x (fun _ => 0).

Definition fuse_init : io (option Z) := mret None.

Definition req_access (fn : list byte) (amode ouid : Z) : res request :=
  let head := mk_head OPER_WRITE (sizeof OpHdr + sizeof OpWrit + 4) ouid in
  let wr := setf OpWrit "write_mode" WR_ACCES (uninit "wr" OpWrit) in
  wr ← strcpyf OpWrit "filename" fn wr;
  mret [(head, sizeof OpHdr); (wr, sizeof OpWrit); (le_enc 4 amode, 4)].

(** No lock, as in [fuse_chmod]. *)
Definition fuse_access (fn : list byte) (amode : Z) : io Z :=
  w ← pget;
  parts ← lift_res (req_access fn amode (w_opuid w));
  x ← exchange parts;
  finish_plain x (fun _ => 0).

Definition req_unlink (fn : list byte) (ouid : Z) : res request :=
  let head := mk_head OPER_WRITE (sizeof OpHdr + sizeof OpWrit) ouid in
  let wr := setf OpWrit "write_mode" WR_REMOVE (uninit "wr" OpWrit) in
  wr ← strcpyf OpWrit "filename" fn wr;
  mret [(head, sizeof OpHdr); (wr, sizeof OpWrit)].

(** No lock, as in [fuse_chmod]. *)
Definition fuse_unlink (fn : list byte) : io Z :=
  w ← pget;
  parts ← lift_res (req_unlink fn (w_opuid w));
  x ← exchange parts;
  finish_plain x (fun _ => 0).

Definition req_creat (fn : list byte) (mode : Z) (fi : fuse_file_info) (ouid : Z)
  : res request :=
  let head := mk_head OPER_OPEN (sizeof OpHdr + sizeof OpOpen) ouid in
  op ← strcpyf OpOpen "filename" fn (uninit "op" OpOpen);
  let op := setf OpOpen "mode" mode op in
  let fl := or_if (has_flag (flags fi) O_TRUNC) OPEN_TRUNC 0 in
  let fl := or_if (has_flag (flags fi) O_NOFOLLOW) OPEN_NOFOLLOW fl in
  let fl := or_if (direct_io fi) OPEN_DIRECT fl in
  let fl := Z.lor fl OPEN_CREAT in
  let op := setf OpOpen "flags" fl op in
  mret [(head, sizeof OpHdr); (op, sizeof OpOpen)].

Definition fuse_creat (fn : list byte) (mode : Z) (fi : fuse_file_info)
  : io (Z * fuse_file_info) :=
  q__Mutex_lock;;
  incr_opuid;;
  w ← pget;
  parts ← lift_res (req_creat fn mode fi (w_opuid w));
  if writepage fi then WARN (- EINVAL, fi) else
  if has_flag (flags fi) unsupported_flags then WARN (- EINVAL, fi) else
  x ← exchange parts;
  finish_open x fi.

(** The flag bits of one time: "now", "leave" or neither. *)
Definition utime_flag (nsec now ign fl : Z) : Z :=
  if nsec =? UTIME_NOW then Z.lor fl now
  else if nsec =? UTIME_OMIT then Z.lor fl ign else fl.

Definition req_utimens (fn : list byte) (tv0 tv1 : timespec) (ouid : Z) : res request :=
  let head := mk_head OPER_WRITE (sizeof OpHdr + sizeof OpWrit + sizeof TimeModder) ouid in
  let wr := setf OpWrit "write_mode" WR_MODTIME (uninit "wr" OpWrit) in
  wr ← strcpyf OpWrit "filename" fn wr;
  let tmdr := setf TimeModder "atime" (tv_sec tv0) (uninit "tmdr" TimeModder) in
  let tmdr := setf TimeModder "atime_nsec" (tv_nsec tv0) tmdr in
  let tmdr := setf TimeModder "mtime" (tv_sec tv1) tmdr in
  let tmdr := setf TimeModder "mtime_nsec" (tv_nsec tv1) tmdr in
  let fl := utime_flag (tv_nsec tv0) TM_ANOW TM_AIGN 0 in
  let fl := utime_flag (tv_nsec tv1) TM_MNOW TM_MIGN fl in
  let tmdr := setf TimeModder "flags" fl tmdr in
  mret [(head, sizeof OpHdr); (wr, sizeof OpWrit); (tmdr, sizeof TimeModder)].

(** No lock, as in [fuse_chmod]. *)
Definition fuse_utimens (fn : list byte) (tv0 tv1 : timespec) : io Z :=
  w ← pget;
  parts ← lift_res (req_utimens fn tv0 tv1 (w_opuid w));
  x ← exchange parts;
  finish_plain x (fun _ => 0).

End operations.

(** ** The text of a mode

    [fuse_mkdir], [fuse_chmod] and [fuse_access] begin with [char modestr[11];
    strmode(mode, modestr);].  [strmode] is a function of libbsd: what it stores
    is a parameter. *)

Section mode_text.
Context (strmode : Z -> list byte).

Definition modestr (mode : Z) : res (list byte) :=
  memcpy (zeros 11) 0 (strmode mode) (blen (strmode mode)).

Definition with_mode_text {A} (mode : Z) (rest : io A) : io A :=
  lift_res (modestr mode);; rest.

End mode_text.
