(* ===== verification/Server.v ===== *)
(** * The operation table (server.c)

    [zhwkrfsp] binds the callbacks of libfuse to the functions of fuse_server.c;
    [fuse_loop] calls them one after the other, on one thread, until the file
    system is unmounted.  A call is a value of [fuse_op], a run of the server a
    list of calls. *)

From S2P Require Import Prelude Layout World Bss Netwrap Ustruct Prot FuseServer.
Local Open Scope Z_scope.

(** Names and attributes collected by the callback of [readdir]. *)
Abbreviation entries := (list (list byte * stat)).

(** A callback of libfuse with its arguments. *)
Inductive fuse_op : Type :=
| Getattr (fn : list byte) (st : stat)
| Readlink (fn dest : list byte) (buflen : Z)
| Mkdir (dn : list byte) (mode : Z)
| Rmdir (dn : list byte)
| Symlink (fn srcfn : list byte)
| Chmod (fn : list byte) (mode : Z)
| Truncate (fn : list byte) (pos : Z)
| Open (fn : list byte) (fi : fuse_file_info)
| Read (fn buf : list byte) (bufsize pos : Z) (fi : fuse_file_info)
| Write (fn buf : list byte) (bufsize pos : Z) (fi : fuse_file_info)
| Statfs (fn : list byte) (fstat : statvfs)
| Release (fn : list byte) (fi : fuse_file_info)
| Opendir (dn : list byte) (fi : fuse_file_info)
| Readdir (dn : list byte) (buf : entries) (fill : entries -> list byte -> stat -> Z * entries)
    (offset : Z) (fi : fuse_file_info)
| Releasedir (dn : list byte) (fi : fuse_file_info)
| Access (fn : list byte) (amode : Z)
| Create (fn : list byte) (mode : Z) (fi : fuse_file_info)
| Unlink (fn : list byte)
| Utimens (fn : list byte) (tv0 tv1 : timespec).

(** What a callback leaves in the caller's objects. *)
Inductive op_out : Type :=
| ONone
| OStat (st : stat)
| OBuf (buf : list byte)
| OInfo (fi : fuse_file_info)
| OVfs (vfs : statvfs)
| ODir (buf : entries).

Definition out_as {A} (f : A -> op_out) (m : io (Z * A)) : io (Z * op_out) :=
  '(r, a) ← m; mret (r, f a).

Definition out_none (m : io Z) : io (Z * op_out) := r ← m; mret (r, ONone).

Section table.
Context (junk : string -> nat -> byte).

Definition zhwkrfsp (op : fuse_op) : io (Z * op_out) :=
  match op with
  | Getattr fn st => out_as OStat (fuse_getattr junk fn st)
  | Readlink fn dest n => out_as OBuf (fuse_readlink junk fn dest n)
  | Mkdir dn mode => out_none (fuse_mkdir junk dn mode)
  | Rmdir dn => out_none (fuse_rmdir junk dn)
  | Symlink fn srcfn => out_none (fuse_symlink junk fn srcfn)
  | Chmod fn mode => out_none (fuse_chmod junk fn mode)
  | Truncate fn pos => out_none (fuse_truncate junk fn pos)
  | Open fn fi => out_as OInfo (fuse_open junk fn fi)
  | Read fn buf n pos fi => out_as OBuf (fuse_read junk fn buf n pos fi)
  | Write fn buf n pos fi => out_none (fuse_write junk fn buf n pos fi)
  | Statfs fn vfs => out_as OVfs (fuse_statfs junk fn vfs)
  | Release fn fi => out_none (fuse_release junk fn fi)
  | Opendir dn fi => out_as OInfo (fuse_opendir junk dn fi)
  | Readdir dn buf fill off fi => out_as ODir (fuse_readdir junk dn buf fill off fi)
  | Releasedir dn fi => out_none (fuse_releasedir junk dn fi)
  | Access fn amode => out_none (fuse_access junk fn amode)
  | Create fn mode fi => out_as OInfo (fuse_creat junk fn mode fi)
  | Unlink fn => out_none (fuse_unlink junk fn)
  | Utimens fn tv0 tv1 => out_none (fuse_utimens junk fn tv0 tv1)
  end.

(** The request a callback builds when [opuid] is [ouid]. *)
Definition op_request (op : fuse_op) (ouid : Z) : res request :=
  match op with
  | Getattr fn _ => req_getattr junk fn ouid
  | Readlink fn _ _ => req_readlink junk fn ouid
  | Mkdir dn mode => req_mkdir junk dn mode ouid
  | Rmdir dn => req_rmdir junk dn ouid
  | Symlink fn srcfn => req_symlink junk fn srcfn ouid
  | Chmod fn mode => req_chmod junk fn mode ouid
  | Truncate fn pos => req_truncate junk fn pos ouid
  | Open fn fi => req_open junk fn fi ouid
  | Read fn _ n pos fi => req_read junk fn n pos fi ouid
  | Write fn buf n pos fi => req_write junk fn buf n pos fi ouid
  | Statfs fn _ => req_statfs junk fn ouid
  | Release _ fi => req_close junk 0 fi ouid
  | Opendir dn fi => req_opendir junk dn fi ouid
  | Readdir dn _ _ off fi => req_readdir junk dn off fi ouid
  | Releasedir _ fi => req_close junk 1 fi ouid
  | Access fn amode => req_access junk fn amode ouid
  | Create fn mode fi => req_creat junk fn mode fi ouid
  | Unlink fn => req_unlink junk fn ouid
  | Utimens fn tv0 tv1 => req_utimens junk fn tv0 tv1 ouid
  end.

(** The calls [fuse_loop] makes, in order. *)
Fixpoint fuse_loop (ops : list fuse_op) : io (list (Z * op_out)) :=
  match ops with
  | [] => mret []
  | op :: ops' =>
      r ← zhwkrfsp op;
      rs ← fuse_loop ops';
      mret (r :: rs)
  end.

End table.

(** The operations that take the mutex and increment [opuid] first; the others
    do neither. *)
Definition locks (op : fuse_op) : bool :=
  match op with
  | Chmod _ _ | Access _ _ | Unlink _ | Utimens _ _ _ => false
  | _ => true
  end.

(** The bytes of a request, in the order they are appended. *)
Definition message (parts : request) : list byte :=
  concat ((fun p => btake p.2 p.1) <$> parts).
