(* ===== verification/FuseFacts.v ===== *)
(** * Facts about the request and reply exchange

    The lemmas the theorems about the FUSE operations rest on: what a program
    leaves alone ([frames]), what [exchange] sends and returns. *)

From S2P Require Import Prelude Layout World Bss Netwrap Ustruct Prot FuseServer Server.
Local Open Scope Z_scope.

(** ** Frames

    [frames m]: when [m] returns, the mutex and the operation counter are as
    they were, whatever the environment did. *)

Definition same_locks (w w' : world) : Prop :=
  w_mu w' = w_mu w /\ w_badunlock w' = w_badunlock w /\ w_opuid w' = w_opuid w.

Definition frames {A} (m : io A) : Prop :=
  forall w a w', m w = Ok (a, w') -> same_locks w w'.

#[export] Instance same_locks_preorder : PreOrder same_locks.
Proof.
  split; [done|]. intros w1 w2 w3 (? & ? & ?) (? & ? & ?). split_and!; congruence.
Qed.

Create HintDb frame discriminated.
#[export] Hint Constants Opaque : frame.

Lemma frames_ret {A} (a : A) : frames (mret a).
Proof. intros w b w' [= _ <-]. done. Qed.

Lemma frames_bind {A B} (m : io A) (f : A -> io B) :
  frames m -> (forall a, frames (f a)) -> frames (m ≫= f).
Proof.
  intros Hm Hf w b w'' (a & w' & E1 & E2)%prog_bind_inv. etrans; [by eapply Hm|].
  by eapply Hf.
Qed.

Lemma frames_lift {A} (r : res A) : frames (lift_res r).
Proof. intros w a w'. unfold lift_res. destruct r; try done. by intros [= _ <-]. Qed.

Lemma frames_modify f : (forall w, same_locks w (f w)) -> frames (pmodify f).
Proof. intros H w a w' [= _ <-]. apply H. Qed.

Lemma frames_get : frames (@pget world).
Proof. intros w a w' [= _ <-]. done. Qed.

Lemma frames_undef {A} : frames (@pundef world A).
Proof. done. Qed.

Lemma frames_if {A} (b : bool) (m1 m2 : io A) :
  frames m1 -> frames m2 -> frames (if b then m1 else m2).
Proof. by destruct b. Qed.

Lemma frames_malloc : frames malloc.
Proof. intros w a w'. unfold malloc. destruct (w_alloc w) as [|[]]; by intros [= _ <-]. Qed.

Lemma frames_free : frames free.
Proof. by apply frames_modify. Qed.

Lemma frames_SETERR e : frames (SETERR e).
Proof. by apply frames_modify. Qed.

Lemma frames_sys_read n : frames (sys_read n).
Proof.
  intros w a w'. unfold sys_read. destruct (w_rd w) as [|[|bs|] es]; try done.
  1,3: by intros [= _ <-].
  destruct (_ <=? _); by intros [= _ <-].
Qed.

Lemma frames_sys_write c n : frames (sys_write c n).
Proof.
  intros w a w'. unfold sys_write. destruct (_ <? _); [done|].
  destruct (w_wr w) as [|[|k|] es]; try done; by intros [= _ <-].
Qed.

#[export] Hint Resolve frames_ret frames_lift frames_get frames_undef frames_malloc frames_free frames_SETERR frames_sys_read
  frames_sys_write : frame.

(** [frame] proves [frames] of a program from those of its commands. *)
Ltac frame :=
  repeat (cbv beta zeta; match goal with
  | |- frames (_ ≫= _) => apply frames_bind; [|intros ?]
  | |- frames (if _ then _ else _) => apply frames_if
  | |- frames (match ?p with _ => _ end) => destruct p
  | |- frames _ => solve [auto with frame]
  end).

Lemma frames_qbss_constructor : frames qbss_constructor.
Proof. unfold qbss_constructor. frame. Qed.

Lemma frames_qbss_destructor b : frames (qbss_destructor b).
Proof. unfold qbss_destructor. frame. Qed.

Lemma frames_append b s n : frames (q__bss_append b s n).
Proof. unfold q__bss_append. frame. Qed.

#[export] Hint Resolve frames_qbss_constructor frames_qbss_destructor frames_append : frame.

Lemma frames_sockread b n : frames (sockread b n).
Proof.
  unfold sockread. apply frames_if; [apply frames_undef|].
  apply frames_bind; [apply frames_get|]. intros w. generalize (S (length (w_rd w))) as k.
  clear w. intros k. revert b n.
  induction k as [|k IH]; intros b n; [done|]. cbn [sockread_loop].
  unfold qStreamSocket_read. frame.
Qed.

Lemma frames_sockwrite b f : frames (sockwrite b f).
Proof.
  unfold sockwrite. destruct (str b) as [buf|]; [|apply frames_undef].
  apply frames_bind; [apply frames_get|]. intros w. generalize (S (S (length (w_wr w)))) as k.
  clear w. generalize 0. intros z k. revert z.
  induction k as [|k IH]; intros z; [done|]. cbn [sockwrite_loop].
  unfold qStreamSocket_write. frame.
Qed.

#[export] Hint Resolve frames_sockread frames_sockwrite : frame.

Lemma frames_recv d n : frames (recv d n).
Proof. unfold recv. frame. Qed.

Lemma frames_append_all parts b : frames (append_all b parts).
Proof. revert b. induction parts as [|[bs n] parts IH]; intros b; cbn [append_all]; frame. Qed.

#[export] Hint Resolve frames_recv frames_append_all : frame.

(** ** Release of the mutex

    [unlocks m]: when [m] returns, the mutex has been unlocked exactly once. *)

Definition unlocked_once (w w' : world) : Prop :=
  w_mu w' = false /\ w_badunlock w' = (if w_mu w then w_badunlock w else true) /\
  w_opuid w' = w_opuid w.

Definition unlocks {A} (m : io A) : Prop :=
  forall w a w', m w = Ok (a, w') -> unlocked_once w w'.

Lemma unlocks_frame_l {A B} (m : io A) (f : A -> io B) :
  frames m -> (forall a, unlocks (f a)) -> unlocks (m ≫= f).
Proof.
  intros Hm Hf w b w'' (a & w' & E1%Hm & E2%Hf)%prog_bind_inv.
  destruct E1 as (E & E' & E''), E2 as (? & ? & ?). rewrite E, E' in *.
  split_and!; congruence.
Qed.

Lemma unlocks_frame_r {A B} (m : io A) (f : A -> io B) :
  unlocks m -> (forall a, frames (f a)) -> unlocks (m ≫= f).
Proof.
  intros Hm Hf w b w'' (a & w' & E1%Hm & E2%Hf)%prog_bind_inv.
  destruct E1 as (? & ? & ?), E2 as (? & ? & ?). split_and!; congruence.
Qed.

Lemma unlocks_mutex : unlocks q__Mutex_unlock.
Proof.
  intros w a w'. unfold q__Mutex_unlock, pthread_mutex_unlock. prun.
  unfold unlocked_once. destruct (w_mu w) eqn:E; cbn [Z.eqb]; by intros [= <- <-].
Qed.

Lemma unlocks_abort {A} : unlocks (@pabort world A).
Proof. done. Qed.

Lemma unlocks_WARN {A} (v : A) : unlocks (WARN v).
Proof. apply unlocks_frame_r; [apply unlocks_mutex|]. intros ?. apply frames_ret. Qed.

(** [exchange] unlocks the mutex exactly when it tells its caller to return. *)
Lemma exchange_locks junk parts w x w' :
  exchange junk parts w = Ok (x, w') ->
  match x with
  | inl e => e < 0 /\ unlocked_once w w'
  | inr rp => 0 <= getf RpHdr "rtvl" rp /\ same_locks w w'
  end.
Proof.
  unfold exchange. intros (b & w1 & E1%frames_qbss_constructor & H)%prog_bind_inv.
  apply prog_bind_inv in H as (b2 & w2 & E2%frames_append_all & H).
  apply prog_bind_inv in H as (r & w3 & E3%frames_sockwrite & H).
  assert (Hw : same_locks w w3) by (do 2 (etrans; [eassumption|]); done).
  assert (Hun : forall v w1 w2, WARN (A:=Z + list byte) (inl v) w1 = Ok (x, w2) ->
    x = inl v /\ unlocked_once w1 w2).
  { intros v wa wb Hv. split; [|by eapply unlocks_WARN].
    by apply prog_bind_inv in Hv as (? & ? & _ & [= -> _]). }
  assert (Hst : forall wa wb, same_locks w wa -> unlocked_once wa wb -> unlocked_once w wb).
  { intros wa wb (E & E' & E'') (? & ? & ?). rewrite E, E' in *. split_and!; congruence. }
  destruct (negb (r =? 0)).
  { apply Hun in H as [-> H]. split; [done|by eapply Hst]. }
  apply prog_bind_inv in H as ([r' rp] & w4 & E4%frames_recv & H).
  assert (Hw4 : same_locks w w4) by (by etrans).
  destruct (negb (r' =? 0)).
  { apply Hun in H as [-> H]. split; [done|by eapply Hst]. }
  destruct (Z.ltb_spec (getf RpHdr "rtvl" rp) 0).
  { apply Hun in H as [-> H]. split; [done|by eapply Hst]. }
  by injection H as <- <-.
Qed.

Lemma unlocks_exchange {A} junk parts (k : Z + list byte -> io A) :
  (forall e, frames (k (inl e))) -> (forall rp, unlocks (k (inr rp))) ->
  unlocks (exchange junk parts ≫= k).
Proof.
  intros Hl Hr w b w'' (x & w' & E1%exchange_locks & E2)%prog_bind_inv.
  destruct x as [e|rp].
  - destruct E1 as [_ (? & ? & ?)]. apply Hl in E2 as (? & ? & ?). split_and!; congruence.
  - destruct E1 as [_ (E & E' & E'')]. apply Hr in E2 as (? & ? & ?).
    rewrite E, E' in *. split_and!; congruence.
Qed.

Create HintDb unlock discriminated.
#[export] Hint Constants Opaque : unlock.
#[export] Hint Resolve unlocks_mutex unlocks_abort unlocks_WARN : unlock.

(** [unlock] proves [unlocks] of the end of an operation. *)
Ltac unlock :=
  repeat (cbv beta zeta; match goal with
  | |- unlocks (exchange _ _ ≫= _) => apply unlocks_exchange; intros ?; [solve [frame]|]
  | |- unlocks (q__Mutex_unlock ≫= _) =>
      apply unlocks_frame_r; [apply unlocks_mutex|intros ?; solve [frame]]
  | |- unlocks (_ ≫= _) => apply unlocks_frame_l; [solve [frame]|intros ?]
  | |- unlocks (if ?b then _ else _) => destruct b
  | |- unlocks (match ?p with _ => _ end) => destruct p
  | |- unlocks _ => solve [auto with unlock]
  end).

(** ** A successful exchange *)

(** Total length and well-formedness of a request. *)
Definition parts_ok (parts : request) : Prop :=
  Forall (fun p => 0 <= p.2 <= blen p.1) parts /\ blen (message parts) < 2 ^ 30.

Lemma message_cons bs n parts : message ((bs, n) :: parts) = btake n bs ++ message parts.
Proof. done. Qed.

Lemma append_all_ok parts b w :
  bss_ok b -> mem_ok w -> Forall (fun p => 0 <= p.2 <= blen p.1) parts ->
  size b + blen (message parts) < 2 ^ 31 ->
  exists b', append_all b parts w = Ok (b', w) /\ bss_ok b' /\
    content b' = content b ++ message parts.
Proof.
  revert b. induction parts as [|[bs n] parts IH]; intros b Hb Hm Hp Hsz.
  { exists b. by rewrite app_nil_r. }
  apply Forall_cons_iff in Hp as [Hn Hp]. cbn [fst snd] in Hn.
  rewrite message_cons, blen_app, blen_btake in Hsz by done.
  pose proof (blen_nonneg (message parts)).
  assert (0 <= size b) by (destruct Hb as (? & _ & _ & ? & _); done).
  cbn [append_all]. rewrite (uwrap_small 32 n) by lia.
  destruct (q__bss_append_ok b bs n w) as (b1 & E1 & Hb1 & Hs1 & Hc1); [done|done|lia|lia|].
  rewrite (prog_bind_ok _ _ _ _ _ E1).
  destruct (IH b1) as (b2 & -> & Hb2 & Hc2); [done|done|done|lia|].
  exists b2. split_and!; [done|done|]. by rewrite Hc2, Hc1, message_cons, app_assoc.
Qed.

(** The header of the reply is the next 12 bytes of the stream. *)
Definition reply_hdr (w : world) : list byte := btake 12 (stream (w_rd w)).

(** The world once the request [msg] has been sent and the header of the reply
    received; [es] is what is left of the script of writes.  The buffer of the
    request is not freed. *)
Definition exchanged (msg : list byte) (es : list wr_event) (w : world) : world :=
  set_rd (skip 12 (w_rd w)) (set_wr es (set_tx (w_tx w ++ msg) (set_live (w_live w + 1) w))).

Lemma bdrop_uninit junk x st n : sizeof st <= n -> bdrop n (uninit junk x st) = [].
Proof.
  intros. unfold bdrop, uninit. apply drop_ge. rewrite length_fmap, length_seq. lia.
Qed.

Lemma blen_uninit junk x st : 0 <= sizeof st -> blen (uninit junk x st) = sizeof st.
Proof. intros. unfold uninit, blen. rewrite length_fmap, length_seq. lia. Qed.

(** What an environment that fails nothing gives: the whole request is sent, and
    the header of the reply decides. *)
Lemma exchange_ok junk parts w :
  mem_ok w -> wr_ok w -> parts_ok parts -> 12 <= blen (stream (w_rd w)) ->
  exists es, Forall accepting es /\
    exchange junk parts w =
      let rtvl := getf RpHdr "rtvl" (reply_hdr w) in
      if rtvl <? 0 then WARN (inl rtvl) (exchanged (message parts) es w)
      else Ok (inr (reply_hdr w), exchanged (message parts) es w).
Proof.
  intros Hm Hw [Hp Hlen] Hs. unfold exchange. pstep qbss_constructor_eq. cbv beta.
  set (w1 := set_live _ w).
  destruct (append_all_ok parts (Bss (Some (zeros 64)) 0 64) w1) as (b & E & Hb & Hc);
    [apply qbss_new_ok|done|done|cbn [size]; lia|].
  rewrite (prog_bind_ok _ _ _ _ _ E). cbv beta.
  destruct (sockwrite_ok b true w1) as (es & Hes & Ew); [done|done|].
  exists es. split; [done|]. rewrite content_new, app_nil_l in Hc. rewrite Hc in Ew.
  rewrite (prog_bind_ok _ _ _ _ _ Ew). cbv beta. cbn [Z.eqb negb].
  unfold wait_reply. rewrite sizeof_RpHdr.
  assert (H12 : 12 <= blen (uninit junk "rp" RpHdr)).
  { rewrite blen_uninit; rewrite ?sizeof_RpHdr; lia. }
  set (w2 := set_wr es _).
  rewrite (prog_bind_ok _ _ _ _ _ (recv_ok (uninit junk "rp" RpHdr) 12 w2 Hm ltac:(lia) H12 Hs)).
  cbv beta iota zeta. cbn [Z.eqb negb].
  rewrite bdrop_uninit, app_nil_r by (rewrite sizeof_RpHdr; lia).
  change (btake 12 (stream (w_rd w2))) with (reply_hdr w).
  by destruct (getf RpHdr "rtvl" (reply_hdr w) <? 0).
Qed.


(** The code an operation returns when a transfer fails; the mutex is free. *)
Definition failed (w w' : world) (sent : list byte) : Prop :=
  w_tx w' = w_tx w ++ sent /\ unlocked_once w w'.

Lemma WARN_eq {A} (v : A) w :
  exists w', WARN v w = Ok (v, w') /\ unlocked_once w w' /\ w_tx w' = w_tx w /\
    w_rd w' = w_rd w /\ w_live w' = w_live w /\ w_alloc w' = w_alloc w.
Proof.
  unfold WARN, q__Mutex_unlock, pthread_mutex_unlock, unlocked_once. prun.
  destruct (w_mu w) eqn:E; eexists; (split; [reflexivity|]); split_and!; done.
Qed.

(** Every outcome of [exchange], by the scripts of writes and reads: a write fails
    after a strict prefix of the request, and nothing is read; a write waits for
    ever; or the request goes out, and then comes the reply, or what the peer's
    silence, a read error or the end of the stream makes of it. *)
Lemma exchange_outcomes junk parts w :
  mem_ok w -> parts_ok parts ->
  match deliver_all (blen (message parts)) (w_wr w) with
  | WriteFailed n es => exists w',
      exchange junk parts w = Ok (inl (- EBUSY), w') /\ w_rd w' = w_rd w /\ w_live w' = w_live w /\
      failed w w' (btake (blen (message parts) - n) (message parts))
  | WriteBlocked => exchange junk parts w = Blocked
  | Sent es =>
      match bool_decide (12 <= blen (stream (w_rd w))), stop (w_rd w) with
      | false, None => exchange junk parts w = Blocked
      | false, Some RdEof => exchange junk parts w = Diverged
      | false, Some _ => exists w', exchange junk parts w = Ok (inl (- EBUSY), w') /\
          w_live w' = w_live w + 1 /\ failed w w' (message parts)
      | true, _ => exists w1, same_locks w w1 /\ w_tx w1 = w_tx w ++ message parts /\
          w_rd w1 = skip 12 (w_rd w) /\ mem_ok w1 /\
          exchange junk parts w =
            if getf RpHdr "rtvl" (reply_hdr w) <? 0
            then WARN (inl (getf RpHdr "rtvl" (reply_hdr w))) w1
            else Ok (inr (reply_hdr w), w1)
      end
  end.
Proof.
  intros Hm [Hp Hlen]. unfold exchange. pstep qbss_constructor_eq. cbv beta.
  set (w1 := set_live _ w).
  destruct (append_all_ok parts (Bss (Some (zeros 64)) 0 64) w1) as (b & E & Hb & Hc);
    [apply qbss_new_ok|done|done|cbn [size]; lia|].
  rewrite content_new, app_nil_l in Hc.
  rewrite (prog_bind_ok _ _ _ _ _ E). cbv beta.
  pose proof (sockwrite_eq b true w1 Hb) as Ew. rewrite Hc in Ew. change (w_wr w1) with (w_wr w) in Ew.
  assert (Hsz : size b = blen (message parts)).
  { rewrite <- Hc. destruct (bss_ok_block b Hb) as (buf & _ & ? & ? & ->). rewrite blen_btake; lia. }
  rewrite Hsz in Ew.
  destruct (deliver_all (blen (message parts)) (w_wr w)) as [es|n es|];
    [| |by apply prog_bind_blocked]; rewrite (prog_bind_ok _ _ _ _ _ Ew); cbv beta; cbn [Z.eqb negb].
  2:{ destruct (WARN_eq (A:=Z + list byte) (inl (- EBUSY))
        (write_failed true (btake (blen (message parts) - n) (message parts)) es w1))
        as (w' & Ew' & (? & Hbu' & ?) & Htx' & Hrd' & Hl' & _).
      exists w'. split_and!; [exact Ew'|exact Hrd'|rewrite Hl'; cbn; lia|]. split; [exact Htx'|]. by split_and!. }
  set (w2 := set_wr es _). assert (H12 : 12 <= blen (uninit junk "rp" RpHdr)).
  { rewrite blen_uninit; rewrite ?sizeof_RpHdr; lia. }
  unfold wait_reply. rewrite sizeof_RpHdr. assert (Hm2 : mem_ok w2) by done.
  assert (Hrd : w_rd w2 = w_rd w) by done.
  case_bool_decide as Hst.
  - rewrite <- Hrd in Hst.
    rewrite (prog_bind_ok _ _ _ _ _ (recv_ok (uninit junk "rp" RpHdr) 12 w2 Hm2 ltac:(lia) H12 Hst)).
    cbv beta iota zeta. cbn [Z.eqb negb].
    rewrite bdrop_uninit, app_nil_r by (rewrite sizeof_RpHdr; lia).
    exists (set_rd (skip 12 (w_rd w2)) w2). rewrite Hrd. fold (reply_hdr w).
    split_and!; [by split_and!|done|done|done|].
    by destruct (getf RpHdr "rtvl" (reply_hdr w) <? 0).
  - pose proof (recv_short (uninit junk "rp" RpHdr) 12 w2 Hm2 ltac:(lia) ltac:(rewrite Hrd; lia)) as Hrv.
    rewrite Hrd in Hrv.
    destruct (stop (w_rd w)) as [[|bs|]|]; [| |by apply prog_bind_diverged|by apply prog_bind_blocked];
    rewrite (prog_bind_ok _ _ _ _ _ Hrv); cbv beta iota; cbn [Z.eqb negb];
    (edestruct (WARN_eq (A:=Z + list byte) (inl (- EBUSY)))
        as (w' & Ew' & (? & Hbu' & Hou') & Htx' & _ & Hl' & _));
    exists w'; (split; [exact Ew'|]); (split; [exact Hl'|]); (split; [exact Htx'|]); by split_and!.
Qed.
