(* ===== verification/FuseOps.v ===== *)
(** * The common shape of the operations

    Every operation enters (mutex, operation number), builds its request, refuses
    it or exchanges it for a reply header, and finishes ([op_factor]).  The
    theorems of FuseSpec.v are proved on this shape, once for all operations. *)

From S2P Require Import Prelude Layout World Bss Netwrap Ustruct Prot FuseServer Server FuseFacts.
Local Open Scope Z_scope.

(** ** The four stages *)

(** Take the mutex and a new operation number; the result is the number the
    request carries. *)
Definition enter (op : fuse_op) : io Z :=
  if locks op then
    q__Mutex_lock;;
    incr_opuid;;
    w ← pget;
    (match op with Truncate _ _ => incr_opuid | _ => mret tt end);;
    mret (w_opuid w)
  else w ← pget; mret (w_opuid w).

(** The requests refused before anything is sent. *)
Definition refused (op : fuse_op) : bool :=
  match op with
  | Open _ fi | Create _ _ fi => writepage fi || has_flag (flags fi) unsupported_flags
  | Opendir _ fi => writepage fi || has_flag (flags fi) (Z.lor O_TRUNC unsupported_flags)
  | _ => false
  end.

(** The caller's object as it is before the call. *)
Definition out0 (op : fuse_op) : op_out :=
  match op with
  | Getattr _ st => OStat st
  | Readlink _ dest _ => OBuf dest
  | Open _ fi | Opendir _ fi | Create _ _ fi => OInfo fi
  | Read _ buf _ _ _ => OBuf buf
  | Statfs _ vfs => OVfs vfs
  | Readdir _ buf _ _ _ => ODir buf
  | _ => ONone
  end.

Section shape.
Context (junk : string -> nat -> byte).

Definition op_finish (op : fuse_op) (x : Z + list byte) : io (Z * op_out) :=
  match op with
  | Getattr _ st => out_as OStat (finish_getattr junk x st)
  | Readlink _ dest n => out_as OBuf (finish_readlink x dest n)
  | Open _ fi | Opendir _ fi | Create _ _ fi => out_as OInfo (finish_open junk x fi)
  | Read _ buf n _ _ => out_as OBuf (finish_read x buf n)
  | Write _ _ _ _ _ => out_none (finish_plain x (getf RpHdr "rtvl"))
  | Statfs _ vfs => out_as OVfs (finish_statfs junk x vfs)
  | Readdir _ buf fill _ _ => out_as ODir (finish_readdir x buf fill)
  | _ => out_none (finish_plain x (fun _ => 0))
  end.

(** From the request on. *)
Definition op_rest (op : fuse_op) (ouid : Z) : io (Z * op_out) :=
  parts ← lift_res (op_request junk op ouid);
  if refused op then WARN (- EINVAL, out0 op) else
  x ← exchange junk parts;
  op_finish op x.

Definition op_shape (op : fuse_op) : io (Z * op_out) := ouid ← enter op; op_rest op ouid.

End shape.

(** ** The factorisation *)

Lemma op_factor junk op w : zhwkrfsp junk op w = op_shape junk op w.
Proof.
  destruct op; unfold op_shape, op_rest, enter; cbn [zhwkrfsp locks op_request refused op_finish out0].
  all: unfold out_as, out_none, fuse_getattr, fuse_readlink, fuse_mkdir, fuse_rmdir, fuse_symlink,
    fuse_chmod, fuse_truncate, fuse_open, fuse_read, fuse_write, fuse_statfs, fuse_release,
    fuse_opendir, fuse_readdir, fuse_releasedir, fuse_access, fuse_creat, fuse_unlink,
    fuse_utimens, WARN, q__Mutex_lock, q__Mutex_unlock, pthread_mutex_lock, pthread_mutex_unlock,
    incr_opuid.
  all: unfold mbind, mret, prog_bind, prog_ret, pget, pmodify; cbv beta iota;
    try (destruct (w_mu w); [done|]); cbn [Z.eqb].
  all: match goal with |- context [lift_res ?r ?s] => destruct (lift_res r s) as [[parts ?]| | | |]; try done end.
  all: try (match goal with |- context [if writepage ?fi then _ else _] =>
    destruct (writepage fi); cbn [orb]; [by destruct (w_mu _)|];
    match goal with |- context [has_flag (flags fi) ?x] =>
      destruct (has_flag (flags fi) x); [by destruct (w_mu _)|] end end).
  all: match goal with |- context [exchange _ ?p ?w] => by destruct (exchange _ p w) as [[]| | | |] end.
Qed.

(** ** Entering *)

(** How far an operation advances [opuid]. *)
Definition op_steps (op : fuse_op) : Z :=
  match op with
  | Truncate _ _ => 2
  | _ => if locks op then 1 else 0
  end.

(** The operation number the request carries. *)
Definition op_ouid (op : fuse_op) (n : Z) : Z := if locks op then u32 (n + 1) else n.

(** The world in which the request is sent. *)
Definition entered (op : fuse_op) (w : world) : world :=
  if locks op then set_opuid (u32 (w_opuid w + op_steps op)) (set_mu true w) else w.

Lemma u32_succ n : u32 (u32 (n + 1) + 1) = u32 (n + 2).
Proof. unfold uwrap. rewrite Zplus_mod_idemp_l. f_equal. lia. Qed.

Lemma enter_ok op w :
  w_mu w = false -> enter op w = Ok (op_ouid op (w_opuid w), entered op w).
Proof.
  intros Hmu. unfold enter, entered, op_ouid, q__Mutex_lock, pthread_mutex_lock, incr_opuid.
  destruct op; cbn [locks op_steps]; prun; rewrite ?Hmu; try reflexivity.
  cbn. by rewrite u32_succ.
Qed.

Lemma op_entered junk op w :
  w_mu w = false ->
  zhwkrfsp junk op w = op_rest junk op (op_ouid op (w_opuid w)) (entered op w).
Proof.
  intros Hmu. rewrite op_factor. unfold op_shape.
  by rewrite (prog_bind_ok _ _ _ _ _ (enter_ok op w Hmu)).
Qed.

Lemma enter_held op w : w_mu w = true -> locks op = true -> enter op w = Blocked.
Proof.
  intros Hmu Hl. unfold enter. rewrite Hl. apply prog_bind_blocked.
  unfold q__Mutex_lock, pthread_mutex_lock. prun. by rewrite Hmu.
Qed.

(** ** Releasing *)

Lemma unlocks_finish_plain x f :
  match x with inl _ => frames (finish_plain x f) | inr _ => unlocks (finish_plain x f) end.
Proof. destruct x; unfold finish_plain; [frame|unlock]. Qed.

Section release.
Context (junk : string -> nat -> byte).

Lemma frames_op_finish op e : frames (op_finish junk op (inl e)).
Proof.
  destruct op; cbn [op_finish]; unfold out_as, out_none, finish_plain, finish_getattr,
    finish_readlink, finish_open, finish_read, finish_statfs, finish_readdir; frame.
Qed.

Lemma unlocks_out {A} (f : A -> op_out) m : unlocks m -> unlocks (out_as f m).
Proof. intros. apply unlocks_frame_r; [done|]. intros [r a]. frame. Qed.

Lemma unlocks_out_none m : unlocks m -> unlocks (out_none m).
Proof. intros. apply unlocks_frame_r; [done|]. intros r. frame. Qed.

Lemma unlocks_op_finish op rp : unlocks (op_finish junk op (inr rp)).
Proof.
  destruct op; cbn [op_finish]; (apply unlocks_out || apply unlocks_out_none);
  unfold finish_plain, finish_getattr, finish_readlink, finish_open, finish_read,
    finish_statfs, finish_readdir, re_read; cbv zeta; unlock.
Qed.

Lemma unlocks_op_rest op ouid : unlocks (op_rest junk op ouid).
Proof.
  unfold op_rest. apply unlocks_frame_l; [apply frames_lift|]. intros parts.
  destruct (refused op); [apply unlocks_WARN|].
  apply unlocks_exchange; [apply frames_op_finish|apply unlocks_op_finish].
Qed.

End release.
