(* ===== verification/FuseRequests.v ===== *)
(** * What the operations send

    The abstract content of the request of each operation ([carries]) and the
    theorems that the bytes sent have the protocol's framing, carry that content,
    and are taken apart again by the receiving functions of prot.c. *)

From S2P Require Import Prelude Layout World Bss Netwrap Ustruct Prot Platform FuseServer.
From S2P Require Import Server FuseFacts FuseOps.
Local Open Scope Z_scope.

(** ** Specification *)

(** The operation code of the header. *)
Definition op_code (op : fuse_op) : Z :=
  match op with
  | Mkdir _ _ | Open _ _ | Opendir _ _ | Create _ _ _ => OPER_OPEN
  | Getattr _ _ | Readlink _ _ _ | Read _ _ _ _ _ | Statfs _ _ | Readdir _ _ _ _ _ => OPER_READ
  | Release _ _ | Releasedir _ _ => OPER_CLOSE
  | _ => OPER_WRITE
  end.

(** The structure an operation code announces. *)
Definition code_struct (code : Z) : cstruct :=
  if code =? OPER_OPEN then OpOpen else if code =? OPER_READ then OpRead
  else if code =? OPER_WRITE then OpWrit else OpClos.

Abbreviation op_struct op := (code_struct (op_code op)).

(** The file name the request carries. *)
Definition op_name (op : fuse_op) : option (list byte) :=
  match op with
  | Release _ _ | Releasedir _ _ => None
  | Getattr fn _ | Readlink fn _ _ | Mkdir fn _ | Rmdir fn | Symlink fn _ | Chmod fn _
  | Truncate fn _ | Open fn _ | Read fn _ _ _ _ | Write fn _ _ _ _ | Statfs fn _
  | Opendir fn _ | Readdir fn _ _ _ _ | Access fn _ | Create fn _ _ | Unlink fn
  | Utimens fn _ _ => Some fn
  end.

(** What libfuse guarantees: path names fit the protocol's buffers, the buffer of
    a write has the size given.  The bound on the size keeps the message below
    [2^30] bytes. *)
Definition op_wf (op : fuse_op) : Prop :=
  (forall fn, op_name op = Some fn -> strlen fn < FILENAME_LEN) /\
  match op with
  | Write _ buf n _ _ => 0 <= n <= blen buf /\ n < 2 ^ 29
  | Symlink _ srcfn => strlen srcfn < FILENAME_LEN
  | _ => True
  end.

(** The number of bytes the header announces after the structure. *)
Definition op_announced (op : fuse_op) : Z :=
  match op with
  | Symlink _ srcfn => strlen srcfn
  | Chmod _ _ | Access _ _ => 4
  | Write _ _ n _ _ => n
  | Utimens _ _ _ => sizeof TimeModder
  | _ => 0
  end.

(** The number of bytes sent after the structure. *)
Definition op_extra (op : fuse_op) : Z :=
  match op with Symlink _ _ => FILENAME_LEN | _ => op_announced op end.

(** Bit [m] of [fl] is set exactly when [b]. *)
Definition flag_is (fl m : Z) (b : bool) : Prop := has_flag fl m = b.

(** The meaning of the structure [body] and of the bytes [extra] that follow it. *)
Definition carries (op : fuse_op) (body extra : list byte) : Prop :=
  (forall fn, op_name op = Some fn -> cstr (getb (op_struct op) "filename" body) = cstr fn) /\
  match op with
  | Getattr _ _ => getf OpRead "read_mode" body = RD_STAT
  | Readlink _ _ _ => getf OpRead "read_mode" body = RD_LINK
  | Statfs _ _ => getf OpRead "read_mode" body = RD_STATFS
  | Read _ _ n pos fi =>
      getf OpRead "read_mode" body = RD_REGULAR /\ getf OpRead "file_handle" body = u64 (fh fi) /\
      getf OpRead "offset" body = u64 pos /\ getf OpRead "count" body = u64 n
  | Readdir _ _ _ off fi =>
      getf OpRead "read_mode" body = RD_DIR /\ getf OpRead "file_handle" body = u64 (fh fi) /\
      getf OpRead "offset" body = u64 off
  | Mkdir _ mode =>
      getf OpOpen "flags" body = OPEN_MKDIR /\ getf OpOpen "mode" body = u16 mode
  | Open _ fi | Create _ _ fi =>
      let fl := getf OpOpen "flags" body in
      flag_is fl OPEN_TRUNC (has_flag (flags fi) O_TRUNC) /\
      flag_is fl OPEN_NOFOLLOW (has_flag (flags fi) O_NOFOLLOW) /\
      flag_is fl OPEN_DIRECT (direct_io fi) /\ flag_is fl OPEN_DIRECTORY false /\
      flag_is fl OPEN_MKDIR false /\
      match op with
      | Create _ mode _ => flag_is fl OPEN_CREAT true /\ getf OpOpen "mode" body = u16 mode
      | _ => flag_is fl OPEN_CREAT false
      end
  | Opendir _ fi =>
      let fl := getf OpOpen "flags" body in
      flag_is fl OPEN_NOFOLLOW (has_flag (flags fi) O_NOFOLLOW) /\
      flag_is fl OPEN_DIRECTORY true /\ flag_is fl OPEN_CREAT false /\ flag_is fl OPEN_MKDIR false
  | Rmdir _ => getf OpWrit "write_mode" body = WR_RMDIR
  | Unlink _ => getf OpWrit "write_mode" body = WR_REMOVE
  | Symlink _ srcfn =>
      getf OpWrit "write_mode" body = WR_SYMLINK /\ cstr extra = cstr srcfn
  | Chmod _ mode => getf OpWrit "write_mode" body = WR_CHMOD /\ le_dec extra = u32 mode
  | Access _ amode => getf OpWrit "write_mode" body = WR_ACCES /\ le_dec extra = u32 amode
  | Truncate _ pos =>
      getf OpWrit "write_mode" body = WR_TRUNC /\ getf OpWrit "offset" body = u64 pos
  | Write _ buf n pos fi =>
      getf OpWrit "write_mode" body = WR_REGULAR /\ getf OpWrit "file_handle" body = u64 (fh fi) /\
      getf OpWrit "offset" body = u64 pos /\ getf OpWrit "count" body = n /\ extra = btake n buf
  | Release _ fi =>
      getf OpClos "file_handle" body = u64 (fh fi) /\ getf OpClos "is_dir" body = 0
  | Releasedir _ fi =>
      getf OpClos "file_handle" body = u64 (fh fi) /\ getf OpClos "is_dir" body = 1
  | Utimens _ tv0 tv1 =>
      getf OpWrit "write_mode" body = WR_MODTIME /\
      getf TimeModder "atime" extra = s64 (tv_sec tv0) /\
      getf TimeModder "atime_nsec" extra = s64 (tv_nsec tv0) /\
      getf TimeModder "mtime" extra = s64 (tv_sec tv1) /\
      getf TimeModder "mtime_nsec" extra = s64 (tv_nsec tv1) /\
      let fl := getf TimeModder "flags" extra in
      flag_is fl TM_ANOW (tv_nsec tv0 =? UTIME_NOW) /\ flag_is fl TM_AIGN (tv_nsec tv0 =? UTIME_OMIT) /\
      flag_is fl TM_MNOW (tv_nsec tv1 =? UTIME_NOW) /\ flag_is fl TM_MIGN (tv_nsec tv1 =? UTIME_OMIT)
  end.

(** ** Lemmas *)

Section requests.
Context (junk : string -> nat -> byte).

Lemma fits_uninit x st : 0 <= sizeof st -> fits st (uninit junk x st).
Proof. intros. apply fits_exact. by apply blen_uninit. Qed.

Lemma blen_mk_head c s o : blen (mk_head junk c s o) = sizeof OpHdr.
Proof.
  assert (fits OpHdr (uninit junk "head" OpHdr)) by by apply fits_uninit.
  unfold mk_head. rewrite !blen_setf by fits. by apply blen_uninit.
Qed.

Lemma mk_head_fields c s o :
  getf OpHdr "opid" (mk_head junk c s o) = u32 c /\
  getf OpHdr "size" (mk_head junk c s o) = u32 s /\
  getf OpHdr "ouid" (mk_head junk c s o) = u32 o.
Proof.
  assert (fits OpHdr (uninit junk "head" OpHdr)) by by apply fits_uninit.
  unfold mk_head. cbv zeta. split_and!; layout; reflexivity.
Qed.

(** A request with its header, structure and extra bytes. *)
Definition anatomy (op : fuse_op) (ouid : Z) (parts : request) (body extra : list byte) : Prop :=
  let head := mk_head junk (op_code op) (sizeof OpHdr + sizeof (op_struct op) + op_announced op) ouid in
  message parts = head ++ body ++ extra /\
  blen body = sizeof (op_struct op) /\ blen extra = op_extra op /\
  Forall (fun p => 0 <= p.2 <= blen p.1) parts.

Lemma message_2 h n b m : message [(h, n); (b, m)] = btake n h ++ btake m b.
Proof. unfold message. cbn. by rewrite app_nil_r. Qed.

Lemma anatomy_2 op ouid body :
  blen body = sizeof (op_struct op) -> op_announced op = 0 -> op_extra op = 0 ->
  anatomy op ouid
    [(mk_head junk (op_code op) (sizeof OpHdr + sizeof (op_struct op)) ouid, sizeof OpHdr);
     (body, sizeof (op_struct op))] body [].
Proof.
  intros Hb Ha He. unfold anatomy. rewrite Ha, He, Z.add_0_r, message_2.
  rewrite !btake_all by (rewrite ?blen_mk_head; lia). rewrite app_nil_r.
  split_and!; try done.
  assert (0 <= sizeof (op_struct op)) by (rewrite <- Hb; apply blen_nonneg).
  repeat constructor; cbn [fst snd]; rewrite ?blen_mk_head; try lia; done.
Qed.

Lemma anatomy_3 op ouid body extra n :
  blen body = sizeof (op_struct op) -> 0 <= n <= blen extra -> op_extra op = n ->
  anatomy op ouid
    [(mk_head junk (op_code op) (sizeof OpHdr + sizeof (op_struct op) + op_announced op) ouid, sizeof OpHdr);
     (body, sizeof (op_struct op)); (extra, n)] body (btake n extra).
Proof.
  intros Hb Hn He. unfold anatomy. rewrite !message_cons. change (message []) with (@nil byte).
  rewrite app_nil_r, !(btake_all (sizeof _)) by (rewrite ?blen_mk_head; lia).
  rewrite blen_btake by lia. split_and!; try done.
  assert (0 <= sizeof (op_struct op)) by (rewrite <- Hb; apply blen_nonneg).
  repeat constructor; cbn [fst snd]; rewrite ?blen_mk_head; try lia; done.
Qed.

(** [copy_name] runs the [strcpy] of a request. *)
Ltac copy_name :=
  match goal with |- context [strcpyf ?st ?f ?s ?b] =>
    let b' := fresh "b" in let E := fresh "E" in
    destruct (strcpyf_ok st b f s) as [b' E];
    [eexists _, _; split; [reflexivity|assumption]|]; rewrite E;
    let H := fresh "Hb" in
    assert (H : blen b' = sizeof st)
      by (rewrite (blen_strcpyf st b ltac:(fits) _ _ _ E), ?blen_setf by fits; by apply blen_uninit);
    apply fits_exact in H as ?; unfold mbind, res_bind; cbv beta iota zeta
  end.

Ltac field_size := rewrite ?blen_setf by fits; assumption || (by apply blen_uninit).

(** [plain op]: the request of [op] has nothing after its structure. *)
Ltac plain op :=
  eexists _, _, []; split; [reflexivity|]; split;
  [apply (anatomy_2 op); [field_size|reflexivity|reflexivity]|].

(** [reads] reads the fields of the structure. *)
Ltac reads :=
  cbv [carries op_code];
  change (code_struct OPER_OPEN) with OpOpen; change (code_struct OPER_READ) with OpRead;
  change (code_struct OPER_WRITE) with OpWrit; change (code_struct OPER_CLOSE) with OpClos;
  split; [cbn [op_name]; intros ? [= <-] || intros ? [=]; layout; reflexivity|];
  cbv zeta; split_and?; layout; try reflexivity.

(** [followed op]: the request of [op] has bytes after its structure. *)
Ltac followed op :=
  eexists _, _, _; split; [reflexivity|]; split;
  [apply (anatomy_3 op); [field_size|cbn [op_announced];
    rewrite ?blen_setf, ?blen_le_enc, ?blen_uninit by (done || fits); (done || lia)|reflexivity]|].

(** [time_cases] decides the flags of a time modification. *)
Ltac time_cases tv0 tv1 :=
  unfold utime_flag;
  destruct (Z.eqb_spec (tv_nsec tv0) UTIME_NOW) as [E0|];
  [|destruct (Z.eqb_spec (tv_nsec tv0) UTIME_OMIT) as [E0|]];
  (destruct (Z.eqb_spec (tv_nsec tv1) UTIME_NOW) as [E1|];
  [|destruct (Z.eqb_spec (tv_nsec tv1) UTIME_OMIT) as [E1|]]);
  rewrite ?E0, ?E1; reflexivity.

Lemma btake_le_enc z : btake 4 (le_enc 4 z) = le_enc 4 z.
Proof. done. Qed.

(** [flag_cases fi] decides the flags of the request from those of [fi]. *)
Ltac flag_cases fi :=
  destruct (has_flag (flags fi) O_TRUNC), (has_flag (flags fi) O_NOFOLLOW), (direct_io fi);
  reflexivity.

Lemma symlink_carries fn srcfn ouid :
  strlen fn < FILENAME_LEN -> strlen srcfn < FILENAME_LEN ->
  exists parts body extra, req_symlink junk fn srcfn ouid = Ok parts /\
    anatomy (Symlink fn srcfn) ouid parts body extra /\ carries (Symlink fn srcfn) body extra.
Proof.
  intros Hfn Hsrc. pose proof (fits_uninit "wr" OpWrit ltac:(done)) as Hw.
  pose proof (fits_uninit "srcbuf" Srcbuf ltac:(done)) as Hs.
  unfold req_symlink. copy_name. copy_name.
  rewrite uwrap_small by (pose proof (blen_nonneg (cstr srcfn)); unfold strlen, FILENAME_LEN in *; lia).
  followed (Symlink fn srcfn). reads.
  change (btake FILENAME_LEN b) with (getb Srcbuf "srcbuf" b). layout. reflexivity.
Qed.

(** Every well-formed call has a request; its parts and what they carry. *)
Lemma op_request_carries op ouid :
  op_wf op -> exists parts body extra,
    op_request junk op ouid = Ok parts /\ anatomy op ouid parts body extra /\
    carries op body extra.
Proof.
  intros [Hname Hop].
  assert (Ho : fits OpOpen (uninit junk "op" OpOpen)) by by apply fits_uninit.
  assert (Hr : fits OpRead (uninit junk "rd" OpRead)) by by apply fits_uninit.
  assert (Hw : fits OpWrit (uninit junk "wr" OpWrit)) by by apply fits_uninit.
  assert (Hc : fits OpClos (uninit junk "cl" OpClos)) by by apply fits_uninit.
  destruct op as [fn st|fn dest n|dn mode|dn|fn srcfn|fn mode|fn pos|fn fi|fn buf n pos fi|fn buf n pos fi|fn vfs|fn fi
    |dn fi|dn buf fill off fi|dn fi|fn amode|fn mode fi|fn|fn tv0 tv1]; cbn [op_name] in Hname;
    try pose proof (Hname _ eq_refl) as Hn; clear Hname;
    cbn [op_request]; unfold req_getattr, req_readlink, req_statfs, req_read_name, req_mkdir,
      req_rmdir, req_chmod, req_truncate, req_open, req_read, req_write, req_close, req_opendir,
      req_readdir, req_access, req_creat, req_unlink, req_utimens; cbv zeta; try copy_name.
  - plain (Getattr fn st). reads.
  - plain (Readlink fn dest n). reads.
  - plain (Mkdir dn mode). reads. rewrite uwrap_uwrap; [done|lia].
  - plain (Rmdir dn). reads.
  - by apply symlink_carries.
  - followed (Chmod fn mode). reads. rewrite btake_le_enc. apply le_dec_enc.
  - plain (Truncate fn pos). reads. rewrite uwrap_uwrap; [done|lia].
  - plain (Open fn fi). reads; flag_cases fi.
  - plain (Read fn buf n pos fi). reads. rewrite uwrap_uwrap; [done|lia].
  - followed (Write fn buf n pos fi). reads. apply uwrap_small. lia.
  - plain (Statfs fn vfs). reads.
  - plain (Release fn fi). reads.
  - plain (Opendir dn fi). reads; flag_cases fi.
  - plain (Readdir dn buf fill off fi). reads.
  - plain (Releasedir dn fi). reads.
  - followed (Access fn amode). reads. rewrite btake_le_enc. apply le_dec_enc.
  - plain (Create fn mode fi). reads; flag_cases fi.
  - plain (Unlink fn). reads.
  - pose proof (fits_uninit "tmdr" TimeModder ltac:(done)) as Ht.
    followed (Utimens fn tv0 tv1).
    rewrite btake_all by (rewrite !blen_setf by fits; by apply Z.eq_le_incl, blen_uninit).
    reads; time_cases tv0 tv1.
Qed.
End requests.

(** ** Framing *)

Section framing.
Context (junk : string -> nat -> byte).

Lemma op_struct_size op :
  sizeof (op_struct op) = match op_code op with 0 => 4100 | 3 => 16 | _ => 4128 end.
Proof. by destruct op. Qed.

Lemma op_struct_bounds op : 16 <= sizeof (op_struct op) <= 4128.
Proof. rewrite op_struct_size. destruct op; cbn; lia. Qed.

Lemma op_extra_bounds op : op_wf op -> 0 <= op_announced op <= op_extra op /\ op_extra op < 2 ^ 29.
Proof.
  intros [_ H]. destruct op; cbn [op_announced op_extra] in *; rewrite ?sizeof_TimeModder; try lia.
  pose proof (blen_nonneg (cstr srcfn)). unfold strlen, FILENAME_LEN in *. lia.
Qed.

(** Lengths of the parts of a request. *)
Lemma anatomy_lengths op ouid parts body extra :
  anatomy junk op ouid parts body extra ->
  blen (message parts) = sizeof OpHdr + sizeof (op_struct op) + op_extra op.
Proof.
  intros (-> & Hb & He & _). rewrite !blen_app, blen_mk_head. lia.
Qed.

Lemma op_request_parts_ok op ouid parts :
  op_wf op -> op_request junk op ouid = Ok parts -> parts_ok parts.
Proof.
  intros Hwf E. destruct (op_request_carries junk op ouid Hwf) as (? & body & extra & E' & Ha & _).
  rewrite E in E'. injection E' as <-. pose proof (anatomy_lengths _ _ _ _ _ Ha) as Hl.
  destruct Ha as (_ & _ & _ & Hf). split; [done|].
  pose proof (op_struct_bounds op). pose proof (op_extra_bounds op Hwf).
  rewrite Hl, sizeof_OpHdr. lia.
Qed.

(** C8. Framing of the requests.  Every operation sends one message: a 12-byte
    header with its operation code and operation number, then the structure the
    code announces, then its extra bytes.  The size in the header is the
    number of bytes announced, which is the number of bytes sent for every
    operation but [symlink]; for [symlink] it falls short by [4096 -
    strlen(srcfn)] bytes, always at least one.  The README specifies this framing
    except in two places, in which this theorem is about the code: there the size
    includes all that follows the header for a [symlink] too, and an [unlink] has
    the name of the file once more behind the structure, filled to 4096 bytes,
    where the code sends nothing. *)
Theorem request_framed op ouid :
  op_wf op -> exists parts,
    op_request junk op ouid = Ok parts /\
    let msg := message parts in
    let head := btake (sizeof OpHdr) msg in
    getf OpHdr "opid" head = op_code op /\
    getf OpHdr "ouid" head = u32 ouid /\
    blen msg = sizeof OpHdr + sizeof (op_struct op) + op_extra op /\
    match op with
    | Symlink _ srcfn => getf OpHdr "size" head = blen msg - (FILENAME_LEN - strlen srcfn) /\
        getf OpHdr "size" head < blen msg
    | Unlink _ => getf OpHdr "size" head = blen msg /\ blen msg = sizeof OpHdr + sizeof OpWrit
    | _ => getf OpHdr "size" head = blen msg
    end.
Proof.
  intros Hwf. destruct (op_request_carries junk op ouid Hwf) as (parts & body & extra & E & Ha & _).
  exists parts. split; [done|]. cbv zeta. pose proof (anatomy_lengths _ _ _ _ _ Ha) as Hl.
  pose proof (op_struct_bounds op). pose proof (op_extra_bounds op Hwf).
  destruct Ha as (Hmsg & _). rewrite Hl, Hmsg.
  rewrite btake_app_eq by by rewrite blen_mk_head.
  destruct (mk_head_fields junk (op_code op)
    (sizeof OpHdr + sizeof (op_struct op) + op_announced op) ouid) as (-> & -> & ->).
  rewrite sizeof_OpHdr. rewrite (uwrap_small 32 (12 + _ + _)) by lia.
  split_and!; [by destruct op|done|done|].
  destruct op; try reflexivity; [|by split]. destruct Hwf as [_ Hsrc].
  cbn [op_extra op_announced] in *. lia.
Qed.

(** ** Receiving a request *)

(** A peer built on prot.c: the header, then the structure its code announces;
    the extra bytes of a write go to [buffer]. *)
Definition receive (buffer : list byte) : io (Z * list byte * list byte * list byte) :=
  '(r, h) ← wait_operation (zeros (sizeof OpHdr));
  if negb (r =? 0) then mret (r, h, [], buffer) else
  let code := getf OpHdr "opid" h in
  if code =? OPER_OPEN then '(r, b) ← as_open (zeros (sizeof OpOpen)); mret (r, h, b, buffer)
  else if code =? OPER_READ then '(r, b) ← as_read (zeros (sizeof OpRead)); mret (r, h, b, buffer)
  else if code =? OPER_WRITE then
    '(r, b, buf) ← as_write (zeros (sizeof OpWrit)) buffer (getf OpHdr "size" h - sizeof OpHdr);
    mret (r, h, b, buf)
  else '(r, b) ← as_close (zeros (sizeof OpClos)); mret (r, h, b, buffer).

Lemma btake_strlen s : btake (strlen s) s = cstr s.
Proof.
  unfold strlen, btake, blen. rewrite Nat2Z.id.
  induction s as [|b s IH]; cbn; [done|]. case_decide; cbn; [done|]. by rewrite IH.
Qed.

(** What the announced bytes carry. *)
Lemma carries_announced op body extra :
  carries op body extra -> blen extra = op_extra op ->
  carries op body (btake (op_announced op) extra).
Proof.
  intros Hc He. destruct op; try (rewrite btake_all by (rewrite He; done); exact Hc).
  destruct Hc as [Hn [Hm Hs]]. split; [exact Hn|split; [exact Hm|]].
  cbn [op_announced]. unfold strlen. rewrite <- Hs. change (blen (cstr extra)) with (strlen extra).
  by rewrite btake_strlen, cstr_cstr.
Qed.

(** A structure received into a zeroed variable of its size. *)
Lemma recv_struct st w :
  mem_ok w -> 0 <= sizeof st < 2 ^ 31 -> sizeof st <= blen (stream (w_rd w)) ->
  recv (zeros (sizeof st)) (sizeof st) w =
    Ok ((0, btake (sizeof st) (stream (w_rd w))), set_rd (skip (sizeof st) (w_rd w)) w).
Proof.
  intros Hm Hsz Hs. rewrite recv_ok by (rewrite ?blen_zeros; lia || done).
  unfold bdrop, zeros. by rewrite drop_ge, app_nil_r by (rewrite length_replicate; lia).
Qed.

End framing.

Section received.
Context (junk : string -> nat -> byte).

(** What [receive] does once the header is known. *)
Lemma receive_header buffer head tl w :
  mem_ok w -> blen head = sizeof OpHdr -> stream (w_rd w) = head ++ tl ->
  exists w1, mem_ok w1 /\ stream (w_rd w1) = tl /\ w_rd w1 = skip (sizeof OpHdr) (w_rd w) /\
  receive buffer w =
    (let code := getf OpHdr "opid" head in
     if code =? OPER_OPEN then
       '(r, b) ← as_open (zeros (sizeof OpOpen)); mret (r, head, b, buffer)
     else if code =? OPER_READ then
       '(r, b) ← as_read (zeros (sizeof OpRead)); mret (r, head, b, buffer)
     else if code =? OPER_WRITE then
       '(r, b, buf) ← as_write (zeros (sizeof OpWrit)) buffer (getf OpHdr "size" head - sizeof OpHdr);
       mret (r, head, b, buf)
     else '(r, b) ← as_close (zeros (sizeof OpClos)); mret (r, head, b, buffer)) w1.
Proof.
  intros Hm Hh Hs. rewrite sizeof_OpHdr in Hh. pose proof (blen_nonneg tl).
  assert (Hl : 12 <= blen (stream (w_rd w))) by (rewrite Hs, blen_app; lia).
  exists (set_rd (skip (sizeof OpHdr) (w_rd w)) w).
  split; [done|]. split.
  { cbn [w_rd set_rd]. rewrite sizeof_OpHdr, skip_stream, Hs by lia. apply bdrop_app_eq. lia. }
  split; [done|]. unfold receive, wait_operation.
  rewrite (prog_bind_ok _ _ _ _ _ (recv_struct OpHdr w Hm ltac:(rewrite sizeof_OpHdr; lia) ltac:(rewrite sizeof_OpHdr; lia))).
  cbv beta iota. cbn [Z.eqb negb]. rewrite Hs, btake_app_eq by (rewrite sizeof_OpHdr; lia). done.
Qed.

Lemma recv_whole st head body extra tl buffer n m w :
  mem_ok w -> 0 <= sizeof st < 2 ^ 31 -> blen body = sizeof st ->
  stream (w_rd w) = body ++ tl -> n = 0 -> m = 0 ->
  (x ← recv (zeros (sizeof st)) (sizeof st); let '(r, b) := x in mret (r, head, b, buffer)) w =
  Ok ((0, head, body, btake n extra ++ bdrop m buffer),
      set_rd (skip (sizeof st + n) (w_rd w)) w) :> res (Z * list byte * list byte * list byte * world).
Proof.
  intros Hm Hst Hb Hs -> ->. pose proof (blen_nonneg tl).
  rewrite (prog_bind_ok _ _ _ _ _ (recv_struct st w Hm Hst ltac:(rewrite Hs, blen_app; lia))).
  rewrite Hs, btake_app_eq, Z.add_0_r by lia. done.
Qed.

Lemma bdrop_zeros n : bdrop n (zeros n) = [].
Proof. unfold bdrop, zeros. apply drop_ge. by rewrite length_replicate. Qed.

Lemma op_code_cases op :
  op_code op = OPER_WRITE \/
  (op_code op = OPER_OPEN \/ op_code op = OPER_READ \/ op_code op = OPER_CLOSE) /\
    op_announced op = 0.
Proof. destruct op; cbn; auto. Qed.

(** The receiving functions take a request apart. *)
Lemma receive_request op ouid parts buffer rest w :
  op_wf op -> op_request junk op ouid = Ok parts -> mem_ok w ->
  stream (w_rd w) = message parts ++ rest -> op_announced op <= blen buffer ->
  exists h body extra left w',
    receive buffer w =
      Ok ((0, h, body, extra ++ bdrop (op_announced op) buffer), w') /\
    getf OpHdr "opid" h = op_code op /\ getf OpHdr "ouid" h = u32 ouid /\
    carries op body extra /\ blen extra = op_announced op /\
    stream (w_rd w') = left ++ rest /\ mem_ok w' /\
    blen left = match op with Symlink _ srcfn => FILENAME_LEN - strlen srcfn | _ => 0 end.
Proof.
  intros Hwf E Hm Hs Hbuf.
  destruct (op_request_carries junk op ouid Hwf) as (? & body & extra & E' & Ha & Hc).
  rewrite E in E'. injection E' as <-. destruct Ha as (Hmsg & Hb & He & _).
  rewrite Hmsg, <- !app_assoc in Hs.
  destruct (mk_head_fields junk (op_code op)
    (sizeof OpHdr + sizeof (op_struct op) + op_announced op) ouid) as (Hid & Hsz & Hou).
  set (head := mk_head _ _ _ _) in *.
  destruct (receive_header buffer head _ w Hm (blen_mk_head junk _ _ _) Hs)
    as (w1 & Hm1 & Hs1 & Hr1 & ->). cbv zeta.
  pose proof (op_extra_bounds op Hwf) as [[Ha1 Ha2] Ha3]. pose proof (op_struct_bounds op) as Hst.
  pose proof (blen_nonneg rest) as Hrest.
  assert (Hlen : blen (stream (w_rd w1)) = sizeof (op_struct op) + op_extra op + blen rest)
    by (rewrite Hs1, !blen_app; lia).
  exists head, body, (btake (op_announced op) extra), (bdrop (op_announced op) extra).
  exists (set_rd (skip (sizeof (op_struct op) + op_announced op) (w_rd w1)) w1).
  split; [|split_and!; [by rewrite Hid; destruct op|done|by apply carries_announced
    |apply blen_btake; lia| |done|]].
  2:{ cbn [w_rd set_rd]. rewrite skip_stream by lia. rewrite Hs1.
      rewrite <- (btake_bdrop (op_announced op) extra) at 1. rewrite <- !app_assoc.
      rewrite app_assoc. apply bdrop_app_eq. rewrite blen_app, blen_btake by lia. lia. }
  2:{ destruct op; cbn [op_announced op_extra] in *; blia. }
  assert (Hstream : btake (sizeof (op_struct op)) (stream (w_rd w1)) = body)
    by (rewrite Hs1; apply btake_app_eq; lia).
  rewrite Hid, Hsz. clearbody head.
  destruct (op_code_cases op) as [Ec|[[Ec|[Ec|Ec]] Ha0]]; rewrite Ec in *.
  - change (code_struct OPER_WRITE) with OpWrit in *. cbn [u32 Z.eqb Pos.eqb].
    change ((x ← as_write (zeros (sizeof OpWrit)) buffer
      (u32 (sizeof OpHdr + sizeof OpWrit + op_announced op) - sizeof OpHdr);
      let '(r, b, buf) := x in mret (r, head, b, buf)) w1 = 
      Ok (0, head, body, btake (op_announced op) extra ++ bdrop (op_announced op) buffer,
        set_rd (skip (sizeof OpWrit + op_announced op) (w_rd w1)) w1)).
    rewrite sizeof_OpHdr, uwrap_small by lia.
    replace (12 + sizeof OpWrit + op_announced op - 12) with (sizeof OpWrit + op_announced op) by lia.
    erewrite prog_bind_ok by (apply as_write_ok;
      [done|lia|rewrite Hlen; lia|rewrite blen_zeros; lia|lia]).
    rewrite Hstream. replace (sizeof OpWrit + op_announced op - sizeof OpWrit) with (op_announced op) by lia.
    rewrite (bdrop_zeros (sizeof OpWrit)), app_nil_r. unfold bslice.
    rewrite Hs1, bdrop_app_eq by lia. unfold btake. rewrite take_app_le by blia. done.
  - by apply (recv_whole OpOpen head body extra (extra ++ rest)).
  - by apply (recv_whole OpRead head body extra (extra ++ rest)).
  - by apply (recv_whole OpClos head body extra (extra ++ rest)).
Qed.

(** C7. Round trip of a request.  A peer that runs [wait_operation] and the
    receiving function of the code it finds gets back what the operation meant:
    the operation code and number, the fields the operation set, and the extra
    bytes announced, whatever the uninitialised bytes of the sender's structures
    are and however the stream is cut into packets.  It consumes exactly the
    request, except for [symlink], whose last [4096 - strlen(srcfn)] bytes stay
    in front of the next request. *)
Theorem request_received op ouid parts buffer rest w :
  op_wf op -> op_request junk op ouid = Ok parts -> mem_ok w ->
  stream (w_rd w) = message parts ++ rest -> op_announced op <= blen buffer ->
  exists h body extra left w',
    receive buffer w =
      Ok ((0, h, body, extra ++ bdrop (op_announced op) buffer), w') /\
    getf OpHdr "opid" h = op_code op /\ getf OpHdr "ouid" h = u32 ouid /\
    carries op body extra /\ blen extra = op_announced op /\
    stream (w_rd w') = left ++ rest /\
    blen left = match op with Symlink _ srcfn => FILENAME_LEN - strlen srcfn | _ => 0 end.
Proof.
  intros Hwf E Hm Hs Hb. destruct (receive_request op ouid parts buffer rest w)
    as (h & body & extra & left & w' & ? & ? & ? & ? & ? & ? & _ & ?); [done..|].
  by exists h, body, extra, left, w'.
Qed.

End received.
(** ** Witnesses *)

Definition nojunk : string -> nat -> byte := fun _ _ => NUL.

(** [symlink("/a", "b")] *)
Definition symlink_ex : fuse_op := Symlink [Byte.x2f; Byte.x61] [Byte.x62].

Lemma symlink_ex_wf : op_wf symlink_ex.
Proof. split; [intros fn [= <-]|]; reflexivity. Qed.

Lemma request_framed_witness :
  exists parts, op_request nojunk symlink_ex 7 = Ok parts /\
    getf OpHdr "ouid" (btake (sizeof OpHdr) (message parts)) = 7 /\
    getf OpHdr "size" (btake (sizeof OpHdr) (message parts)) < blen (message parts).
Proof.
  destruct (request_framed nojunk symlink_ex 7 symlink_ex_wf) as (parts & E & _ & Hou & _ & _ & Hlt).
  exists parts. split; [exact E|]. split; [exact Hou|exact Hlt].
Defined.

Lemma request_received_witness :
  exists parts, op_request nojunk symlink_ex 7 = Ok parts /\
  exists h body extra left w',
    receive (zeros 1) (start [RdData (message parts)]) = Ok ((0, h, body, extra ++ []), w') /\
    carries symlink_ex body extra /\ stream (w_rd w') = left ++ [] /\ blen left = 4095.
Proof.
  destruct (op_request_carries nojunk symlink_ex 7 symlink_ex_wf) as (parts & body & extra & E & _).
  exists parts. split; [exact E|].
  destruct (request_received nojunk symlink_ex 7 parts (zeros 1) [] (start [RdData (message parts)])
    symlink_ex_wf E eq_refl eq_refl ltac:(reflexivity || done))
    as (h & b & e & left & w' & Hr & _ & _ & Hc & _ & Hs & Hl).
  exists h, b, e, left, w'. split_and!; [exact Hr|exact Hc|exact Hs|exact Hl].
Defined.
