(* ===== verification/FuseSpec.v ===== *)
(** * What the operations return

    The theorems about the FUSE callbacks as the kernel sees them: the discipline
    of the mutex and of the operation numbers over a whole session, the result of
    every operation for every behaviour of the peer, and the values the peer's
    replies turn into. *)

From S2P Require Import Prelude Layout World Bss Netwrap Ustruct Prot Platform FuseServer.
From S2P Require Import Server FuseFacts FuseOps FuseRequests.
Local Open Scope Z_scope.

(** ** The mutex and the operation numbers *)

(** The world after an unlock. *)
Definition released (w : world) : world :=
  if w_mu w then set_mu false w else set_badunlock true w.

Lemma unlock_eq w : q__Mutex_unlock w = Ok (tt, released w).
Proof. unfold q__Mutex_unlock, pthread_mutex_unlock, released. prun. by destruct (w_mu w). Qed.

Lemma WARN_released {A} (v : A) w : WARN v w = Ok (v, released w).
Proof. unfold WARN. by rewrite (prog_bind_ok _ _ _ _ _ (unlock_eq w)). Qed.

Definition opuid_ok (w : world) : Prop := 0 <= w_opuid w < 2 ^ 32.

Lemma op_step_locks junk op w r w' :
  w_mu w = false -> opuid_ok w -> zhwkrfsp junk op w = Ok (r, w') ->
  w_mu w' = false /\ w_badunlock w' = (if locks op then w_badunlock w else true) /\
  w_opuid w' = u32 (w_opuid w + op_steps op).
Proof.
  intros Hmu Hou. rewrite (op_entered junk op w Hmu). intros (? & Hb & Ho)%unlocks_op_rest.
  unfold entered, opuid_ok in *. destruct (locks op) eqn:El.
  - split_and!; done.
  - assert (op_steps op = 0) as -> by by destruct op. cbn in *. rewrite Hmu in Hb.
    rewrite Z.add_0_r, uwrap_small by done. done.
Qed.

(** The mutex discipline of one operation.  Called with the mutex free, an
    operation that returns leaves the mutex free, on every path through it and
    whatever the peer, the allocator and the socket did; it has unlocked a mutex
    it held, unless it is one of the four operations that never lock it ([chmod],
    [access], [unlink], [utimens]), which always unlock a free mutex.  Operation
    numbers advance by one modulo 2^32, by two for [truncate], and not at all
    for those four. *)
Theorem op_discipline junk op w r w' :
  w_mu w = false -> opuid_ok w -> zhwkrfsp junk op w = Ok (r, w') ->
  w_mu w' = false /\ w_badunlock w' = (if locks op then w_badunlock w else true) /\
  w_opuid w' = u32 (w_opuid w + op_steps op).
Proof. apply op_step_locks. Qed.

Fixpoint total_steps (ops : list fuse_op) : Z :=
  match ops with [] => 0 | op :: ops' => op_steps op + total_steps ops' end.

(** C1. The mutex discipline of a session.  However many operations the event
    loop has served, the mutex is free, it has been unlocked only while held if
    and only if every operation served takes it, and the operation number is
    the initial one plus the steps of the operations, modulo 2^32. *)
Theorem session_discipline junk ops w rs w' :
  w_mu w = false -> opuid_ok w -> fuse_loop junk ops w = Ok (rs, w') ->
  w_mu w' = false /\
  w_badunlock w' = (if forallb locks ops then w_badunlock w else true) /\
  w_opuid w' = u32 (w_opuid w + total_steps ops) /\ length rs = length ops.
Proof.
  revert w rs. induction ops as [|op ops IH]; intros w rs Hmu Hou; cbn [fuse_loop].
  { intros [= <- <-]. cbn. rewrite Z.add_0_r, uwrap_small by done. done. }
  intros (r & w1 & (Hmu1 & Hbu1 & Hou1)%op_step_locks & E)%prog_bind_inv; [|done..].
  apply prog_bind_inv in E as (rs' & w2 & E2 & [= <- <-]).
  destruct (IH w1 rs' Hmu1) as (? & Hbu2 & Hou2 & Hl); [unfold opuid_ok; rewrite Hou1; by apply uwrap_range|done|].
  split_and!; [done| | |cbn; by rewrite Hl].
  - rewrite Hbu2, Hbu1. cbn. by destruct (locks op), (forallb locks ops).
  - rewrite Hou2, Hou1. cbn [total_steps]. unfold uwrap. rewrite Zplus_mod_idemp_l. f_equal. lia.
Qed.

(** The mutex is not recursive: called while it is held, an operation that
    takes it never returns. *)
Theorem op_deadlock junk op w :
  w_mu w = true -> locks op = true -> zhwkrfsp junk op w = Blocked.
Proof.
  intros Hmu Hl. rewrite op_factor. apply prog_bind_blocked. by apply enter_held.
Qed.

(** ** The text of a mode *)

(** The call of [strmode] does nothing else if the text fits the array; libbsd
    documents it to store eleven characters and a terminating NUL, and then the
    three operations that call it are undefined behaviour from their first
    statement on.  The theorems about them are about what is left of them when
    the twelfth byte does no harm. *)
Theorem strmode_overflow strmode junk w :
  (forall mode (A : Type) (rest : io A),
     blen (strmode mode) <= 11 -> with_mode_text strmode mode rest w = rest w) /\
  ((forall mode, blen (strmode mode) = 12) -> forall fn mode,
     with_mode_text strmode mode (fuse_mkdir junk fn mode) w = Undef /\
     with_mode_text strmode mode (fuse_chmod junk fn mode) w = Undef /\
     with_mode_text strmode mode (fuse_access junk fn mode) w = Undef).
Proof.
  unfold with_mode_text, modestr, memcpy. split.
  - intros mode A rest Hl. pose proof (blen_nonneg (strmode mode)). change (blen (zeros 11)) with 11.
    by rewrite !(proj2 (Z.leb_le _ _)) by lia.
  - intros Hl fn mode. rewrite Hl. by split_and!.
Qed.

(** ** Failures *)

(** The bytes of the request of [op] called in [w]. *)
Definition op_message (junk : string -> nat -> byte) (op : fuse_op) (w : world) : list byte :=
  match op_request junk op (op_ouid op (w_opuid w)) with Ok parts => message parts | _ => [] end.

Section outcomes.
Context (junk : string -> nat -> byte) (op : fuse_op) (w : world).
Lemma op_finish_inl e w' : op_finish junk op (inl e) w' = Ok ((e, out0 op), w').
Proof using Type. by destruct op. Qed.

Lemma entered_mem : mem_ok w -> mem_ok (entered op w).
Proof using Type. unfold entered. by destruct (locks op). Qed.

Lemma entered_rd : w_rd (entered op w) = w_rd w.
Proof using Type. unfold entered. by destruct (locks op). Qed.

Lemma entered_tx : w_tx (entered op w) = w_tx w.
Proof using Type. unfold entered. by destruct (locks op). Qed.

Lemma entered_wr : w_wr (entered op w) = w_wr w.
Proof using Type. unfold entered. by destruct (locks op). Qed.

Lemma entered_live : w_live (entered op w) = w_live w.
Proof using Type. unfold entered. by destruct (locks op). Qed.

Context (Hwf : op_wf op) (Hmem : mem_ok w) (Hmu : w_mu w = false).

(** An operation that is not refused is its exchange and its end. *)
Lemma op_run :
  refused op = false -> exists parts, parts_ok parts /\ op_message junk op w = message parts /\
    zhwkrfsp junk op w = (x ← exchange junk parts; op_finish junk op x) (entered op w).
Proof using Hwf Hmu.
  intros Hr. destruct (op_request_carries junk op (op_ouid op (w_opuid w)) Hwf)
    as (parts & _ & _ & E & _).
  exists parts. split; [by eapply op_request_parts_ok|]. unfold op_message. rewrite E.
  split; [done|]. rewrite (op_entered junk op w Hmu). unfold op_rest. rewrite E.
  by rewrite Hr.
Qed.

(** Refused opens.  [open], [create] and [opendir] answer [-EINVAL] to a
    call with [writepage] or an unsupported flag: nothing is sent or read, no
    memory is allocated, the caller's file information is unchanged. *)
Theorem op_refused :
  refused op = true -> exists w', zhwkrfsp junk op w = Ok ((- EINVAL, out0 op), w') /\
    w' = released (entered op w) /\ w_tx w' = w_tx w /\ w_rd w' = w_rd w /\ w_live w' = w_live w /\ w_mu w' = false.
Proof using Hwf Hmu.
  intros Hr. destruct (op_request_carries junk op (op_ouid op (w_opuid w)) Hwf)
    as (parts & _ & _ & E & _).
  rewrite (op_entered junk op w Hmu). unfold op_rest. rewrite E, Hr.
  exists (released (entered op w)). split; [exact (WARN_released (- EINVAL, out0 op) (entered op w))|].
  split; [done|]. unfold released, entered. destruct op; try done.
Qed.

(** C9. Failed transfers, for every script of writes and reads.  If a write fails
    before the request is out, the operation returns [-EBUSY]: a strict prefix of
    the request has been sent, nothing has been read whatever the peer has sent,
    and no memory is lost.  If the peer does not take the request, the operation
    waits for ever.  If the request is out and the stream does not hold a whole
    reply header, it returns [-EBUSY] after a read error, having lost the buffer
    of the request; it waits for ever for a peer that stays silent, and never
    returns, without waiting either, if the peer has closed the connection.
    Where it returns, the caller's object is unchanged and the mutex free. *)
Theorem op_transfer_failed :
  refused op = false ->
  match deliver_all (blen (op_message junk op w)) (w_wr w) with
  | WriteFailed n _ => 0 < n <= blen (op_message junk op w) /\
      exists w', zhwkrfsp junk op w = Ok ((- EBUSY, out0 op), w') /\
        w_tx w' = w_tx w ++ btake (blen (op_message junk op w) - n) (op_message junk op w) /\
        w_rd w' = w_rd w /\ w_live w' = w_live w /\ w_mu w' = false
  | WriteBlocked => zhwkrfsp junk op w = Blocked
  | Sent _ => blen (stream (w_rd w)) < sizeof RpHdr ->
      match stop (w_rd w) with
      | None => zhwkrfsp junk op w = Blocked
      | Some RdEof => zhwkrfsp junk op w = Diverged
      | Some _ => exists w', zhwkrfsp junk op w = Ok ((- EBUSY, out0 op), w') /\
          w_tx w' = w_tx w ++ op_message junk op w /\ w_live w' = w_live w + 1 /\ w_mu w' = false
      end
  end.
Proof using Hwf Hmem Hmu.
  intros Hr. rewrite sizeof_RpHdr. destruct (op_run Hr) as (parts & Hp & -> & ->).
  pose proof (exchange_outcomes junk parts (entered op w) (entered_mem Hmem) Hp) as H.
  rewrite entered_wr, entered_rd in H.
  destruct (deliver_all (blen (message parts)) (w_wr w)) as [es|n es|] eqn:Ed.
  - intros Hs. rewrite bool_decide_eq_false_2 in H by lia.
    destruct (stop (w_rd w)) as [[|bs|]|];
      [| |by apply prog_bind_diverged|by apply prog_bind_blocked];
    destruct H as (w' & E & Hl & Htx & Hu & _); exists w'; rewrite entered_tx in Htx;
    rewrite entered_live in Hl; by rewrite (prog_bind_ok _ _ _ _ _ E), op_finish_inl.
  - apply deliver_all_failed in Ed as [Hn _]; [|apply blen_nonneg]. split; [done|].
    destruct H as (w' & E & Hrd & Hl & Htx & Hu & _). exists w'. rewrite entered_tx in Htx.
    rewrite entered_live in Hl.
    by rewrite (prog_bind_ok _ _ _ _ _ E), op_finish_inl.
  - by apply prog_bind_blocked.
Qed.

(** ** Replies *)

(** What is left when the operation has returned and read [n] bytes. *)
Definition completed (n : Z) (w' : world) : Prop :=
  w_tx w' = w_tx w ++ op_message junk op w /\ w_rd w' = skip n (w_rd w) /\
  w_mu w' = false /\ w_live w' = w_live w + 1 /\ wr_ok w' /\ mem_ok w'.

Lemma op_replied :
  refused op = false -> wr_ok w -> 12 <= blen (stream (w_rd w)) ->
  exists w1, mem_ok w1 /\ w_rd w1 = skip 12 (w_rd w) /\
    (forall n, completed n (released (set_rd (skip n (w_rd w)) w1))) /\
    zhwkrfsp junk op w =
      let rtvl := getf RpHdr "rtvl" (reply_hdr w) in
      if rtvl <? 0 then Ok ((rtvl, out0 op), released w1)
      else op_finish junk op (inr (reply_hdr w)) w1.
Proof using Hwf Hmem Hmu.
  intros Hr Hwr Hs. destruct (op_run Hr) as (parts & Hp & Hmsg & ->).
  destruct (exchange_ok junk parts (entered op w)) as (es & Hes & E);
    [by apply entered_mem|unfold wr_ok; by rewrite entered_wr|done|by rewrite entered_rd|].
  assert (Hh : reply_hdr (entered op w) = reply_hdr w) by (unfold reply_hdr; by rewrite entered_rd).
  rewrite Hh in E. cbv zeta in E.
  exists (exchanged (message parts) es (entered op w)). split; [by apply entered_mem|].
  split; [unfold exchanged; cbn; by rewrite entered_rd|]. split.
  { intros n. unfold completed, exchanged, released. rewrite Hmsg.
    cbn [w_mu set_rd set_wr set_tx set_live].
    pose proof (entered_mem Hmem).
    destruct (w_mu (entered op w)) eqn:El; cbn; rewrite entered_tx, entered_live; done. }
  cbv zeta. destruct (Z.ltb_spec (getf RpHdr "rtvl" (reply_hdr w)) 0).
  - rewrite (WARN_released (A:=Z + list byte)) in E.
    rewrite (prog_bind_ok _ _ _ _ _ E). apply op_finish_inl.
  - by rewrite (prog_bind_ok _ _ _ _ _ E).
Qed.

(** A negative return value ends every operation. *)
Lemma error_answer :
  refused op = false -> wr_ok w -> 12 <= blen (stream (w_rd w)) ->
  getf RpHdr "rtvl" (reply_hdr w) < 0 ->
  exists w', zhwkrfsp junk op w = Ok ((getf RpHdr "rtvl" (reply_hdr w), out0 op), w') /\
    completed 12 w'.
Proof using Hwf Hmem Hmu.
  intros Hr Hwr Hs Hneg. destruct (op_replied Hr Hwr Hs) as (w1 & _ & Hrd & Hc & ->).
  cbv zeta. rewrite (proj2 (Z.ltb_lt _ _) Hneg). eexists. split; [done|].
  specialize (Hc 12). rewrite <- Hrd in Hc. exact Hc.
Qed.

(** C10. Errors of the peer.  A reply whose return value is negative ends every
    operation with that value, the caller's object unchanged; exactly the
    request has been sent and the 12 bytes of the header read, whatever size the
    header announces, and the mutex is free. *)
Theorem op_error_reply :
  refused op = false -> wr_ok w -> 12 <= blen (stream (w_rd w)) ->
  getf RpHdr "rtvl" (reply_hdr w) < 0 ->
  exists w', zhwkrfsp junk op w = Ok ((getf RpHdr "rtvl" (reply_hdr w), out0 op), w') /\
    completed 12 w'.
Proof using Hwf Hmem Hmu. apply error_answer. Qed.

End outcomes.

(** ** Accepted replies *)

(** The reply headers an operation accepts; it calls [abort()] on the others. *)
Definition accepts (op : fuse_op) (rp : list byte) : bool :=
  let size := getf RpHdr "size" rp in
  match op with
  | Getattr _ _ => size =? 12 + 104
  | Statfs _ _ => size =? 12 + 88
  | Open _ _ | Opendir _ _ | Create _ _ _ => size =? 12 + 16
  | Readlink _ _ n => size <=? 12 + n
  | Read _ _ n _ _ => (size <=? n) && (size =? 12 + getf RpHdr "rtvl" rp)
  | Readdir _ _ _ _ _ => 12 <=? size
  | _ => size =? 12
  end.

(** The operations whose reply is just a header. *)
Definition is_plain (op : fuse_op) : bool :=
  match op with
  | Mkdir _ _ | Rmdir _ | Symlink _ _ | Chmod _ _ | Truncate _ _ | Write _ _ _ _ _
  | Release _ _ | Releasedir _ _ | Access _ _ | Unlink _ | Utimens _ _ _ => true
  | _ => false
  end.

(** The [n] bytes that follow the header of the reply. *)
Definition reply_body (n : Z) (w : world) : list byte := bslice 12 n (stream (w_rd w)).

Lemma getf_rtvl_range rp : - 2 ^ 31 <= getf RpHdr "rtvl" rp < 2 ^ 31.
Proof. apply (swrap_range 32). lia. Qed.

Lemma getf_size_range rp : 0 <= getf RpHdr "size" rp < 2 ^ 32.
Proof. apply (uwrap_range 32). lia. Qed.

Section replies.
Context (junk : string -> nat -> byte) (w : world).
Abbreviation rtvl := (getf RpHdr "rtvl" (reply_hdr w)).
Abbreviation rsize := (getf RpHdr "size" (reply_hdr w)).

Lemma blen_reply_body n : 0 <= n -> 12 + n <= blen (stream (w_rd w)) -> blen (reply_body n w) = n.
Proof using Type. intros. unfold reply_body. by rewrite blen_bslice. Qed.

(** The rest of a reply is received after its header. *)
Lemma re_read_body dest n w1 :
  mem_ok w1 -> w_rd w1 = skip 12 (w_rd w) -> 0 <= n < 2 ^ 31 -> n <= blen dest ->
  12 + n <= blen (stream (w_rd w)) ->
  re_read dest n w1 =
    Ok ((0, reply_body n w ++ bdrop n dest), set_rd (skip (12 + n) (w_rd w)) w1).
Proof using Type.
  intros Hm Hrd Hn Hd Hs. unfold re_read.
  assert (E : stream (w_rd w1) = bdrop 12 (stream (w_rd w))) by (rewrite Hrd, skip_stream by lia; done).
  rewrite recv_ok by (done || (rewrite E; blia)). rewrite E, Hrd, skip_add by lia. done.
Qed.

Context (Hmem : mem_ok w) (Hmu : w_mu w = false) (Hwr : wr_ok w).
Context (Hhdr : 12 <= blen (stream (w_rd w))).

(** A size that the operation does not accept. *)
Lemma bad_size_ok op :
  op_wf op -> refused op = false -> 0 <= rtvl -> accepts op (reply_hdr w) = false ->
  zhwkrfsp junk op w = Aborted.
Proof using Hmem Hmu Hwr Hhdr.
  intros Hwf Hr Hpos Hacc.
  destruct (op_replied junk op w Hwf Hmem Hmu Hr Hwr Hhdr) as (w1 & _ & _ & _ & ->).
  cbv zeta. rewrite (proj2 (Z.ltb_ge _ _)) by done. clear Hr Hwf.
  pose proof (getf_rtvl_range (reply_hdr w)).
  destruct op; cbn [op_finish accepts] in *; unfold out_as, out_none, finish_plain, finish_getattr,
    finish_readlink, finish_open, finish_read, finish_statfs, finish_readdir; cbv zeta;
    rewrite ?sizeof_RpHdr, ?sizeof_Ustat, ?sizeof_Ustatvfs, ?sizeof_RpOpen; try (by rewrite Hacc).
  - apply Z.leb_gt in Hacc. by rewrite (proj2 (Z.ltb_lt _ _)) by lia.
  - rewrite uwrap_small by lia. destruct (Z.leb_spec rsize bufsize); cbn [andb] in Hacc.
    + rewrite (proj2 (Z.ltb_ge _ _)) by lia. by rewrite Hacc.
    + by rewrite (proj2 (Z.ltb_lt _ _)) by lia.
  - apply Z.leb_gt in Hacc. by rewrite (proj2 (Z.ltb_lt _ _)) by lia.
Qed.

(** C11. Protocol errors.  When the peer reports success but the size in its
    header is not one the operation accepts (the size of the fixed reply; for
    [readlink] at most the buffer plus the header; for [read] the header plus
    the byte count, and at most the size of the buffer; for [readdir] at least
    the header) the server aborts. *)
Theorem bad_size_aborts op :
  op_wf op -> refused op = false -> 0 <= rtvl -> accepts op (reply_hdr w) = false ->
  zhwkrfsp junk op w = Aborted.
Proof using Hmem Hmu Hwr Hhdr. by apply bad_size_ok. Qed.

(** The structure in the reply to an operation. *)
Definition reply_struct (op : fuse_op) : option cstruct :=
  match op with
  | Getattr _ _ => Some Ustat
  | Statfs _ _ => Some Ustatvfs
  | Open _ _ | Opendir _ _ | Create _ _ _ => Some RpOpen
  | _ => None
  end.

(** A peer on i386 that sends its own [struct Ustat] or [struct RpOpen], with its
    size, ends the server. *)
Theorem i386_peer_aborts x y op st :
  op_wf op -> refused op = false -> 0 <= rtvl -> reply_struct op = Some st -> st <> Ustatvfs ->
  rsize = sizeof RpHdr + size_on (linux_i386 x y) st -> zhwkrfsp junk op w = Aborted.
Proof using Hmem Hmu Hwr Hhdr.
  intros Hwf Hr Hpos Hst Hne Hsz. apply bad_size_ok; [done..|].
  destruct op; try done; cbn [reply_struct] in Hst; simplify_eq; cbn [accepts]; rewrite Hsz; by destruct x, y.
Qed.

(** The operations without a reply body ([mkdir], [rmdir], [symlink],
    [chmod], [truncate], [write], [release], [releasedir], [access], [unlink],
    [utimens]) succeed on a bare header with a nonnegative value: [write]
    returns that value, the others 0; exactly the request has been sent and
    12 bytes read. *)
Theorem plain_reply op :
  op_wf op -> is_plain op = true -> 0 <= rtvl -> rsize = 12 ->
  exists w', zhwkrfsp junk op w =
      Ok ((match op with Write _ _ _ _ _ => rtvl | _ => 0 end, ONone), w') /\
    completed junk op w 12 w'.
Proof using Hmem Hmu Hwr Hhdr.
  intros Hwf Hp Hpos Hsz. assert (Hr : refused op = false) by by destruct op.
  destruct (op_replied junk op w Hwf Hmem Hmu Hr Hwr Hhdr) as (w1 & _ & Hrd & Hc & ->).
  cbv zeta. rewrite (proj2 (Z.ltb_ge _ _)) by done.
  exists (released w1). split; [|specialize (Hc 12); by rewrite <- Hrd in Hc].
  destruct op; try done; cbn [op_finish]; unfold out_none, finish_plain;
    rewrite Hsz; change (negb (12 =? sizeof RpHdr)) with false; cbv iota;
    (erewrite prog_bind_ok; [reflexivity|]);
    rewrite (prog_bind_ok _ _ _ _ _ (unlock_eq w1)); reflexivity.
Qed.

(** The common end: receive the body, release the mutex, return. *)
Lemma body_then_unlock {A} dest n (v k : list byte -> A) w1 :
  mem_ok w1 -> w_rd w1 = skip 12 (w_rd w) -> 0 <= n < 2 ^ 31 -> n <= blen dest ->
  12 + n <= blen (stream (w_rd w)) ->
  (x ← re_read dest n;
   let '(r, b) := x in
   if negb (r =? 0) then WARN (v b) else q__Mutex_unlock;; mret (k b)) w1 =
  Ok (k (reply_body n w ++ bdrop n dest), released (set_rd (skip (12 + n) (w_rd w)) w1)).
Proof using Type.
  intros Hm Hrd Hn Hd Hs. rewrite (prog_bind_ok _ _ _ _ _ (re_read_body dest n w1 Hm Hrd Hn Hd Hs)).
  cbv beta iota. cbn [Z.eqb negb]. by rewrite (prog_bind_ok _ _ _ _ _ (unlock_eq _)).
Qed.

Lemma out_as_ok {A} (f : A -> op_out) m w1 r a w' :
  m w1 = Ok ((r, a), w') -> out_as f m w1 = Ok ((r, f a), w').
Proof using Type. intros E. unfold out_as. by rewrite (prog_bind_ok _ _ _ _ _ E). Qed.

(** [replied op] brings a successful operation to its end. *)
Ltac replied op w1 Hm1 Hrd Hc :=
  destruct (op_replied junk op w) as (w1 & Hm1 & Hrd & Hc & ->);
    [split; [intros ? [= <-]|]; done|done..|];
  cbv zeta; rewrite (proj2 (Z.ltb_ge _ _)) by done.

(** [getattr] on success: the caller's [struct stat] takes its transmitted
    fields from the 104 bytes that follow the header. *)
Theorem getattr_reply fn st :
  strlen fn < FILENAME_LEN -> 0 <= rtvl -> rsize = 116 -> 116 <= blen (stream (w_rd w)) ->
  exists w', zhwkrfsp junk (Getattr fn st) w =
      Ok ((0, OStat (fall_stat st (reply_body 104 w))), w') /\
    completed junk (Getattr fn st) w 116 w'.
Proof using Hmem Hmu Hwr Hhdr.
  intros Hfn Hpos Hsz Hs. replied (Getattr fn st) w1 Hm1 Hrd Hc.
  eexists. split; [|apply (Hc 116)]. cbn [op_finish]. apply out_as_ok.
  unfold finish_getattr. rewrite Hsz. change (negb (116 =? sizeof RpHdr + sizeof Ustat)) with false.
  cbv iota. etrans; [apply (body_then_unlock _ 104 (fun _ => (- EBUSY, st)) (fun b => (0, fall_stat st b)));
    [done|done|lia|by rewrite blen_uninit|done]|].
  by rewrite bdrop_uninit, app_nil_r.
Qed.

(** [statfs] on success: the caller's [struct statvfs] is the 88 bytes that
    follow the header, field by field. *)
Theorem statfs_reply fn vfs :
  strlen fn < FILENAME_LEN -> 0 <= rtvl -> rsize = 100 -> 100 <= blen (stream (w_rd w)) ->
  exists w', zhwkrfsp junk (Statfs fn vfs) w =
      Ok ((0, OVfs (fall_statvfs (reply_body 88 w))), w') /\
    completed junk (Statfs fn vfs) w 100 w'.
Proof using Hmem Hmu Hwr Hhdr.
  intros Hfn Hpos Hsz Hs. replied (Statfs fn vfs) w1 Hm1 Hrd Hc.
  eexists. split; [|apply (Hc 100)]. cbn [op_finish]. apply out_as_ok.
  unfold finish_statfs. rewrite Hsz. change (negb (100 =? sizeof RpHdr + sizeof Ustatvfs)) with false.
  cbv iota. etrans; [apply (body_then_unlock _ 88 (fun _ => (- EBUSY, vfs)) (fun b => (0, fall_statvfs b)));
    [done|done|lia|by rewrite blen_uninit|done]|].
  by rewrite bdrop_uninit, app_nil_r.
Qed.

(** The operations that open a file, with the file information they are given. *)
Definition opens (op : fuse_op) : option fuse_file_info :=
  match op with
  | Open _ fi | Opendir _ fi | Create _ _ fi => Some fi
  | _ => None
  end.

(** [open], [creat] and [opendir] on success: the file handle becomes the one
    in the 16 bytes that follow the header unless [ignore_above] is set there;
    nothing else of the file information changes. *)
Theorem open_reply op fi :
  op_wf op -> opens op = Some fi -> refused op = false ->
  0 <= rtvl -> rsize = 28 -> 28 <= blen (stream (w_rd w)) ->
  exists w', zhwkrfsp junk op w =
      Ok ((0, OInfo (if getf RpOpen "ignore_above" (reply_body 16 w) =? 0
                     then set_fh (getf RpOpen "file_handle" (reply_body 16 w)) fi else fi)), w') /\
    completed junk op w 28 w'.
Proof using Hmem Hmu Hwr Hhdr.
  intros Hwf Hop Hr Hpos Hsz Hs.
  destruct (op_replied junk op w Hwf Hmem Hmu Hr Hwr Hhdr) as (w1 & Hm1 & Hrd & Hc & ->).
  cbv zeta. rewrite (proj2 (Z.ltb_ge _ _)) by done.
  eexists. split; [|apply (Hc 28)].
  assert (op_finish junk op (inr (reply_hdr w)) = out_as OInfo (finish_open junk (inr (reply_hdr w)) fi))
    as -> by (destruct op; cbn in Hop; simplify_eq; done).
  apply out_as_ok. unfold finish_open. rewrite Hsz.
  change (negb (28 =? sizeof RpHdr + sizeof RpOpen)) with false. cbv iota.
  etrans; [apply (body_then_unlock _ 16 (fun _ => (- EBUSY, fi)) (fun b =>
    (0, if getf RpOpen "ignore_above" b =? 0 then set_fh (getf RpOpen "file_handle" b) fi else fi)));
    [done|done|lia|by rewrite blen_uninit|done]|].
  by rewrite bdrop_uninit, app_nil_r.
Qed.

(** [read] on success, within the bound the code checks. *)
Lemma read_answer fn buf bufsize pos fi :
  strlen fn < FILENAME_LEN -> 0 <= bufsize <= blen buf ->
  0 <= rtvl -> rsize = 12 + rtvl -> 12 + rtvl <= blen (stream (w_rd w)) -> 12 + rtvl <= bufsize ->
  exists w', zhwkrfsp junk (Read fn buf bufsize pos fi) w =
      Ok ((rtvl, OBuf (reply_body rtvl w ++ bdrop rtvl buf)), w') /\
    completed junk (Read fn buf bufsize pos fi) w (12 + rtvl) w'.
Proof using Hmem Hmu Hwr Hhdr.
  intros Hfn Hb Hpos Hsz Hs Hle. pose proof (getf_rtvl_range (reply_hdr w)).
  replied (Read fn buf bufsize pos fi) w1 Hm1 Hrd Hc. cbn [op_finish].
  eexists. split; [|apply (Hc (12 + rtvl))]. apply out_as_ok. unfold finish_read. cbv zeta.
  rewrite Hsz, (proj2 (Z.ltb_ge _ _)), sizeof_RpHdr, !uwrap_small, Z.eqb_refl by lia.
  cbn [negb].
  etrans; [apply (body_then_unlock _ rtvl (fun b => (- EBUSY, b)) (fun b => (rtvl, b)));
    [done|done|lia|lia|done]|]. done.
Qed.

(** [read] of [bufsize] bytes.  The peer's data are stored at the start of the
    buffer and counted when there are at most [bufsize - 12] of them; with more,
    a full buffer included, the server aborts, because the size that is compared
    with the buffer counts the header. *)
Theorem read_reply fn buf bufsize pos fi :
  strlen fn < FILENAME_LEN -> 0 <= bufsize <= blen buf ->
  0 <= rtvl -> rsize = 12 + rtvl -> 12 + rtvl <= blen (stream (w_rd w)) ->
  let op := Read fn buf bufsize pos fi in
  if 12 + rtvl <=? bufsize then
    exists w', zhwkrfsp junk op w =
        Ok ((rtvl, OBuf (reply_body rtvl w ++ bdrop rtvl buf)), w') /\
      completed junk op w (12 + rtvl) w'
  else zhwkrfsp junk op w = Aborted.
Proof using Hmem Hmu Hwr Hhdr.
  intros Hfn Hb Hpos Hsz Hs. cbv zeta. destruct (Z.leb_spec (12 + rtvl) bufsize).
  { by apply read_answer. }
  pose proof (getf_rtvl_range (reply_hdr w)).
  replied (Read fn buf bufsize pos fi) w1 Hm1 Hrd Hc. cbn [op_finish].
  unfold out_as, finish_read. cbv zeta. by rewrite (proj2 (Z.ltb_lt _ _)) by lia.
Qed.

(** [readlink] on success. *)
Lemma readlink_answer fn dest buflen :
  strlen fn < FILENAME_LEN -> 0 <= buflen <= blen dest -> buflen < 2 ^ 31 - 12 ->
  0 <= rtvl -> 12 <= rsize <= 12 + buflen -> rsize <= blen (stream (w_rd w)) ->
  exists w', zhwkrfsp junk (Readlink fn dest buflen) w =
      Ok ((0, OBuf (reply_body (rsize - 12) w ++ bdrop (rsize - 12) dest)), w') /\
    completed junk (Readlink fn dest buflen) w rsize w'.
Proof using Hmem Hmu Hwr Hhdr.
  intros Hfn Hb Hbl Hpos Hsz Hs.
  replied (Readlink fn dest buflen) w1 Hm1 Hrd Hc. cbn [op_finish].
  eexists. split; [|apply (Hc rsize)]. apply out_as_ok. unfold finish_readlink.
  rewrite sizeof_RpHdr, (proj2 (Z.ltb_ge _ _)), uwrap_small by lia.
  etrans; [apply (body_then_unlock _ (rsize - 12) (fun b => (- EBUSY, b)) (fun b => (0, b)));
    [done|done|lia|lia|lia]|]. by replace (12 + (rsize - 12)) with rsize by lia.
Qed.

(** [readlink].  The bytes that follow the header, at most [buflen], are
    stored at the start of the buffer; no NUL is added, the rest of the buffer
    stays as it was.  A size smaller than the header underflows into an array
    of negative length: undefined behaviour. *)
Theorem readlink_reply fn dest buflen :
  strlen fn < FILENAME_LEN -> 0 <= buflen <= blen dest -> buflen < 2 ^ 31 - 12 ->
  0 <= rtvl -> rsize <= 12 + buflen -> rsize <= blen (stream (w_rd w)) ->
  let op := Readlink fn dest buflen in
  if 12 <=? rsize then
    exists w', zhwkrfsp junk op w =
        Ok ((0, OBuf (reply_body (rsize - 12) w ++ bdrop (rsize - 12) dest)), w') /\
      completed junk op w rsize w'
  else zhwkrfsp junk op w = Undef.
Proof using Hmem Hmu Hwr Hhdr.
  intros Hfn Hb Hbl Hpos Hsz Hs. cbv zeta. pose proof (getf_size_range (reply_hdr w)).
  destruct (Z.leb_spec 12 rsize). { by apply readlink_answer. }
  replied (Readlink fn dest buflen) w1 Hm1 Hrd Hc. cbn [op_finish].
  unfold out_as, finish_readlink. rewrite sizeof_RpHdr, (proj2 (Z.ltb_ge _ _)) by lia.
  unfold re_read, recv. apply prog_bind_undef, prog_bind_undef.
  rewrite (prog_bind_ok _ _ _ _ _ (qbss_constructor_eq w1 Hm1)). apply prog_bind_undef.
  assert (s32 (u64 (rsize - 12)) < 0).
  { rewrite swrap_uwrap_le, swrap_small; lia. }
  unfold sockread. by rewrite (proj2 (Z.ltb_lt _ _)) by lia.
Qed.

End replies.

(** ** Directory listings *)

(** The callback of [readdir] called on a list of entries until it refuses one. *)
Fixpoint deliver {B} (fill : B -> list byte -> stat -> Z * B)
    (ents : list (list byte * stat)) (buf : B) : B :=
  match ents with
  | [] => buf
  | (name, st) :: ents' =>
      let '(stop, buf') := fill buf name st in
      if negb (stop =? 0) then buf' else deliver fill ents' buf'
  end.

(** What is reported of a directory entry: its name up to the NUL, its inode
    number, and its type in the file type bits of the mode. *)
Definition entry_of (d : dirent) : list byte * stat :=
  (cstr (d_name d), Stat 0 (d_ino d) (Z.shiftl (d_type d) 12) 0 0 0 0 0 0 0 0 0 0 0 0 0).

(** The bytes [us] are the unified forms of the entries [ds]. *)
Definition unified (us : list (list byte)) (ds : list dirent) : Prop :=
  Forall2 (fun u d => exists j, blen j = sizeof Udirent /\ unify_dirent j d = Ok u) us ds.

(** Entries the platform can produce: integer fields in range and a terminated
    name. *)
Definition entry_wf (d : dirent) : Prop := dirent_wf d /\ NUL ∈ d_name d.

Lemma cstr_app_terminated s t : NUL ∈ s -> cstr (s ++ t) = cstr s.
Proof.
  induction s as [|b s IH]; [set_solver|]. cbn. intros [<-|H]%elem_of_cons; [by rewrite !decide_True|].
  case_decide; [done|]. by rewrite IH.
Qed.

Lemma bdrop_split19 (u : list byte) : blen u = 280 -> bdrop 19 u = getb Udirent "d_name" u ++ bdrop 275 u.
Proof.
  intros. change (getb Udirent "d_name" u) with (bslice 19 256 u). unfold bslice.
  rewrite <- (btake_bdrop 256 (bdrop 19 u)) at 1. f_equal. unfold bdrop. by rewrite drop_drop.
Qed.

Lemma fill_loop_deliver {B} (fill : B -> list byte -> stat -> Z * B) us ds tl buf :
  unified us ds -> Forall entry_wf ds ->
  fill_loop fill (length us) (concat us ++ tl) buf = deliver fill (entry_of <$> ds) buf.
Proof.
  intros Hu. revert buf. induction Hu as [|u d us ds (j & Hj & E) Hu IH]; intros buf Hwf; [done|].
  apply Forall_cons_iff in Hwf as [[Hd Hn] Hwf].
  destruct (unify_dirent_fields j d u Hd Hj E) as (Hl & Hino & _ & _ & Hty & Hname).
  assert (Hf : fits Udirent u) by (unfold fits; rewrite sizeof_Udirent; lia).
  cbn [concat length fill_loop fmap list_fmap deliver]. rewrite <- app_assoc.
  unfold entry_stat. rewrite !getf_app by done. rewrite Hino, Hty.
  unfold bdrop at 1. rewrite drop_app_le by blia. change (drop (Z.to_nat 19) u) with (bdrop 19 u).
  rewrite bdrop_split19, Hname, <- app_assoc, cstr_app_terminated by done.
  unfold entry_of at 1. destruct (fill buf _ _) as [stop buf'].
  destruct (negb (stop =? 0)); [done|]. rewrite bdrop_app_eq by (rewrite sizeof_Udirent; lia).
  by apply IH.
Qed.

(** The mode that the callback of [readdir] gets consists of the type of the entry
    only, and it is one of the types of defaultstat.h exactly when the peer has
    sent that type. *)
Lemma entry_file_type ent t :
  In t file_types -> getf Udirent "d_type" ent < 16 ->
  Z.land (st_mode (entry_stat ent)) __S_IFMT = st_mode (entry_stat ent) /\
  (st_mode (entry_stat ent) = t <-> getf Udirent "d_type" ent = Z.shiftr t 12).
Proof.
  intros Ht Hty. pose proof (getf_u Udirent "d_type" ent 1 18 eq_refl) as [H0 _].
  cbn [entry_stat st_mode]. by apply file_type_shift.
Qed.

Lemma blen_concat_unified us ds :
  unified us ds -> Forall entry_wf ds -> blen (concat us) = 280 * Z.of_nat (length us).
Proof.
  induction 1 as [|u d us ds (j & Hj & E) Hu IH]; intros Hwf; [done|].
  apply Forall_cons_iff in Hwf as [[Hd Hn] Hwf].
  destruct (unify_dirent_fields j d u Hd Hj E) as (Hl & _).
  cbn [concat length]. rewrite blen_app, IH by done. lia.
Qed.

Section readdir.
Context (junk : string -> nat -> byte) (w : world).
Context (Hmem : mem_ok w) (Hmu : w_mu w = false) (Hwr : wr_ok w).
Context (Hhdr : 12 <= blen (stream (w_rd w))).
Abbreviation rtvl := (getf RpHdr "rtvl" (reply_hdr w)).
Abbreviation rsize := (getf RpHdr "size" (reply_hdr w)).

(** [readdir] on success. *)
Lemma readdir_answer dn buf fill off fi us ds tl :
  strlen dn < FILENAME_LEN -> 0 <= rtvl ->
  unified us ds -> Forall entry_wf ds -> rsize = 12 + blen (concat us) -> rsize < 2 ^ 31 ->
  bdrop 12 (stream (w_rd w)) = concat us ++ tl ->
  let op := Readdir dn buf fill off fi in
  exists w', zhwkrfsp junk op w =
      Ok ((0, ODir (deliver fill (entry_of <$> ds) buf)), w') /\
    completed junk op w rsize w'.
Proof using Hmem Hmu Hwr Hhdr.
  intros Hdn Hpos Hu Hwf Hsz Hmax Hs. cbv zeta.
  destruct (op_replied junk (Readdir dn buf fill off fi) w) as (w1 & Hm1 & Hrd & Hc & ->);
    [split; [intros ? [= <-]|]; done|done..|].
  cbv zeta. rewrite (proj2 (Z.ltb_ge _ _)) by done.
  exists (released (set_rd (skip rsize (w_rd w)) w1)). split; [|apply (Hc rsize)].
  cbn [op_finish]. apply out_as_ok. unfold finish_readdir. cbv zeta. rewrite sizeof_RpHdr.
  pose proof (blen_nonneg (concat us)). rewrite (proj2 (Z.ltb_ge _ _)) by lia.
  rewrite (prog_bind_ok _ _ _ _ _ (qbss_constructor_eq w1 Hm1)). set (w2 := set_live _ w1).
  assert (Hst : stream (w_rd w2) = concat us ++ tl).
  { unfold w2. cbn [w_rd set_live]. rewrite Hrd, skip_stream by lia. exact Hs. }
  rewrite swrap_small by lia.
  destruct (sockread_ok (Bss (Some (zeros 64)) 0 64) (rsize - 12) w2) as (b & Hr & Hok & Hct & Hbs);
    [apply qbss_new_ok|done|rewrite Hst, blen_app; pose proof (blen_nonneg tl); lia|cbn; lia|].
  rewrite (prog_bind_ok _ _ _ _ _ Hr). cbv beta iota. cbn [Z.eqb negb].
  destruct (bss_ok_block b Hok) as (blk & Hstr & Hbl & _ & Hcont).
  rewrite content_new, app_nil_l, Hst, btake_app_eq in Hct by lia. rewrite Hct in Hcont.
  unfold qbss_destructor. rewrite Hstr. cbn [from_option id].
  assert (Hn : Z.to_nat ((rsize - 12) / sizeof Udirent) = length us).
  { rewrite Hsz, (blen_concat_unified us ds Hu Hwf), sizeof_Udirent.
    replace (12 + 280 * Z.of_nat (length us) - 12) with (Z.of_nat (length us) * 280) by lia.
    rewrite Z.div_mul by lia. apply Nat2Z.id. }
  assert (Hblk : blk = concat us ++ bdrop (size b) blk).
  { rewrite <- (btake_bdrop (size b) blk) at 1. by rewrite <- Hcont. }
  rewrite Hn, Hblk, (fill_loop_deliver fill us ds) by done.
  rewrite (prog_bind_ok free _ _ tt (set_rd (skip rsize (w_rd w)) w1)).
  { by rewrite (prog_bind_ok _ _ _ _ _ (unlock_eq _)). }
  replace (set_rd (skip (rsize - 12) (w_rd w2)) w2) with
    (set_rd (skip rsize (w_rd w)) (set_live (w_live w1 + 1) w1)).
  { exact (free_after_alloc w1 (set_rd (skip rsize (w_rd w))) ltac:(done) ltac:(done)). }
  unfold w2. cbn [w_rd set_live]. rewrite Hrd, skip_add by lia.
  replace (12 + (rsize - 12)) with rsize by lia. done.
Qed.

(** C12. [readdir] on success, end to end: the peer sends the unified forms of the
    entries of a directory; the callback gets name, inode and type of each
    entry, in order, until it refuses one.  However many it took, the whole
    listing is consumed from the stream. *)
Theorem readdir_reply dn buf fill off fi us ds tl :
  strlen dn < FILENAME_LEN -> 0 <= rtvl ->
  unified us ds -> Forall entry_wf ds -> rsize = 12 + blen (concat us) -> rsize < 2 ^ 31 ->
  bdrop 12 (stream (w_rd w)) = concat us ++ tl ->
  let op := Readdir dn buf fill off fi in
  exists w', zhwkrfsp junk op w =
      Ok ((0, ODir (deliver fill (entry_of <$> ds) buf)), w') /\
    completed junk op w rsize w'.
Proof using Hmem Hmu Hwr Hhdr. apply readdir_answer. Qed.

End readdir.

(** ** Witnesses *)

(** The header of a reply. *)
Definition hdr (size ouid rtvl : Z) : list byte := le_enc 4 size ++ le_enc 4 ouid ++ le_enc 4 rtvl.

(** A connection on which the peer has sent [bs]. *)
Definition from_peer (bs : list byte) : world := start [RdData bs].

Definition root : list byte := [Byte.x2f].
Definition no_flags : fuse_file_info := FuseFileInfo 0 false false 0.
Definition write_page : fuse_file_info := FuseFileInfo 0 true false 0.

Lemma op_wf_root op :
  (forall fn, op_name op = Some fn -> fn = root) ->
  match op with Write _ _ _ _ _ | Symlink _ _ => False | _ => True end -> op_wf op.
Proof. intros H Hop. split; [intros fn E; by rewrite (H fn E)|by destruct op]. Qed.

Lemma op_discipline_witness :
  exists r w', zhwkrfsp nojunk (Open root write_page) (start []) = Ok (r, w') /\
    w_mu w' = false /\ w_opuid w' = 1.
Proof.
  eexists _, _. split; [vm_compute; reflexivity|].
  match goal with |- w_mu ?w' = _ /\ _ =>
    destruct (op_discipline nojunk (Open root write_page) (start [])
      (- EINVAL, OInfo write_page) w' eq_refl ltac:(split; reflexivity || done)
      ltac:(vm_compute; reflexivity)) as (H1 & _ & H2) end.
  split; [exact H1|exact H2].
Defined.

Lemma session_discipline_witness :
  exists rs w', fuse_loop nojunk [Open root write_page; Create root 420 write_page] (start []) =
      Ok (rs, w') /\ w_mu w' = false /\ w_opuid w' = 2.
Proof.
  eexists _, _. split; [vm_compute; reflexivity|].
  match goal with |- w_mu ?w' = _ /\ _ =>
    destruct (session_discipline nojunk [Open root write_page; Create root 420 write_page] (start [])
      [(- EINVAL, OInfo write_page); (- EINVAL, OInfo write_page)] w' eq_refl
      ltac:(split; reflexivity || done) ltac:(vm_compute; reflexivity)) as (H1 & _ & H2 & _) end.
  split; [exact H1|exact H2].
Defined.

Lemma op_deadlock_witness : zhwkrfsp nojunk (Rmdir root) (set_mu true (start [])) = Blocked.
Proof. exact (op_deadlock nojunk (Rmdir root) (set_mu true (start [])) eq_refl eq_refl). Defined.

Lemma op_refused_witness :
  exists w', zhwkrfsp nojunk (Open root write_page) (start []) =
      Ok ((- EINVAL, OInfo write_page), w') /\ w_tx w' = [].
Proof.
  destruct (op_refused nojunk (Open root write_page) (start [])) as (w' & E & _ & Htx & _);
    [apply op_wf_root; [by intros ? [= <-]|exact I]|reflexivity|reflexivity|].
  exists w'. split; [exact E|exact Htx].
Defined.

(** Evaluates what a script of writes does. *)
Ltac script H r :=
  match type of H with context [deliver_all ?n ?es] =>
    let E := fresh in assert (E : deliver_all n es = r) by (vm_compute; reflexivity);
    rewrite E in H; clear E
  end.

(** A request cut off although the reply is there, and a read error. *)
Lemma op_transfer_failed_witness :
  (exists w', zhwkrfsp nojunk (Rmdir root) (set_wr [WrMax 5; WrErr] (from_peer (hdr 12 1 0))) =
      Ok ((- EBUSY, ONone), w') /\ blen (w_tx w') = 5 /\ w_rd w' = [RdData (hdr 12 1 0)]) /\
  zhwkrfsp nojunk (Rmdir root) (set_wr [WrMax 5; WrBlock] (start [])) = Blocked /\
  exists w', zhwkrfsp nojunk (Rmdir root) (start [RdErr]) = Ok ((- EBUSY, ONone), w') /\
    w_live w' = 1 /\ w_mu w' = false.
Proof.
  assert (Hwf : op_wf (Rmdir root)) by (apply op_wf_root; [by intros ? [= <-]|exact I]).
  split; [|split].
  - pose proof (op_transfer_failed nojunk (Rmdir root) (set_wr [WrMax 5; WrErr] (from_peer (hdr 12 1 0)))
      Hwf eq_refl eq_refl eq_refl) as H.
    script H (WriteFailed 4135 []). destruct H as (_ & w' & E & Htx & Hrd & _). exists w'. split; [exact E|].
    split; [rewrite Htx; vm_compute; reflexivity|exact Hrd].
  - pose proof (op_transfer_failed nojunk (Rmdir root) (set_wr [WrMax 5; WrBlock] (start []))
      Hwf eq_refl eq_refl eq_refl) as H.
    script H (WriteBlocked). exact H.
  - pose proof (op_transfer_failed nojunk (Rmdir root) (start [RdErr]) Hwf eq_refl eq_refl eq_refl) as H.
    script H (Sent []). destruct (H eq_refl) as (w' & E & _ & Hl & Hm).
    exists w'. split; [exact E|]. split; [exact Hl|exact Hm].
Defined.

Lemma op_error_reply_witness :
  exists w', zhwkrfsp nojunk (Rmdir root) (from_peer (hdr 12 1 (-2))) = Ok ((-2, ONone), w') /\
    completed nojunk (Rmdir root) (from_peer (hdr 12 1 (-2))) 12 w'.
Proof.
  destruct (op_error_reply nojunk (Rmdir root) (from_peer (hdr 12 1 (-2)))) as (w' & E & Hc);
    [apply op_wf_root; [by intros ? [= <-]|exact I]|reflexivity|reflexivity|reflexivity
    |apply Forall_nil_2|done|reflexivity|].
  exists w'. split; [exact E|exact Hc].
Defined.

Lemma bad_size_aborts_witness :
  zhwkrfsp nojunk (Rmdir root) (from_peer (hdr 13 1 0)) = Aborted.
Proof.
  apply (bad_size_aborts nojunk (from_peer (hdr 13 1 0)));
    [reflexivity|reflexivity|apply Forall_nil_2|done
    |apply op_wf_root; [by intros ? [= <-]|exact I]|reflexivity|done|reflexivity].
Defined.

Lemma plain_reply_witness :
  exists w', zhwkrfsp nojunk (Rmdir root) (from_peer (hdr 12 1 0)) = Ok ((0, ONone), w') /\
    completed nojunk (Rmdir root) (from_peer (hdr 12 1 0)) 12 w'.
Proof.
  apply (plain_reply nojunk (from_peer (hdr 12 1 0)));
    [reflexivity|reflexivity|apply Forall_nil_2|done
    |apply op_wf_root; [by intros ? [= <-]|exact I]|reflexivity|done|reflexivity].
Defined.

Lemma getattr_reply_witness :
  exists w', zhwkrfsp nojunk (Getattr root stat_ex) (from_peer (hdr 116 1 0 ++ unify_stat (zeros 104) stat_ex)) =
    Ok ((0, OStat (fall_stat stat_ex (unify_stat (zeros 104) stat_ex))), w').
Proof.
  destruct (getattr_reply nojunk (from_peer (hdr 116 1 0 ++ unify_stat (zeros 104) stat_ex)))
    with (fn := root) (st := stat_ex) as (w' & E & _);
    [reflexivity|reflexivity|apply Forall_nil_2|done|reflexivity|done|reflexivity|done|].
  exists w'. exact E.
Defined.

Lemma statfs_reply_witness :
  exists w', zhwkrfsp nojunk (Statfs root (fall_statvfs [])) (from_peer (hdr 100 1 0 ++ zeros 88)) =
    Ok ((0, OVfs (fall_statvfs (zeros 88))), w').
Proof.
  destruct (statfs_reply nojunk (from_peer (hdr 100 1 0 ++ zeros 88)))
    with (fn := root) (vfs := fall_statvfs []) as (w' & E & _);
    [reflexivity|reflexivity|apply Forall_nil_2|done|reflexivity|done|reflexivity|done|].
  exists w'. exact E.
Defined.

Lemma open_reply_witness :
  exists w', zhwkrfsp nojunk (Open root no_flags) (from_peer (hdr 28 1 0 ++ le_enc 8 5 ++ zeros 8)) =
    Ok ((0, OInfo (set_fh 5 no_flags)), w').
Proof.
  destruct (open_reply nojunk (from_peer (hdr 28 1 0 ++ le_enc 8 5 ++ zeros 8)))
    with (op := Open root no_flags) (fi := no_flags) as (w' & E & _);
    [reflexivity|reflexivity|apply Forall_nil_2|done
    |apply op_wf_root; [by intros ? [= <-]|exact I]|reflexivity|reflexivity|done|reflexivity|done|].
  exists w'. exact E.
Defined.

Lemma read_reply_witness :
  zhwkrfsp nojunk (Read root (zeros 3) 3 0 no_flags) (from_peer (hdr 15 1 3 ++ root ++ root ++ root))
    = Aborted /\
  exists w', zhwkrfsp nojunk (Read root (zeros 15) 15 0 no_flags)
      (from_peer (hdr 15 1 3 ++ root ++ root ++ root)) =
    Ok ((3, OBuf ((root ++ root ++ root) ++ zeros 12)), w').
Proof.
  split.
  - apply (read_reply nojunk (from_peer (hdr 15 1 3 ++ root ++ root ++ root)) eq_refl eq_refl
      (Forall_nil_2 _) ltac:(done) root (zeros 3) 3 0 no_flags); done.
  - destruct (read_reply nojunk (from_peer (hdr 15 1 3 ++ root ++ root ++ root)) eq_refl eq_refl
      (Forall_nil_2 _) ltac:(done) root (zeros 15) 15 0 no_flags) as (w' & E & _); [done..|].
    exists w'. exact E.
Defined.

Lemma readlink_reply_witness :
  exists w', zhwkrfsp nojunk (Readlink root (zeros 4) 4) (from_peer (hdr 14 1 0 ++ root ++ root)) =
    Ok ((0, OBuf ((root ++ root) ++ zeros 2)), w').
Proof.
  destruct (readlink_reply nojunk (from_peer (hdr 14 1 0 ++ root ++ root)) eq_refl eq_refl
      (Forall_nil_2 _) ltac:(done) root (zeros 4) 4) as (w' & E & _); [done..|].
  exists w'. exact E.
Defined.

Definition dirent_ex : dirent := Dirent 42 0 280 8 (root ++ zeros 255).

(** A callback that keeps every entry. *)
Definition collect (b : entries) (name : list byte) (st : stat) : Z * entries :=
  (0, b ++ [(name, st)]).

Lemma readdir_reply_witness :
  exists u w', unify_dirent (zeros 280) dirent_ex = Ok u /\
    zhwkrfsp nojunk (Readdir root [] collect 0 no_flags) (from_peer (hdr 292 1 0 ++ u)) =
      Ok ((0, ODir [(root, Stat 0 42 32768 0 0 0 0 0 0 0 0 0 0 0 0 0)]), w').
Proof.
  assert (Hwf : dirent_wf dirent_ex)
    by (unfold dirent_wf, in_u, in_s; split_and!; first [reflexivity | cbn; lia]).
  eexists _. destruct (readdir_reply nojunk
    (from_peer (hdr 292 1 0 ++ match unify_dirent (zeros 280) dirent_ex with Ok u => u | _ => [] end)))
    with (dn := root) (buf := @nil (list byte * stat)) (fill := collect) (off := 0) (fi := no_flags)
      (us := [match unify_dirent (zeros 280) dirent_ex with Ok u => u | _ => [] end])
      (ds := [dirent_ex]) (tl := @nil byte) as (w' & E & _);
    [reflexivity|reflexivity|apply Forall_nil_2|done|reflexivity|done
    |constructor; [exists (zeros 280); split; reflexivity|constructor]
    |constructor; [split; [exact Hwf|right; left]|constructor]
    |reflexivity|done|reflexivity|].
  exists w'. split; [reflexivity|exact E].
Defined.
