(* ===== verification/Session.v ===== *)
(** * Whole sessions

    The composition of the parts: [fuse_loop] serving any sequence of calls over
    one connection.  Above the bytes a session is a list of calls, a list of
    replies and a list of results ([served]); the theorems relate it to the
    streams of the socket in both directions: what the calls return and leave in
    the incoming stream, and what a peer built on the receiving functions of
    prot.c recovers from the outgoing one. *)

From S2P Require Import Prelude Layout World Bss Netwrap Ustruct Prot FuseServer.
From S2P Require Import Server FuseFacts FuseOps FuseRequests FuseSpec.
Local Open Scope Z_scope.

(** ** Replies *)

(** A reply: the operation number it echoes, its return value, and the bytes
    that follow the header. *)
Record reply : Type := Reply { rp_ouid : Z; rp_rtvl : Z; rp_body : list byte }.

(** The bytes of a reply; its header announces all of them. *)
Definition reply_bytes (r : reply) : list byte :=
  hdr (12 + blen (rp_body r)) (rp_ouid r) (rp_rtvl r) ++ rp_body r.

(** The call [op] is answered by a return value and a body, and returns a
    result.  A directory listing is made of the unified forms of its entries. *)
Inductive answers : fuse_op -> Z -> list byte -> Z * op_out -> Prop :=
| ans_error op v : v < 0 -> answers op v [] (v, out0 op)
| ans_plain op v : is_plain op = true -> 0 <= v ->
    answers op v [] (match op with Write _ _ _ _ _ => v | _ => 0 end, ONone)
| ans_getattr fn st v b : 0 <= v -> blen b = 104 ->
    answers (Getattr fn st) v b (0, OStat (fall_stat st b))
| ans_statfs fn vfs v b : 0 <= v -> blen b = 88 ->
    answers (Statfs fn vfs) v b (0, OVfs (fall_statvfs b))
| ans_open op fi v b : opens op = Some fi -> 0 <= v -> blen b = 16 ->
    answers op v b (0, OInfo (if getf RpOpen "ignore_above" b =? 0
                              then set_fh (getf RpOpen "file_handle" b) fi else fi))
| ans_read fn buf n pos fi b : 0 <= n <= blen buf -> 12 + blen b <= n ->
    answers (Read fn buf n pos fi) (blen b) b (blen b, OBuf (b ++ bdrop (blen b) buf))
| ans_readlink fn dest n v b :
    0 <= v -> 0 <= n <= blen dest -> n < 2 ^ 31 - 12 -> blen b <= n ->
    answers (Readlink fn dest n) v b (0, OBuf (b ++ bdrop (blen b) dest))
| ans_readdir dn buf fill off fi v us ds :
    0 <= v -> unified us ds -> Forall entry_wf ds -> 12 + blen (concat us) < 2 ^ 31 ->
    answers (Readdir dn buf fill off fi) v (concat us)
      (0, ODir (deliver fill (entry_of <$> ds) buf)).

Lemma answers_body op v b r : answers op v b r -> blen b < 2 ^ 31 - 12 \/ blen b <= v.
Proof. destruct 1; rewrite ?blen_nil; lia || (left; lia) || (right; lia). Qed.

Section reply_header.
Context (size ouid v : Z) (body tl : list byte).

Lemma blen_hdr : blen (hdr size ouid v) = 12.
Proof using Type. done. Qed.

Lemma getf_hdr :
  getf RpHdr "size" (hdr size ouid v) = u32 size /\ getf RpHdr "rtvl" (hdr size ouid v) = s32 v.
Proof using Type.
  split.
  - change (u32 (le_dec (btake 4 (hdr size ouid v))) = u32 size). unfold hdr.
    rewrite btake_app_eq, le_dec_enc by by rewrite blen_le_enc. by apply uwrap_uwrap.
  - change (s32 (le_dec (bslice 8 4 (hdr size ouid v))) = s32 v). unfold hdr, bslice.
    rewrite app_assoc, bdrop_app_eq by done. change (btake 4 (le_enc 4 v)) with (le_enc 4 v).
    rewrite le_dec_enc. by apply swrap_uwrap.
Qed.
End reply_header.

(** What the operation finds when the stream starts with a reply. *)
Lemma reply_found r tl w :
  stream (w_rd w) = reply_bytes r ++ tl -> - 2 ^ 31 <= rp_rtvl r < 2 ^ 31 ->
  12 + blen (rp_body r) < 2 ^ 32 ->
  12 + blen (rp_body r) <= blen (stream (w_rd w)) /\
  getf RpHdr "size" (reply_hdr w) = 12 + blen (rp_body r) /\
  getf RpHdr "rtvl" (reply_hdr w) = rp_rtvl r /\
  reply_body (blen (rp_body r)) w = rp_body r /\
  bdrop 12 (stream (w_rd w)) = rp_body r ++ tl.
Proof.
  intros Hs Hv Hb. unfold reply_hdr, reply_body, reply_bytes in *. rewrite <- app_assoc in Hs.
  destruct (getf_hdr (12 + blen (rp_body r)) (rp_ouid r) (rp_rtvl r)) as [Esz Erv].
  pose proof (blen_nonneg (rp_body r)). pose proof (blen_nonneg tl). unfold bslice.
  rewrite Hs, btake_app_eq, bdrop_app_eq, !blen_app, blen_hdr by done.
  rewrite Esz, Erv, uwrap_small, swrap_small, btake_app by lia. split_and!; done || lia.
Qed.

(** What is left of the stream once the bytes [bs] have been read. *)
Lemma stream_after bs tl (w w' : world) :
  stream (w_rd w) = bs ++ tl -> w_rd w' = skip (blen bs) (w_rd w) -> stream (w_rd w') = tl.
Proof.
  intros Hs ->. pose proof (blen_nonneg bs). pose proof (blen_nonneg tl).
  rewrite skip_stream, Hs by (rewrite Hs, blen_app; lia). by apply bdrop_app_eq.
Qed.

Lemma released_entered op w :
  mem_ok w -> wr_ok w -> mem_ok (released (entered op w)) /\ wr_ok (released (entered op w)).
Proof. unfold released, entered. by destruct (locks op), (w_mu w). Qed.

(** ** One operation *)

Section answered.
Context (junk : string -> nat -> byte).

(** Every reply of the protocol, for every operation. *)
Lemma answer_returned op r res tl w :
  op_wf op -> mem_ok w -> w_mu w = false -> wr_ok w -> refused op = false ->
  - 2 ^ 31 <= rp_rtvl r < 2 ^ 31 -> answers op (rp_rtvl r) (rp_body r) res ->
  stream (w_rd w) = reply_bytes r ++ tl ->
  exists w', zhwkrfsp junk op w = Ok (res, w') /\ completed junk op w (blen (reply_bytes r)) w'.
Proof.
  intros Hwf Hm Hmu Hwr Href Hv Ha Hs.
  assert (Hb : 12 + blen (rp_body r) < 2 ^ 32) by (pose proof (answers_body _ _ _ _ Ha); lia).
  destruct (reply_found r tl w Hs Hv Hb) as (Hl & Hsz & Hrv & Hbody & Htl).
  replace (blen (reply_bytes r)) with (12 + blen (rp_body r))
    by (unfold reply_bytes; rewrite blen_app; done).
  pose proof (blen_nonneg (rp_body r)). assert (H12 : 12 <= blen (stream (w_rd w))) by lia.
  remember (rp_rtvl r) as v eqn:Ev. remember (rp_body r) as b eqn:Eb. clear Hs Ev Eb.
  destruct Ha as [op v Hneg|op v Hp Hpos|fn st v b Hpos Hl1|fn vfs v b Hpos Hl1|op fi v b Ho Hpos Hl1
    |fn buf n pos fi b Hn Hbn|fn dest n v b Hpos Hn Hmax Hbn|dn buf fill off fi v us ds Hpos Hu Hds Hmax];
    try rewrite Hl1 in *; try rewrite blen_nil in *.
  - rewrite <- Hrv. apply error_answer; rewrite ?Hrv; done.
  - rewrite <- Hrv. apply plain_reply; rewrite ?Hrv; done.
  - rewrite <- Hbody. apply getattr_reply; rewrite ?Hrv; try done. by apply Hwf.
  - rewrite <- Hbody. apply statfs_reply; rewrite ?Hrv; try done. by apply Hwf.
  - rewrite <- Hbody. apply open_reply; rewrite ?Hrv; done.
  - pose proof (read_answer junk w Hm Hmu Hwr H12 fn buf n pos fi) as E.
    rewrite Hrv, Hsz, Hbody in E. apply E; try done; try lia; by apply Hwf.
  - pose proof (readlink_answer junk w Hm Hmu Hwr H12 fn dest n) as E.
    rewrite Hrv, Hsz in E. replace (12 + blen b - 12) with (blen b) in E by lia.
    rewrite Hbody in E. apply E; try done; try lia; by apply Hwf.
  - pose proof (readdir_answer junk w Hm Hmu Hwr H12 dn buf fill off fi us ds tl) as E.
    rewrite Hrv, Hsz in E. apply E; try done. by apply Hwf.
Qed.

(** C6. Every reply of the protocol, for every operation.  When the stream starts
    with a reply that answers the call, the operation returns the result, has
    sent exactly its request and consumed exactly the reply, whatever operation
    number the reply echoes and whatever follows it in the stream; the mutex is
    free, and one more heap block is allocated, the buffer of the request, which
    is never freed. *)
Theorem op_answered op r res tl w :
  op_wf op -> mem_ok w -> w_mu w = false -> wr_ok w -> refused op = false ->
  - 2 ^ 31 <= rp_rtvl r < 2 ^ 31 -> answers op (rp_rtvl r) (rp_body r) res ->
  stream (w_rd w) = reply_bytes r ++ tl ->
  exists w', zhwkrfsp junk op w = Ok (res, w') /\
    w_tx w' = w_tx w ++ op_message junk op w /\ stream (w_rd w') = tl /\
    w_mu w' = false /\ w_live w' = w_live w + 1.
Proof.
  intros Hwf Hm Hmu Hwr Href Hv Ha Hs.
  destruct (answer_returned op r res tl w) as (w' & E & Htx & Hrd & Hmu' & Hl & _); [done..|].
  exists w'. split_and!; try done. by eapply stream_after.
Qed.

(** ** Sessions *)

(** The results of a session: a refused call gets no reply and returns
    [-EINVAL]; the other calls take the replies one after the other. *)
Inductive served : list fuse_op -> list reply -> list (Z * op_out) -> Prop :=
| served_nil : served [] [] []
| served_refused op ops rs res :
    refused op = true -> served ops rs res -> served (op :: ops) rs ((- EINVAL, out0 op) :: res)
| served_answered op ops r rs x res :
    refused op = false -> - 2 ^ 31 <= rp_rtvl r < 2 ^ 31 ->
    answers op (rp_rtvl r) (rp_body r) x -> served ops rs res ->
    served (op :: ops) (r :: rs) (x :: res).

(** The bytes of the request of [op] with operation number [ouid]. *)
Definition request_bytes (op : fuse_op) (ouid : Z) : list byte :=
  match op_request junk op ouid with Ok parts => message parts | _ => [] end.

(** What the calls send when the operation number is [n] at the start. *)
Fixpoint session_messages (ops : list fuse_op) (n : Z) : list byte :=
  match ops with
  | [] => []
  | op :: ops' =>
      (if refused op then [] else request_bytes op (op_ouid op n)) ++
      session_messages ops' (u32 (n + op_steps op))
  end.

(** The requests of the session, numbered. *)
Fixpoint session_requests (ops : list fuse_op) (n : Z) : list (fuse_op * Z) :=
  match ops with
  | [] => []
  | op :: ops' =>
      (if refused op then [] else [(op, op_ouid op n)]) ++
      session_requests ops' (u32 (n + op_steps op))
  end.

(** One operation of a session. *)
Lemma served_step op ops rs x res tl w :
  op_wf op -> mem_ok w -> w_mu w = false -> wr_ok w -> opuid_ok w ->
  served (op :: ops) rs (x :: res) -> stream (w_rd w) = concat (reply_bytes <$> rs) ++ tl ->
  exists rs' w', zhwkrfsp junk op w = Ok (x, w') /\ served ops rs' res /\
    stream (w_rd w') = concat (reply_bytes <$> rs') ++ tl /\
    w_tx w' = w_tx w ++ (if refused op then [] else request_bytes op (op_ouid op (w_opuid w))) /\
    mem_ok w' /\ w_mu w' = false /\ wr_ok w' /\ w_opuid w' = u32 (w_opuid w + op_steps op) /\
    w_live w' = w_live w + (if refused op then 0 else 1).
Proof.
  intros Hwf Hm Hmu Hwr Hou Hsv Hs.
  assert (Hnum : forall r w', zhwkrfsp junk op w = Ok (r, w') ->
    w_opuid w' = u32 (w_opuid w + op_steps op)) by (intros; by eapply op_step_locks).
  inversion Hsv as [|? ? ? ? Href Hrest|? ? r rs' ? ? Href Hv Ha Hrest]; subst; rewrite Href.
  - destruct (op_refused junk op w Hwf Hmu Href) as (w' & E & Ew & Htx & Hrd & Hlv & Hmu').
    destruct (released_entered op w Hm Hwr) as [Hm' Hwr']. rewrite <- Ew in Hm', Hwr'.
    exists rs, w'. rewrite Hrd, Htx, Hlv, Z.add_0_r, app_nil_r. split_and!; try done. by eapply Hnum.
  - rewrite fmap_cons in Hs. cbn [concat] in Hs. rewrite <- app_assoc in Hs.
    destruct (answer_returned op r x (concat (reply_bytes <$> rs') ++ tl) w)
      as (w' & E & Htx & Hrd & Hmu' & Hl & Hwr' & Hm'); [done..|].
    exists rs', w'. split_and!; try done; [by eapply stream_after|by eapply Hnum].
Qed.

(** The requests sent, and the blocks they leak. *)
Definition request_count (ops : list fuse_op) : Z :=
  blen (filter (fun op => refused op = false) ops).

Lemma session_served_ok ops rs res tl w :
  Forall op_wf ops -> mem_ok w -> w_mu w = false -> wr_ok w -> opuid_ok w ->
  served ops rs res -> stream (w_rd w) = concat (reply_bytes <$> rs) ++ tl ->
  exists w', fuse_loop junk ops w = Ok (res, w') /\
    w_tx w' = w_tx w ++ session_messages ops (w_opuid w) /\
    stream (w_rd w') = tl /\ w_mu w' = false /\
    w_live w' = w_live w + request_count ops.
Proof.
  intros Hwf. revert rs res w. induction Hwf as [|op ops Hop Hops IH]; intros rs res w Hm Hmu Hwr Hou Hsv Hs.
  { inversion Hsv; subst. exists w. cbn. unfold request_count. cbn.
    rewrite app_nil_r, Z.add_0_r. done. }
  destruct res as [|x res]; [by inversion Hsv|].
  destruct (served_step op ops rs x res tl w)
    as (rs' & w1 & E & Hsv1 & Hs1 & Htx1 & Hm1 & Hmu1 & Hwr1 & Hou1 & Hl1); [done..|].
  destruct (IH rs' res w1) as (w' & E' & Htx & Hst & Hmu' & Hl);
    [done..|unfold opuid_ok; rewrite Hou1; by apply uwrap_range|done|done|].
  exists w'. cbn [fuse_loop session_messages]. rewrite (prog_bind_ok _ _ _ _ _ E).
  rewrite (prog_bind_ok _ _ _ _ _ E'). split_and!; try done.
  - by rewrite Htx, Htx1, Hou1, app_assoc.
  - rewrite Hl, Hl1. unfold request_count. rewrite filter_cons.
    destruct (refused op); case_decide; try done; rewrite ?blen_cons; lia.
Qed.

(** C2. A whole session.  The event loop serves any sequence of calls from one
    connection: if the peer's bytes are replies that answer the calls that are
    not refused, in order, then every call returns the result its own reply
    stands for; the requests go out one after the other, each with the
    operation number of its call; the incoming stream is left exactly behind the
    last reply, and the mutex free.  Every request leaks one heap block. *)
Theorem session_served ops rs res tl w :
  Forall op_wf ops -> mem_ok w -> w_mu w = false -> wr_ok w -> opuid_ok w ->
  served ops rs res -> stream (w_rd w) = concat (reply_bytes <$> rs) ++ tl ->
  exists w', fuse_loop junk ops w = Ok (res, w') /\
    w_tx w' = w_tx w ++ session_messages ops (w_opuid w) /\
    stream (w_rd w') = tl /\ w_mu w' = false /\
    w_live w' = w_live w + request_count ops.
Proof. by apply (session_served_ok ops rs res). Qed.

(** ** The peer's side *)

(** A peer that receives [k] requests, each with the buffer [buffer] for the
    bytes of a write. *)
Fixpoint peer_loop (k : nat) (buffer : list byte)
  : io (list (Z * list byte * list byte * list byte)) :=
  match k with
  | O => mret []
  | S k' => m ← receive buffer; ms ← peer_loop k' buffer; mret (m :: ms)
  end.

(** The request [op] numbered [ouid] and what the peer has made of it. *)
Definition understood (buffer : list byte) (q : fuse_op * Z)
    (m : Z * list byte * list byte * list byte) : Prop :=
  let '(op, ouid) := q in
  let '(r, h, body, buf) := m in
  r = 0 /\ getf OpHdr "opid" h = op_code op /\ getf OpHdr "ouid" h = u32 ouid /\
  exists extra, carries op body extra /\ buf = extra ++ bdrop (op_announced op) buffer.

Definition is_symlink (op : fuse_op) : bool :=
  match op with Symlink _ _ => true | _ => false end.

Lemma session_understood_ok ops n buffer rest w :
  Forall op_wf ops -> existsb is_symlink ops = false ->
  Forall (fun op => op_announced op <= blen buffer) ops -> mem_ok w ->
  stream (w_rd w) = session_messages ops n ++ rest ->
  exists ms w', peer_loop (length (session_requests ops n)) buffer w = Ok (ms, w') /\
    Forall2 (understood buffer) (session_requests ops n) ms /\ stream (w_rd w') = rest.
Proof.
  intros Hwf. revert n w. induction Hwf as [|op ops Hop Hops IH]; intros n w Hns Hb Hm Hs.
  { exists [], w. split_and!; [done|constructor|done]. }
  apply orb_false_iff in Hns as [Hn1 Hns]. apply Forall_cons_iff in Hb as [Hb1 Hb].
  cbn [session_messages session_requests] in *. destruct (refused op); [by apply IH|].
  rewrite <- app_assoc in Hs. unfold request_bytes in Hs.
  destruct (op_request_carries junk op (op_ouid op n) Hop) as (parts & _ & _ & E & _).
  rewrite E in Hs.
  destruct (receive_request junk op (op_ouid op n) parts buffer _ w Hop E Hm Hs Hb1)
    as (h & body & extra & left & w1 & Er & Hid & Hou & Hc & _ & Hs1 & Hm1 & Hl).
  assert (left = []) as -> by (apply nil_length_inv; destruct op; try done; unfold blen in Hl; lia).
  destruct (IH (u32 (n + op_steps op)) w1) as (ms & w' & E' & Hf & Hr); [done..|].
  eexists (_ :: ms), w'. cbn [app length peer_loop].
  rewrite (prog_bind_ok _ _ _ _ _ Er), (prog_bind_ok _ _ _ _ _ E'). split; [done|]. split; [|done].
  constructor; [|done]. cbn. split_and!; try done. by exists extra.
Qed.

(** The other direction.  A peer built on prot.c that reads what a session
    without [symlink] sends, cut into packets in any way, recovers its requests
    one after the other: the code, the number and the content of each; it stops
    exactly behind the last one. *)
Theorem session_understood ops n buffer rest w :
  Forall op_wf ops -> existsb is_symlink ops = false ->
  Forall (fun op => op_announced op <= blen buffer) ops -> mem_ok w ->
  stream (w_rd w) = session_messages ops n ++ rest ->
  exists ms w', peer_loop (length (session_requests ops n)) buffer w = Ok (ms, w') /\
    Forall2 (understood buffer) (session_requests ops n) ms /\ stream (w_rd w') = rest.
Proof. by apply session_understood_ok. Qed.

End answered.

(** ** Witnesses *)

(** [rmdir], an [open] that is refused, an [open] and a [read]. *)
Definition session_ex : list fuse_op :=
  [Rmdir root; Open root write_page; Open root no_flags; Read root (zeros 15) 15 0 no_flags].

Definition replies_ex : list reply :=
  [Reply 1 0 []; Reply 7 0 (le_enc 8 5 ++ zeros 8); Reply 4 3 (root ++ root ++ root)].

Definition results_ex : list (Z * op_out) :=
  [(0, ONone); (- EINVAL, OInfo write_page); (0, OInfo (set_fh 5 no_flags));
   (3, OBuf ((root ++ root ++ root) ++ zeros 12))].

Lemma session_ex_wf : Forall op_wf session_ex.
Proof. repeat constructor; try (intros ? [= <-]; reflexivity). Qed.

Lemma session_ex_served : served session_ex replies_ex results_ex.
Proof.
  constructor; [done|done|by apply ans_plain|].
  constructor; [done|].
  constructor; [done|done|exact (ans_open (Open root no_flags) no_flags 0 (le_enc 8 5 ++ zeros 8) eq_refl ltac:(done) eq_refl)|].
  constructor; [done|done|exact (ans_read root (zeros 15) 15 0 no_flags (root ++ root ++ root) ltac:(done) ltac:(done))|].
  constructor.
Qed.

Lemma op_answered_witness :
  exists w', zhwkrfsp nojunk (Rmdir root) (from_peer (reply_bytes (Reply 1 (-5) []) ++ root)) =
      Ok ((-5, ONone), w') /\ stream (w_rd w') = root.
Proof.
  destruct (op_answered nojunk (Rmdir root) (Reply 1 (-5) []) (-5, ONone) root
    (from_peer (reply_bytes (Reply 1 (-5) []) ++ root))) as (w' & E & _ & Hs & _);
    [apply op_wf_root; [by intros ? [= <-]|exact I]|reflexivity|reflexivity|apply Forall_nil_2
    |reflexivity|split; done|by apply (ans_error (Rmdir root))|reflexivity|].
  exists w'. split; [exact E|exact Hs].
Defined.

Lemma session_served_witness :
  exists w', fuse_loop nojunk session_ex (from_peer (concat (reply_bytes <$> replies_ex) ++ root)) =
      Ok (results_ex, w') /\ stream (w_rd w') = root /\ w_live w' = 3.
Proof.
  destruct (session_served nojunk session_ex replies_ex results_ex root
    (from_peer (concat (reply_bytes <$> replies_ex) ++ root))) as (w' & E & _ & Hs & _ & Hl);
    [exact session_ex_wf|reflexivity|reflexivity|apply Forall_nil_2|by split
    |exact session_ex_served|reflexivity|].
  exists w'. split_and!; [exact E|exact Hs|exact Hl].
Defined.

Lemma session_understood_witness :
  exists ms w', peer_loop 3 [] (from_peer (session_messages nojunk session_ex 0)) = Ok (ms, w') /\
    Forall2 (understood []) (session_requests session_ex 0) ms.
Proof.
  destruct (session_understood nojunk session_ex 0 [] [] (from_peer (session_messages nojunk session_ex 0)))
    as (ms & w' & E & Hf & _);
    [exact session_ex_wf|reflexivity|by repeat constructor|reflexivity| |].
  - unfold from_peer, start. cbn [w_rd stream]. by rewrite app_nil_r.
  - exists ms, w'. split; [exact E|exact Hf].
Defined.
