(* ===== verification/Remote.v ===== *)
(** * The remote file system

    What the peer promises to the server is an interface, [Peer]: a file system
    with a state, which answers every call in the format of the protocol.  Against
    any peer that keeps this promise the event loop implements the peer's file
    system: it returns the results of the calls on the peer's state, and what it
    sends is enough for the peer to know the calls. *)

From S2P Require Import Prelude Layout World Netwrap Ustruct Prot FuseServer.
From S2P Require Import Server FuseFacts FuseOps FuseRequests FuseSpec Session.
Local Open Scope Z_scope.

(** ** The interface *)

(** [peer_reply] is what the peer sends for a call, [peer_next] its state
    afterwards, and [peer_result] what the reply stands for. *)
Class Peer (State : Type) : Type := {
  peer_reply : State -> fuse_op -> reply;
  peer_next : State -> fuse_op -> State;
  peer_result : State -> fuse_op -> Z * op_out;
  peer_answers : forall s op, op_wf op -> refused op = false ->
    - 2 ^ 31 <= rp_rtvl (peer_reply s op) < 2 ^ 31 /\
    answers op (rp_rtvl (peer_reply s op)) (rp_body (peer_reply s op)) (peer_result s op)
}.

Section remote.
Context {State : Type} `{!Peer State}.

(** The calls on the peer's state; a call that the server refuses does not reach
    the peer. *)
Fixpoint remote_run (ops : list fuse_op) (s : State) : list (Z * op_out) :=
  match ops with
  | [] => []
  | op :: ops' =>
      if refused op then (- EINVAL, out0 op) :: remote_run ops' s
      else peer_result s op :: remote_run ops' (peer_next s op)
  end.

(** The peer's side of the connection. *)
Fixpoint peer_replies (ops : list fuse_op) (s : State) : list reply :=
  match ops with
  | [] => []
  | op :: ops' =>
      if refused op then peer_replies ops' s
      else peer_reply s op :: peer_replies ops' (peer_next s op)
  end.

Lemma peer_served ops s : Forall op_wf ops -> served ops (peer_replies ops s) (remote_run ops s).
Proof using Type.
  intros Hwf. revert s. induction Hwf as [|op ops Hop _ IH]; intros s; cbn [peer_replies remote_run]; [constructor|].
  destruct (refused op) eqn:E; [by constructor|].
  destruct (peer_answers s op Hop E) as [Hr Ha]. by constructor.
Qed.

(** C4. The mounted file system is the peer's.  For any peer that answers in the
    protocol and any sequence of calls: the event loop returns for each call what
    the same sequence gives on the peer's state (an errno of the peer, or success
    with its data), takes exactly the peer's replies and releases the mutex; and
    a peer that reads with the functions of prot.c what has been sent meanwhile,
    cut into packets in any way, finds the calls in order, with their operation
    numbers and all their contents, and nothing else.  (The calls are without
    [symlink], whose request is longer than it announces.) *)
Theorem remote_refines junk ops s tl w :
  Forall op_wf ops -> existsb is_symlink ops = false ->
  mem_ok w -> w_mu w = false -> wr_ok w -> opuid_ok w ->
  stream (w_rd w) = concat (reply_bytes <$> peer_replies ops s) ++ tl ->
  exists w' sent, fuse_loop junk ops w = Ok (remote_run ops s, w') /\
    w_tx w' = w_tx w ++ sent /\ stream (w_rd w') = tl /\ w_mu w' = false /\
    forall buffer rest v,
      Forall (fun op => op_announced op <= blen buffer) ops -> mem_ok v ->
      stream (w_rd v) = sent ++ rest ->
      exists ms v', peer_loop (length (session_requests ops (w_opuid w))) buffer v = Ok (ms, v') /\
        Forall2 (understood buffer) (session_requests ops (w_opuid w)) ms /\ stream (w_rd v') = rest.
Proof using Type.
  intros Hwf Hns Hm Hmu Hwr Hou Hs.
  destruct (session_served_ok junk ops _ _ tl w Hwf Hm Hmu Hwr Hou (peer_served ops s Hwf) Hs)
    as (w' & E & Htx & Hst & Hmu' & _).
  exists w', (session_messages junk ops (w_opuid w)). split_and!; try done.
  intros buffer rest v Hb Hv Hsv. by apply (session_understood_ok junk ops _ buffer rest v).
Qed.

End remote.

(** ** A peer *)

(** A peer that counts the changes it is asked for, and has nothing to read. *)
Definition counting_reply (n : Z) (op : fuse_op) : reply :=
  if is_plain op then Reply n 0 [] else Reply n (-5) [].

Definition counting_result (n : Z) (op : fuse_op) : Z * op_out :=
  if is_plain op then (0, ONone) else (-5, out0 op).

Lemma counting_answers n op :
  - 2 ^ 31 <= rp_rtvl (counting_reply n op) < 2 ^ 31 /\
  answers op (rp_rtvl (counting_reply n op)) (rp_body (counting_reply n op)) (counting_result n op).
Proof.
  unfold counting_reply, counting_result. destruct (is_plain op) eqn:E; (split; [done|]).
  - pose proof (ans_plain op 0 E ltac:(done)) as H. by destruct op.
  - by apply ans_error.
Qed.

#[export] Instance counting_peer : Peer Z := {
  peer_reply := counting_reply;
  peer_next n op := if is_plain op then n + 1 else n;
  peer_result := counting_result;
  peer_answers n op _ _ := counting_answers n op
}.

Lemma remote_refines_witness :
  exists w', fuse_loop nojunk session_ex
      (from_peer (concat (reply_bytes <$> peer_replies session_ex 3) ++ root)) =
    Ok ([(0, ONone); (- EINVAL, OInfo write_page); (-5, OInfo no_flags); (-5, OBuf (zeros 15))], w').
Proof.
  destruct (remote_refines nojunk session_ex 3 root
    (from_peer (concat (reply_bytes <$> peer_replies session_ex 3) ++ root)))
    as (w' & _ & E & _); [exact session_ex_wf|reflexivity|reflexivity|reflexivity|apply Forall_nil_2|by split|reflexivity|].
  exists w'. exact E.
Defined.
