(* ===== verification/FuseTypes.v ===== *)
(** * The type safety of a session

    Whatever the peer, the allocator and the socket do, a callback that returns
    leaves values of their C types behind ([returns]): a result that fits an
    [int], buffers of the length they had, structures whose fields fit their
    widths.  And it does not go wrong ([sane]): with memory there is no access
    out of bounds and no other undefined behaviour on any path, whatever bytes the
    peer sends and however the transfers end, except after two kinds of reply
    headers, which are told exactly ([undefined_reply]). *)

From S2P Require Import Prelude Layout World Bss Netwrap Ustruct Prot FuseServer Server FuseFacts FuseOps.
From S2P Require Import FuseRequests FuseSpec.
Local Open Scope Z_scope.

(** ** Results *)

(** Every value the program returns satisfies [P]. *)
Definition returns {A} (P : A -> Prop) (m : io A) : Prop :=
  forall w a w', m w = Ok (a, w') -> P a.

Section returns.
Context {A B : Type}.

Lemma returns_ret (P : A -> Prop) a : P a -> returns P (mret a).
Proof. intros Ha w a' w' [= <- _]. done. Qed.

Lemma returns_bind (P : A -> Prop) (Q : B -> Prop) m f :
  returns P m -> (forall a, P a -> returns Q (f a)) -> returns Q (m ≫= f).
Proof.
  intros Hm Hf w b w' E. apply prog_bind_inv in E as (a & w1 & E1 & E2).
  eapply Hf; [by eapply Hm|done].
Qed.

Lemma returns_any (m : io A) : returns (fun _ => True) m.
Proof. done. Qed.

Lemma returns_skip (Q : B -> Prop) (m : io A) f : (forall a, returns Q (f a)) -> returns Q (m ≫= f).
Proof. intros Hf. eapply returns_bind; [apply returns_any|]. intros a _. apply Hf. Qed.

Lemma returns_abort (P : A -> Prop) : returns P pabort.
Proof. done. Qed.

Lemma returns_if (P : A -> Prop) (b : bool) m1 m2 :
  returns P m1 -> returns P m2 -> returns P (if b then m1 else m2).
Proof. by destruct b. Qed.

End returns.

Lemma returns_WARN {A} (P : A -> Prop) a : P a -> returns P (WARN a).
Proof. intros Ha. unfold WARN. apply returns_skip. intros _. by apply returns_ret. Qed.

(** ** Typed values *)

Abbreviation int_range z := (in_s 32 z).

(** A file information that differs from [fi] in its handle at most, which fits
    64 bits if it does. *)
Definition info_typed (fi fi' : fuse_file_info) : Prop :=
  fi' = fi \/ exists h, in_u 64 h /\ fi' = set_fh h fi.

(** What a callback leaves in the caller's objects, by the kind of the callback. *)
Definition out_typed (op : fuse_op) (out : op_out) : Prop :=
  match op, out with
  | Getattr _ st, OStat st' => st' = st \/ stat_wf st'
  | Readlink _ dest _, OBuf b => blen b = blen dest
  | Read _ buf _ _ _, OBuf b => blen b = blen buf
  | Open _ fi, OInfo fi' | Opendir _ fi, OInfo fi' | Create _ _ fi, OInfo fi' => info_typed fi fi'
  | Statfs _ vfs, OVfs vfs' => vfs' = vfs \/ statvfs_wf vfs'
  | Readdir _ _ _ _ _, ODir _ => True
  | Mkdir _ _, ONone | Rmdir _, ONone | Symlink _ _, ONone | Chmod _ _, ONone
  | Truncate _ _, ONone | Write _ _ _ _ _, ONone | Release _ _, ONone | Releasedir _ _, ONone
  | Access _ _, ONone | Unlink _, ONone | Utimens _ _ _, ONone => True
  | _, _ => False
  end.

(** The object before the call is of its type. *)
Lemma out0_typed op : out_typed op (out0 op).
Proof. destruct op; cbn; try done; by left. Qed.

Lemma errno_range : int_range (- EBUSY) /\ int_range (- EINVAL) /\ int_range 0.
Proof. by split_and!. Qed.

Lemma memcpy_len dst off src n b : memcpy dst off src n = Ok b -> blen b = blen dst.
Proof.
  unfold memcpy. destruct (Z.leb_spec 0 off), (Z.leb_spec 0 n), (Z.leb_spec (off + n) (blen dst)),
    (Z.leb_spec n (blen src)); try done. intros [= <-]. apply blen_bstore; [done|]. by rewrite blen_btake.
Qed.

Lemma fall_stat_wf st b : stat_wf (fall_stat st b).
Proof. unfold stat_wf, in_u, in_s. split_and!; first [apply uwrap_range; done|apply swrap_range; done]. Qed.

Lemma fall_statvfs_wf b : statvfs_wf (fall_statvfs b).
Proof. unfold statvfs_wf, in_u. repeat constructor; try apply uwrap_range; done. Qed.

Lemma returns_re_read dest n : returns (fun x => blen x.2 = blen dest) (re_read dest n).
Proof.
  unfold re_read, recv. apply returns_skip. intros b. apply returns_skip. intros [r b'].
  apply returns_if; [apply returns_skip; intros _; by apply returns_ret|].
  eapply (returns_bind (fun d => blen d = blen dest)).
  - intros w a w' E. unfold lift_res in E. destruct (memcpy _ _ _ _) as [d| | | |] eqn:Em; try done.
    injection E as <- _. by eapply memcpy_len.
  - intros d Hd. apply returns_skip. intros _. by apply returns_ret.
Qed.

(** The error [exchange] ends with is an [int]. *)
Lemma returns_exchange junk parts :
  returns (fun x => match x with inl e => int_range e | inr _ => True end) (exchange junk parts).
Proof.
  unfold exchange. apply returns_skip. intros b. apply returns_skip. intros b'. apply returns_skip.
  intros r. apply returns_if; [by apply returns_WARN|]. apply returns_skip. intros [r' rp].
  apply returns_if; [by apply returns_WARN|]. cbv zeta.
  apply returns_if; [apply returns_WARN, getf_rtvl_range|by apply returns_ret].
Qed.

(** ** The ends of the operations *)

Section ends.
Context (junk : string -> nat -> byte).

(** A result and what it says of an object of type [A]. *)
Definition typed {A} (P : A -> Prop) (x : Z * A) : Prop := int_range x.1 /\ P x.2.

(** The common end of the operations that receive a body. *)
Lemma returns_body {A} (P : A -> Prop) dest n (err ok : list byte -> Z * A) :
  (forall b, blen b = blen dest -> typed P (err b)) -> (forall b, blen b = blen dest -> typed P (ok b)) ->
  returns (typed P) ('(r, b) ← re_read dest n;
    if negb (r =? 0) then WARN (err b) else q__Mutex_unlock;; mret (ok b)).
Proof.
  intros He Hk. eapply returns_bind; [apply returns_re_read|]. intros [r b] Hb.
  apply returns_if; [by apply returns_WARN, He|]. apply returns_skip. intros _. by apply returns_ret, Hk.
Qed.

Lemma returns_plain op x f :
  (forall rp, int_range (f rp)) -> match x with inl e => int_range e | inr _ => True end ->
  out_typed op ONone -> returns (typed (out_typed op)) (out_none (finish_plain x f)).
Proof.
  intros Hf Hx Ho. apply (returns_bind (fun r => int_range r)).
  - destruct x as [e|rp]; [by apply returns_ret|]. apply returns_if; [done|].
    apply returns_skip. intros _. apply returns_ret, Hf.
  - intros r Hr. by apply returns_ret.
Qed.

Lemma returns_out_as {A} op (f : A -> op_out) (P : A -> Prop) m :
  returns (typed P) m -> (forall a, P a -> out_typed op (f a)) ->
  returns (typed (out_typed op)) (out_as f m).
Proof.
  intros Hm Hf. eapply returns_bind; [exact Hm|]. intros [r a] [Hr Ha]. apply returns_ret.
  split; [exact Hr|]. by apply Hf.
Qed.

Lemma returns_open op fi x :
  (forall fi', info_typed fi fi' -> out_typed op (OInfo fi')) ->
  match x with inl e => int_range e | inr _ => True end ->
  returns (typed (out_typed op)) (out_as OInfo (finish_open junk x fi)).
Proof.
  intros Hop Hx. apply (returns_out_as _ _ (info_typed fi)); [|exact Hop].
  destruct x as [e|rp]; [apply returns_ret; split; [done|by left]|]. apply returns_if; [done|].
  apply (returns_body _ _ _ (fun _ => (- EBUSY, fi)) (fun ro => (0, _))); intros b _.
  - split; [done|by left].
  - split; [done|]. cbn [snd]. destruct (_ =? 0); [|by left].
    right. eexists. split; [|done]. unfold in_u. by apply (uwrap_range 64).
Qed.

Lemma returns_finish op x :
  match x with inl e => int_range e | inr _ => True end ->
  returns (typed (out_typed op)) (op_finish junk op x).
Proof.
  intros Hx. destruct op; cbn [op_finish]; try (apply returns_plain; [by intros|done|done]);
    try (by apply returns_open).
  - apply (returns_out_as _ _ (fun st' => st' = st \/ stat_wf st')); [|done].
    destruct x as [e|rp]; [apply returns_ret; split; [done|by left]|]. apply returns_if; [done|].
    apply (returns_body _ _ _ (fun _ => (- EBUSY, st)) (fun u => (0, _))); intros b _; (split; [done|]).
    + by left.
    + right. apply fall_stat_wf.
  - apply (returns_out_as _ _ (fun b => blen b = blen dest)); [|done].
    destruct x as [e|rp]; [by apply returns_ret|]. apply returns_if; [done|].
    by apply (returns_body _ _ _ (fun b => (- EBUSY, b)) (fun b => (0, b))).
  - apply (returns_out_as _ _ (fun b => blen b = blen buf)); [|done].
    destruct x as [e|rp]; [by apply returns_ret|]. apply returns_if; [done|]. apply returns_if; [done|].
    apply (returns_body _ _ _ (fun b => (- EBUSY, b)) (fun b => (_, b))); [done|].
    intros b Hb. split; [apply getf_rtvl_range|done].
  - apply returns_plain; [intros; apply getf_rtvl_range|done|done].
  - apply (returns_out_as _ _ (fun v => v = fstat \/ statvfs_wf v)); [|done].
    destruct x as [e|rp]; [apply returns_ret; split; [done|by left]|]. apply returns_if; [done|].
    apply (returns_body _ _ _ (fun _ => (- EBUSY, fstat)) (fun u => (0, _))); intros b _; (split; [done|]).
    + by left.
    + right. apply fall_statvfs_wf.
  - apply (returns_out_as _ _ (fun _ => True)); [|done].
    destruct x as [e|rp]; [by apply returns_ret|]. cbv zeta. apply returns_if; [done|].
    apply returns_skip. intros b. apply returns_skip. intros [r b'].
    apply returns_if; [apply returns_skip; intros _; by apply returns_WARN|].
    apply returns_skip. intros _. apply returns_skip. intros _. by apply returns_ret.
Qed.
End ends.

(** ** Undefined behaviour

    [sane Q m]: with memory, [m] does nothing undefined, and if it returns, there
    is memory again and the value satisfies [Q]. *)

Definition sane {A} (Q : A -> Prop) (m : io A) : Prop :=
  forall w, mem_ok w ->
  match m w with Ok (a, w') => mem_ok w' /\ Q a | Undef => False | _ => True end.

Section sane.
Context {A B : Type}.
Implicit Types (Q : A -> Prop) (R : B -> Prop).

Lemma sane_ret Q a : Q a -> sane Q (mret a).
Proof. by intros Ha w Hm. Qed.

Lemma sane_bind Q R (m : io A) (f : A -> io B) :
  sane Q m -> (forall a, Q a -> sane R (f a)) -> sane R (m ≫= f).
Proof.
  intros Hm Hf w Hw. specialize (Hm w Hw). unfold mbind, prog_bind.
  destruct (m w) as [[a w']| | | |]; try done. destruct Hm as [Hw' Ha]. by apply Hf.
Qed.

Lemma sane_weaken Q (Q' : A -> Prop) m : sane Q m -> (forall a, Q a -> Q' a) -> sane Q' m.
Proof.
  intros Hm HQ w Hw. specialize (Hm w Hw). destruct (m w) as [[a w']| | | |]; try done.
  destruct Hm. by split; [|apply HQ].
Qed.

Lemma sane_if Q (b : bool) m1 m2 :
  (b = true -> sane Q m1) -> (b = false -> sane Q m2) -> sane Q (if b then m1 else m2).
Proof. intros H1 H2. destruct b; [by apply H1|by apply H2]. Qed.

Lemma sane_abort Q : sane Q pabort.
Proof. by intros w Hw. Qed.

Lemma sane_lift Q r a : r = Ok a -> Q a -> sane Q (lift_res r).
Proof. by intros -> Ha w Hw. Qed.

Lemma sane_modify (R' : unit -> Prop) (f : world -> world) :
  (forall w, w_alloc (f w) = w_alloc w) -> R' tt -> sane R' (pmodify f).
Proof. intros Hf Ht w Hw. split; [|done]. unfold mem_ok. by rewrite Hf. Qed.

End sane.

Abbreviation safe := (sane (fun _ => True)).

(** A command whose value does not matter. *)
Lemma sane_then {A B} (R : B -> Prop) (m : io A) (k : A -> io B) :
  safe m -> (forall a, sane R (k a)) -> sane R (m ≫= k).
Proof. intros Hm Hk. eapply sane_bind; [exact Hm|]. intros a _. apply Hk. Qed.

Lemma safe_SETERR e : safe (SETERR e).
Proof. by apply sane_modify. Qed.

Lemma safe_unlock : safe q__Mutex_unlock.
Proof. intros w Hw. rewrite unlock_eq. split; [|done]. unfold released. by destruct (w_mu w). Qed.

Lemma safe_destructor b : safe (qbss_destructor b).
Proof. unfold qbss_destructor. destruct (str b); [by apply sane_modify|by apply sane_ret]. Qed.

Lemma sane_WARN {A} (Q : A -> Prop) (a : A) : Q a -> sane Q (WARN a).
Proof. intros Ha. apply sane_then; [apply safe_unlock|]. intros _. by apply sane_ret. Qed.

Lemma sane_constructor : sane (eq (Bss (Some (zeros 64)) 0 64)) qbss_constructor.
Proof. intros w Hw. by rewrite qbss_constructor_eq. Qed.

Lemma sane_append b bs n :
  bss_ok b -> 0 <= n <= blen bs -> Bss.size b + n < 2 ^ 31 ->
  sane (fun b' => bss_ok b' /\ Bss.size b' = Bss.size b + n) (q__bss_append b bs n).
Proof.
  intros Hb Hn Hs w Hw. destruct (q__bss_append_ok b bs n w) as (b' & -> & Hb' & Hs' & _); done.
Qed.

(** A read stores at most what it is asked for, in a buffer of that length. *)
Lemma sane_read n :
  0 <= n -> sane (fun x => x.1 = -1 \/ 0 <= x.1 <= n /\ x.1 <= blen x.2) (qStreamSocket_read n).
Proof.
  intros Hn w Hw. unfold qStreamSocket_read, sys_read, mbind, prog_bind, mret, prog_ret.
  destruct (w_rd w) as [|[|bs|] es]; try done.
  - cbn. split; [done|by left].
  - pose proof (blen_nonneg bs). destruct (Z.leb_spec (blen bs) n).
    + destruct (Z.eqb_spec (blen bs) (-1)); [lia|]. split; [done|]. right. cbn. rewrite blen_app. blia.
    + destruct (Z.eqb_spec n (-1)); [lia|]. split; [done|]. right. cbn. rewrite blen_app, blen_btake by lia. blia.
  - cbn. split; [done|]. right. split; [lia|]. apply blen_nonneg.
Qed.

Lemma sane_sockread b n :
  bss_ok b -> 0 <= n -> Bss.size b + n < 2 ^ 31 ->
  sane (fun x => bss_ok x.2 /\ (x.1 = 0 -> Bss.size x.2 = Bss.size b + n)) (sockread b n).
Proof.
  intros Hb Hn Hs. unfold sockread. rewrite (proj2 (Z.ltb_ge _ _)) by lia.
  apply (sane_bind (fun _ => True)); [by intros w Hw|]. intros w _. generalize (S (length (w_rd w))).
  clear w. intros k. revert b n Hb Hn Hs. induction k as [|k IH]; intros b n Hb Hn Hs; [by intros w Hw|].
  cbn [sockread_loop]. destruct (Z.eqb_spec n 0) as [->|Hn0].
  { apply sane_ret. cbn. split; [done|lia]. }
  eapply sane_bind; [by apply sane_read|]. intros [actr buf] Hr. cbn [fst snd] in Hr.
  destruct (Z.eqb_spec actr (-1)); [by apply sane_ret|]. destruct Hr as [?|[Ha Hl]]; [done|].
  eapply sane_bind; [apply (sane_append b buf actr); (done || lia)|]. intros b' [Hb' Hs'].
  eapply sane_weaken; [apply IH; (done || lia)|]. intros [r b''] [? H]. split; [done|].
  cbn in *. intros Hr. rewrite (H Hr). lia.
Qed.

(** A receive that fits its destination stays inside of it. *)
Lemma safe_recv dest n : 0 <= n < 2 ^ 31 -> n <= blen dest -> safe (recv dest n).
Proof.
  intros Hn Hd. unfold recv. eapply sane_bind; [apply sane_constructor|]. intros b <-.
  rewrite swrap_small by lia.
  eapply sane_bind; [apply sane_sockread; [apply qbss_new_ok|lia|cbn; lia]|].
  intros [r b] [Hb Hs]. cbn [fst snd Bss.size] in *. apply sane_if.
  - intros _. apply sane_then; [apply safe_destructor|]. intros _. by apply sane_ret.
  - intros Hr. apply negb_false_iff, Z.eqb_eq in Hr.
    destruct (bss_ok_block b Hb) as (buf & -> & Hl & _). rewrite (Hs Hr) in Hl. cbn [from_option id].
    eapply sane_then; [eapply (sane_lift _ _ _ (memcpy_ok dest 0 buf n ltac:(lia) ltac:(lia) ltac:(lia) ltac:(lia))); done|].
    intros d. apply sane_then; [apply safe_destructor|]. intros _. by apply sane_ret.
Qed.

Lemma safe_re_read dest n : 0 <= n < 2 ^ 31 -> n <= blen dest -> safe (re_read dest n).
Proof. apply safe_recv. Qed.

Lemma sane_append_all parts b :
  bss_ok b -> Forall (fun p => 0 <= p.2 <= blen p.1) parts ->
  Bss.size b + blen (message parts) < 2 ^ 31 -> sane bss_ok (append_all b parts).
Proof. intros Hb Hp Hs w Hw. by destruct (append_all_ok parts b w) as (b' & -> & ? & _). Qed.

Lemma safe_sockwrite b af : bss_ok b -> safe (sockwrite b af).
Proof. intros Hb w Hw. rewrite sockwrite_eq by done. by destruct (deliver_all _ _). Qed.

(** An exchange is safe, and hands on a header only if its value is no error. *)
Lemma sane_exchange junk parts :
  parts_ok parts ->
  sane (fun x => match x with inl _ => True | inr rp => 0 <= getf RpHdr "rtvl" rp end) (exchange junk parts).
Proof.
  intros [Hp Hl]. unfold exchange. eapply sane_bind; [apply sane_constructor|]. intros b <-.
  eapply sane_bind; [apply sane_append_all; [apply qbss_new_ok|done|cbn; lia]|]. intros b Hb.
  apply sane_then; [by apply safe_sockwrite|]. intros r.
  apply sane_if; [intros _; by apply sane_WARN|intros _].
  apply sane_then; [apply safe_recv; rewrite ?blen_uninit; by rewrite ?sizeof_RpHdr|]. intros [r' rp].
  apply sane_if; [intros _; by apply sane_WARN|intros _]. cbv zeta.
  apply sane_if; [intros _; by apply sane_WARN|]. intros H%Z.ltb_ge. by apply sane_ret.
Qed.

(** *** The ends of the operations *)

(** The buffers are as long as libfuse says they are. *)
Definition buffers_ok (op : fuse_op) : Prop :=
  match op with
  | Read _ buf n _ _ => 0 <= n <= blen buf
  | Readlink _ dest n => 0 <= n <= blen dest /\ n < 2 ^ 31
  | _ => True
  end.

(** The reply headers that pass the checks of an operation and announce a body
    whose size the code then gets wrong: [readlink] subtracts the header from
    less, [readdir] stores the difference in an [int]. *)
Definition breaks (op : fuse_op) (rp : list byte) : bool :=
  match op with
  | Readlink _ _ _ => getf RpHdr "size" rp <? 12
  | Readdir _ _ _ _ _ => 2 ^ 31 + 12 <=? getf RpHdr "size" rp
  | _ => false
  end.

Section safe_ends.
Context (junk : string -> nat -> byte).

Lemma safe_body {A} dest n (err ok : list byte -> A) :
  0 <= n < 2 ^ 31 -> n <= blen dest ->
  safe ('(r, b) ← re_read dest n; if negb (r =? 0) then WARN (err b) else q__Mutex_unlock;; mret (ok b)).
Proof.
  intros Hn Hd. apply sane_then; [by apply safe_re_read|]. intros [r b].
  apply sane_if; [intros _; by apply sane_WARN|intros _].
  apply sane_then; [apply safe_unlock|]. intros _. by apply sane_ret.
Qed.

Lemma safe_out_as {A} (f : A -> op_out) m : safe m -> safe (out_as f m).
Proof. intros Hm. apply sane_then; [done|]. intros [r a]. by apply sane_ret. Qed.

Lemma safe_plain rp f : safe (out_none (finish_plain (inr rp) f)).
Proof.
  apply sane_then; [|intros r; by apply sane_ret]. apply sane_if; [intros _; apply sane_abort|intros _].
  apply sane_then; [apply safe_unlock|]. intros _. by apply sane_ret.
Qed.

Lemma safe_open rp fi : safe (out_as OInfo (finish_open junk (inr rp) fi)).
Proof.
  apply safe_out_as. apply sane_if; [intros _; apply sane_abort|intros _].
  apply (safe_body _ _ (fun _ => (- EBUSY, fi)) (fun ro => (0, _))); rewrite ?blen_uninit; by rewrite ?sizeof_RpOpen.
Qed.

Lemma safe_readdir {B} rp (buf : B) fill :
  getf RpHdr "size" rp < 2 ^ 31 + 12 -> safe (finish_readdir (inr rp) buf fill).
Proof.
  intros Hb. unfold finish_readdir. cbv zeta. rewrite sizeof_RpHdr.
  apply sane_if; [intros _; apply sane_abort|intros Hs%Z.ltb_ge].
  eapply sane_bind; [apply sane_constructor|]. intros b <-. rewrite swrap_small by lia.
  apply sane_then.
  { eapply sane_weaken; [apply sane_sockread; [apply qbss_new_ok|lia|cbn; lia]|done]. }
  intros [r c]. apply sane_if; intros _.
  - apply sane_then; [apply safe_destructor|]. intros _. by apply sane_WARN.
  - apply sane_then; [apply safe_destructor|]. intros _.
    apply sane_then; [apply safe_unlock|]. intros _. by apply sane_ret.
Qed.

Lemma safe_finish op rp :
  buffers_ok op -> 0 <= getf RpHdr "rtvl" rp -> breaks op rp = false -> safe (op_finish junk op (inr rp)).
Proof.
  intros Hb Hr Hbr. pose proof (getf_rtvl_range rp). pose proof (getf_size_range rp).
  destruct op; cbn [op_finish buffers_ok breaks] in *; try apply safe_plain; try apply safe_open; apply safe_out_as.
  - apply sane_if; [intros _; apply sane_abort|intros _].
    apply (safe_body _ _ (fun _ => (- EBUSY, st)) (fun u => (0, _))); rewrite ?blen_uninit; by rewrite ?sizeof_Ustat.
  - unfold finish_readlink. rewrite sizeof_RpHdr. apply sane_if; [intros _; apply sane_abort|].
    intros Hs%Z.ltb_ge. apply Z.ltb_ge in Hbr. rewrite uwrap_small by lia.
    apply (safe_body _ _ (fun b => (- EBUSY, b)) (fun b => (0, b))); lia.
  - unfold finish_read. cbv zeta. rewrite sizeof_RpHdr. apply sane_if; [intros _; apply sane_abort|].
    intros Hs%Z.ltb_ge. apply sane_if; [intros _; apply sane_abort|].
    intros Hq%negb_false_iff%Z.eqb_eq. rewrite !uwrap_small in * by lia.
    apply (safe_body _ _ (fun b => (- EBUSY, b)) (fun b => (getf RpHdr "rtvl" rp, b))); lia.
  - apply sane_if; [intros _; apply sane_abort|intros _].
    apply (safe_body _ _ (fun _ => (- EBUSY, fstat)) (fun u => (0, _))); rewrite ?blen_uninit; by rewrite ?sizeof_Ustatvfs.
  - apply safe_readdir. apply Z.leb_gt in Hbr. lia.
Qed.

(** A receive of a negative size. *)
Lemma recv_negative dest n w : mem_ok w -> s32 n < 0 -> recv dest n w = Undef.
Proof using Type.
  intros Hm Hn. unfold recv. rewrite (prog_bind_ok _ _ _ _ _ (qbss_constructor_eq w Hm)).
  apply prog_bind_undef. unfold sockread. by rewrite (proj2 (Z.ltb_lt _ _)).
Qed.

Lemma breaks_undef op rp w :
  buffers_ok op -> mem_ok w -> breaks op rp = true -> op_finish junk op (inr rp) w = Undef.
Proof using Type.
  intros Hb Hm Hbr. pose proof (getf_size_range rp). destruct op; try done; cbn [breaks buffers_ok op_finish] in *.
  - apply Z.ltb_lt in Hbr. apply prog_bind_undef. unfold finish_readlink.
    rewrite sizeof_RpHdr, (proj2 (Z.ltb_ge _ _)) by lia. apply prog_bind_undef, recv_negative; [done|].
    rewrite swrap_uwrap_le, swrap_small; lia.
  - apply Z.leb_le in Hbr. apply prog_bind_undef. unfold finish_readdir. cbv zeta.
    rewrite sizeof_RpHdr, (proj2 (Z.ltb_ge _ _)) by lia.
    rewrite (prog_bind_ok _ _ _ _ _ (qbss_constructor_eq w Hm)). apply prog_bind_undef.
    unfold sockread. rewrite (proj2 (Z.ltb_lt _ _)); [done|]. unfold swrap. change (2 ^ (32 - 1)) with (2 ^ 31).
    replace (getf RpHdr "size" rp - 12 + 2 ^ 31) with (getf RpHdr "size" rp - 12 - 2 ^ 31 + 1 * 2 ^ 32) by lia.
    rewrite Z_mod_plus_full, Z.mod_small by lia. lia.
Qed.
End safe_ends.

(** The names of the entries are read where they end: whatever bytes the peer has
    sent, there is a NUL behind the start of each name, in the block of the
    string if not in the entry. *)
Lemma names_end b blk i :
  bss_ok b -> str b = Some blk -> 0 <= i -> 280 * (i + 1) <= Bss.size b -> NUL ∈ bdrop (280 * i + 19) blk.
Proof.
  intros (buf & -> & Hl & Hs & Hc & H2 & Hz) [= ->] Hi Hn.
  assert (Ht : bdrop (Bss.size b) blk = bdrop (Bss.size b - (280 * i + 19)) (bdrop (280 * i + 19) blk)).
  { unfold bdrop. rewrite drop_drop. f_equal. lia. }
  rewrite Ht in Hz. rewrite <- (btake_bdrop (Bss.size b - (280 * i + 19)) (bdrop (280 * i + 19) blk)), Hz.
  apply elem_of_app. right. unfold zeros. rewrite elem_of_replicate. split; [done|lia].
Qed.

(** ** Operations *)

Lemma op_returns_typed junk op : returns (typed (out_typed op)) (zhwkrfsp junk op).
Proof.
  intros w a w'. rewrite op_factor. revert w a w'.
  change (returns (typed (out_typed op)) (op_shape junk op)). unfold op_shape, op_rest.
  apply returns_skip. intros ouid. apply returns_skip. intros parts.
  apply returns_if; [apply returns_WARN; split; [done|apply out0_typed]|].
  eapply returns_bind; [apply returns_exchange|]. intros x Hx. by apply returns_finish.
Qed.

(** When an operation goes wrong: its request has been sent, and the peer has
    answered with a header that reports success and breaks the operation. *)
Definition undefined_reply (junk : string -> nat -> byte) (op : fuse_op) (w : world) : Prop :=
  (exists es, deliver_all (blen (op_message junk op w)) (w_wr w) = Sent es) /\
  12 <= blen (stream (w_rd w)) /\ 0 <= getf RpHdr "rtvl" (reply_hdr w) /\ breaks op (reply_hdr w) = true.

Section operation.
Context (junk : string -> nat -> byte) (op : fuse_op) (w : world).
Context (Hwf : op_wf op) (Hb : buffers_ok op) (Hmem : mem_ok w) (Hmu : w_mu w = false).

Lemma breaks_refused rp : breaks op rp = true -> refused op = false.
Proof using Type. clear Hwf Hb. by destruct op. Qed.

(** Safe unless the reply breaks it. *)
Lemma op_sane :
  match zhwkrfsp junk op w with
  | Ok (_, w') => mem_ok w' /\ w_mu w' = false
  | Undef => undefined_reply junk op w
  | _ => True
  end.
Proof using Hwf Hb Hmem Hmu.
  destruct (zhwkrfsp junk op w) as [[r w']| | | |] eqn:E; [split| |done..].
  2:{ rewrite (op_entered junk op w Hmu) in E. by apply unlocks_op_rest in E as (? & _). }
  all: destruct (refused op) eqn:Hr.
  - destruct (op_refused junk op w Hwf Hmu Hr) as (w2 & E' & -> & _). rewrite E' in E. injection E as _ <-.
    unfold released, entered. by destruct (locks op), (w_mu _).
  - destruct (op_run junk op w Hwf Hmu Hr) as (parts & Hp & Hmsg & E'). rewrite E' in E. clear E'.
    pose proof (sane_exchange junk parts Hp (entered op w) (entered_mem op w Hmem)) as Hx.
    apply prog_bind_inv in E as (x & w1 & E1 & E2). rewrite E1 in Hx. destruct Hx as [Hm1 Hx].
    destruct x as [e|rp]; [rewrite op_finish_inl in E2; by injection E2 as _ <-|].
    destruct (breaks op rp) eqn:Ebr; [by rewrite breaks_undef in E2|].
    pose proof (safe_finish junk op rp Hb Hx Ebr w1 Hm1) as Hf. rewrite E2 in Hf. apply Hf.
  - by destruct (op_refused junk op w Hwf Hmu Hr) as (w2 & E' & _); rewrite E' in E.
  - destruct (op_run junk op w Hwf Hmu Hr) as (parts & Hp & Hmsg & E'). rewrite E' in E. clear E'.
    unfold undefined_reply. rewrite Hmsg.
    pose proof (sane_exchange junk parts Hp (entered op w) (entered_mem op w Hmem)) as Hx.
    pose proof (exchange_outcomes junk parts (entered op w) (entered_mem op w Hmem) Hp) as Ho.
    unfold mbind, prog_bind in E.
    destruct (exchange junk parts (entered op w)) as [[x w1]| | | |] eqn:E1; try done.
    destruct Hx as [Hm1 Hx]. destruct x as [e|rp]; [by rewrite op_finish_inl in E|].
    assert (Hbr : breaks op rp = true).
    { destruct (breaks op rp) eqn:Ebr; [done|].
      pose proof (safe_finish junk op rp Hb Hx Ebr w1 Hm1) as Hf. by rewrite E in Hf. }
    rewrite entered_wr, entered_rd in Ho. replace (reply_hdr (entered op w)) with (reply_hdr w) in Ho
      by (unfold reply_hdr; by rewrite entered_rd).
    destruct (deliver_all _ _) as [es|n es|]; [|by destruct Ho as (? & [=] & _)|done].
    case_bool_decide as Hst; [|destruct (stop (w_rd w)) as [[]|]; try done; by destruct Ho as (? & [=] & _)].
    destruct Ho as (w2 & _ & _ & _ & _ & Ho).
    destruct (getf RpHdr "rtvl" (reply_hdr w) <? 0); [by rewrite (WARN_released (A:=Z + list byte)) in Ho|].
    injection Ho as -> ->. by split_and!; [eexists| | |].
Qed.

(** And undefined if it does. *)
Lemma op_undefined : undefined_reply junk op w -> zhwkrfsp junk op w = Undef.
Proof using Hwf Hb Hmem Hmu.
  intros ((es & Ed) & Hst & Hpos & Hbr). pose proof (breaks_refused _ Hbr) as Hr.
  destruct (op_run junk op w Hwf Hmu Hr) as (parts & Hp & Hmsg & ->). rewrite Hmsg in Ed.
  pose proof (exchange_outcomes junk parts (entered op w) (entered_mem op w Hmem) Hp) as Ho.
  rewrite entered_wr, Ed, entered_rd, bool_decide_eq_true_2 in Ho by done.
  replace (reply_hdr (entered op w)) with (reply_hdr w) in Ho by (unfold reply_hdr; by rewrite entered_rd).
  destruct Ho as (w1 & _ & _ & _ & Hm1 & E). rewrite (proj2 (Z.ltb_ge _ _)) in E by done.
  rewrite (prog_bind_ok _ _ _ _ _ E). by apply breaks_undef.
Qed.

End operation.

(** ** Sessions *)


(** ** Witness *)

(** A session whose second reply announces 11 bytes. *)
Definition short_reply : world :=
  from_peer (hdr 15 1 3 ++ root ++ root ++ root ++ hdr 11 2 0).
Definition two_reads : list fuse_op := [Read root (zeros 15) 15 0 no_flags; Readlink root (zeros 4) 4].

