(* ===== verification/Utils.v ===== *)
(** * String utilities (zhwkre/utils/utils.c)

    The byte and string comparisons and the two file readers.  A [FILE*] open for
    reading is the list of the bytes that remain; [int] lengths are wrapped to 32
    bits as [strlen]'s result is when it is stored in an [int]. *)

From S2P Require Import Prelude World Bss.
Local Open Scope Z_scope.

(** ** Definitions *)

(** The loops compare the first [n] characters; the others are not read. *)
Fixpoint same_chars (n : nat) (a b : list byte) : Z :=
  match n, a, b with
  | S n', x :: a', y :: b' => if decide (x = y) then same_chars n' a' b' else 0
  | _, _, _ => 1
  end.

Definition fullstrcmp (a b : list byte) : Z :=
  let lena := s32 (strlen a) in
  let lenb := s32 (strlen b) in
  if negb (lena =? lenb) then 0 else same_chars (Z.to_nat lena) a b.

Definition partstrcmp (a b : list byte) : Z :=
  let lena := s32 (strlen a) in
  let lenb := s32 (strlen b) in
  let rlen := if lenb <? lena then lenb else lena in
  same_chars (Z.to_nat rlen) a b.

(** The index of the first [target] among the first [n] bytes from index [i];
    reading past the end of the array is undefined. *)
Fixpoint find_byte_from (i : Z) (n : nat) (str : list byte) (target : byte) : res Z :=
  match n with
  | O => Ok (-1)
  | S n' =>
      match str with
      | [] => Undef
      | x :: str' => if decide (x = target) then Ok i else find_byte_from (i + 1) n' str' target
      end
  end.

Definition find_byte (str : list byte) (target : byte) (size : Z) : res Z :=
  find_byte_from 0 (Z.to_nat size) str target.

(** The difference at the first place among [n] where the strings differ. *)
Fixpoint char_diff (n : nat) (a b : list byte) : option Z :=
  match n, a, b with
  | S n', x :: a', y :: b' =>
      if decide (x = y) then char_diff n' a' b' else Some (schar x - schar y)
  | _, _, _ => None
  end.

(** The sizes are not used. *)
Definition string_comparator (stra : list byte) (sizea : Z) (strb : list byte) (sizeb : Z) : Z :=
  let alen := s32 (strlen stra) in
  let blen := s32 (strlen strb) in
  let cmplen := if alen <=? blen then alen else blen in
  match char_diff (Z.to_nat cmplen) stra strb with
  | Some d => d
  | None => if negb (alen =? blen) then s32 (alen - blen) else 0
  end.

(** [for(ch=fgetc(fp); ch!=EOF && ch!='\n'; ch=fgetc(fp))]: the string and what is
    left of the file. *)
Fixpoint readline_loop (result : qBinarySafeString) (fp : list byte)
  : io (qBinarySafeString * list byte) :=
  match fp with
  | [] => mret (result, [])
  | ch :: fp' =>
      if decide (ch = Byte.x0a) then mret (result, fp')
      else
        result' ← q__bss_append result [ch] 1;
        readline_loop result' fp'
  end.

Definition readline (fp : list byte) : io (qBinarySafeString * list byte) :=
  result ← qbss_constructor;
  readline_loop result fp.

Fixpoint readall_loop (result : qBinarySafeString) (fp : list byte) : io qBinarySafeString :=
  match fp with
  | [] => mret result
  | ch :: fp' =>
      result' ← q__bss_append result [ch] 1;
      readall_loop result' fp'
  end.

Definition readall (fp : list byte) : io qBinarySafeString :=
  result ← qbss_constructor;
  readall_loop result fp.

(** ** Comparators

    What the containers ask of the comparison function they are given: on the
    keys it is used on, its sign is a total preorder. *)

Definition Cmp : Type := list byte -> Z -> list byte -> Z -> Z.

(** The comparison of two keys with their sizes. *)
Definition ccmp (comp : Cmp) (a b : list byte) : Z := comp a (blen a) b (blen b).

Class Comparator (dom : list byte -> Prop) (comp : Cmp) : Prop := {
  ccmp_refl a : dom a -> ccmp comp a a = 0;
  ccmp_swap a b : dom a -> dom b -> ccmp comp a b < 0 <-> 0 < ccmp comp b a;
  ccmp_lt_trans a b c : dom a -> dom b -> dom c ->
    ccmp comp a b < 0 -> ccmp comp b c < 0 -> ccmp comp a c < 0;
  ccmp_eq_lt a b c : dom a -> dom b -> dom c ->
    ccmp comp a b = 0 -> ccmp comp b c < 0 -> ccmp comp a c < 0;
  ccmp_lt_eq a b c : dom a -> dom b -> dom c ->
    ccmp comp a b < 0 -> ccmp comp b c = 0 -> ccmp comp a c < 0
}.

Section comparator.
Context {dom : list byte -> Prop} {comp : Cmp} `{!Comparator dom comp}.

Lemma ccmp_eq_sym a b : dom a -> dom b -> ccmp comp a b = 0 -> ccmp comp b a = 0.
Proof.
  intros Ha Hb E. pose proof (ccmp_swap a b Ha Hb). pose proof (ccmp_swap b a Hb Ha). lia.
Qed.

Lemma ccmp_eq_trans a b c :
  dom a -> dom b -> dom c -> ccmp comp a b = 0 -> ccmp comp b c = 0 -> ccmp comp a c = 0.
Proof.
  intros Ha Hb Hc E1 E2.
  destruct (Z.lt_trichotomy (ccmp comp a c) 0) as [H|[H|H]]; [|done|].
  - pose proof (ccmp_eq_lt b a c Hb Ha Hc (ccmp_eq_sym a b Ha Hb E1) H). lia.
  - apply ccmp_swap in H; [|done..].
    pose proof (ccmp_lt_eq c a b Hc Ha Hb H E1). apply ccmp_eq_sym in E2; [|done..]. lia.
Qed.

Lemma ccmp_gt a b : dom a -> dom b -> 0 < ccmp comp a b -> ccmp comp b a < 0.
Proof. intros Ha Hb. by apply ccmp_swap. Qed.

End comparator.

(** ** The lexicographic order *)

(** Strings compared character by character, as signed characters. *)
Fixpoint lex (a b : list byte) : comparison :=
  match a, b with
  | [], [] => Eq
  | [], _ => Lt
  | _, [] => Gt
  | x :: a', y :: b' =>
      match schar x ?= schar y with Eq => lex a' b' | c => c end
  end.

Lemma schar_inj x y : schar x = schar y -> x = y.
Proof.
  pose proof (byte_to_Z_range x). pose proof (byte_to_Z_range y). unfold schar.
  intros E. apply byte_to_Z_inj.
  destruct (Z.ltb_spec (byte_to_Z x) 128), (Z.ltb_spec (byte_to_Z y) 128); lia.
Qed.

Lemma lex_eq a b : lex a b = Eq -> a = b.
Proof.
  revert b. induction a as [|x a IH]; intros [|y b]; cbn; try done.
  destruct (Z.compare_spec (schar x) (schar y)) as [E| |]; try done.
  apply schar_inj in E as ->. intros ?%IH. congruence.
Qed.

Lemma lex_refl a : lex a a = Eq.
Proof. induction a as [|x a IH]; cbn; [done|]. by rewrite Z.compare_refl. Qed.

Lemma lex_opp a b : lex b a = CompOpp (lex a b).
Proof.
  revert b. induction a as [|x a IH]; intros [|y b]; cbn; try done.
  rewrite (Z.compare_antisym (schar x)). destruct (schar x ?= schar y); cbn; done.
Qed.

Lemma lex_trans a b c : lex a b = Lt -> lex b c = Lt -> lex a c = Lt.
Proof.
  revert b c. induction a as [|x a IH]; intros [|y b] [|z c]; cbn; try done.
  destruct (Z.compare_spec (schar x) (schar y)), (Z.compare_spec (schar y) (schar z)),
    (Z.compare_spec (schar x) (schar z)); try done; try lia.
  apply IH.
Qed.

(** ** The comparison functions *)

Lemma strlen_nonneg s : 0 <= strlen s.
Proof. apply blen_nonneg. Qed.

Lemma cstr_cons x s : x <> NUL -> cstr (x :: s) = x :: cstr s.
Proof. intros. cbn. by rewrite decide_False. Qed.

Lemma strlen_cons x s : x <> NUL -> strlen (x :: s) = 1 + strlen s.
Proof. intros. unfold strlen. by rewrite cstr_cons, blen_cons. Qed.

(** A string that is longer than [n] starts with a character. *)
Lemma strlen_inv n s :
  (S n <= Z.to_nat (strlen s))%nat ->
  exists x s', s = x :: s' /\ x <> NUL /\ (n <= Z.to_nat (strlen s'))%nat.
Proof.
  destruct s as [|x s]; [change (strlen []) with 0; lia|]. intros H. exists x, s. split; [done|].
  destruct (decide (x = NUL)) as [->|Hx]; [change (strlen (NUL :: s)) with 0 in H; lia|].
  rewrite strlen_cons in H by done. pose proof (strlen_nonneg s). split; [done|lia].
Qed.

(** On the characters both strings have, [char_diff] decides as [lex] does. *)
Lemma char_diff_lex n a b :
  (n <= Z.to_nat (strlen a))%nat -> (n <= Z.to_nat (strlen b))%nat ->
  match char_diff n a b with
  | Some d => (d ?= 0) = lex (cstr a) (cstr b) /\ d <> 0
  | None => lex (cstr a) (cstr b) = lex (drop n (cstr a)) (drop n (cstr b))
  end.
Proof.
  revert a b. induction n as [|n IH]; intros a b Ha Hb; [done|].
  destruct (strlen_inv _ _ Ha) as (x & a' & -> & Hx & Ha'),
    (strlen_inv _ _ Hb) as (y & b' & -> & Hy & Hb').
  rewrite !cstr_cons by done. cbn [char_diff lex drop]. case_decide as E.
  - subst y. rewrite Z.compare_refl. by apply IH.
  - assert (schar x <> schar y) by (intros ?%schar_inj; done).
    rewrite <- Z.compare_sub.
    destruct (Z.compare_spec (schar x) (schar y)); split; done || lia.
Qed.

(** Strings whose length an [int] can hold. *)
Definition int_string (s : list byte) : Prop := strlen s < 2 ^ 31.

Lemma s32_strlen s : int_string s -> s32 (strlen s) = strlen s.
Proof. intros H. pose proof (strlen_nonneg s). apply swrap_small; [lia|]. unfold int_string in H. lia. Qed.

Lemma string_comparator_lex a sa b sb :
  int_string a -> int_string b ->
  (string_comparator a sa b sb ?= 0) = lex (cstr a) (cstr b).
Proof.
  intros Ha Hb. unfold string_comparator. rewrite !s32_strlen by done.
  pose proof (strlen_nonneg a). pose proof (strlen_nonneg b). unfold int_string in *.
  set (n := if strlen a <=? strlen b then strlen a else strlen b).
  assert (Hn : 0 <= n /\ n <= strlen a /\ n <= strlen b /\ (n = strlen a \/ n = strlen b))
    by (unfold n; destruct (Z.leb_spec (strlen a) (strlen b)); lia).
  pose proof (char_diff_lex (Z.to_nat n) a b ltac:(lia) ltac:(lia)) as Hc. cbv zeta. fold n.
  destruct (char_diff _ a b) as [d|]; [by destruct Hc|]. rewrite Hc. clear Hc.
  assert (Hla : Z.of_nat (length (drop (Z.to_nat n) (cstr a))) = strlen a - n)
    by (rewrite length_drop; unfold strlen, blen in *; lia).
  assert (Hlb : Z.of_nat (length (drop (Z.to_nat n) (cstr b))) = strlen b - n)
    by (rewrite length_drop; unfold strlen, blen in *; lia).
  destruct (Z.eqb_spec (strlen a) (strlen b)) as [E|E]; cbn [negb].
  - destruct (drop _ (cstr a)), (drop _ (cstr b)); cbn [length] in *; try lia. done.
  - rewrite swrap_small by lia.
    destruct (drop _ (cstr a)), (drop _ (cstr b)); cbn [length lex] in *; try lia;
    destruct (Z.compare_spec (strlen a - strlen b) 0); done || lia.
Qed.

#[export] Instance string_comparator_order : Comparator int_string string_comparator.
Proof.
  assert (Hlt : forall a b, int_string a -> int_string b ->
    ccmp string_comparator a b < 0 <-> lex (cstr a) (cstr b) = Lt).
  { intros a b Ha Hb. unfold ccmp. rewrite <- (string_comparator_lex a (blen a) b (blen b)) by done.
    by rewrite Z.compare_lt_iff. }
  assert (Heq : forall a b, int_string a -> int_string b ->
    ccmp string_comparator a b = 0 -> cstr a = cstr b).
  { intros a b Ha Hb E. apply lex_eq.
    rewrite <- (string_comparator_lex a (blen a) b (blen b)) by done.
    unfold ccmp in E. by rewrite E. }
  split.
  - intros a Ha. apply Z.compare_eq_iff. unfold ccmp.
    rewrite string_comparator_lex by done. apply lex_refl.
  - intros a b Ha Hb. rewrite Hlt, <- Z.compare_gt_iff by done. unfold ccmp.
    rewrite string_comparator_lex by done. rewrite (lex_opp (cstr b)).
    by destruct (lex (cstr b) (cstr a)).
  - intros a b c Ha Hb Hc. rewrite !Hlt by done. apply lex_trans.
  - intros a b c Ha Hb Hc E. rewrite !Hlt by done. by rewrite (Heq a b).
  - intros a b c Ha Hb Hc. rewrite !Hlt by done. intros H E. by rewrite <- (Heq b c).
Qed.

(** [string_comparator] is the lexicographic order of the two C strings, in
    signed characters: negative, zero or positive as the first comes before, is,
    or comes after the second; in particular zero exactly on equal strings. *)
Theorem string_comparator_spec a sa b sb :
  int_string a -> int_string b ->
  (string_comparator a sa b sb ?= 0) = lex (cstr a) (cstr b) /\
  (string_comparator a sa b sb = 0 <-> cstr a = cstr b).
Proof.
  intros Ha Hb. pose proof (string_comparator_lex a sa b sb Ha Hb) as E. split; [done|].
  rewrite <- Z.compare_eq_iff, E. split; [apply lex_eq|]. intros ->. apply lex_refl.
Qed.

Lemma same_chars_spec n a b :
  (n <= Z.to_nat (strlen a))%nat -> (n <= Z.to_nat (strlen b))%nat ->
  same_chars n a b = if decide (take n (cstr a) = take n (cstr b)) then 1 else 0.
Proof.
  revert a b. induction n as [|n IH]; intros a b Ha Hb; [done|].
  destruct (strlen_inv _ _ Ha) as (x & a' & -> & Hx & Ha'),
    (strlen_inv _ _ Hb) as (y & b' & -> & Hy & Hb').
  rewrite !cstr_cons by done. cbn [same_chars take]. case_decide as E.
  - subst y. rewrite IH by done. do 2 case_decide; congruence.
  - rewrite decide_False; [done|congruence].
Qed.

(** [fullstrcmp] is 1 exactly when the two C strings are equal, and
    [partstrcmp] exactly when one is a prefix of the other; both are 0
    otherwise. *)
Theorem strcmp_spec a b :
  int_string a -> int_string b ->
  fullstrcmp a b = (if decide (cstr a = cstr b) then 1 else 0) /\
  partstrcmp a b =
    (if decide (cstr a `prefix_of` cstr b \/ cstr b `prefix_of` cstr a) then 1 else 0).
Proof.
  intros Ha Hb. unfold fullstrcmp, partstrcmp. rewrite !s32_strlen by done.
  assert (La : Z.to_nat (strlen a) = length (cstr a)) by (unfold strlen, blen; lia).
  assert (Lb : Z.to_nat (strlen b) = length (cstr b)) by (unfold strlen, blen; lia).
  assert (Hl : (strlen a =? strlen b) = (length (cstr a) =? length (cstr b))%nat).
  { unfold strlen, blen. destruct (Nat.eqb_spec (length (cstr a)) (length (cstr b))); lia. }
  split.
  - rewrite Hl. destruct (Nat.eqb_spec (length (cstr a)) (length (cstr b))) as [E|E]; cbn [negb].
    + rewrite same_chars_spec by lia. rewrite La, take_ge, take_ge by lia. done.
    + rewrite decide_False; [done|]. intros E'. by rewrite E' in E.
  - destruct (Z.ltb_spec (strlen b) (strlen a)).
    + rewrite same_chars_spec by lia. rewrite Lb, (take_ge (cstr b)) by lia.
      assert (Hle : (length (cstr b) <= length (cstr a))%nat) by (unfold strlen, blen in *; lia).
      apply decide_ext. split.
      * intros E. right. rewrite <- E. apply prefix_take.
      * intros [H1|[t ->]]; [|by rewrite take_app_length].
        pose proof (prefix_length _ _ H1). assert (cstr a = cstr b) as ->.
        { apply prefix_length_eq; [done|lia]. } by rewrite take_ge.
    + rewrite same_chars_spec by lia. rewrite La, (take_ge (cstr a)) by lia.
      assert (Hle : (length (cstr a) <= length (cstr b))%nat) by (unfold strlen, blen in *; lia).
      apply decide_ext. split.
      * intros ->. left. apply prefix_take.
      * intros [[t ->]|H1]; [by rewrite take_app_length|].
        pose proof (prefix_length _ _ H1). assert (cstr b = cstr a) as ->.
        { apply prefix_length_eq; [done|lia]. } by rewrite take_ge.
Qed.

(** ** Searching and reading *)

Lemma find_byte_from_spec i n str t :
  (n <= length str)%nat ->
  exists r, find_byte_from i n str t = Ok r /\
    (r = -1 /\ t ∉ take n str \/
     exists k, r = i + Z.of_nat k /\ (k < n)%nat /\ str !! k = Some t /\ t ∉ take k str).
Proof.
  revert i str. induction n as [|n IH]; intros i str Hn.
  { exists (-1). split; [done|]. left. split; [done|]. apply not_elem_of_nil. }
  destruct str as [|x str]; cbn [length] in Hn; [lia|]. cbn [find_byte_from].
  case_decide as E.
  - exists i. split; [done|]. right. exists 0%nat. subst x. split_and!; [lia|lia|done|].
    apply not_elem_of_nil.
  - destruct (IH (i + 1) str) as (r & -> & H); [lia|]. exists r. split; [done|].
    destruct H as [[-> H]|(k & -> & Hk & Hl & H)]; [left|right].
    + split; [done|]. cbn [take]. apply not_elem_of_cons. split; [done|exact H].
    + exists (S k). split_and!; [lia|lia|done|]. cbn [take]. apply not_elem_of_cons.
      split; [done|exact H].
Qed.

(** [find_byte] returns the first index of the byte among the first [size]
    bytes of the array, or -1 when it is not there; it reads nothing beyond. *)
Theorem find_byte_spec str t size :
  0 <= size <= blen str ->
  exists r, find_byte str t size = Ok r /\
    (r = -1 /\ t ∉ btake size str \/
     0 <= r < size /\ str !! Z.to_nat r = Some t /\ t ∉ btake r str).
Proof.
  intros H. unfold find_byte. destruct (find_byte_from_spec 0 (Z.to_nat size) str t)
    as (r & -> & Hr); [unfold blen in H; lia|].
  exists r. split; [done|]. destruct Hr as [Hr|(k & -> & Hk & Hl & Hn)]; [by left|right].
  split; [lia|]. unfold btake. rewrite Z.add_0_l, Nat2Z.id. done.
Qed.

Lemma readline_loop_ok b fp w :
  bss_ok b -> mem_ok w -> size b + blen fp < 2 ^ 31 ->
  exists b' line rest, readline_loop b fp w = Ok ((b', rest), w) /\ bss_ok b' /\
    content b' = content b ++ line /\ (Byte.x0a ∉ line) /\
    (fp = line ++ Byte.x0a :: rest \/ fp = line /\ rest = []).
Proof.
  revert b. induction fp as [|ch fp IH]; intros b Hb Hm Hs; cbn [readline_loop].
  { exists b, [], []. rewrite app_nil_r. split_and!; try done; [apply not_elem_of_nil|by right]. }
  rewrite blen_cons in Hs. pose proof (blen_nonneg fp). case_decide as E.
  - exists b, [], fp. rewrite app_nil_r. subst ch.
    split_and!; try done; [apply not_elem_of_nil|by left].
  - assert (0 <= size b) by (destruct Hb as (? & _ & _ & ? & _); done).
    destruct (q__bss_append_ok b [ch] 1 w) as (b1 & E1 & Hb1 & Hs1 & Hc1); [done|done|done|lia|].
    rewrite (prog_bind_ok _ _ _ _ _ E1).
    destruct (IH b1) as (b2 & line & rest & -> & Hb2 & Hc2 & Hnl & Hfp); [done|done|lia|].
    exists b2, (ch :: line), rest. split_and!; try done.
    + by rewrite Hc2, Hc1, <- app_assoc.
    + by apply not_elem_of_cons.
    + destruct Hfp as [->|[-> ->]]; [left|right]; done.
Qed.

(** [readline] returns the bytes of the file up to the first newline, which it
    consumes and drops, or up to the end of the file; the rest stays for the
    next call, and only the string's block is allocated. *)
Theorem readline_spec fp w :
  mem_ok w -> blen fp < 2 ^ 31 ->
  exists b rest, readline fp w = Ok ((b, rest), set_live (w_live w + 1) w) /\ bss_ok b /\
    (Byte.x0a ∉ content b) /\
    (fp = content b ++ Byte.x0a :: rest \/ fp = content b /\ rest = []).
Proof.
  intros Hm Hl. unfold readline. rewrite (prog_bind_ok _ _ _ _ _ (qbss_constructor_eq w Hm)).
  destruct (readline_loop_ok (Bss (Some (zeros 64)) 0 64) fp (set_live (w_live w + 1) w))
    as (b & line & rest & -> & Hb & Hc & Hnl & Hfp); [apply qbss_new_ok|done|done|].
  exists b, rest. change (content (Bss _ _ _)) with (@nil byte) in Hc.
  rewrite app_nil_l in Hc. by rewrite Hc.
Qed.

(** ** Witnesses *)

Lemma string_comparator_spec_witness :
  string_comparator [Byte.x61; Byte.x62] 2 [Byte.x61; Byte.x63] 2 < 0 /\
  string_comparator [Byte.x61; NUL; Byte.x62] 3 [Byte.x61] 1 = 0.
Proof.
  split.
  - apply Z.compare_lt_iff.
    exact (proj1 (string_comparator_spec [Byte.x61; Byte.x62] 2 [Byte.x61; Byte.x63] 2 eq_refl eq_refl)).
  - apply (proj2 (string_comparator_spec [Byte.x61; NUL; Byte.x62] 3 [Byte.x61] 1 eq_refl eq_refl)).
    reflexivity.
Defined.

Lemma strcmp_spec_witness :
  fullstrcmp [Byte.x61] [Byte.x61; Byte.x62] = 0 /\ partstrcmp [Byte.x61] [Byte.x61; Byte.x62] = 1.
Proof.
  destruct (strcmp_spec [Byte.x61] [Byte.x61; Byte.x62] eq_refl eq_refl) as [H1 H2].
  split; [exact H1|]. rewrite H2. reflexivity.
Defined.

Lemma find_byte_spec_witness :
  exists r, find_byte [NUL; Byte.x61; Byte.x61] Byte.x61 3 = Ok r /\ 0 <= r < 3.
Proof.
  destruct (find_byte_spec [NUL; Byte.x61; Byte.x61] Byte.x61 3 ltac:(done)) as (r & E & [[-> H]|[H _]]).
  - exfalso. apply H. right. left.
  - exists r. split; [exact E|exact H].
Defined.

Lemma readline_spec_witness :
  exists b, readline [Byte.x61; Byte.x0a; Byte.x62] (start []) = Ok ((b, [Byte.x62]), set_live 1 (start [])) /\
    content b = [Byte.x61].
Proof.
  destruct (readline_spec [Byte.x61; Byte.x0a; Byte.x62] (start []) eq_refl eq_refl)
    as (b & rest & E & _).
  exists b. vm_compute in E. injection E as E1 E2. subst b rest. split; reflexivity.
Defined.
