(* ===== verification/Chain.v ===== *)
(** * Doubly linked nodes

    The [prev] and [next] pointers of the nodes of a list or of the thread of a
    search tree live in a store indexed by the node's address.  [chain] says that
    some nodes are linked in a given order; the lemmas follow it through the
    pointer updates of list.c and AVLTree.c. *)

From S2P Require Import Prelude.
Local Open Scope Z_scope.

(** ** Definitions *)

(** The two list pointers of a node. *)
Record link : Type := Link { prev : option positive; next : option positive }.

Definition upd (p : positive) (f : link -> link) (m : gmap positive link)
  : res (gmap positive link) :=
  match m !! p with
  | Some l => Ok (<[p := f l]> m)
  | None => Undef
  end.

(** An update through a pointer that may be NULL. *)
Definition upd_opt (p : option positive) (f : link -> link) (m : gmap positive link)
  : res (gmap positive link) :=
  match p with Some a => upd a f m | None => Ok m end.

Definition set_prev (p : option positive) (l : link) : link := Link p (next l).
Definition set_next (p : option positive) (l : link) : link := Link (prev l) p.

(** The address after a list of addresses [xs] that is followed by [n], and the
    one before the end of a list preceded by [p]. *)
Definition first_of (xs : list positive) (n : option positive) : option positive :=
  match xs with [] => n | i :: _ => Some i end.
Definition last_of (p : option positive) (xs : list positive) : option positive :=
  match list.last xs with Some i => Some i | None => p end.

(** The nodes [xs] are threaded in this order between [p] and [n]. *)
Fixpoint chain (m : gmap positive link) (p : option positive) (xs : list positive)
    (n : option positive) : Prop :=
  match xs with
  | [] => True
  | i :: xs' => m !! i = Some (Link p (first_of xs' n)) /\ chain m (Some i) xs' n
  end.

(** ** Lemmas *)

Lemma first_of_app l1 l2 n : first_of (l1 ++ l2) n = first_of l1 (first_of l2 n).
Proof. by destruct l1. Qed.

Lemma last_of_snoc p l i : last_of p (l ++ [i]) = Some i.
Proof. unfold last_of. by rewrite last_snoc. Qed.

Lemma last_of_cons p i l : last_of p (i :: l) = last_of (Some i) l.
Proof. unfold last_of. rewrite last_cons. by destruct (list.last l). Qed.

Lemma chain_app m p l1 l2 n :
  chain m p (l1 ++ l2) n <-> chain m p l1 (first_of l2 n) /\ chain m (last_of p l1) l2 n.
Proof.
  revert p. induction l1 as [|i l1 IH]; intros p; cbn [app chain]; [tauto|].
  rewrite IH, first_of_app, last_of_cons. tauto.
Qed.

Lemma chain_frame m m' p l n :
  (forall i, i ∈ l -> m' !! i = m !! i) -> chain m p l n -> chain m' p l n.
Proof.
  revert p. induction l as [|i l IH]; intros p Hm; [done|]. cbn. intros [E H]. split.
  - rewrite Hm; [done|set_solver].
  - apply IH; [set_solver|done].
Qed.

Lemma chain_insert m p l n i x : i ∉ l -> chain m p l n -> chain (<[i:=x]> m) p l n.
Proof. intros Hi. apply chain_frame. intros j Hj. apply lookup_insert_ne. set_solver. Qed.

Lemma chain_delete m p l n i : i ∉ l -> chain m p l n -> chain (delete i m) p l n.
Proof. intros Hi. apply chain_frame. intros j Hj. apply lookup_delete_ne. set_solver. Qed.

(** Redirecting the [next] pointer of the last node, and the [prev] pointer of
    the first one. *)
Lemma chain_set_next m p l i n n' :
  i ∉ l -> chain m p (l ++ [i]) n ->
  chain (<[i := Link (last_of p l) n']> m) p (l ++ [i]) n'.
Proof.
  intros Hi. rewrite !chain_app. intros [H1 H2]. split; [by apply chain_insert|].
  cbn in *. split; [by rewrite lookup_insert_eq|done].
Qed.

Lemma chain_set_prev m p i l n p' :
  i ∉ l -> chain m p (i :: l) n ->
  chain (<[i := Link p' (first_of l n)]> m) p' (i :: l) n.
Proof.
  intros Hi [H1 H2]. split; [by rewrite lookup_insert_eq|by apply chain_insert].
Qed.

Lemma upd_ok m p l f : m !! p = Some l -> upd p f m = Ok (<[p := f l]> m).
Proof. unfold upd. by intros ->. Qed.

Lemma upd_frame m p f m' i : upd p f m = Ok m' -> i <> p -> m' !! i = m !! i.
Proof. unfold upd. destruct (m !! p); [|done]. intros [= <-] Hi. by apply lookup_insert_ne. Qed.

Lemma chain_lookup m p l1 i l2 n :
  chain m p (l1 ++ i :: l2) n -> m !! i = Some (Link (last_of p l1) (first_of l2 n)).
Proof. rewrite chain_app. by intros [_ [E _]]. Qed.

(** [splice] evaluates a sequence of pointer updates whose lookups [simplify_map_eq]
    decides. *)
Ltac splice :=
  repeat (unfold mbind, res_bind; cbv beta iota; cbn [upd_opt prev next set_prev set_next];
    erewrite upd_ok by (simplify_map_eq; reflexivity));
  unfold mbind, res_bind; cbv beta iota; cbn [upd_opt prev next set_prev set_next].

(** The list split at its last element. *)
Lemma last_cases (A : list positive) :
  A = [] \/ exists A' q, A = A' ++ [q].
Proof. destruct (list.last A) as [q|] eqn:E.
  - right. apply last_Some in E as [A' ->]. eauto.
  - left. by apply last_None.
Qed.

Lemma nodup_middle (A : list positive) e B :
  NoDup (A ++ e :: B) -> NoDup A /\ NoDup B /\ e ∉ A /\ e ∉ B /\ forall x, x ∈ A -> x ∉ B.
Proof.
  intros (HA & Hd & [He HB]%list.NoDup_cons)%list.NoDup_app. split_and!; try done.
  - intros H. apply (Hd e H). set_solver.
  - intros x Hx H. apply (Hd x Hx). set_solver.
Qed.

(** *** Splicing at the ends *)

Lemma chain_snoc m l t i :
  NoDup (l ++ [t]) -> i ∉ l ++ [t] -> m !! i = Some (Link None None) -> chain m None (l ++ [t]) None ->
  exists m1 m2, upd t (set_next (Some i)) m = Ok m1 /\ upd i (set_prev (Some t)) m1 = Ok m2 /\
    chain m2 None (l ++ [t; i]) None.
Proof.
  intros Hnd Hi Hm Hch. pose proof (chain_lookup _ _ _ _ _ _ Hch) as Ht. cbn [first_of] in Ht.
  apply nodup_middle in Hnd as (_ & _ & Htl & _). assert (i <> t) by set_solver.
  eexists _, _. split; [by apply upd_ok|]. split; [apply upd_ok; by simplify_map_eq|].
  apply chain_app in Hch as [H1 _]. rewrite chain_app. cbn [first_of chain].
  split_and!; try (by simplify_map_eq).
  apply chain_insert; [set_solver|]. by apply chain_insert.
Qed.

Lemma chain_cons m h l i :
  NoDup (h :: l) -> i ∉ h :: l -> m !! i = Some (Link None None) -> chain m None (h :: l) None ->
  exists m1 m2, upd h (set_prev (Some i)) m = Ok m1 /\ upd i (set_next (Some h)) m1 = Ok m2 /\
    chain m2 None (i :: h :: l) None.
Proof.
  intros [Hhl Hnd]%list.NoDup_cons Hi Hm [Hh Hch]. assert (i <> h) by set_solver.
  eexists _, _. split; [by apply upd_ok|]. split; [apply upd_ok; by simplify_map_eq|].
  cbn [first_of chain]. split_and!; try (by simplify_map_eq).
  apply chain_insert; [set_solver|]. by apply chain_insert.
Qed.

Lemma chain_drop_last m l t' t :
  NoDup (l ++ [t'; t]) -> chain m None (l ++ [t'; t]) None ->
  exists m', upd t' (set_next None) (delete t m) = Ok m' /\ chain m' None (l ++ [t']) None.
Proof.
  intros Hnd Hch. pose proof (chain_lookup _ _ _ _ _ _ Hch) as Ht. cbn [first_of] in Ht.
  apply nodup_middle in Hnd as (_ & _ & Htl & Htt & Hd). assert (t' <> t) by set_solver.
  assert (t ∉ l) by (intros H'; apply (Hd t H'); set_solver).
  eexists. split; [apply upd_ok; by simplify_map_eq|].
  apply chain_app in Hch as [H1 _]. rewrite chain_app. cbn [first_of chain].
  split_and!; try (by simplify_map_eq). apply chain_insert; [done|]. by apply chain_delete.
Qed.

Lemma chain_drop_first m h h' l :
  NoDup (h :: h' :: l) -> chain m None (h :: h' :: l) None ->
  exists m', upd h' (set_prev None) (delete h m) = Ok m' /\ chain m' None (h' :: l) None.
Proof.
  intros [Hh Hnd]%list.NoDup_cons (_ & Hh' & Hch). apply list.NoDup_cons in Hnd as [Hh'l _].
  assert (h <> h') by set_solver.
  eexists. split; [apply upd_ok; by simplify_map_eq|]. cbn [chain].
  split; [by simplify_map_eq|]. apply chain_insert; [done|]. apply chain_delete; [set_solver|done].
Qed.

(** *** Taking a node out *)

(** The neighbours of [e] are linked to each other; the fields of [e] stay. *)
Lemma chain_unlink m A e B :
  NoDup (A ++ e :: B) -> chain m None (A ++ e :: B) None ->
  exists m1 m2, upd_opt (last_of None A) (set_next (first_of B None)) m = Ok m1 /\
    upd_opt (first_of B None) (set_prev (last_of None A)) m1 = Ok m2 /\ chain m2 None (A ++ B) None.
Proof.
  intros Hnd Hch. apply nodup_middle in Hnd as (HA & HB & HeA & HeB & Hd).
  assert (Hleft : exists m1, upd_opt (last_of None A) (set_next (first_of B None)) m = Ok m1 /\
      chain m1 None A (first_of B None) /\ chain m1 (Some e) B None).
  { apply chain_app in Hch as [H1 [_ H2]]. destruct (last_cases A) as [->|(A' & q & ->)].
    - by exists m.
    - rewrite last_of_snoc. pose proof (chain_lookup _ _ _ _ _ _ H1) as Hq.
      apply nodup_middle in HA as (_ & _ & HqA & _).
      eexists. split; [by apply upd_ok|]. split; [by eapply chain_set_next|].
      apply chain_insert; [|done]. intros H. apply (Hd q); set_solver. }
  destruct Hleft as (m1 & E1 & H1 & H2). exists m1.
  destruct B as [|b B]; [exists m1; by rewrite app_nil_r|]. cbn [first_of upd_opt] in *.
  destruct (chain_set_prev m1 (Some e) b B None (last_of None A)) as [Hb Hch2];
    [by apply list.NoDup_cons in HB as [? _]|done|].
  eexists. split; [exact E1|]. split; [apply upd_ok; apply H2|].
  apply chain_app. split; [apply chain_insert; [|done]; intros H; apply (Hd b H); set_solver|].
  by split.
Qed.

(** The nodes of a chain are nodes of the store. *)
Lemma chain_size m p l n : NoDup l -> chain m p l n -> (length l <= size m)%nat.
Proof.
  intros Hnd Hch. rewrite <- size_dom. rewrite <- (size_list_to_set (C := gset positive) l Hnd).
  apply subseteq_size. intros i Hi. apply elem_of_list_to_set in Hi.
  apply list.list_elem_of_split in Hi as (l1 & l2 & ->). apply elem_of_dom.
  rewrite (chain_lookup _ _ _ _ _ _ Hch). by eexists.
Qed.
