(* ===== verification/Ordered.v ===== *)
(** * Sorted keys

    Lists of keys in increasing order for a comparison function: what the search
    trees keep. *)

From S2P Require Import Prelude Utils.
Local Open Scope Z_scope.

Section order.
Context {dom : list byte -> Prop} {comp : Cmp} `{!Comparator dom comp}.

Abbreviation lt a b := (ccmp comp a b < 0).

(** Each key comes before all those that follow it. *)
Fixpoint ordered (l : list (list byte)) : Prop :=
  match l with
  | [] => True
  | x :: l' => Forall (fun y => lt x y) l' /\ ordered l'
  end.

Lemma ordered_app l1 l2 :
  ordered (l1 ++ l2) <->
  ordered l1 /\ ordered l2 /\ Forall (fun x => Forall (fun y => lt x y) l2) l1.
Proof.
  induction l1 as [|x l1 IH]; cbn [app ordered].
  - pose proof (Forall_nil_2 (fun x => Forall (fun y => lt x y) l2)). tauto.
  - rewrite IH, list.Forall_app, Forall_cons_iff. tauto.
Qed.

(** A node's key separates the keys of its children. *)
Lemma ordered_middle l1 d l2 :
  ordered (l1 ++ d :: l2) <->
  ordered l1 /\ ordered l2 /\ Forall (fun x => lt x d) l1 /\ Forall (fun y => lt d y) l2 /\
  Forall (fun x => Forall (fun y => lt x y) l2) l1.
Proof.
  rewrite ordered_app. cbn [ordered].
  assert (Forall (fun x => Forall (fun y => lt x y) (d :: l2)) l1 <->
    Forall (fun x => lt x d) l1 /\ Forall (fun x => Forall (fun y => lt x y) l2) l1) as ->.
  { rewrite <- list.Forall_and. apply list.Forall_proper; [|done]. intros x. apply Forall_cons_iff. }
  tauto.
Qed.

Lemma lt_all_trans x d l :
  dom x -> dom d -> Forall dom l -> lt x d -> Forall (fun y => lt d y) l -> Forall (fun y => lt x y) l.
Proof.
  intros Hx Hd Hl Hxd. induction 1 as [|y l Hy _ IH]; [done|].
  apply Forall_cons_iff in Hl as [? ?]. constructor; [by eapply ccmp_lt_trans; [..|exact Hy]|by apply IH].
Qed.

Lemma all_lt_trans x d l :
  dom x -> dom d -> Forall dom l -> lt d x -> Forall (fun y => lt y d) l -> Forall (fun y => lt y x) l.
Proof.
  intros Hx Hd Hl Hxd. induction 1 as [|y l Hy _ IH]; [done|].
  apply Forall_cons_iff in Hl as [? ?]. constructor; [by eapply ccmp_lt_trans; [..|exact Hxd]|by apply IH].
Qed.

End order.
