(* ===== verification/AVLTree.v ===== *)
(** * The search tree (zhwkre/AVLTree.h, zhwkre/containers/AVLTree.c)

    A node owns its two children, so a subtree is a value; the [prev] and [next]
    pointers, which thread the nodes in key order across the tree, live in a
    store indexed by the node's address.  The [size] of a node is the length of
    its [data].  Addresses are never used again once freed, as if [malloc] never
    returned them.

    The rebalancing of the source does not keep the tree balanced
    ([insert_unbalances] of AVLTreeFacts.v); what it keeps, and what the theorems are about, is the
    order of the keys, the height fields, the threading, and that no NULL pointer
    is followed. *)

From S2P Require Import Prelude World Utils Chain.
Local Open Scope Z_scope.

(** ** Nodes *)

Inductive qAVLTreeNode : Type :=
| NULL
| Node (addr : positive) (data : list byte) (height : Z) (lchild rchild : qAVLTreeNode).

(** The list pointers of the allocated nodes, and the next address. *)
Record nodes : Type := Nodes { links : gmap positive link; brk : positive }.

Record qAVLTreeDescriptor : Type := Desc {
  desc_size : Z;              (* unsigned int *)
  desc_root : qAVLTreeNode;
  desc_nodes : nodes
}.

Definition getHeight (tn : qAVLTreeNode) : Z :=
  match tn with NULL => 0 | Node _ _ h _ _ => h end.

(** A node whose height has just been updated. *)
Definition updateHeight (i : positive) (d : list byte) (l r : qAVLTreeNode) : qAVLTreeNode :=
  Node i d (Z.max (getHeight l) (getHeight r) + 1) l r.

Definition qAVLTree_constructor : qAVLTreeDescriptor := Desc 0 NULL (Nodes ∅ 1).

(** ** The thread *)

Definition list_insert_left (parent child : positive) (m : gmap positive link)
  : res (gmap positive link) :=
  match m !! parent with
  | None => Undef
  | Some pl =>
      m ← upd_opt (prev pl) (set_next (Some child)) m;
      m ← upd child (set_prev (prev pl)) m;
      m ← upd child (set_next (Some parent)) m;
      upd parent (set_prev (Some child)) m
  end.

Definition list_insert_right (parent child : positive) (m : gmap positive link)
  : res (gmap positive link) :=
  match m !! parent with
  | None => Undef
  | Some pl =>
      m ← upd_opt (next pl) (set_prev (Some child)) m;
      m ← upd child (set_next (next pl)) m;
      m ← upd child (set_prev (Some parent)) m;
      upd parent (set_next (Some child)) m
  end.

(** The node is freed by the callers right after; its link goes then. *)
Definition list_remove (elem : positive) (m : gmap positive link)
  : res (gmap positive link) :=
  match m !! elem with
  | None => Undef
  | Some l =>
      m ← upd_opt (prev l) (set_next (next l)) m;
      upd_opt (next l) (set_prev (prev l)) m
  end.

(** ** Rotations *)

Definition SimpleLeftRotate (root : qAVLTreeNode) : io qAVLTreeNode :=
  match root with
  | NULL => pundef
  | Node i d h l NULL => SETERR ZHWK_ERR_TREE_INVALID_OPERATION;; mret NULL
  | Node i d h l (Node ri rd rh rl rr) =>
      match rr with
      | NULL =>
          match rl with
          | NULL => pundef
          | Node rli rld rlh rll rlr =>
              let root' := updateHeight i d l rll in
              let rrchild' := updateHeight ri rd rlr rr in
              mret (updateHeight rli rld root' rrchild')
          end
      | _ =>
          let root' := updateHeight i d l rl in
          mret (updateHeight ri rd root' rr)
      end
  end.

Definition SimpleRightRotate (root : qAVLTreeNode) : io qAVLTreeNode :=
  match root with
  | NULL => pundef
  | Node i d h NULL r => SETERR ZHWK_ERR_TREE_INVALID_OPERATION;; mret NULL
  | Node i d h (Node li ld lh ll lr) r =>
      match ll with
      | NULL =>
          match lr with
          | NULL => pundef
          | Node lri lrd lrh lrl lrr =>
              let root' := updateHeight i d lrr r in
              let rlchild' := updateHeight li ld ll lrl in
              mret (updateHeight lri lrd rlchild' root')
          end
      | _ =>
          let root' := updateHeight i d lr r in
          mret (updateHeight li ld ll root')
      end
  end.

Definition LeftRightRotate (root : qAVLTreeNode) : io qAVLTreeNode :=
  match root with
  | NULL => pundef
  | Node i d h NULL r => SETERR ZHWK_ERR_TREE_INVALID_OPERATION;; mret NULL
  | Node i d h l r =>
      tmpreroot ← SimpleLeftRotate l;
      match tmpreroot with
      | NULL => mret NULL
      | _ => SimpleRightRotate (Node i d h tmpreroot r)
      end
  end.

Definition RightLeftRotate (root : qAVLTreeNode) : io qAVLTreeNode :=
  match root with
  | NULL => pundef
  | Node i d h l NULL => SETERR ZHWK_ERR_TREE_INVALID_OPERATION;; mret NULL
  | Node i d h l r =>
      tmpreroot ← SimpleRightRotate r;
      match tmpreroot with
      | NULL => mret NULL
      | _ => SimpleLeftRotate (Node i d h l tmpreroot)
      end
  end.

(** [rchild] minus [lchild]; the argument is never NULL where it is used. *)
Definition get_blfactor (t : qAVLTreeNode) : Z :=
  match t with
  | NULL => 0
  | Node _ _ _ l r => getHeight r - getHeight l
  end.

Definition left_balance (root : qAVLTreeNode) : io qAVLTreeNode :=
  match root with
  | NULL => pundef
  | Node _ _ _ l _ =>
      if get_blfactor root <=? -2 then
        match l with
        | Node _ _ _ _ (Node _ _ _ _ _ as lr) =>
            if 0 <? get_blfactor lr then LeftRightRotate root else SimpleRightRotate root
        | _ => SimpleRightRotate root
        end
      else mret root
  end.

Definition right_balance (root : qAVLTreeNode) : io qAVLTreeNode :=
  match root with
  | NULL => pundef
  | Node _ _ _ _ r =>
      if 2 <=? get_blfactor root then
        match r with
        | Node _ _ _ (Node _ _ _ _ _ as rl) _ =>
            if get_blfactor rl <? 0 then RightLeftRotate root else SimpleLeftRotate root
        | _ => SimpleLeftRotate root
        end
      else mret root
  end.

(** ** Operations *)

Section operations.
Context (comp : Cmp).

(** The node found, if any. *)
Fixpoint search (searchreach : qAVLTreeNode) (elem : list byte) : option positive :=
  match searchreach with
  | NULL => None
  | Node i d _ l r =>
      let cmpresult := ccmp comp elem d in
      if cmpresult =? 0 then Some i
      else if cmpresult <? 0 then search l elem else search r elem
  end.

(** The result and, on success, the iterator. *)
Definition qAVLTree__ptr_at (desc : qAVLTreeDescriptor) (elem : list byte) : Z * option positive :=
  match desc_root desc with
  | NULL => (-1, None)
  | t => match search t elem with Some i => (0, Some i) | None => (-1, None) end
  end.

(** A block for a node; [false] is NULL. *)
Definition qAVLTreeNode__constructor : io bool :=
  it ← malloc;
  if negb it then SETERR ZHWK_ERR_MM_ALLOC_FAIL;; mret false else mret true.

(** A node with a copy of [elem]; [None] when one of the two allocations
    fails. *)
Definition new_leaf (elem : list byte) (nd : nodes) : io (option positive * nodes) :=
  tmpnd ← qAVLTreeNode__constructor;
  if negb tmpnd then mret (None, nd) else
  ok ← malloc;
  if negb ok then SETERR ZHWK_ERR_MM_ALLOC_FAIL;; free;; mret (None, nd) else
  let i := brk nd in
  mret (Some i, Nodes (<[i := Link None None]> (links nd)) (Pos.succ i)).

Definition leaf (i : positive) (elem : list byte) : qAVLTreeNode := Node i elem 1 NULL NULL.

(** The results are the return value, what [*newrootptr] holds (NULL when it has
    not been set), the subtree at [root] as the call leaves it, and the
    nodes. *)
Fixpoint recursive_insert (root : qAVLTreeNode) (elem : list byte) (nd : nodes)
  : io (Z * qAVLTreeNode * qAVLTreeNode * nodes) :=
  match root with
  | NULL => pundef
  | Node i d h l r =>
      let cmpresult := ccmp comp elem d in
      if cmpresult =? 0 then mret (-1, root, root, nd)
      else if cmpresult <? 0 then
        match l with
        | NULL =>
            '(tmpnd, nd) ← new_leaf elem nd;
            match tmpnd with
            | None => mret (-1, NULL, root, nd)
            | Some c =>
                m ← lift_res (list_insert_left i c (links nd));
                let root' := updateHeight i d (leaf c elem) r in
                mret (0, root', root', Nodes m (brk nd))
            end
        | _ =>
            '(insresult, newroot, _, nd) ← recursive_insert l elem nd;
            if negb (insresult =? 0) then
              let root' := Node i d h newroot r in
              mret (insresult, root', root', nd)
            else
              newroot' ← left_balance (updateHeight i d newroot r);
              mret (0, newroot', newroot', nd)
        end
      else
        match r with
        | NULL =>
            '(tmpnd, nd) ← new_leaf elem nd;
            match tmpnd with
            | None => mret (-1, NULL, root, nd)
            | Some c =>
                m ← lift_res (list_insert_right i c (links nd));
                let root' := updateHeight i d l (leaf c elem) in
                mret (0, root', root', Nodes m (brk nd))
            end
        | _ =>
            '(insresult, newroot, _, nd) ← recursive_insert r elem nd;
            if negb (insresult =? 0) then
              let root' := Node i d h l newroot in
              mret (insresult, root', root', nd)
            else
              newroot' ← right_balance (updateHeight i d l newroot);
              mret (0, newroot', newroot', nd)
        end
  end.

(** After a failure [desc->root] still points to the old root. *)
Definition qAVLTree__insert (desc : qAVLTreeDescriptor) (elem : list byte)
  : io (Z * qAVLTreeDescriptor) :=
  match desc_root desc with
  | NULL =>
      '(tmpnd, nd) ← new_leaf elem (desc_nodes desc);
      match tmpnd with
      | None => mret (-1, Desc (desc_size desc) NULL nd)
      | Some c => mret (0, Desc 1 (leaf c elem) nd)
      end
  | root =>
      '(retv, newroot, root', nd) ← recursive_insert root elem (desc_nodes desc);
      if negb (retv =? 0) then mret (-1, Desc (desc_size desc) root' nd)
      else mret (0, Desc (u32 (desc_size desc + 1)) newroot nd)
  end.

(** [free(root->data)], [list_remove], [free(root)]. *)
Definition free_node (i : positive) (nd : nodes) : io nodes :=
  free;;
  m ← lift_res (list_remove i (links nd));
  free;;
  mret (Nodes (delete i m) (brk nd)).

(** The rightmost node of a subtree is freed after its data have been exchanged
    with those of the node to erase; the results are the new subtree and the
    data that node gets. *)
Fixpoint delete_leftmax (root : qAVLTreeNode) (nd : nodes)
  : io (qAVLTreeNode * list byte * nodes) :=
  match root with
  | NULL => pundef
  | Node i d h l r =>
      match r with
      | NULL => nd ← free_node i nd; mret (l, d, nd)
      | _ =>
          '(newroot, data, nd) ← delete_leftmax r nd;
          root' ← right_balance (updateHeight i d l newroot);
          mret (root', data, nd)
      end
  end.

Fixpoint delete_rightmin (root : qAVLTreeNode) (nd : nodes)
  : io (qAVLTreeNode * list byte * nodes) :=
  match root with
  | NULL => pundef
  | Node i d h l r =>
      match l with
      | NULL => nd ← free_node i nd; mret (r, d, nd)
      | _ =>
          '(newroot, data, nd) ← delete_rightmin l nd;
          root' ← left_balance (updateHeight i d newroot r);
          mret (root', data, nd)
      end
  end.

(** [elem] is the address of the node to erase, [key] its data.  A node that
    compares equal to it is that node: the iterator belongs to the tree. *)
Fixpoint recursive_delete (root : qAVLTreeNode) (elem : positive) (key : list byte) (nd : nodes)
  : io (Z * qAVLTreeNode * nodes) :=
  match root with
  | NULL => pundef
  | Node i d h l r =>
      let cmpresult := ccmp comp key d in
      if cmpresult =? 0 then
        if negb (Pos.eqb i elem) then pundef
        else if getHeight root =? 1 then nd ← free_node i nd; mret (0, NULL, nd)
        else if 0 <? get_blfactor root then
          '(newroot, data, nd) ← delete_rightmin r nd;
          root' ← right_balance (updateHeight i data l newroot);
          mret (0, root', nd)
        else
          '(newroot, data, nd) ← delete_leftmax l nd;
          root' ← left_balance (updateHeight i data newroot r);
          mret (0, root', nd)
      else if cmpresult <? 0 then
        match l with
        | NULL => mret (-1, root, nd)
        | _ =>
            '(status, newroot, nd) ← recursive_delete l elem key nd;
            if negb (status =? 0) then mret (status, root, nd)
            else
              root' ← right_balance (updateHeight i d newroot r);
              mret (0, root', nd)
        end
      else
        match r with
        | NULL => mret (-1, root, nd)
        | _ =>
            '(status, newroot, nd) ← recursive_delete r elem key nd;
            if negb (status =? 0) then mret (status, root, nd)
            else
              root' ← left_balance (updateHeight i d l newroot);
              mret (0, root', nd)
        end
  end.

(** The data of the node at an address. *)
Fixpoint node_data (t : qAVLTreeNode) (a : positive) : option (list byte) :=
  match t with
  | NULL => None
  | Node i d _ l r =>
      if Pos.eqb i a then Some d
      else match node_data l a with Some x => Some x | None => node_data r a end
  end.

Definition qAVLTree__erase (desc : qAVLTreeDescriptor) (elem : positive) : io (Z * qAVLTreeDescriptor) :=
  if desc_size desc =? 0 then mret (-1, desc) else
  match node_data (desc_root desc) elem with
  | None => pundef
  | Some key =>
      '(status, newroot, nd) ← recursive_delete (desc_root desc) elem key (desc_nodes desc);
      if negb (status =? 0) then mret (status, desc)
      else mret (0, Desc (u32 (desc_size desc - 1)) newroot nd)
  end.

End operations.

(** ** Iterators *)

Fixpoint min_node (t : qAVLTreeNode) : option positive :=
  match t with
  | NULL => None
  | Node i _ _ NULL _ => Some i
  | Node _ _ _ l _ => min_node l
  end.

Fixpoint max_node (t : qAVLTreeNode) : option positive :=
  match t with
  | NULL => None
  | Node i _ _ _ NULL => Some i
  | Node _ _ _ _ r => max_node r
  end.

Definition qAVLTree_begin (desc : qAVLTreeDescriptor) : option positive := min_node (desc_root desc).
Definition qAVLTree_end (desc : qAVLTreeDescriptor) : option positive := max_node (desc_root desc).
Definition qAVLTreeIterator_isvalid (iter : option positive) : bool :=
  match iter with Some _ => true | None => false end.

(** [iter] must be valid. *)
Definition qAVLTreeIterator_prev (desc : qAVLTreeDescriptor) (iter : option positive)
  : res (option positive) :=
  match iter ≫= fun i => links (desc_nodes desc) !! i with
  | Some l => Ok (prev l)
  | None => Undef
  end.

Definition qAVLTreeIterator_next (desc : qAVLTreeDescriptor) (iter : option positive)
  : res (option positive) :=
  match iter ≫= fun i => links (desc_nodes desc) !! i with
  | Some l => Ok (next l)
  | None => Undef
  end.

(** NULL for an invalid iterator. *)
Definition qAVLTreeIterator_deref (desc : qAVLTreeDescriptor) (iter : option positive)
  : option (list byte) := iter ≫= node_data (desc_root desc).

(** The loop of the destructor: the nodes are freed along [next]. *)
Fixpoint destroy_loop (fuel : nat) (it : option positive) (m : gmap positive link)
  : io (gmap positive link) :=
  match fuel with
  | O => fun _ => Diverged
  | S fuel' =>
      match it with
      | None => mret m
      | Some i =>
          match m !! i with
          | None => pundef
          | Some l =>
              free;;
              free;;
              destroy_loop fuel' (next l) (delete i m)
          end
      end
  end.

Definition qAVLTree__destructor (desc : qAVLTreeDescriptor) : io qAVLTreeDescriptor :=
  let m := links (desc_nodes desc) in
  m ← destroy_loop (S (size m)) (min_node (desc_root desc)) m;
  mret (Desc 0 NULL (Nodes m (brk (desc_nodes desc)))).

(** The loop [for(it = begin(desc); isvalid(it); it = next(it))] over a tree that
    its body does not change; the body works on a state [S] and tells whether to
    leave the loop. *)
Fixpoint foreach {S} (fuel : nat) (desc : qAVLTreeDescriptor) (it : option positive)
    (body : list byte -> S -> io (S * bool)) (s : S) : io S :=
  match fuel with
  | O => fun _ => Diverged
  | Datatypes.S fuel' =>
      if qAVLTreeIterator_isvalid it then
        match qAVLTreeIterator_deref desc it with
        | None => pundef
        | Some data =>
            '(s', stop) ← body data s;
            if (stop : bool) then mret s' else
            it' ← lift_res (qAVLTreeIterator_next desc it);
            foreach fuel' desc it' body s'
        end
      else mret s
  end.
