(* ===== verification/AVLTreeFacts.v ===== *)
(** * Correctness of the search tree

    The invariant of a tree ([wf]) and the theorems that its operations keep it
    and do to the sorted list of its keys what they are meant to do, for every
    comparison function that is a [Comparator]. *)

From S2P Require Import Prelude World Utils Chain Ordered AVLTree.
Local Open Scope Z_scope.

(** ** Invariants *)

(** The nodes in key order: address and data. *)
Fixpoint inorder (t : qAVLTreeNode) : list (positive * list byte) :=
  match t with
  | NULL => []
  | Node i d _ l r => inorder l ++ (i, d) :: inorder r
  end.

(** Every height field is one more than the larger height of the children. *)
Fixpoint heights_ok (t : qAVLTreeNode) : Prop :=
  match t with
  | NULL => True
  | Node _ _ h l r =>
      h = Z.max (getHeight l) (getHeight r) + 1 /\ heights_ok l /\ heights_ok r
  end.

(** *** The thread *)

Lemma list_insert_left_ok m A p B c :
  NoDup (A ++ p :: B) -> c ∉ A ++ p :: B -> m !! c = Some (Link None None) ->
  chain m None (A ++ p :: B) None ->
  exists m', list_insert_left p c m = Ok m' /\ chain m' None (A ++ c :: p :: B) None.
Proof.
  intros Hnd Hc Hmc Hch. unfold list_insert_left. pose proof (chain_lookup _ _ _ _ _ _ Hch) as Hp.
  rewrite Hp. cbn [prev]. apply list.NoDup_app in Hnd as (HA & Hdis & [HpB HB]%list.NoDup_cons).
  assert (Hcp : c <> p) by set_solver.
  assert (HcB : c ∉ B) by set_solver.
  destruct (last_cases A) as [->|(A' & q & ->)].
  - cbn [last_of list.last]. splice. eexists. split; [reflexivity|]. cbn [app chain first_of].
    split; [by simplify_map_eq|]. cbn [app chain] in Hch. destruct Hch as [_ Hch].
    split; [by simplify_map_eq|]. rewrite insert_insert_eq. apply chain_insert; [done|].
    by apply chain_insert.
  - apply list.NoDup_app in HA as (HA' & Hq & _).
    assert (Hqp : q <> p) by (intros ->; apply (Hdis p); set_solver).
    assert (Hcq : c <> q) by set_solver.
    rewrite last_of_snoc in *. rewrite <- app_assoc in Hch. cbn [app] in Hch.
    pose proof (chain_lookup _ _ _ _ _ _ Hch) as Hlq. cbn [first_of] in Hlq.
    splice. eexists. split; [reflexivity|]. rewrite <- app_assoc. cbn [app].
    rewrite chain_app in *. cbn [first_of chain] in *. destruct Hch as (H1 & _ & _ & H3).
    split_and!; try (by simplify_map_eq).
    + repeat (apply chain_insert; [set_solver|]). done.
    + repeat (apply chain_insert; [set_solver|]). done.
Qed.

Lemma list_insert_right_ok m A p B c :
  NoDup (A ++ p :: B) -> c ∉ A ++ p :: B -> m !! c = Some (Link None None) ->
  chain m None (A ++ p :: B) None ->
  exists m', list_insert_right p c m = Ok m' /\ chain m' None (A ++ p :: c :: B) None.
Proof.
  intros Hnd Hc Hmc Hch. unfold list_insert_right. pose proof (chain_lookup _ _ _ _ _ _ Hch) as Hp.
  rewrite Hp. cbn [next]. apply list.NoDup_app in Hnd as (HA & Hdis & [HpB HB]%list.NoDup_cons).
  assert (Hcp : c <> p) by set_solver.
  assert (HcA : c ∉ A) by set_solver.
  assert (HpA : p ∉ A) by (intros H; apply (Hdis p H); set_solver).
  apply chain_app in Hch as [HchA HchB]. cbn [first_of] in HchA.
  destruct B as [|q B].
  - cbn [first_of]. splice. eexists. split; [reflexivity|].
    rewrite chain_app. cbn [first_of chain]. split_and!; try (by simplify_map_eq).
    repeat (apply chain_insert; [done|]). done.
  - cbn [first_of chain] in *. destruct HchB as (_ & Hq & HchB).
    assert (Hqp : q <> p) by set_solver. assert (Hcq : c <> q) by set_solver.
    apply list.NoDup_cons in HB as [HqB HB].
    assert (HqA : q ∉ A) by (intros H; apply (Hdis q H); set_solver).
    splice. eexists. split; [reflexivity|]. rewrite chain_app. cbn [first_of chain].
    split_and!; try (by simplify_map_eq); repeat (apply chain_insert; [set_solver|]); done.
Qed.

Lemma list_remove_ok m A e B :
  NoDup (A ++ e :: B) -> chain m None (A ++ e :: B) None ->
  exists m', list_remove e m = Ok m' /\ chain (delete e m') None (A ++ B) None.
Proof.
  intros Hnd Hch. unfold list_remove. rewrite (chain_lookup _ _ _ _ _ _ Hch). cbn [prev next].
  destruct (chain_unlink m A e B Hnd Hch) as (m1 & m2 & E1 & E2 & H).
  rewrite E1. exists m2. split; [exact E2|]. apply chain_delete; [|done].
  apply nodup_middle in Hnd as (_ & _ & ? & ? & _). set_solver.
Qed.

(** *** Rotations *)

Lemma height_nonneg t : heights_ok t -> 0 <= getHeight t.
Proof. induction t as [|i d h l IHl r IHr]; cbn; [done|]. intros (-> & Hl & Hr).
  specialize (IHl Hl). lia. Qed.

Lemma height_pos i d h l r : heights_ok (Node i d h l r) -> 1 <= h.
Proof. intros (-> & Hl & Hr). pose proof (height_nonneg l Hl). pose proof (height_nonneg r Hr). lia. Qed.

(** A rotation or rebalancing that succeeds: nothing but the shape changes. *)
Definition rearranges (m : io qAVLTreeNode) (t : qAVLTreeNode) : Prop :=
  forall w, exists t', m w = Ok (t', w) /\ inorder t' = inorder t /\ heights_ok t' /\ t' <> NULL.

Lemma rearranges_ret t' t :
  inorder t' = inorder t -> heights_ok t' -> t' <> NULL -> rearranges (mret t') t.
Proof. intros ? ? ? w. by exists t'. Qed.

(** [flat] proves equalities of concatenations. *)
Ltac flat :=
  cbn [updateHeight inorder app]; repeat (rewrite <- app_assoc; cbn [app]); reflexivity.

Ltac rotated := apply rearranges_ret; [flat|cbn in *; tauto|done].

Lemma SimpleLeftRotate_ok i d h l r :
  heights_ok l -> heights_ok r -> 2 <= getHeight r ->
  rearranges (SimpleLeftRotate (Node i d h l r)) (Node i d h l r).
Proof.
  intros Hl Hr H2. destruct r as [|ri rd rh rl rr]; [cbn in H2; lia|].
  destruct Hr as (Eh & Hrl & Hrr). cbn [getHeight] in H2. cbn [SimpleLeftRotate].
  destruct rr as [|rri rrd rrh rrl rrr]; [|rotated].
  destruct rl as [|rli rld rlh rll rlr]; [cbn in Eh; lia|].
  destruct Hrl as (_ & ? & ?). rotated.
Qed.

Lemma SimpleRightRotate_ok i d h l r :
  heights_ok l -> heights_ok r -> 2 <= getHeight l ->
  rearranges (SimpleRightRotate (Node i d h l r)) (Node i d h l r).
Proof.
  intros Hl Hr H2. destruct l as [|li ld lh ll lr]; [cbn in H2; lia|].
  destruct Hl as (Eh & Hll & Hlr). cbn [getHeight] in H2. cbn [SimpleRightRotate].
  destruct ll as [|lli lld llh lll llr]; [|rotated].
  destruct lr as [|lri lrd lrh lrl lrr]; [cbn in Eh; lia|].
  destruct Hlr as (_ & ? & ?). rotated.
Qed.

Lemma LeftRightRotate_ok i d h li ld lh ll lr r :
  heights_ok (Node li ld lh ll lr) -> heights_ok r -> 0 < get_blfactor lr ->
  rearranges (LeftRightRotate (Node i d h (Node li ld lh ll lr) r))
    (Node i d h (Node li ld lh ll lr) r).
Proof.
  intros Hl Hr Hbf. destruct lr as [|x xd xh xl xr]; [cbn in Hbf; lia|].
  destruct Hl as (Eh & Hll & (Ex & Hxl & Hxr)). cbn [get_blfactor] in Hbf.
  pose proof (height_nonneg xl Hxl). destruct xr as [|y yd yh yl yr]; [cbn in Hbf; lia|].
  intros w. cbn [LeftRightRotate SimpleLeftRotate].
  rewrite (prog_bind_ok _ _ _ _ _ eq_refl). cbn [updateHeight SimpleRightRotate].
  eexists. split; [reflexivity|]. split; [flat|].
  split; [cbn in *; tauto|done].
Qed.

Lemma RightLeftRotate_ok i d h l ri rd rh rl rr :
  heights_ok l -> heights_ok (Node ri rd rh rl rr) -> get_blfactor rl < 0 ->
  rearranges (RightLeftRotate (Node i d h l (Node ri rd rh rl rr)))
    (Node i d h l (Node ri rd rh rl rr)).
Proof.
  intros Hl Hr Hbf. destruct rl as [|x xd xh xl xr]; [cbn in Hbf; lia|].
  destruct Hr as (Eh & (Ex & Hxl & Hxr) & Hrr). cbn [get_blfactor] in Hbf.
  pose proof (height_nonneg xr Hxr). destruct xl as [|y yd yh yl yr]; [cbn in Hbf; lia|].
  intros w. cbn [RightLeftRotate SimpleRightRotate].
  rewrite (prog_bind_ok _ _ _ _ _ eq_refl). cbn [updateHeight SimpleLeftRotate].
  eexists. split; [reflexivity|]. split; [flat|].
  split; [cbn in *; tauto|done].
Qed.

(** The balancing functions never follow a NULL pointer on a tree whose height
    fields are right. *)
Lemma left_balance_ok i d l r :
  heights_ok l -> heights_ok r ->
  rearranges (left_balance (updateHeight i d l r)) (updateHeight i d l r).
Proof.
  intros Hl Hr. unfold left_balance, updateHeight. cbn [get_blfactor].
  pose proof (height_nonneg r Hr).
  destruct (Z.leb_spec (getHeight r - getHeight l) (-2)); [|by apply rearranges_ret].
  destruct l as [|li ld lh ll [|lri lrd lrh lrl lrr]]; [cbn in *; lia|by apply SimpleRightRotate_ok; [..|lia]|].
  destruct (Z.ltb_spec 0 (get_blfactor (Node lri lrd lrh lrl lrr)));
    [by apply LeftRightRotate_ok|by apply SimpleRightRotate_ok; [..|lia]].
Qed.

Lemma right_balance_ok i d l r :
  heights_ok l -> heights_ok r ->
  rearranges (right_balance (updateHeight i d l r)) (updateHeight i d l r).
Proof.
  intros Hl Hr. unfold right_balance, updateHeight. cbn [get_blfactor].
  pose proof (height_nonneg l Hl).
  destruct (Z.leb_spec 2 (getHeight r - getHeight l)); [|by apply rearranges_ret].
  destruct r as [|ri rd rh [|rli rld rlh rll rlr] rr]; [cbn in *; lia|by apply SimpleLeftRotate_ok; [..|lia]|].
  destruct (Z.ltb_spec (get_blfactor (Node rli rld rlh rll rlr)) 0);
    [by apply RightLeftRotate_ok|by apply SimpleLeftRotate_ok; [..|lia]].
Qed.

(** *** Order *)

Definition ids (t : qAVLTreeNode) : list positive := (inorder t).*1.
Definition keys (t : qAVLTreeNode) : list (list byte) := (inorder t).*2.

Lemma ids_node i d h l r : ids (Node i d h l r) = ids l ++ i :: ids r.
Proof. unfold ids. cbn. by rewrite fmap_app. Qed.

Lemma keys_node i d h l r : keys (Node i d h l r) = keys l ++ d :: keys r.
Proof. unfold keys. cbn. by rewrite fmap_app. Qed.

Lemma node_data_spec t a : NoDup (ids t) ->
  forall d, node_data t a = Some d <-> (a, d) ∈ inorder t.
Proof.
  induction t as [|i k h l IHl r IHr]; intros Hnd d; [cbn; split; [done|set_solver]|].
  rewrite ids_node in Hnd. apply list.NoDup_app in Hnd as (Hl & Hdis & [Hir Hr]%list.NoDup_cons).
  assert (Hids : forall t b x, (b, x) ∈ inorder t -> b ∈ ids t).
  { intros t b x H. by apply (list_elem_of_fmap_2 fst) in H. }
  cbn [node_data inorder]. rewrite elem_of_app, elem_of_cons.
  destruct (Pos.eqb_spec i a) as [->|Hne].
  - split; [intros [= ->]; auto|]. intros [H|[[= ->]|H]]; [|done|].
    + apply Hids in H. exfalso. apply (Hdis a H). set_solver.
    + by apply Hids in H.
  - specialize (IHl Hl). specialize (IHr Hr). destruct (node_data l a) as [x|].
    + pose proof (proj1 (IHl x) eq_refl) as Hx. split; [intros [= <-]; auto|].
      intros [H|[[= <-]|H]]; [|done|].
      * by apply IHl in H.
      * apply Hids in H, Hx. exfalso. apply (Hdis a Hx). set_solver.
    + rewrite IHr. split; [auto|]. intros [H|[[= <-]|H]]; [|done|done].
      by apply IHl in H.
Qed.

Section order.
Context {dom : list byte -> Prop} {comp : Cmp} `{!Comparator dom comp}.

Abbreviation lt a b := (ccmp comp a b < 0).
Abbreviation ordered := (Ordered.ordered (comp := comp)).

(** [ks'] is [ks] with a new node put at its place. *)
Definition placed (ks : list (positive * list byte)) (c : positive) (elem : list byte)
    (ks' : list (positive * list byte)) : Prop :=
  exists l1 l2, ks = l1 ++ l2 /\ ks' = l1 ++ (c, elem) :: l2 /\
    Forall (fun x => lt x elem) l1.*2 /\ Forall (fun y => lt elem y) l2.*2.

Lemma placed_app ks c elem ks' L R :
  Forall (fun x => lt x elem) L.*2 -> Forall (fun y => lt elem y) R.*2 ->
  placed ks c elem ks' -> placed (L ++ ks ++ R) c elem (L ++ ks' ++ R).
Proof.
  intros HL HR (l1 & l2 & -> & -> & H1 & H2). exists (L ++ l1), (l2 ++ R).
  rewrite <- !app_assoc. split_and!; try done; rewrite fmap_app, list.Forall_app; done.
Qed.

Lemma node_constructor_ok w :
  mem_ok w -> qAVLTreeNode__constructor w = Ok (true, set_live (w_live w + 1) w).
Proof. intros Hm. unfold qAVLTreeNode__constructor. by rewrite (prog_bind_ok _ _ _ _ _ (malloc_ok w Hm)). Qed.

Lemma new_leaf_ok elem nd w :
  mem_ok w -> new_leaf elem nd w =
    Ok ((Some (brk nd), Nodes (<[brk nd := Link None None]> (links nd)) (Pos.succ (brk nd))),
        set_live (w_live w + 2) w).
Proof.
  intros Hm. unfold new_leaf. rewrite (prog_bind_ok _ _ _ _ _ (node_constructor_ok w Hm)). cbn [negb].
  set (w1 := set_live _ w). rewrite (prog_bind_ok _ _ _ _ _ (malloc_ok w1 Hm)).
  replace (w_live w + 2) with (w_live w + 1 + 1) by lia. reflexivity.
Qed.

(** The nodes of a tree within the whole thread. *)
Definition threaded (nd : nodes) (xs : list positive) : Prop :=
  NoDup xs /\ Forall (fun i => i < brk nd)%positive xs /\ chain (links nd) None xs None.

(** Adding a leaf next to its parent in the thread. *)
Lemma thread_leaf_left nd A i B elem w :
  mem_ok w -> threaded nd (A ++ i :: B) ->
  exists m nd', new_leaf elem nd w = Ok ((Some (brk nd), nd'), set_live (w_live w + 2) w) /\
    list_insert_left i (brk nd) (links nd') = Ok m /\
    brk nd' = Pos.succ (brk nd) /\ threaded (Nodes m (brk nd')) (A ++ brk nd :: i :: B).
Proof.
  intros Hm (Hnd & Hlt & Hch). rewrite new_leaf_ok by done.
  assert (Hfresh : brk nd ∉ A ++ i :: B).
  { intros H. eapply list.Forall_forall in Hlt; [|exact H]. lia. }
  destruct (list_insert_left_ok (<[brk nd := Link None None]> (links nd)) A i B (brk nd))
    as (m & E & Hch'); [done|done|by simplify_map_eq|by apply chain_insert|].
  exists m. eexists. split; [reflexivity|]. split; [exact E|]. split; [done|]. split_and!.
  - rewrite <- Permutation_middle. by apply list.NoDup_cons.
  - cbn [brk]. rewrite <- Permutation_middle. apply Forall_cons_iff. split; [lia|].
    eapply list.Forall_impl; [exact Hlt|]. cbn. lia.
  - exact Hch'.
Qed.

Lemma thread_leaf_right nd A i B elem w :
  mem_ok w -> threaded nd (A ++ i :: B) ->
  exists m nd', new_leaf elem nd w = Ok ((Some (brk nd), nd'), set_live (w_live w + 2) w) /\
    list_insert_right i (brk nd) (links nd') = Ok m /\
    brk nd' = Pos.succ (brk nd) /\ threaded (Nodes m (brk nd')) (A ++ i :: brk nd :: B).
Proof.
  intros Hm (Hnd & Hlt & Hch). rewrite new_leaf_ok by done.
  assert (Hfresh : brk nd ∉ A ++ i :: B).
  { intros H. eapply list.Forall_forall in Hlt; [|exact H]. lia. }
  destruct (list_insert_right_ok (<[brk nd := Link None None]> (links nd)) A i B (brk nd))
    as (m & E & Hch'); [done|done|by simplify_map_eq|by apply chain_insert|].
  exists m. eexists. split; [reflexivity|]. split; [exact E|]. split; [done|].
  assert (Hp : A ++ i :: brk nd :: B ≡ₚ brk nd :: A ++ i :: B) by solve_Permutation.
  split_and!.
  - rewrite Hp. by apply list.NoDup_cons.
  - cbn [brk]. rewrite Hp. apply Forall_cons_iff. split; [lia|].
    eapply list.Forall_impl; [exact Hlt|]. cbn. lia.
  - exact Hch'.
Qed.

(** What the recursive insertion does: nothing if the key is there, else the new
    node is put at its place in the order and in the thread. *)
Definition inserts (t : qAVLTreeNode) (A B : list positive) (elem : list byte) (nd : nodes)
    (w : world) : Prop :=
  (Exists (fun d => ccmp comp elem d = 0) (keys t) /\
   recursive_insert comp t elem nd w = Ok ((-1, t, t, nd), w)) \/
  exists t' s nd', recursive_insert comp t elem nd w =
      Ok ((0, t', s, nd'), set_live (w_live w + 2) w) /\
    t' <> NULL /\ heights_ok t' /\ placed (inorder t) (brk nd) elem (inorder t') /\
    threaded nd' (A ++ ids t' ++ B).

(** The two ways down.  [l] and [r] are the children of a node with key [d]. *)
Section descend.
Context (i : positive) (d : list byte) (h : Z) (l r : qAVLTreeNode) (A B : list positive).
Context (elem : list byte) (nd : nodes) (w : world).
Context (Hm : mem_ok w) (He : dom elem) (Hd : dom d) (Hdl : Forall dom (keys l)) (Hdr : Forall dom (keys r)).
Context (Hh : heights_ok (Node i d h l r)) (Hord : ordered (keys (Node i d h l r))).
Context (Hth : threaded nd (A ++ ids (Node i d h l r) ++ B)).

Lemma left_keys_lt : lt d elem -> Forall (fun x => lt x elem) (keys l ++ [d]).
Proof using Type*.
  intros Hlt. rewrite keys_node in Hord. apply ordered_middle in Hord as (_ & _ & Hld & _).
  apply list.Forall_app. split; [by eapply all_lt_trans|by repeat constructor].
Qed.

Lemma right_keys_gt : lt elem d -> Forall (fun y => lt elem y) (d :: keys r).
Proof using Type*.
  intros Hlt. rewrite keys_node in Hord. apply ordered_middle in Hord as (_ & _ & _ & Hrd & _).
  constructor; [done|]. by eapply lt_all_trans.
Qed.

Lemma descend_left :
  lt elem d -> (l <> NULL -> inserts l A (i :: ids r ++ B) elem nd w) ->
  inserts (Node i d h l r) A B elem nd w.
Proof using Type*.
  intros Hlt IH. pose proof (right_keys_gt Hlt) as Hgt. destruct Hh as (Ehh & Hhl & Hhr).
  unfold inserts. cbn [recursive_insert].
  destruct (Z.eqb_spec (ccmp comp elem d) 0); [lia|].
  destruct (Z.ltb_spec (ccmp comp elem d) 0); [|lia].
  rewrite ids_node in Hth. destruct l as [|li ld lh ll lr].
  - right. cbn [app] in Hth. destruct (thread_leaf_left nd A i (ids r ++ B) elem w Hm)
      as (m & nd' & E1 & E2 & E3 & Hth'); [by rewrite app_comm_cons|].
    rewrite (prog_bind_ok _ _ _ _ _ E1). cbv beta iota. rewrite E2. eexists _, _, _.
    split; [reflexivity|]. split; [done|]. split; [cbn; tauto|]. split.
    + exists [], ((i, d) :: inorder r). split_and!; [done|done|constructor|done].
    + unfold updateHeight, leaf. rewrite ids_node, <- app_assoc. exact Hth'.
  - cbv iota. set (l' := Node li ld lh ll lr) in *. destruct (IH ltac:(done)) as [[Hex E]|(t' & s & nd' & E & Ht' & Hh' & Hpl & Hth')].
    + left. split; [rewrite keys_node; apply Exists_app; by left|].
      rewrite (prog_bind_ok _ _ _ _ _ E). reflexivity.
    + right. destruct (left_balance_ok i d t' r Hh' Hhr (set_live (w_live w + 2) w))
        as (t'' & Eb & Hin & Hh'' & Hn'').
      rewrite (prog_bind_ok _ _ _ _ _ E). cbn [Z.eqb negb].
      rewrite (prog_bind_ok _ _ _ _ _ Eb). eexists _, _, _. split; [reflexivity|].
      split; [done|]. split; [done|]. split.
      * rewrite Hin. cbn [updateHeight inorder].
        by apply (placed_app _ _ _ _ [] ((i, d) :: inorder r)).
      * unfold ids at 1. rewrite Hin. change (inorder (updateHeight i d t' r)).*1 with (ids (Node i d h t' r)).
        rewrite ids_node, <- app_assoc. exact Hth'.
Qed.

Lemma descend_right :
  lt d elem -> (r <> NULL -> inserts r (A ++ ids l ++ [i]) B elem nd w) ->
  inserts (Node i d h l r) A B elem nd w.
Proof using Type*.
  intros Hlt IH. pose proof (left_keys_lt Hlt) as Hlts. destruct Hh as (Ehh & Hhl & Hhr).
  pose proof (ccmp_swap d elem Hd He) as Hsw. unfold inserts. cbn [recursive_insert].
  destruct (Z.eqb_spec (ccmp comp elem d) 0); [lia|].
  destruct (Z.ltb_spec (ccmp comp elem d) 0); [lia|].
  rewrite ids_node in Hth. destruct r as [|ri rd rh rl rr].
  - right. rewrite <- app_assoc in Hth. cbn [app] in Hth. rewrite app_assoc in Hth.
    destruct (thread_leaf_right nd (A ++ ids l) i B elem w Hm)
      as (m & nd' & E1 & E2 & E3 & Hth'); [exact Hth|].
    rewrite (prog_bind_ok _ _ _ _ _ E1). cbv beta iota. rewrite E2. eexists _, _, _.
    split; [reflexivity|]. split; [done|]. split; [cbn; tauto|]. split.
    + exists (inorder l ++ [(i, d)]), [].
      split_and!; [by rewrite app_nil_r|unfold updateHeight, leaf; cbn [inorder]; by rewrite <- app_assoc
        |by rewrite fmap_app|constructor].
    + unfold updateHeight, leaf. rewrite ids_node. rewrite <- !app_assoc in *. exact Hth'.
  - cbv iota. set (r' := Node ri rd rh rl rr) in *. destruct (IH ltac:(done)) as [[Hex E]|(t' & s & nd' & E & Ht' & Hh' & Hpl & Hth')].
    + left. split; [rewrite keys_node; apply Exists_app; right; by right|].
      rewrite (prog_bind_ok _ _ _ _ _ E). reflexivity.
    + right. destruct (right_balance_ok i d l t' Hhl Hh' (set_live (w_live w + 2) w))
        as (t'' & Eb & Hin & Hh'' & Hn'').
      rewrite (prog_bind_ok _ _ _ _ _ E). cbn [Z.eqb negb].
      rewrite (prog_bind_ok _ _ _ _ _ Eb). eexists _, _, _. split; [reflexivity|].
      split; [done|]. split; [done|]. split.
      * rewrite Hin. cbn [updateHeight inorder].
        pose proof (placed_app _ _ _ _ (inorder l ++ [(i, d)]) [] ltac:(by rewrite fmap_app) ltac:(constructor) Hpl) as Hp.
        rewrite !app_nil_r, <- !app_assoc in Hp. exact Hp.
      * unfold ids at 1. rewrite Hin. change (inorder (updateHeight i d l t')).*1 with (ids (Node i d h l t')).
        rewrite ids_node, <- app_assoc. rewrite <- !app_assoc in Hth'. exact Hth'.
Qed.

End descend.

Lemma recursive_insert_ok t A B elem nd w :
  mem_ok w -> dom elem -> Forall dom (keys t) -> heights_ok t -> t <> NULL ->
  ordered (keys t) -> threaded nd (A ++ ids t ++ B) -> inserts t A B elem nd w.
Proof using Type*.
  intros Hm He. revert A B. induction t as [|i d h l IHl r IHr]; intros A B Hdom Hh Hn Hord Hth;
    [done|]. clear Hn.
  pose proof Hdom as Hdom'. rewrite keys_node in Hdom'.
  apply list.Forall_app in Hdom' as [Hdl [Hdd Hdr]%Forall_cons_iff].
  pose proof Hord as Hord'. rewrite keys_node in Hord'.
  apply ordered_middle in Hord' as (Hol & Hor & _). pose proof Hh as (_ & Hhl & Hhr).
  pose proof Hth as Hth'. rewrite ids_node, <- app_assoc in Hth'.
  destruct (Z.lt_trichotomy (ccmp comp elem d) 0) as [Elt|[Ec|Egt]].
  - apply descend_left; try done. intros Hn. by apply IHl.
  - left. split; [rewrite keys_node; apply Exists_app; right; by left|].
    cbn [recursive_insert]. by rewrite Ec.
  - apply descend_right; try done; [by apply ccmp_gt|]. intros Hn. apply IHr; try done.
    by rewrite <- !app_assoc.
Qed.

(** *** Descriptors *)

Definition elems (desc : qAVLTreeDescriptor) : list (list byte) := keys (desc_root desc).

(** The invariant of a tree: its size, its keys in order, its height fields, and
    the thread, which visits exactly its nodes in key order. *)
Record wf (desc : qAVLTreeDescriptor) : Prop := Wf {
  wf_size : desc_size desc = u32 (blen (elems desc));
  wf_dom : Forall dom (elems desc);
  wf_ordered : ordered (elems desc);
  wf_heights : heights_ok (desc_root desc);
  wf_thread : threaded (desc_nodes desc) (ids (desc_root desc))
}.

Lemma ordered_placed ks c elem ks' :
  placed ks c elem ks' -> ordered ks.*2 -> ordered ks'.*2.
Proof.
  intros (l1 & l2 & -> & -> & H1 & H2). rewrite !fmap_app. cbn [fmap list_fmap snd].
  rewrite ordered_app, ordered_middle. tauto.
Qed.

Lemma placed_length ks c elem ks' : placed ks c elem ks' -> length ks' = S (length ks).
Proof. intros (l1 & l2 & -> & -> & _). rewrite !length_app. cbn. lia. Qed.

Lemma placed_dom ks c elem ks' :
  placed ks c elem ks' -> dom elem -> Forall dom ks.*2 -> Forall dom ks'.*2.
Proof.
  intros (l1 & l2 & -> & -> & _). rewrite !fmap_app, !list.Forall_app. cbn. intros ? [? ?].
  by repeat constructor.
Qed.

Lemma u32_size_succ n : u32 (u32 (Z.of_nat n) + 1) = u32 (Z.of_nat (S n)).
Proof. unfold uwrap. rewrite Zplus_mod_idemp_l. f_equal. lia. Qed.

Lemma wf_leaf elem m c :
  dom elem -> wf (Desc 1 (leaf c elem) (Nodes (<[c := Link None None]> m) (Pos.succ c))).
Proof.
  intros He. apply Wf; [reflexivity|by repeat constructor|by repeat constructor|done|].
  split_and!; [apply list.NoDup_singleton|repeat constructor; cbn; lia|].
  cbn. by simplify_map_eq.
Qed.

(** The tree has a key that compares equal to [k]. *)
Definition has (desc : qAVLTreeDescriptor) (k : list byte) : Prop :=
  Exists (fun x => ccmp comp k x = 0) (elems desc).

Lemma insert_ok desc elem w :
  wf desc -> dom elem -> mem_ok w ->
  (Exists (fun k => ccmp comp elem k = 0) (elems desc) /\
   qAVLTree__insert comp desc elem w = Ok ((-1, desc), w)) \/
  exists desc' l1 l2,
    qAVLTree__insert comp desc elem w = Ok ((0, desc'), set_live (w_live w + 2) w) /\ wf desc' /\
    elems desc = l1 ++ l2 /\ elems desc' = l1 ++ elem :: l2.
Proof using Type*.
  intros [Hs Hd Ho Hh Ht] He Hm. destruct desc as [sz t nd]. unfold elems in *. cbn [desc_size desc_root desc_nodes] in *.
  unfold qAVLTree__insert. cbn [desc_size desc_root desc_nodes].
  destruct t as [|i d h l r].
  - right. rewrite (prog_bind_ok _ _ _ _ _ (new_leaf_ok elem nd w Hm)).
    eexists _, [], []. split; [reflexivity|]. split; [|done].
    by apply wf_leaf.
  - set (t := Node i d h l r) in *.
    destruct (recursive_insert_ok t [] [] elem nd w) as [[Hex E]|(t' & s & nd' & E & Hn & Hh' & Hpl & Hth')];
      [done..|by rewrite app_nil_r| |].
    + left. split; [done|]. rewrite (prog_bind_ok _ _ _ _ _ E). done.
    + right. rewrite (prog_bind_ok _ _ _ _ _ E). cbn [Z.eqb negb].
      pose proof Hpl as (l1 & l2 & E1 & E2 & _). eexists _, l1.*2, l2.*2. split; [reflexivity|].
      rewrite app_nil_r in Hth'. split.
      * split; cbn [desc_size desc_root desc_nodes elems]; try done.
        -- unfold elems, keys, blen in *. cbn [desc_root] in *.
           rewrite Hs, !length_fmap, (placed_length _ _ _ _ Hpl). apply u32_size_succ.
        -- by eapply placed_dom.
        -- by eapply ordered_placed.
      * unfold elems, keys. cbn [desc_root]. rewrite E1, E2, !fmap_app. done.
Qed.

(** Equal keys are in the same trees. *)
Lemma has_eq desc j k : wf desc -> dom j -> dom k -> ccmp comp j k = 0 -> has desc k -> has desc j.
Proof using Type*.
  intros [_ Hd _ _ _] Hj Hk E H. unfold has in *. apply list.Exists_exists in H as (x & Hx & Ex).
  apply list.Exists_exists. exists x. split; [done|].
  eapply list.Forall_forall in Hd; [|exact Hx]. by apply (ccmp_eq_trans j k x).
Qed.

(** C24. Insertion.  A key that compares equal to one in the tree changes nothing
    and gives -1.  Any other key is copied into a new node (two allocations)
    that takes its place in the key order and in the thread; the invariant is
    kept, no NULL pointer is followed, whatever rotations are made, and the keys
    of the new tree are those of the old one and [elem]. *)
Theorem insert_spec desc elem w :
  wf desc -> dom elem -> mem_ok w ->
  exists r desc' w', qAVLTree__insert comp desc elem w = Ok ((r, desc'), w') /\ wf desc' /\
    (forall k, dom k -> has desc' k <-> has desc k \/ ccmp comp k elem = 0) /\
    ((r = -1 /\ has desc elem /\ desc' = desc /\ w' = w) \/
     (r = 0 /\ ~ has desc elem /\ w' = set_live (w_live w + 2) w /\
      exists l1 l2, elems desc = l1 ++ l2 /\ elems desc' = l1 ++ elem :: l2)).
Proof using Type*.
  intros Hwf He Hm. destruct (insert_ok desc elem w Hwf He Hm)
    as [[Hex E]|(desc' & l1 & l2 & E & Hwf' & E1 & E2)].
  - exists (-1), desc, w. split; [done|]. split; [done|]. split; [|by left].
    intros k Hk. split; [by left|]. intros [H|H]; [done|]. by apply (has_eq desc k elem).
  - exists 0, desc', (set_live (w_live w + 2) w). split; [done|]. split; [done|]. split.
    + intros k Hk. unfold has. rewrite E1, E2, !Exists_app, Exists_cons. tauto.
    + right. split_and!; [done| |done|by exists l1, l2].
      pose proof (wf_ordered _ Hwf') as Ho. pose proof (wf_dom _ Hwf) as Hd.
      rewrite E2 in Ho. rewrite E1 in Hd.
      apply ordered_middle in Ho as (_ & _ & H1 & H2 & _). apply list.Forall_app in Hd as [Hd1 Hd2].
      unfold has. rewrite E1. intros [Hex|Hex]%Exists_app; apply list.Exists_exists in Hex as (x & Hx & Ex).
      * eapply list.Forall_forall in H1; [|exact Hx]. eapply list.Forall_forall in Hd1; [|exact Hx].
        apply ccmp_eq_sym in Ex; [lia|done..].
      * eapply list.Forall_forall in H2; [|exact Hx]. cbn in H2. lia.
Qed.

Lemma search_spec t elem :
  dom elem -> Forall dom (keys t) -> ordered (keys t) ->
  match search comp t elem with
  | Some i => exists k, (i, k) ∈ inorder t /\ ccmp comp elem k = 0
  | None => Forall (fun k => ccmp comp elem k <> 0) (keys t)
  end.
Proof using Type*.
  intros He. induction t as [|i d h l IHl r IHr]; intros Hdom Hord; cbn [search]; [constructor|].
  rewrite keys_node in *. apply list.Forall_app in Hdom as [Hdl [Hdd Hdr]%Forall_cons_iff].
  apply ordered_middle in Hord as (Hol & Hor & Hld & Hrd & _).
  destruct (Z.eqb_spec (ccmp comp elem d) 0) as [Ec|Ec].
  { exists d. split; [|done]. cbn. set_solver. }
  destruct (Z.ltb_spec (ccmp comp elem d) 0).
  - specialize (IHl Hdl Hol). destruct (search comp l elem).
    + destruct IHl as (k & Hk & E). exists k. split; [cbn; set_solver|done].
    + apply list.Forall_app. split; [done|]. constructor; [done|].
      eapply list.Forall_impl; [by eapply (lt_all_trans elem d)|]. cbn. lia.
  - specialize (IHr Hdr Hor). destruct (search comp r elem).
    + destruct IHr as (k & Hk & E). exists k. split; [cbn; set_solver|done].
    + apply list.Forall_app. split; [|by constructor].
      assert (Hde : lt d elem) by (apply ccmp_gt; [done..|lia]).
      pose proof (all_lt_trans elem d (keys l) He Hdd Hdl Hde Hld) as Hall.
      apply list.Forall_forall. intros k Hk E.
      eapply list.Forall_forall in Hall; [|exact Hk].
      eapply list.Forall_forall in Hdl; [|exact Hk].
      apply ccmp_eq_sym in E; [lia|done..].
Qed.

(** Search.  [qAVLTree__ptr_at] returns 0 and the node of the key that compares
    equal to [elem] when the tree has one, and -1 otherwise. *)
Theorem ptr_at_spec desc elem :
  wf desc -> dom elem ->
  (exists i k, qAVLTree__ptr_at comp desc elem = (0, Some i) /\
     (i, k) ∈ inorder (desc_root desc) /\ ccmp comp elem k = 0) \/
  (qAVLTree__ptr_at comp desc elem = (-1, None) /\
   Forall (fun k => ccmp comp elem k <> 0) (elems desc)).
Proof using Type*.
  intros [_ Hd Ho _ _] He. unfold qAVLTree__ptr_at, elems in *.
  pose proof (search_spec (desc_root desc) elem He Hd Ho) as H.
  destruct (desc_root desc) as [|i d h l r]; [right; by split|].
  destruct (search comp _ elem) as [j|]; [left|right; by split].
  destruct H as (k & ? & ?). by exists j, k.
Qed.

(** *** Deletion *)

Lemma free_node_ok nd A i B w :
  threaded nd (A ++ i :: B) ->
  exists nd', free_node i nd w = Ok (nd', set_live (w_live w - 2) w) /\ threaded nd' (A ++ B) /\
    links nd' !! i = None.
Proof using Type.
  intros (Hnd & Hlt & Hch). destruct (list_remove_ok _ _ _ _ Hnd Hch) as (m & E & Hch').
  unfold free_node. rewrite E. exists (Nodes (delete i m) (brk nd)). split.
  { replace (w_live w - 2) with (w_live w - 1 - 1) by lia. reflexivity. }
  rewrite <- Permutation_middle in Hnd. apply list.NoDup_cons in Hnd as [_ Hnd].
  rewrite <- Permutation_middle in Hlt. apply Forall_cons_iff in Hlt as [_ Hlt].
  split; [by split_and!|]. apply lookup_delete_eq.
Qed.

Lemma inorder_ids t t' x : inorder t = x :: inorder t' -> ids t = x.1 :: ids t'.
Proof using Type. unfold ids. by intros ->. Qed.

Lemma delete_rightmin_ok t A B nd w :
  heights_ok t -> t <> NULL -> threaded nd (A ++ ids t ++ B) ->
  exists t' c d nd', delete_rightmin t nd w = Ok ((t', d, nd'), set_live (w_live w - 2) w) /\
    inorder t = (c, d) :: inorder t' /\ heights_ok t' /\ threaded nd' (A ++ ids t' ++ B) /\
    links nd' !! c = None.
Proof using Type.
  revert B. induction t as [|i d h l IHl r IHr]; intros B Hh Hn Hth; [done|]. clear Hn IHr.
  destruct Hh as (_ & Hhl & Hhr). rewrite ids_node in Hth. cbn [delete_rightmin inorder].
  destruct l as [|li ld lh ll lr].
  - cbn [app] in Hth. destruct (free_node_ok nd A i (ids r ++ B) w Hth) as (nd' & E & Hth' & Hfr).
    rewrite (prog_bind_ok _ _ _ _ _ E). exists r, i, d, nd'. done.
  - cbv iota. set (l := Node li ld lh ll lr) in *.
    destruct (IHl (i :: ids r ++ B)) as (l' & c & k & nd' & E & Hin & Hh' & Hth' & Hfr); [done|done| |].
    { by rewrite <- app_assoc in Hth. }
    rewrite (prog_bind_ok _ _ _ _ _ E).
    destruct (left_balance_ok i d l' r Hh' Hhr (set_live (w_live w - 2) w)) as (t' & Eb & Hin' & Hh'' & _).
    rewrite (prog_bind_ok _ _ _ _ _ Eb). exists t', c, k, nd'. split; [done|].
    split; [|split; [done|split; [|done]]].
    + rewrite Hin, Hin'. done.
    + unfold ids at 1. rewrite Hin'. unfold updateHeight.
      change (inorder (Node i d (Z.max (getHeight l') (getHeight r) + 1) l' r)).*1
        with (ids (Node i d (Z.max (getHeight l') (getHeight r) + 1) l' r)).
      rewrite ids_node, <- app_assoc. done.
Qed.

Lemma delete_leftmax_ok t A B nd w :
  heights_ok t -> t <> NULL -> threaded nd (A ++ ids t ++ B) ->
  exists t' c d nd', delete_leftmax t nd w = Ok ((t', d, nd'), set_live (w_live w - 2) w) /\
    inorder t = inorder t' ++ [(c, d)] /\ heights_ok t' /\ threaded nd' (A ++ ids t' ++ B) /\
    links nd' !! c = None.
Proof using Type.
  revert A. induction t as [|i d h l IHl r IHr]; intros A Hh Hn Hth; [done|]. clear Hn IHl.
  destruct Hh as (_ & Hhl & Hhr). rewrite ids_node in Hth. cbn [delete_leftmax inorder].
  destruct r as [|ri rd rh rl rr].
  - change (ids NULL) with (@nil positive) in Hth. rewrite <- app_assoc, app_assoc in Hth. cbn [app] in Hth.
    destruct (free_node_ok nd (A ++ ids l) i B w Hth) as (nd' & E & Hth' & Hfr).
    rewrite (prog_bind_ok _ _ _ _ _ E). exists l, i, d, nd'. by rewrite <- app_assoc in Hth'.
  - cbv iota. set (r := Node ri rd rh rl rr) in *.
    destruct (IHr (A ++ ids l ++ [i])) as (r' & c & k & nd' & E & Hin & Hh' & Hth' & Hfr); [done|done| |].
    { rewrite <- !app_assoc in *. done. }
    rewrite (prog_bind_ok _ _ _ _ _ E).
    destruct (right_balance_ok i d l r' Hhl Hh' (set_live (w_live w - 2) w)) as (t' & Eb & Hin' & Hh'' & _).
    rewrite (prog_bind_ok _ _ _ _ _ Eb). exists t', c, k, nd'. split; [done|].
    split; [|split; [done|split; [|done]]].
    + rewrite Hin, Hin'. cbn [updateHeight inorder]. by rewrite <- app_assoc.
    + unfold ids at 1. rewrite Hin'. unfold updateHeight.
      change (inorder (Node i d (Z.max (getHeight l) (getHeight r') + 1) l r')).*1
        with (ids (Node i d (Z.max (getHeight l) (getHeight r') + 1) l r')).
      rewrite ids_node, <- !app_assoc in *. done.
Qed.

(** What an erasure makes of the nodes in key order.  A leaf is [freed] itself;
    else the node of the next or of the previous key is, and its key moves to the
    node [elem].  All other nodes keep their keys. *)
Definition erased (xs : list (positive * list byte)) (elem : positive) (key : list byte)
    (freed : positive) (ys : list (positive * list byte)) : Prop :=
  exists pre post, xs = pre ++ (elem, key) :: post /\
    (freed = elem /\ ys = pre ++ post \/
     (exists k post', post = (freed, k) :: post' /\ ys = pre ++ (elem, k) :: post') \/
     (exists k pre', pre = pre' ++ [(freed, k)] /\ ys = pre' ++ (elem, k) :: post)).

Lemma erased_inside xs elem key freed ys l r :
  erased xs elem key freed ys -> erased (l ++ xs ++ r) elem key freed (l ++ ys ++ r).
Proof using Type.
  intros (pre & post & -> & H). exists (l ++ pre), (post ++ r). split; [by rewrite <- !app_assoc|].
  destruct H as [[-> ->]|[(k & post' & -> & ->)|(k & pre' & -> & ->)]].
  - left. by rewrite <- !app_assoc.
  - right. left. exists k, (post' ++ r). by rewrite <- !app_assoc.
  - right. right. exists k, (l ++ pre'). by rewrite <- !app_assoc.
Qed.

Lemma erased_keys xs elem key freed ys :
  erased xs elem key freed ys -> exists l1 l2, xs.*2 = l1 ++ key :: l2 /\ ys.*2 = l1 ++ l2.
Proof using Type.
  intros (pre & post & -> & H). exists pre.*2, post.*2. rewrite fmap_app. split; [done|].
  destruct H as [[-> ->]|[(k & post' & -> & ->)|(k & pre' & -> & ->)]];
    rewrite !fmap_app; [done..|by rewrite <- app_assoc].
Qed.

(** What the recursive deletion of the node [elem] with key [key] does. *)
Definition deletes (t : qAVLTreeNode) (A B : list positive) (elem : positive) (key : list byte)
    (nd : nodes) (w : world) : Prop :=
  exists t' nd' freed, recursive_delete comp t elem key nd w =
      Ok ((0, t', nd'), set_live (w_live w - 2) w) /\ heights_ok t' /\
    erased (inorder t) elem key freed (inorder t') /\ links nd' !! freed = None /\
    threaded nd' (A ++ ids t' ++ B).

(** A node rebuilt and rebalanced after the deletion below it. *)
Lemma rebalanced (bal : qAVLTreeNode -> io qAVLTreeNode) i d l r nd A B w :
  rearranges (bal (updateHeight i d l r)) (updateHeight i d l r) ->
  threaded nd (A ++ (ids l ++ i :: ids r) ++ B) ->
  exists t', bal (updateHeight i d l r) w = Ok (t', w) /\ heights_ok t' /\
    inorder t' = inorder l ++ (i, d) :: inorder r /\ threaded nd (A ++ ids t' ++ B).
Proof using Type.
  intros Hb Hth. destruct (Hb w) as (t' & E & Hin & Hh & _). exists t'. split; [done|]. split; [done|].
  unfold updateHeight in Hin. split; [exact Hin|].
  rewrite <- (ids_node i d (Z.max (getHeight l) (getHeight r) + 1)) in Hth. unfold ids in *.
  by rewrite Hin.
Qed.

(** The node found has at most an empty right, then an empty left, child. *)
Lemma delete_here i d h l r A B nd w :
  dom d -> heights_ok (Node i d h l r) -> threaded nd (A ++ ids (Node i d h l r) ++ B) ->
  deletes (Node i d h l r) A B i d nd w.
Proof using Type*.
  intros Hd Hh Hth. unfold deletes. cbn [recursive_delete]. rewrite ccmp_refl by done.
  cbn [Z.eqb]. rewrite Pos.eqb_refl. cbn [negb]. cbn [getHeight get_blfactor].
  pose proof Hh as (Eh & Hhl & Hhr). pose proof (height_nonneg l Hhl). pose proof (height_nonneg r Hhr).
  rewrite ids_node, <- app_assoc in Hth. cbn [app] in Hth. cbn [inorder].
  destruct (Z.eqb_spec h 1) as [E1|E1]; [|destruct (Z.ltb_spec 0 (getHeight r - getHeight l))].
  - destruct l as [|li ld lh ll lr]; [|apply height_pos in Hhl; cbn in *; lia].
    destruct r as [|ri rd rh rl rr]; [|apply height_pos in Hhr; cbn in *; lia].
    destruct (free_node_ok nd A i B w Hth) as (nd' & E & Hth' & Hfr).
    rewrite (prog_bind_ok _ _ _ _ _ E). exists NULL, nd', i. split_and!; try done.
    exists [], []. split; [done|]. by left.
  - destruct (delete_rightmin_ok r (A ++ ids l ++ [i]) B nd w Hhr)
      as (r' & c & k & nd' & E & Hin & Hh' & Hth' & Hfr);
      [by intros ->; cbn in *; lia|by rewrite <- !app_assoc|].
    rewrite (prog_bind_ok _ _ _ _ _ E). rewrite <- !app_assoc in Hth'. cbn [app] in Hth'.
    destruct (rebalanced right_balance i k l r' nd' A B (set_live (w_live w - 2) w))
      as (t' & Eb & Hh'' & Hk & Hth''); [by apply right_balance_ok|by rewrite <- !app_assoc|].
    rewrite (prog_bind_ok _ _ _ _ _ Eb). exists t', nd', c. split_and!; try done. rewrite Hk, Hin.
    exists (inorder l), ((c, k) :: inorder r'). split; [done|]. right. left. by exists k, (inorder r').
  - destruct (delete_leftmax_ok l A (i :: ids r ++ B) nd w Hhl)
      as (l' & c & k & nd' & E & Hin & Hh' & Hth' & Hfr);
      [by intros ->; cbn in *; lia|done|].
    rewrite (prog_bind_ok _ _ _ _ _ E).
    destruct (rebalanced left_balance i k l' r nd' A B (set_live (w_live w - 2) w))
      as (t' & Eb & Hh'' & Hk & Hth''); [by apply left_balance_ok|by rewrite <- !app_assoc|].
    rewrite (prog_bind_ok _ _ _ _ _ Eb). exists t', nd', c. split_and!; try done. rewrite Hk, Hin.
    exists (inorder l' ++ [(c, k)]), (inorder r). split; [done|]. right. right. by exists k, (inorder l').
Qed.

Lemma recursive_delete_ok t A B elem key nd w :
  Forall dom (keys t) -> heights_ok t -> ordered (keys t) -> (elem, key) ∈ inorder t ->
  threaded nd (A ++ ids t ++ B) -> deletes t A B elem key nd w.
Proof using Type*.
  revert A B. induction t as [|i d h l IHl r IHr]; intros A B Hdom Hh Hord Hin Hth; [set_solver|].
  pose proof Hdom as Hdom'. rewrite keys_node in Hdom'.
  apply list.Forall_app in Hdom' as [Hdl [Hdd Hdr]%Forall_cons_iff].
  pose proof Hord as Hord'. rewrite keys_node in Hord'.
  apply ordered_middle in Hord' as (Hol & Hor & Hld & Hrd & _). pose proof Hh as (_ & Hhl & Hhr).
  rewrite ids_node in Hth. cbn [inorder] in Hin.
  apply elem_of_app in Hin as [Hin|[[= -> ->]|Hin]%elem_of_cons].
  - assert (Hkl : key ∈ keys l) by (apply (list_elem_of_fmap_2 snd) in Hin; done).
    assert (Hk : dom key) by (by eapply list.Forall_forall in Hdl).
    assert (Hlt : lt key d) by (by eapply list.Forall_forall in Hld; [|exact Hkl]).
    unfold deletes. cbn [recursive_delete].
    destruct (Z.eqb_spec (ccmp comp key d) 0); [lia|]. destruct (Z.ltb_spec (ccmp comp key d) 0); [|lia].
    destruct (IHl A (i :: ids r ++ B)) as (l' & nd' & fr & E & Hh' & He & Hfr & Hth');
      [done..|by rewrite <- app_assoc in Hth|].
    destruct l as [|li ld lh ll lr]; [by apply not_elem_of_nil in Hin|].
    rewrite (prog_bind_ok _ _ _ _ _ E). cbn [Z.eqb negb].
    destruct (rebalanced right_balance i d l' r nd' A B (set_live (w_live w - 2) w))
      as (t' & Eb & Hh'' & Hks & Hth''); [by apply right_balance_ok|by rewrite <- !app_assoc|].
    rewrite (prog_bind_ok _ _ _ _ _ Eb). exists t', nd', fr.
    split_and!; try done. cbn [inorder]. rewrite Hks. by apply (erased_inside _ _ _ _ _ [] ((i, d) :: inorder r)).
  - apply delete_here; [done|done|by rewrite ids_node].
  - assert (Hkr : key ∈ keys r) by (apply (list_elem_of_fmap_2 snd) in Hin; done).
    assert (Hk : dom key) by (by eapply list.Forall_forall in Hdr).
    assert (Hlt : lt d key) by (by eapply list.Forall_forall in Hrd; [|exact Hkr]).
    apply ccmp_swap in Hlt; [|done..]. unfold deletes. cbn [recursive_delete].
    destruct (Z.eqb_spec (ccmp comp key d) 0); [lia|]. destruct (Z.ltb_spec (ccmp comp key d) 0); [lia|].
    destruct (IHr (A ++ ids l ++ [i]) B) as (r' & nd' & fr & E & Hh' & He & Hfr & Hth');
      [done..|by rewrite <- !app_assoc in *|].
    destruct r as [|ri rd rh rl rr]; [by apply not_elem_of_nil in Hin|].
    rewrite (prog_bind_ok _ _ _ _ _ E). cbn [Z.eqb negb].
    destruct (rebalanced left_balance i d l r' nd' A B (set_live (w_live w - 2) w))
      as (t' & Eb & Hh'' & Hks & Hth''); [by apply left_balance_ok|by rewrite <- !app_assoc in *|].
    rewrite (prog_bind_ok _ _ _ _ _ Eb). exists t', nd', fr.
    split_and!; try done. cbn [inorder]. rewrite Hks.
    apply (erased_inside _ _ _ _ _ (inorder l ++ [(i, d)]) []) in He. by rewrite !app_nil_r, <- !app_assoc in He.
Qed.


(** Erasing an iterator of the tree. *)
Lemma erase_nodes_ok desc elem key w :
  wf desc -> (elem, key) ∈ inorder (desc_root desc) -> blen (elems desc) < 2 ^ 32 ->
  exists desc' freed,
    qAVLTree__erase comp desc elem w = Ok ((0, desc'), set_live (w_live w - 2) w) /\ wf desc' /\
    erased (inorder (desc_root desc)) elem key freed (inorder (desc_root desc')) /\
    links (desc_nodes desc') !! freed = None.
Proof using Type*.
  intros [Hs Hd Ho Hh Ht] Hin Hsz. unfold qAVLTree__erase.
  pose proof Ht as (Hnd & _). pose proof (proj2 (node_data_spec _ _ Hnd key) Hin) as Hdata.
  assert (Hpos : 0 < blen (elems desc)).
  { unfold elems, keys. destruct (inorder (desc_root desc)); [set_solver|]. unfold blen. cbn. lia. }
  rewrite uwrap_small in Hs by lia. rewrite Hs.
  destruct (Z.eqb_spec (blen (elems desc)) 0); [lia|]. rewrite Hdata.
  destruct (recursive_delete_ok (desc_root desc) [] [] elem key (desc_nodes desc) w)
    as (t' & nd' & fr & E & Hh' & He & Hfr & Hth'); [done..|by rewrite app_nil_r|].
  rewrite app_nil_r in Hth'. rewrite (prog_bind_ok _ _ _ _ _ E). cbn [Z.eqb negb].
  eexists _, fr. split; [reflexivity|]. split; [|done].
  destruct (erased_keys _ _ _ _ _ He) as (l1 & l2 & E1 & E2).
  change ((inorder (desc_root desc)).*2) with (elems desc) in E1. change ((inorder t').*2) with (keys t') in E2.
  rewrite E1 in Hd, Ho, Hsz |- *.
  apply Wf; unfold elems; cbn [desc_size desc_root desc_nodes]; [| | |done|done]; rewrite E2.
  - f_equal. rewrite !blen_app, blen_cons. lia.
  - apply list.Forall_app in Hd as [? [_ ?]%Forall_cons_iff]. by apply list.Forall_app.
  - apply ordered_middle in Ho as (? & ? & _ & _ & ?). by apply ordered_app.
Qed.

(** As seen by who looks at the keys only. *)
Lemma erase_ok desc elem key w :
  wf desc -> (elem, key) ∈ inorder (desc_root desc) -> blen (elems desc) < 2 ^ 32 ->
  exists desc' l1 l2,
    qAVLTree__erase comp desc elem w = Ok ((0, desc'), set_live (w_live w - 2) w) /\ wf desc' /\
    elems desc = l1 ++ key :: l2 /\ elems desc' = l1 ++ l2.
Proof using Type*.
  intros Hwf Hin Hsz. destruct (erase_nodes_ok desc elem key w Hwf Hin Hsz) as (desc' & fr & E & Hwf' & He & _).
  destruct (erased_keys _ _ _ _ _ He) as (l1 & l2 & E1 & E2). by exists desc', l1, l2.
Qed.

(** The other iterators. *)
Lemma erased_others xs elem key freed ys i d :
  erased xs elem key freed ys -> i <> elem -> i <> freed -> (i, d) ∈ xs <-> (i, d) ∈ ys.
Proof using Type.
  clear Comparator0 comp dom. intros (pre & post & -> & H) He Hf.
  destruct H as [[-> ->]|[(k & post' & -> & ->)|(k & pre' & -> & ->)]]; set_solver.
Qed.


(** *** Iteration *)

(** The body run on each element of a list, until it stops. *)
Fixpoint each {S} (l : list (list byte)) (body : list byte -> S -> io (S * bool)) (s : S) : io S :=
  match l with
  | [] => mret s
  | x :: l' =>
      '(s', stop) ← body x s;
      if (stop : bool) then mret s' else each l' body s'
  end.

Lemma min_node_first t : min_node t = first_of (ids t) None.
Proof using Type*.
  induction t as [|i d h l IHl r IHr]; [done|]. rewrite ids_node, first_of_app. cbn [min_node].
  destruct l as [|li ld lh ll lr]; [done|]. rewrite IHl, ids_node. by destruct (ids ll).
Qed.

Lemma max_node_last t : max_node t = last_of None (ids t).
Proof using Type*.
  induction t as [|i d h l IHl r IHr]; [done|]. rewrite ids_node. cbn [max_node]. unfold last_of in *.
  rewrite last_app_cons. destruct r as [|ri rd rh rl rr]; [done|].
  rewrite IHr, last_cons. destruct (list.last (ids (Node ri rd rh rl rr))) eqn:E; [done|].
  apply last_None in E. rewrite ids_node in E. by destruct (ids rl).
Qed.

Lemma foreach_suffix {S} fuel desc (body : list byte -> S -> io (S * bool)) pre suf p s w :
  wf desc -> inorder (desc_root desc) = pre ++ suf -> (length suf < fuel)%nat ->
  chain (links (desc_nodes desc)) p suf.*1 None ->
  foreach fuel desc (first_of suf.*1 None) body s w = each suf.*2 body s w.
Proof using Type*.
  intros [_ _ _ _ (Hnd & _)] . revert fuel pre p s w.
  induction suf as [|[i d] suf IH]; intros fuel pre p s w Hin Hf Hch;
    (destruct fuel as [|fuel]; [lia|]); [done|].
  cbn [fmap list_fmap fst snd first_of foreach each chain] in *. destruct Hch as [El Hch].
  cbn [qAVLTreeIterator_isvalid].
  assert (Hd : qAVLTreeIterator_deref desc (Some i) = Some d).
  { unfold qAVLTreeIterator_deref. cbn. apply node_data_spec; [done|]. rewrite Hin. set_solver. }
  rewrite Hd. unfold mbind, prog_bind. destruct (body d s w) as [[[s' stop] w']| | | |]; try done.
  destruct stop; [done|]. unfold qAVLTreeIterator_next, lift_res. cbn. rewrite El. cbn [next].
  apply (IH fuel (pre ++ [(i, d)]) (Some i)); [by rewrite <- app_assoc|cbn in Hf; lia|done].
Qed.

(** A loop over a tree visits its keys in order, once each, and stops. *)
Lemma foreach_elems {S} desc (body : list byte -> S -> io (S * bool)) s w :
  wf desc ->
  foreach (Datatypes.S (length (elems desc))) desc (qAVLTree_begin desc) body s w =
    each (elems desc) body s w.
Proof using Type*.
  intros Hwf. unfold qAVLTree_begin. rewrite min_node_first. unfold elems, keys, ids.
  apply (foreach_suffix _ desc body [] (inorder (desc_root desc)) None);
    [done|done|rewrite length_fmap; lia|]. apply Hwf.
Qed.

Lemma each_collect acc l w :
  each l (fun x acc => mret (acc ++ [x], false)) acc w = Ok (acc ++ l, w).
Proof using Type*.
  revert acc. induction l as [|x l IH]; intros acc; [by rewrite app_nil_r|].
  etrans; [exact (IH (acc ++ [x]))|]. by rewrite <- app_assoc.
Qed.

(** C32. Iteration.  From [qAVLTree_begin], [qAVLTreeIterator_next] goes through all
    the keys of the tree, in increasing order, and then becomes invalid; from
    [qAVLTree_end], [qAVLTreeIterator_prev] finds the node before the last. *)
Theorem iteration_spec desc w :
  wf desc ->
  foreach (S (length (elems desc))) desc (qAVLTree_begin desc)
    (fun x acc => mret (acc ++ [x], false)) [] w = Ok (elems desc, w) /\
  ordered (elems desc) /\
  forall pre a b, ids (desc_root desc) = pre ++ [a; b] ->
    qAVLTree_end desc = Some b /\ qAVLTreeIterator_prev desc (Some b) = Ok (Some a).
Proof using Type*.
  intros Hwf. split; [|split].
  - rewrite foreach_elems by done. apply (each_collect []).
  - apply Hwf.
  - intros pre a b E. pose proof (wf_thread _ Hwf) as (_ & _ & Hch). rewrite E in Hch. split.
    + unfold qAVLTree_end. rewrite max_node_last, E. unfold last_of. rewrite last_app. done.
    + apply chain_app in Hch as [_ (_ & Hb & _)]. unfold qAVLTreeIterator_prev. cbn. by rewrite Hb.
Qed.

Lemma destroy_loop_ok fuel m p xs w :
  NoDup xs -> (length xs < fuel)%nat -> chain m p xs None ->
  exists m', destroy_loop fuel (first_of xs None) m w =
      Ok (m', set_live (w_live w - 2 * Z.of_nat (length xs)) w) /\
    forall i, m' !! i = if decide (i ∈ xs) then None else m !! i.
Proof using Type.
  clear Comparator0 comp dom. revert fuel m p w. induction xs as [|i xs IH]; intros fuel m p w Hnd Hf Hch;
    (destruct fuel as [|fuel]; [cbn in Hf; lia|]); cbn [first_of destroy_loop].
  { exists m. split; [by rewrite Z.sub_0_r|]. intros i. by rewrite decide_False by set_solver. }
  destruct Hch as [El Hch]. rewrite El. cbn [next]. apply list.NoDup_cons in Hnd as [Hi Hnd].
  rewrite (prog_bind_ok _ _ _ _ _ eq_refl). rewrite (prog_bind_ok _ _ _ _ _ eq_refl).
  destruct (IH fuel (delete i m) (Some i) (set_live (w_live w - 1 - 1) w))
    as (m' & E & Hm'); [done|cbn in Hf; lia|by apply chain_delete|].
  exists m'. split.
  - etrans; [exact E|]. do 2 f_equal.
    change (set_live (w_live w - 1 - 1 - 2 * Z.of_nat (length xs)) w =
      set_live (w_live w - 2 * Z.of_nat (S (length xs))) w). f_equal. lia.
  - intros j. rewrite Hm'. destruct (decide (j ∈ xs)).
    + by rewrite decide_True by set_solver.
    + destruct (decide (j = i)) as [->|].
      * rewrite decide_True by set_solver. by rewrite lookup_delete_eq.
      * rewrite decide_False by set_solver. by rewrite lookup_delete_ne.
Qed.

(** Destruction.  The destructor stops, frees the two blocks of every node of
    the tree, each node once, and leaves an empty descriptor. *)
Theorem destructor_spec desc w :
  wf desc -> exists desc',
    qAVLTree__destructor desc w = Ok (desc', set_live (w_live w - 2 * blen (elems desc)) w) /\
    desc_size desc' = 0 /\ desc_root desc' = NULL /\
    forall i, i ∈ ids (desc_root desc) -> links (desc_nodes desc') !! i = None.
Proof using Type*.
  intros [_ _ _ _ (Hnd & _ & Hch)]. unfold qAVLTree__destructor. rewrite min_node_first.
  assert (Hlen : (length (ids (desc_root desc)) <= size (links (desc_nodes desc)))%nat).
  { rewrite <- (size_list_to_set (C:=gset positive)), <- (size_dom (D:=gset positive)) by done.
    apply subseteq_size. intros i Hi%elem_of_list_to_set.
    apply list_elem_of_split in Hi as (l1 & l2 & E). rewrite E in Hch.
    apply elem_of_dom. eexists. by eapply chain_lookup. }
  destruct (destroy_loop_ok (S (size (links (desc_nodes desc)))) (links (desc_nodes desc)) None
    (ids (desc_root desc)) w Hnd ltac:(lia) Hch) as (m' & E & Hm').
  rewrite (prog_bind_ok _ _ _ _ _ E). eexists. split.
  { unfold mret, prog_ret, elems, keys, ids, blen. rewrite !length_fmap. reflexivity. }
  cbn. split_and!; try done. intros i Hi. by rewrite Hm', decide_True.
Qed.

End order.

(** ** What does not hold *)

(** The keys inserted one after the other in an empty set of C strings. *)
Fixpoint build (ks : list (list byte)) (desc : qAVLTreeDescriptor) : io qAVLTreeDescriptor :=
  match ks with
  | [] => mret desc
  | k :: ks' => '(_, desc) ← qAVLTree__insert string_comparator desc k; build ks' desc
  end.

(** The tree is not balanced: [left_balance] decides between the two rotations
    by the balance of [root->lchild->rchild] instead of that of
    [root->lchild].  Inserting the six keys "5", "2", "6", "1", "3", "25" takes a
    single right rotation where a double one is due and leaves a right subtree
    two levels higher than the left one. *)
Theorem insert_unbalances :
  exists desc w,
    build [[Byte.x35]; [Byte.x32]; [Byte.x36]; [Byte.x31]; [Byte.x33]; [Byte.x32; Byte.x35]]
      qAVLTree_constructor (start []) = Ok (desc, w) /\
    get_blfactor (desc_root desc) = 2.
Proof. eexists _, _. split; [vm_compute; reflexivity|reflexivity]. Qed.

(** A failed allocation loses keys: [recursive_insert] returns without setting
    [*newrootptr], and its caller stores the NULL it finds there in
    [root->lchild].  With "2", "5" and "6" in the tree, an insertion of "1" that
    cannot allocate its node returns -1 and leaves a tree without "2", of size
    3. *)
Theorem insert_alloc_failure_loses :
  exists desc w desc' w',
    build [[Byte.x35]; [Byte.x32]; [Byte.x36]] qAVLTree_constructor (start []) = Ok (desc, w) /\
    elems desc = [[Byte.x32]; [Byte.x35]; [Byte.x36]] /\
    qAVLTree__insert string_comparator desc [Byte.x31] (set_alloc [false] w) = Ok ((-1, desc'), w') /\
    elems desc' = [[Byte.x35]; [Byte.x36]] /\ desc_size desc' = 3.
Proof.
  eexists _, _, _, _. split; [vm_compute; reflexivity|]. split; [vm_compute; reflexivity|].
  split; [vm_compute; reflexivity|]. split; reflexivity.
Qed.

(** ** Witnesses *)

(** A set with the single key "b". *)
Definition desc_ex : qAVLTreeDescriptor :=
  Desc 1 (leaf 1 [Byte.x62]) (Nodes (<[1%positive := Link None None]> ∅) 2).

Lemma desc_ex_wf : wf (dom := int_string) (comp := string_comparator) desc_ex.
Proof. apply wf_leaf. reflexivity. Qed.

Lemma insert_spec_witness :
  exists desc' w', qAVLTree__insert string_comparator desc_ex [Byte.x61] (start []) = Ok ((0, desc'), w') /\
    wf (dom := int_string) (comp := string_comparator) desc' /\
    has (comp := string_comparator) desc' [Byte.x61].
Proof.
  destruct (insert_spec (dom := int_string) (comp := string_comparator) desc_ex [Byte.x61] (start [])
    desc_ex_wf eq_refl eq_refl) as (r & desc' & w' & E & Hwf & Hk & [(-> & Hex & _)|(-> & _)]).
  - exfalso. inversion Hex as [? ? H|? ? H]; [discriminate H|inversion H].
  - exists desc', w'. split; [exact E|]. split; [exact Hwf|].
    apply (Hk [Byte.x61] eq_refl). right. reflexivity.
Defined.

Lemma ptr_at_spec_witness :
  exists i k, qAVLTree__ptr_at string_comparator desc_ex [Byte.x62] = (0, Some i) /\
    (i, k) ∈ inorder (desc_root desc_ex).
Proof.
  destruct (ptr_at_spec (dom := int_string) (comp := string_comparator) desc_ex [Byte.x62]
    desc_ex_wf eq_refl) as [(i & k & E & Hin & _)|[E _]]; [|discriminate E].
  exists i, k. split; [exact E|exact Hin].
Defined.

(** Two keys: erasing the first node frees the other one, whose key moves. *)
Definition two_keys : qAVLTreeDescriptor :=
  Desc 2 (Node 1 [Byte.x62] 2 (leaf 2 [Byte.x61]) NULL)
    (Nodes (<[1%positive := Link (Some 2%positive) None]> (<[2%positive := Link None (Some 1%positive)]> ∅)) 3).

Lemma two_keys_wf : wf (dom := int_string) (comp := string_comparator) two_keys.
Proof.
  split; try done; cbn.
  - by repeat constructor.
  - by repeat constructor.
  - split_and!; [|by repeat constructor|done].
    apply list.NoDup_cons. split; [intros [[=]|[]%not_elem_of_nil]%elem_of_cons|apply list.NoDup_singleton].
Qed.


(** What is left: node 1, with the key of node 2. *)
Example erase_moves :
  match qAVLTree__erase string_comparator two_keys 1 (start []) with
  | Ok ((_, desc'), _) => (inorder (desc_root desc'), links (desc_nodes desc') !! 2%positive)
  | _ => ([], None)
  end = ([(1%positive, [Byte.x61])], None).
Proof. vm_compute. reflexivity. Qed.

Lemma iteration_spec_witness :
  foreach 2 desc_ex (qAVLTree_begin desc_ex) (fun x acc => mret (acc ++ [x], false)) [] (start []) =
    Ok ([[Byte.x62]], start []).
Proof.
  exact (proj1 (iteration_spec (dom := int_string) (comp := string_comparator) desc_ex (start []) desc_ex_wf)).
Defined.

Lemma destructor_spec_witness :
  exists desc', qAVLTree__destructor desc_ex (start []) = Ok (desc', set_live (-2) (start [])) /\
    desc_root desc' = NULL.
Proof.
  destruct (destructor_spec (dom := int_string) (comp := string_comparator) desc_ex (start []) desc_ex_wf)
    as (desc' & E & _ & Hr & _).
  exists desc'. split; [exact E|exact Hr].
Defined.
