(* ===== verification/AVLTreeSpec.v ===== *)
(** * What the search tree implements

    The abstract state of a tree is its increasing list of keys; a client's calls
    are insertions, searches, and erasures of a key that has been searched.  The
    refinement theorem relates any sequence of calls on the tree of AVLTree.v to
    the same sequence on the list. *)

From S2P Require Import Prelude World Utils Chain Ordered AVLTree AVLTreeFacts.
Local Open Scope Z_scope.

(** ** Calls *)

Inductive tree_call : Type :=
| TInsert (k : list byte)
| TFind (k : list byte)
| TErase (k : list byte).

Definition call_key (c : tree_call) : list byte :=
  match c with TInsert k | TFind k | TErase k => k end.

Section calls.
Context (comp : Cmp).

(** A call on the tree and what it returns.  A key is erased through the iterator
    a search has set; without one nothing is erased. *)
Definition tree_step (c : tree_call) (desc : qAVLTreeDescriptor) : io (Z * qAVLTreeDescriptor) :=
  match c with
  | TInsert k => qAVLTree__insert comp desc k
  | TFind k => mret ((qAVLTree__ptr_at comp desc k).1, desc)
  | TErase k =>
      match qAVLTree__ptr_at comp desc k with
      | (0, Some i) => qAVLTree__erase comp desc i
      | (r, _) => mret (r, desc)
      end
  end.

Fixpoint tree_run (cs : list tree_call) (desc : qAVLTreeDescriptor)
  : io (list Z * qAVLTreeDescriptor) :=
  match cs with
  | [] => mret ([], desc)
  | c :: cs' =>
      '(r, desc) ← tree_step c desc;
      '(rs, desc) ← tree_run cs' desc;
      mret (r :: rs, desc)
  end.

(** The list has a key that compares equal to [k]. *)
Definition mem (k : list byte) (l : list (list byte)) : bool :=
  existsb (fun x => ccmp comp k x =? 0) l.

(** [k] before the first larger key. *)
Fixpoint place (k : list byte) (l : list (list byte)) : list (list byte) :=
  match l with
  | [] => [k]
  | x :: l' => if ccmp comp k x <? 0 then k :: l else x :: place k l'
  end.

Definition remove (k : list byte) (l : list (list byte)) : list (list byte) :=
  List.filter (fun x => negb (ccmp comp k x =? 0)) l.

(** The same call on the list of keys. *)
Definition spec_step (c : tree_call) (l : list (list byte)) : Z * list (list byte) :=
  match c with
  | TInsert k => if mem k l then (-1, l) else (0, place k l)
  | TFind k => (if mem k l then 0 else -1, l)
  | TErase k => if mem k l then (0, remove k l) else (-1, l)
  end.

Fixpoint spec_run (cs : list tree_call) (l : list (list byte)) : list Z * list (list byte) :=
  match cs with
  | [] => ([], l)
  | c :: cs' =>
      let '(r, l1) := spec_step c l in
      let '(rs, l2) := spec_run cs' l1 in
      (r :: rs, l2)
  end.

End calls.

(** ** Refinement *)

Section refinement.
Context {dom : list byte -> Prop} {comp : Cmp} `{!Comparator dom comp}.

Abbreviation ordered := (Ordered.ordered (comp := comp)).
Abbreviation wf := (AVLTreeFacts.wf (dom := dom) (comp := comp)).

Lemma mem_spec k l : if mem comp k l then Exists (fun x => ccmp comp k x = 0) l
  else Forall (fun x => ccmp comp k x <> 0) l.
Proof using Type.
  unfold mem. induction l as [|x l IH]; cbn; [done|].
  destruct (Z.eqb_spec (ccmp comp k x) 0); cbn; [by left|].
  destruct (existsb _ l); [by right|by constructor].
Qed.

Lemma mem_true k l : Exists (fun x => ccmp comp k x = 0) l -> mem comp k l = true.
Proof using Type.
  intros (x & Hx & E)%list.Exists_exists. pose proof (mem_spec k l) as H. destruct (mem comp k l); [done|].
  by eapply list.Forall_forall in H; [|exact Hx].
Qed.

Lemma mem_false k l : Forall (fun x => ccmp comp k x <> 0) l -> mem comp k l = false.
Proof using Type.
  intros H. pose proof (mem_spec k l) as Hs. destruct (mem comp k l); [|done].
  apply list.Exists_exists in Hs as (x & Hx & E).
  by eapply list.Forall_forall in H; [|exact Hx].
Qed.

(** A key that has a place has this one. *)
Lemma place_spec k l1 l2 :
  dom k -> Forall dom (l1 ++ l2) -> ordered (l1 ++ k :: l2) -> place comp k (l1 ++ l2) = l1 ++ k :: l2.
Proof using Type*.
  intros Hk. induction l1 as [|x l1 IH]; cbn [app place].
  - destruct l2 as [|y l2]; [done|]. intros _ [Hlt _]. apply Forall_cons_iff in Hlt as [Hlt _].
    cbn [place]. by rewrite (proj2 (Z.ltb_lt _ _) Hlt).
  - intros [Hx Hd]%Forall_cons_iff [Hlt Ho].
    assert (Hxk : ccmp comp x k < 0) by (eapply list.Forall_forall in Hlt; [exact Hlt|set_solver]).
    apply (ccmp_swap x k Hx Hk) in Hxk. rewrite (proj2 (Z.ltb_ge _ _)) by lia.
    f_equal. by apply IH.
Qed.

Lemma keeps k l : Forall (fun x => ccmp comp k x <> 0) l -> remove comp k l = l.
Proof using Type.
  induction 1 as [|x l Hx _ IH]; [done|]. unfold remove in *. cbn.
  rewrite (proj2 (Z.eqb_neq _ _) Hx). cbn. by rewrite IH.
Qed.

(** Keys that are not equal are told apart by a key equal to one of them. *)
Lemma apart k key x :
  dom k -> dom key -> dom x -> ccmp comp k key = 0 ->
  ccmp comp x key < 0 \/ ccmp comp key x < 0 -> ccmp comp k x <> 0.
Proof using Type*.
  intros Hk Hy Hx E Hlt Ex. apply ccmp_eq_sym in E; [|done..].
  pose proof (ccmp_eq_trans key k x Hy Hk Hx E Ex) as Eyx.
  pose proof (ccmp_eq_sym key x Hy Hx Eyx). lia.
Qed.

Lemma remove_spec k key l1 l2 :
  dom k -> Forall dom (l1 ++ key :: l2) -> ordered (l1 ++ key :: l2) -> ccmp comp k key = 0 ->
  remove comp k (l1 ++ key :: l2) = l1 ++ l2.
Proof using Type*.
  intros Hk [Hd1 [Hy Hd2]%Forall_cons_iff]%list.Forall_app (_ & _ & H1 & H2 & _)%ordered_middle E.
  unfold remove. rewrite List.filter_app. cbn [List.filter]. rewrite E. cbn [Z.eqb negb].
  f_equal; apply keeps; apply list.Forall_forall; intros x Hx; apply (apart k key); try done.
  - by eapply list.Forall_forall in Hd1.
  - left. by eapply list.Forall_forall in H1.
  - by eapply list.Forall_forall in Hd2.
  - right. by eapply list.Forall_forall in H2.
Qed.

(** One call. *)
Lemma tree_step_refines c desc w :
  wf desc -> dom (call_key c) -> mem_ok w -> blen (elems desc) < 2 ^ 32 ->
  exists desc', wf desc' /\
    tree_step comp c desc w = Ok (((spec_step comp c (elems desc)).1, desc'),
      set_live (w_live w + 2 * (blen (elems desc') - blen (elems desc))) w) /\
    elems desc' = (spec_step comp c (elems desc)).2.
Proof using Type*.
  intros Hwf Hk Hm Hsz.
  assert (Hsame : set_live (w_live w + 2 * (blen (elems desc) - blen (elems desc))) w = w)
    by (apply set_live_id; lia).
  destruct c as [k|k|k]; cbn [call_key tree_step spec_step] in *.
  - destruct (insert_ok desc k w Hwf Hk Hm) as [[Hex E]|(desc' & l1 & l2 & E & Hwf' & E1 & E2)].
    { exists desc. rewrite (mem_true _ _ Hex), Hsame. done. }
    exists desc'. split; [done|].
    pose proof (wf_ordered _ Hwf') as Ho. pose proof (wf_dom _ Hwf) as Hd.
    rewrite E2 in Ho. rewrite E1 in Hd |- *. rewrite E2. pose proof Ho as (_ & _ & H1 & H2 & _)%ordered_middle.
    pose proof Hd as [Hd1 Hd2]%list.Forall_app.
    rewrite mem_false.
    + rewrite place_spec by done. split; [|done]. rewrite E. do 3 f_equal.
      rewrite !blen_app, blen_cons. lia.
    + apply list.Forall_app. split; apply list.Forall_forall; intros x Hx;
        apply (apart k k); try done; try by apply ccmp_refl.
      * by eapply list.Forall_forall in Hd1.
      * left. by eapply list.Forall_forall in H1.
      * by eapply list.Forall_forall in Hd2.
      * right. by eapply list.Forall_forall in H2.
  - exists desc. split; [done|]. rewrite Hsame. split; [|done].
    destruct (ptr_at_spec desc k Hwf Hk) as [(i & x & -> & Hin & E)|[-> Hall]].
    + rewrite mem_true; [done|]. apply list.Exists_exists. exists x. split; [|done].
      by apply (list_elem_of_fmap_2 snd) in Hin.
    + by rewrite mem_false.
  - destruct (ptr_at_spec desc k Hwf Hk) as [(i & x & -> & Hin & E)|[-> Hall]].
    + destruct (erase_ok desc i x w Hwf Hin Hsz) as (desc' & l1 & l2 & Er & Hwf' & E1 & E2).
      pose proof (wf_ordered _ Hwf) as Ho. pose proof (wf_dom _ Hwf) as Hd.
      exists desc'. split; [done|]. rewrite E1 in Ho, Hd |- *. rewrite E2.
      rewrite mem_true by (apply Exists_app; right; by left). rewrite remove_spec by done.
      split; [|done]. rewrite Er. do 3 f_equal. rewrite !blen_app, blen_cons. lia.
    + exists desc. rewrite mem_false, Hsame by done. done.
Qed.

Lemma spec_step_size c l : blen (spec_step comp c l).2 <= blen l + 1.
Proof using Type.
  destruct c as [k|k|k]; cbn; destruct (mem comp k l); cbn; try lia.
  - induction l as [|x l IH]; cbn; [done|]. destruct (_ <? 0); rewrite !blen_cons in *; lia.
  - pose proof (List.filter_length_le (fun x => negb (ccmp comp k x =? 0)) l).
    unfold remove, blen. lia.
Qed.

(** C16. The tree implements an ordered set.  Any sequence of insertions, searches
    and erasures (of fewer than 2^32 keys in all) stops, with the results and the
    keys of the same sequence on a sorted list; the invariant of the tree holds
    all along, no NULL pointer is followed, and exactly two heap blocks are held
    for each key, so what is erased is freed. *)
Theorem tree_refines cs desc w :
  wf desc -> Forall (fun c => dom (call_key c)) cs -> mem_ok w ->
  blen (elems desc) + blen cs <= 2 ^ 32 ->
  exists desc', wf desc' /\
    tree_run comp cs desc w = Ok (((spec_run comp cs (elems desc)).1, desc'),
      set_live (w_live w + 2 * (blen (elems desc') - blen (elems desc))) w) /\
    elems desc' = (spec_run comp cs (elems desc)).2.
Proof using Type*.
  intros Hwf Hcs. revert desc w Hwf. induction Hcs as [|c cs Hc Hcs IH]; intros desc w Hwf Hm Hsz.
  { exists desc. cbn. rewrite set_live_id by lia. done. }
  rewrite blen_cons in Hsz. pose proof (blen_nonneg cs). cbn [tree_run spec_run].
  destruct (tree_step_refines c desc w Hwf Hc Hm ltac:(lia)) as (d1 & Hwf1 & E1 & El1).
  rewrite (prog_bind_ok _ _ _ _ _ E1). pose proof (spec_step_size c (elems desc)) as Hst.
  destruct (spec_step comp c (elems desc)) as [r l1]. cbn [fst snd] in *. subst l1.
  destruct (IH d1 (set_live (w_live w + 2 * (blen (elems d1) - blen (elems desc))) w))
    as (d2 & Hwf2 & E2 & El2); [done|done|lia|].
  rewrite (prog_bind_ok _ _ _ _ _ E2). destruct (spec_run comp cs (elems d1)) as [rs l2].
  exists d2. cbn [fst snd] in *. split_and!; [done| |done]. unfold mret, prog_ret. do 2 f_equal.
  change (set_live (w_live w + 2 * (blen (elems d1) - blen (elems desc)) + 2 * (blen (elems d2) - blen (elems d1))) w
    = set_live (w_live w + 2 * (blen (elems d2) - blen (elems desc))) w). f_equal. lia.
Qed.

End refinement.

(** ** Witness *)

Lemma tree_refines_witness :
  exists desc', tree_run string_comparator
      [TInsert [Byte.x61]; TErase [Byte.x62]; TErase [Byte.x62]; TFind [Byte.x61]] desc_ex (start []) =
      Ok (([0; 0; -1; 0], desc'), start []) /\ elems desc' = [[Byte.x61]].
Proof.
  destruct (tree_refines (dom := int_string) (comp := string_comparator)
    [TInsert [Byte.x61]; TErase [Byte.x62]; TErase [Byte.x62]; TFind [Byte.x61]] desc_ex (start []))
    as (desc' & _ & E & El); [exact desc_ex_wf|repeat constructor|reflexivity|discriminate|].
  exists desc'. rewrite El in E. split; [exact E|exact El].
Defined.
