(* ===== verification/QSet.v ===== *)
(** * Sets (zhwkre/set.h, zhwkre/containers/set.c)

    A set is a search tree; the operations of this file are the set algebra on
    top of it.  The loops over a set take as fuel one more than the number of its
    elements, which [foreach_elems] shows to be enough. *)

From S2P Require Import Prelude World Utils Chain Ordered AVLTree AVLTreeFacts.
Local Open Scope Z_scope.

(** ** Definitions *)

Abbreviation qSetDescriptor := qAVLTreeDescriptor.

Definition qSet_constructor : qSetDescriptor := qAVLTree_constructor.
Definition qSet__ptr_at (comp : Cmp) (desc : qSetDescriptor) (elem : list byte)
  : Z * option positive := qAVLTree__ptr_at comp desc elem.
Definition qSet__insert (comp : Cmp) (desc : qSetDescriptor) (elem : list byte)
  : io (Z * qSetDescriptor) := qAVLTree__insert comp desc elem.
Definition qSet__erase (comp : Cmp) (desc : qSetDescriptor) (elem : positive)
  : io (Z * qSetDescriptor) := qAVLTree__erase comp desc elem.
Definition qSet__destructor (desc : qSetDescriptor) : io qSetDescriptor :=
  qAVLTree__destructor desc.
Definition qSet_begin (desc : qSetDescriptor) : option positive := qAVLTree_begin desc.
Definition qSet_end (desc : qSetDescriptor) : option positive := qAVLTree_end desc.
Definition qSetIterator_isvalid (iter : option positive) : bool := qAVLTreeIterator_isvalid iter.
Definition qSetIterator_deref (desc : qSetDescriptor) (iter : option positive) : option (list byte) :=
  qAVLTreeIterator_deref desc iter.
Definition qSetIterator_prev (desc : qSetDescriptor) (iter : option positive) :=
  qAVLTreeIterator_prev desc iter.
Definition qSetIterator_next (desc : qSetDescriptor) (iter : option positive) :=
  qAVLTreeIterator_next desc iter.

(** The loops of this file: over all the elements of [seta]. *)
Definition set_foreach {S} (seta : qSetDescriptor) (body : list byte -> S -> io (S * bool)) (s : S)
  : io S := foreach (Datatypes.S (length (elems seta))) seta (qSet_begin seta) body s.

Section algebra.
Context (comp : Cmp).

(** Insert and go on, whatever the result. *)
Definition add (x : list byte) (desc : qSetDescriptor) : io (qSetDescriptor * bool) :=
  '(_, desc') ← qSet__insert comp desc x;
  mret (desc', false).

Definition qSet_union (seta setb : qSetDescriptor) : io qSetDescriptor :=
  desc ← set_foreach seta add qSet_constructor;
  set_foreach setb add desc.

Definition qSet_intersect (seta setb : qSetDescriptor) : io qSetDescriptor :=
  set_foreach seta (fun x desc =>
    if (qSet__ptr_at comp setb x).1 =? 0 then add x desc else mret (desc, false))
    qSet_constructor.

Definition qSet_difference (seta setb : qSetDescriptor) : io qSetDescriptor :=
  set_foreach seta (fun x desc =>
    if negb ((qSet__ptr_at comp setb x).1 =? 0) then add x desc else mret (desc, false))
    qSet_constructor.

(** The loop leaves with 0 at the first element that is not in [setb]. *)
Definition qSet_issubset (seta setb : qSetDescriptor) : io Z :=
  set_foreach seta (fun x _ =>
    if negb ((qSet__ptr_at comp setb x).1 =? 0) then mret (0, true) else mret (1, false)) 1.

Definition qSet_isequal (seta setb : qSetDescriptor) : io Z :=
  if negb (desc_size seta =? desc_size setb) then mret 0 else
  set_foreach seta (fun x _ =>
    if negb ((qSet__ptr_at comp setb x).1 =? 0) then mret (0, true) else mret (1, false)) 1.

End algebra.

(** ** Membership *)

Section sets.
Context {dom : list byte -> Prop} {comp : Cmp} `{!Comparator dom comp}.

Lemma ptr_at_has desc k : wf (dom := dom) (comp := comp) desc -> dom k ->
  (qSet__ptr_at comp desc k).1 = 0 <-> has (comp := comp) desc k.
Proof using Type*.
  intros [_ Hd Ho _ _] Hk. unfold qSet__ptr_at, qAVLTree__ptr_at, has, elems in *.
  pose proof (search_spec (desc_root desc) k Hk Hd Ho) as H.
  destruct (desc_root desc) as [|i d h l r]; [by split; [|intros ?%Exists_nil]|].
  set (t := Node i d h l r) in *. destruct (search comp t k) as [j|]; cbn [fst].
  - split; [intros _|done]. destruct H as (x & Hx & E). apply list.Exists_exists. exists x.
    split; [|done]. by apply (list_elem_of_fmap_2 snd) in Hx.
  - split; [done|]. intros Hex. by apply Exists_Forall_neg in Hex || (apply list.Exists_exists in Hex as (x & Hx & E);
      eapply list.Forall_forall in H; [|exact Hx]; done).
Qed.

Abbreviation wfset := (wf (dom := dom) (comp := comp)).
Abbreviation has := (has (comp := comp)).

(** A body that adds the elements that satisfy [P]. *)
Definition adds (P : list byte -> Prop) (body : list byte -> qSetDescriptor -> io (qSetDescriptor * bool))
  : Prop := forall x desc w, dom x -> wfset desc -> mem_ok w ->
    exists desc' n, body x desc w = Ok ((desc', false), set_live n w) /\ wfset desc' /\
      forall k, dom k -> has desc' k <-> has desc k \/ (P x /\ ccmp comp k x = 0).

Lemma add_adds : adds (fun _ => True) (add comp).
Proof using Type*.
  intros x desc w Hx Hwf Hm. unfold add, qSet__insert.
  destruct (insert_ok desc x w Hwf Hx Hm) as [[Hex E]|(desc' & l1 & l2 & E & Hwf' & E1 & E2)];
    rewrite (prog_bind_ok _ _ _ _ _ E).
  - exists desc, (w_live w). rewrite set_live_id by done. split; [done|]. split; [done|].
    intros k Hk. split; [by left|]. intros [H|[_ H]]; [done|]. by apply (has_eq desc k x).
  - exists desc', (w_live w + 2). split; [done|]. split; [done|]. intros k Hk.
    unfold AVLTreeFacts.has. rewrite E1, E2, !Exists_app, Exists_cons. tauto.
Qed.

Lemma skip_adds : adds (fun _ => False) (fun _ desc => mret (desc, false)).
Proof using Type*.
  intros x desc w Hx Hwf Hm. exists desc, (w_live w). rewrite set_live_id by done.
  split; [done|]. split; [done|]. tauto.
Qed.

Lemma filter_adds (f : list byte -> bool) :
  adds (fun x => f x = true) (fun x desc => if f x then add comp x desc else mret (desc, false)).
Proof using Type*.
  intros x desc w Hx Hwf Hm. destruct (f x) eqn:E.
  - destruct (add_adds x desc w Hx Hwf Hm) as (desc' & n & Ea & Hwf' & H).
    exists desc', n. split; [done|]. split; [done|]. intros k Hk. rewrite H by done. intuition.
  - destruct (skip_adds x desc w Hx Hwf Hm) as (desc' & n & Ea & Hwf' & H).
    exists desc', n. split; [done|]. split; [done|]. intros k Hk. rewrite H by done. intuition congruence.
Qed.

Lemma each_adds P body l desc w :
  adds P body -> Forall dom l -> wfset desc -> mem_ok w ->
  exists desc' n, each l body desc w = Ok (desc', set_live n w) /\ wfset desc' /\
    forall k, dom k -> has desc' k <-> has desc k \/ Exists (fun x => P x /\ ccmp comp k x = 0) l.
Proof using Type*.
  intros Hb. revert desc w. induction l as [|x l IH]; intros desc w Hl Hwf Hm; cbn [each].
  { exists desc, (w_live w). rewrite set_live_id by done. split; [done|]. split; [done|].
    intros k _. rewrite Exists_nil. tauto. }
  apply Forall_cons_iff in Hl as [Hx Hl].
  destruct (Hb x desc w Hx Hwf Hm) as (d1 & n1 & E1 & Hwf1 & H1).
  rewrite (prog_bind_ok _ _ _ _ _ E1).
  destruct (IH d1 (set_live n1 w) Hl Hwf1 Hm) as (d2 & n2 & E2 & Hwf2 & H2).
  exists d2, n2. split; [exact E2|]. split; [done|]. intros k Hk.
  rewrite H2, H1, Exists_cons by done. tauto.
Qed.

Lemma set_foreach_elems {S} seta (body : list byte -> S -> io (S * bool)) s w :
  wfset seta -> set_foreach seta body s w = each (elems seta) body s w.
Proof using Type*. apply foreach_elems. Qed.

Lemma wf_empty : wfset qSet_constructor.
Proof using Type*. apply Wf; [reflexivity|constructor|exact I|exact I|split_and!; [constructor|constructor|exact I]]. Qed.

Lemma has_empty k : ~ has qSet_constructor k.
Proof using Type*. by intros ?%Exists_nil. Qed.

(** The two tests on the second set are [has]. *)
Lemma test_in desc x : wfset desc -> dom x ->
  ((qSet__ptr_at comp desc x).1 =? 0) = true <-> has desc x.
Proof using Type*. intros Hwf Hx. rewrite Z.eqb_eq. by apply ptr_at_has. Qed.

Lemma test_notin desc x : wfset desc -> dom x ->
  negb ((qSet__ptr_at comp desc x).1 =? 0) = true <-> ~ has desc x.
Proof using Type*.
  intros Hwf Hx. rewrite <- (test_in desc x Hwf Hx). by destruct (_ =? 0).
Qed.

(** Being equal to an element of [seta] that satisfies a property of sets. *)
Lemma exists_filtered seta setb k (f : list byte -> bool) (Q : Prop -> Prop) :
  wfset seta -> wfset setb -> dom k ->
  (forall x, dom x -> f x = true <-> Q (has setb x)) -> (forall P P', P <-> P' -> Q P <-> Q P') ->
  Exists (fun x => f x = true /\ ccmp comp k x = 0) (elems seta) <-> has seta k /\ Q (has setb k).
Proof using Type*.
  intros Ha Hb Hk Hf HQ. unfold AVLTreeFacts.has at 1. rewrite !list.Exists_exists.
  pose proof (wf_dom _ Ha) as Hd.
  assert (Heq : forall x, dom x -> ccmp comp k x = 0 -> has setb x <-> has setb k).
  { intros x Hx E. split; intros H; [by apply (has_eq setb k x)|].
    apply (has_eq setb x k); [done..| |done]. by apply ccmp_eq_sym. }
  split.
  - intros (x & Hx & Hfx & E). eapply list.Forall_forall in Hd; [|exact Hx].
    split; [by exists x|]. apply Hf in Hfx; [|done]. by apply (HQ _ _ (Heq x Hd E)).
  - intros [(x & Hx & E) HQk]. eapply list.Forall_forall in Hd; [|exact Hx].
    exists x. split; [done|]. split; [|done]. apply Hf; [done|]. by apply (HQ _ _ (Heq x Hd E)).
Qed.

Lemma exists_all (Q : list byte -> Prop) l : Exists (fun x => True /\ Q x) l <-> Exists Q l.
Proof using Type. clear. rewrite !list.Exists_exists. firstorder. Qed.

(** C31. Set algebra.  [qSet_union], [qSet_intersect] and [qSet_difference] build a new
    well-formed set whose members are those of one set or the other, of both, of
    the first and not of the second, and leave the two sets alone. *)
Theorem set_algebra seta setb w :
  wfset seta -> wfset setb -> mem_ok w ->
  (exists desc n, qSet_union comp seta setb w = Ok (desc, set_live n w) /\ wfset desc /\
     forall k, dom k -> has desc k <-> has seta k \/ has setb k) /\
  (exists desc n, qSet_intersect comp seta setb w = Ok (desc, set_live n w) /\ wfset desc /\
     forall k, dom k -> has desc k <-> has seta k /\ has setb k) /\
  (exists desc n, qSet_difference comp seta setb w = Ok (desc, set_live n w) /\ wfset desc /\
     forall k, dom k -> has desc k <-> has seta k /\ ~ has setb k).
Proof using Type*.
  intros Ha Hb Hm. pose proof (wf_dom _ Ha) as Hda. pose proof (wf_dom _ Hb) as Hdb. split_and!.
  - destruct (each_adds _ _ (elems seta) qSet_constructor w add_adds Hda wf_empty Hm)
      as (d1 & n1 & E1 & Hwf1 & H1).
    destruct (each_adds _ _ (elems setb) d1 (set_live n1 w) add_adds Hdb Hwf1 Hm)
      as (d2 & n2 & E2 & Hwf2 & H2).
    exists d2, n2. unfold qSet_union. rewrite <- set_foreach_elems in E1, E2 by done.
    rewrite (prog_bind_ok _ _ _ _ _ E1). split; [exact E2|]. split; [done|]. intros k Hk.
    rewrite H2, H1, !exists_all by done. pose proof (has_empty k). unfold AVLTreeFacts.has in *. tauto.
  - destruct (each_adds _ _ (elems seta) qSet_constructor w
      (filter_adds (fun x => (qSet__ptr_at comp setb x).1 =? 0)) Hda wf_empty Hm)
      as (d1 & n1 & E1 & Hwf1 & H1).
    exists d1, n1. unfold qSet_intersect. rewrite set_foreach_elems by done.
    split; [exact E1|]. split; [done|]. intros k Hk. rewrite H1 by done.
    rewrite (exists_filtered seta setb k _ (fun P => P)) by (done || by intros; apply test_in).
    pose proof (has_empty k). tauto.
  - destruct (each_adds _ _ (elems seta) qSet_constructor w
      (filter_adds (fun x => negb ((qSet__ptr_at comp setb x).1 =? 0))) Hda wf_empty Hm)
      as (d1 & n1 & E1 & Hwf1 & H1).
    exists d1, n1. unfold qSet_difference. rewrite set_foreach_elems by done.
    split; [exact E1|]. split; [done|]. intros k Hk. rewrite H1 by done.
    rewrite (exists_filtered seta setb k _ not) by (done || (by intros; apply test_notin) || tauto).
    pose proof (has_empty k). tauto.
Qed.

(** *** Comparisons *)

Definition contained (seta setb : qSetDescriptor) : bool :=
  forallb (fun x => (qSet__ptr_at comp setb x).1 =? 0) (elems seta).

Lemma each_test seta setb w :
  wfset seta ->
  set_foreach seta (fun x _ =>
    if negb ((qSet__ptr_at comp setb x).1 =? 0) then mret (0, true) else mret (1, false)) 1 w =
  Ok (if contained seta setb then 1 else 0, w).
Proof using Type*.
  intros Ha. rewrite set_foreach_elems by done. unfold contained.
  induction (elems seta) as [|x l IH]; cbn [each forallb]; [done|].
  destruct (_ =? 0); cbn [negb andb]; [exact IH|done].
Qed.

Lemma contained_spec seta setb :
  wfset seta -> wfset setb ->
  contained seta setb = true <-> Forall (has setb) (elems seta).
Proof using Type*.
  intros Ha Hb. unfold contained.
  pose proof (wf_dom _ Ha) as Hd. induction Hd as [|x l Hx _ IH]; cbn [forallb]; [done|].
  rewrite andb_true_iff, IH, Forall_cons_iff, (test_in setb x Hb Hx). done.
Qed.

Lemma has_elem seta x : wfset seta -> x ∈ elems seta -> dom x /\ has seta x.
Proof using Type*.
  intros Ha Hx. pose proof (wf_dom _ Ha) as Hd. eapply list.Forall_forall in Hd; [|exact Hx].
  split; [done|]. apply list.Exists_exists. exists x. split; [done|]. by apply ccmp_refl.
Qed.

Lemma contained_has seta setb :
  wfset seta -> wfset setb ->
  Forall (has setb) (elems seta) <-> forall k, dom k -> has seta k -> has setb k.
Proof using Type*.
  intros Ha Hb. rewrite list.Forall_forall. split.
  - intros H k Hk (x & Hx & E)%list.Exists_exists. apply (has_eq setb k x); [done|done| |done|by apply H].
    by apply (has_elem seta).
  - intros H x Hx. destruct (has_elem seta x Ha Hx). by apply H.
Qed.

(** Each key of an ordered list has its own equal key in a set that contains
    them all. *)
Lemma equal_keys l setb :
  wfset setb -> ordered (comp := comp) l -> Forall dom l -> Forall (has setb) l ->
  exists l', Forall2 (fun x y => ccmp comp x y = 0) l l' /\ (l' ⊆ elems setb) /\ NoDup l'.
Proof using Type*.
  intros Hb. induction l as [|x l IH]; intros Ho Hd Hh.
  { exists []. split_and!; [constructor|set_solver|constructor]. }
  destruct Ho as [Hlt Ho]. apply Forall_cons_iff in Hd as [Hx Hd]. apply Forall_cons_iff in Hh as [Hhx Hh].
  destruct (IH Ho Hd Hh) as (l' & H2 & Hsub & Hnd).
  apply list.Exists_exists in Hhx as (y & Hy & E). exists (y :: l'). split_and!; [by constructor|set_solver|].
  apply list.NoDup_cons. split; [|done]. intros Hyl.
  destruct (proj1 (list.list_elem_of_lookup _ _) Hyl) as (n & Hn).
  destruct (Forall2_lookup_r _ _ _ _ _ H2 Hn) as (z & Hz & Ez).
  apply list_elem_of_lookup_2 in Hz. eapply list.Forall_forall in Hlt; [|exact Hz].
  eapply list.Forall_forall in Hd; [|exact Hz]. pose proof (has_elem setb y Hb Hy) as [Hdy _].
  pose proof (ccmp_eq_trans x y z Hx Hdy Hd E (ccmp_eq_sym z y Hd Hdy Ez)). lia.
Qed.

(** A set contained in another is not larger, and if it is as large it contains
    the other. *)
Lemma contained_size seta setb :
  wfset seta -> wfset setb -> Forall (has setb) (elems seta) ->
  (length (elems seta) <= length (elems setb))%nat /\
  (length (elems seta) = length (elems setb) -> Forall (has seta) (elems setb)).
Proof using Type*.
  intros Ha Hb Hh.
  destruct (equal_keys (elems seta) setb Hb (wf_ordered _ Ha) (wf_dom _ Ha) Hh) as (l' & H2 & Hsub & Hnd).
  pose proof (list.Forall2_length _ _ _ H2) as Hl. apply NoDup_submseteq in Hsub; [|done]. rewrite Hl.
  split; [by apply submseteq_length|]. intros Heq.
  apply submseteq_length_Permutation in Hsub; [|lia]. rewrite <- Hsub.
  apply list.Forall_forall. intros y (n & Hn)%list.list_elem_of_lookup.
  destruct (Forall2_lookup_r _ _ _ _ _ H2 Hn) as (x & Hx & E). apply list_elem_of_lookup_2 in Hx, Hn.
  destruct (has_elem seta x Ha Hx) as [Hdx _]. rewrite Hsub in Hn. destruct (has_elem setb y Hb Hn) as [Hdy _].
  apply list.Exists_exists. exists x. split; [done|]. by apply ccmp_eq_sym.
Qed.

(** Comparison of sets.  [qSet_issubset] is 1 when every member of the first set
    is one of the second, and [qSet_isequal] is 1 when the two sets have the same
    members; both are 0 otherwise and change nothing. *)
Theorem set_comparison seta setb w :
  wfset seta -> wfset setb -> blen (elems seta) < 2 ^ 32 -> blen (elems setb) < 2 ^ 32 ->
  exists s e, qSet_issubset comp seta setb w = Ok (s, w) /\ qSet_isequal comp seta setb w = Ok (e, w) /\
    (s = 0 \/ s = 1) /\ (s = 1 <-> forall k, dom k -> has seta k -> has setb k) /\
    (e = 0 \/ e = 1) /\ (e = 1 <-> forall k, dom k -> has seta k <-> has setb k).
Proof using Type*.
  intros Ha Hb Hla Hlb. unfold qSet_issubset, qSet_isequal. rewrite (each_test seta setb w Ha).
  pose proof (contained_spec seta setb Ha Hb) as Hc. rewrite (contained_has seta setb Ha Hb) in Hc.
  exists (if contained seta setb then 1 else 0).
  exists (if (length (elems seta) =? length (elems setb))%nat && contained seta setb then 1 else 0).
  pose proof (blen_nonneg (elems seta)). pose proof (blen_nonneg (elems setb)).
  rewrite (wf_size _ Ha), (wf_size _ Hb), !uwrap_small by lia.
  split; [done|]. split; [|split; [|split; [|split]]].
  - destruct (Nat.eqb_spec (length (elems seta)) (length (elems setb))) as [E|E]; unfold blen.
    + rewrite E, Z.eqb_refl. cbn [negb andb]. by apply each_test.
    + by rewrite (proj2 (Z.eqb_neq _ _)) by lia.
  - destruct (contained seta setb); auto.
  - rewrite <- Hc. by destruct (contained seta setb).
  - destruct (_ && _); auto.
  - assert (Hboth : (forall k, dom k -> has seta k <-> has setb k) <->
      Forall (has setb) (elems seta) /\ Forall (has seta) (elems setb)).
    { rewrite !contained_has by done. split.
      - intros Hk. split; intros k Hd; by apply Hk.
      - intros [H1 H2] k Hk. split; [by apply H1|by apply H2]. }
    rewrite Hboth. rewrite <- (contained_has seta setb Ha Hb) in Hc.
    destruct (Nat.eqb_spec (length (elems seta)) (length (elems setb))) as [E|E]; cbn [andb].
    + destruct (contained seta setb).
      * split; [intros _|done]. assert (Hs : Forall (has setb) (elems seta)) by by apply Hc.
        split; [done|]. by apply contained_size.
      * split; [done|]. intros [Hs _]. by apply Hc in Hs.
    + split; [done|]. intros [Hs1 Hs2]. destruct (contained_size seta setb Ha Hb Hs1) as [? _].
      destruct (contained_size setb seta Hb Ha Hs2) as [? _]. lia.
Qed.

End sets.

(** ** Witnesses *)

Lemma set_algebra_witness :
  exists desc n, qSet_union string_comparator desc_ex qSet_constructor (start []) =
      Ok (desc, set_live n (start [])) /\
    has (comp := string_comparator) desc [Byte.x62].
Proof.
  destruct (set_algebra (dom := int_string) (comp := string_comparator) desc_ex qSet_constructor (start [])
    desc_ex_wf wf_empty eq_refl) as [(desc & n & E & _ & H) _].
  exists desc, n. split; [exact E|]. apply (H [Byte.x62] eq_refl). left. by left.
Defined.

Lemma set_comparison_witness :
  exists s, qSet_issubset string_comparator qSet_constructor desc_ex (start []) = Ok (s, start []) /\ s = 1.
Proof.
  destruct (set_comparison (dom := int_string) (comp := string_comparator) qSet_constructor desc_ex (start [])
    wf_empty desc_ex_wf eq_refl eq_refl) as (s & e & E & _ & _ & Hs & _).
  exists s. split; [exact E|]. apply Hs. intros k _ H. by apply Exists_nil in H.
Defined.
