(* ===== verification/QVector.v ===== *)
(** * Vectors (zhwkre/vector.h, zhwkre/containers/vector.c)

    A growable array of elements of [elemstep] bytes.  The array is a block of
    the heap with an address, so that an iterator, which keeps the address of the
    array it was made for, can be seen to dangle after a reallocation.  Sizes are
    [int]: an arithmetic overflow is undefined behaviour. *)

From S2P Require Import Prelude World.
Local Open Scope Z_scope.

(** ** Data *)

(** [content] is NULL before the first element; [allocated] is kept apart from
    the block's length, as in the source.  [size] points to one cell shared by
    all copies of the descriptor and by its iterators. *)
Record qVectorDescriptor : Type := Vec {
  content : option (positive * list byte);
  size : Z;
  elemstep : Z;
  allocated : Z;
  vec_brk : positive      (* the next address the allocator returns *)
}.

(** [limit] is the descriptor's [size]; it is read when needed. *)
Record qVectorIterator : Type := VecIter {
  base : option positive;
  count : Z;
  it_elemstep : Z
}.

(** An [int] result, undefined out of range. *)
Definition int (z : Z) : res Z :=
  if (- 2 ^ 31 <=? z) && (z <? 2 ^ 31) then Ok z else Undef.

(** ** Operations *)

(** The size cell is written even when its allocation has failed. *)
Definition qVector_constructor (elemsize : Z) : io qVectorDescriptor :=
  ok ← malloc;
  if negb ok then SETERR ZHWK_ERR_MM_ALLOC_FAIL;; pundef
  else mret (Vec None 0 elemsize 0 1).

(** [malloc(n)] for an array: a new block of [n] bytes. *)
Definition alloc_block (n : Z) (p : positive) : io (option (positive * list byte)) :=
  ok ← malloc;
  mret (if (ok : bool) then Some (p, zeros n) else None).

(** [free(content)]; nothing for NULL. *)
Definition free_block (c : option (positive * list byte)) : io unit :=
  match c with Some _ => free | None => mret tt end.

(** The bytes of an array; a NULL pointer has none. *)
Definition block (c : option (positive * list byte)) : list byte :=
  match c with Some (_, b) => b | None => [] end.

Definition qVector__push_back (desc : qVectorDescriptor) (elem : list byte)
  : io (Z * qVectorDescriptor) :=
  need ← lift_res (int ((size desc + 1) * elemstep desc));
  '(r, desc) ← (
    if allocated desc <? need then
      grown ← lift_res (int (2 * (allocated desc + elemstep desc)));
      tmprealloc ← alloc_block grown (vec_brk desc);
      match tmprealloc with
      | None => SETERR ZHWK_ERR_MM_ALLOC_FAIL;; mret (-1, desc)
      | Some (p, b) =>
          b ← lift_res (match content desc with
                        | Some (_, old) => memcpy b 0 old (allocated desc)
                        | None => Ok b
                        end);
          free_block (content desc);;
          mret (0, Vec (Some (p, b)) (size desc) (elemstep desc) grown (Pos.succ (vec_brk desc)))
      end
    else mret (0, desc));
  if negb (r =? 0) then mret (-1, desc) else
  match content desc with
  | None => pundef
  | Some (p, b) =>
      off ← lift_res (int (size desc * elemstep desc));
      b ← lift_res (memcpy b off elem (elemstep desc));
      size' ← lift_res (int (size desc + 1));
      mret (0, Vec (Some (p, b)) size' (elemstep desc) (allocated desc) (vec_brk desc))
  end.

Definition qVector__pop_back (desc : qVectorDescriptor) : io (Z * qVectorDescriptor) :=
  size' ← lift_res (int (size desc - 1));
  let desc := Vec (content desc) size' (elemstep desc) (allocated desc) (vec_brk desc) in
  used ← lift_res (int (size desc * elemstep desc));
  twice ← lift_res (int (2 * used));
  let half := Z.quot (allocated desc) 2 in
  if (twice <? allocated desc) && negb (half =? 0) then
    tmprealloc ← alloc_block half (vec_brk desc);
    match tmprealloc with
    | None => SETERR ZHWK_ERR_MM_ALLOC_FAIL;; mret (-1, desc)
    | Some (p, b) =>
        b ← lift_res (memcpy b 0 (block (content desc)) used);
        free_block (content desc);;
        mret (0, Vec (Some (p, b)) (size desc) (elemstep desc) half (Pos.succ (vec_brk desc)))
    end
  else mret (0, desc).

Definition qVector_destructor (desc : qVectorDescriptor) : io Z :=
  free_block (content desc);;
  free;;
  mret 0.

(** ** Iterators *)

Definition qVector_begin (desc : qVectorDescriptor) : qVectorIterator :=
  VecIter (fst <$> content desc) 0 (elemstep desc).

Definition qVector_end (desc : qVectorDescriptor) : qVectorIterator :=
  VecIter (fst <$> content desc) (size desc - 1) (elemstep desc).

Definition qVectorIterator_isvalid (desc : qVectorDescriptor) (iter : qVectorIterator) : bool :=
  (count iter <? size desc) && (0 <=? count iter).

Definition qVectorIterator_move (iter : qVectorIterator) (delta : Z) : qVectorIterator :=
  VecIter (base iter) (count iter + delta) (it_elemstep iter).

Definition qVectorIterator_diff (a b : qVectorIterator) : Z := count a - count b.

(** The offset of the element in the array of [desc]; undefined when the array
    has been reallocated since the iterator was made. *)
Definition qVectorIterator_deref (desc : qVectorDescriptor) (iter : qVectorIterator) : res Z :=
  match content desc, base iter with
  | Some (p, _), Some q =>
      if Pos.eqb p q then int (count iter * it_elemstep iter) else Undef
  | _, _ => Undef
  end.

(** [memcpy(elem, deref(iter), elemstep)]. *)
Definition load (desc : qVectorDescriptor) (iter : qVectorIterator) : res (list byte) :=
  off ← qVectorIterator_deref desc iter;
  if (0 <=? off) && (off + elemstep desc <=? blen (block (content desc)))
  then Ok (bslice off (elemstep desc) (block (content desc))) else Undef.

(** [memcpy(deref(iter), elem, elemstep)]. *)
Definition store (desc : qVectorDescriptor) (iter : qVectorIterator) (elem : list byte)
  : res qVectorDescriptor :=
  off ← qVectorIterator_deref desc iter;
  match content desc with
  | None => Undef
  | Some (p, b) =>
      b ← memcpy b off elem (elemstep desc);
      mret (Vec (Some (p, b)) (size desc) (elemstep desc) (allocated desc) (vec_brk desc))
  end.

(** [for(i = positional; isvalid(move(i,1)); i = move(i,1)) memcpy(i, i+1)]: the
    elements after the position move one place down; [n] bounds the number of
    turns. *)
Fixpoint shift_loop (n : nat) (desc : qVectorDescriptor) (i : qVectorIterator)
  : res (qVectorDescriptor * qVectorIterator) :=
  match n with
  | O => Diverged
  | S n' =>
      let i' := qVectorIterator_move i 1 in
      if qVectorIterator_isvalid desc i' then
        e ← load desc i';
        desc ← store desc i e;
        shift_loop n' desc i'
      else mret (desc, i)
  end.

(** [buffer] is not freed. *)
Definition qVector__erase (desc : qVectorDescriptor) (positional : qVectorIterator)
  : io (Z * qVectorDescriptor) :=
  ok ← malloc;
  if negb ok then SETERR ZHWK_ERR_MM_ALLOC_FAIL;; mret (-1, desc) else
  buffer ← lift_res (load desc positional);
  '(desc, i) ← lift_res (shift_loop (S (Z.to_nat (size desc))) desc positional);
  desc ← lift_res (store desc i buffer);
  qVector__pop_back desc.

(** ** Invariant *)

(** The vector holds the elements [xs]: they fill the start of the array. *)
Definition holds (desc : qVectorDescriptor) (xs : list (list byte)) : Prop :=
  0 < elemstep desc /\ size desc = blen xs /\ Forall (fun x => blen x = elemstep desc) xs /\
  blen (block (content desc)) = allocated desc /\
  exists spare, block (content desc) = concat xs ++ spare.

(** The array is at most twice as large as one more element would need. *)
Definition vec_ok (desc : qVectorDescriptor) (xs : list (list byte)) : Prop :=
  holds desc xs /\ allocated desc <= 2 * ((blen xs + 1) * elemstep desc).

Lemma int_ok z : - 2 ^ 31 <= z < 2 ^ 31 -> int z = Ok z.
Proof. intros. unfold int. by rewrite (proj2 (Z.leb_le _ _)), (proj2 (Z.ltb_lt _ _)) by lia. Qed.

Lemma blen_concat_step s (xs : list (list byte)) :
  Forall (fun x => blen x = s) xs -> blen (concat xs) = blen xs * s.
Proof.
  induction 1 as [|x xs Hx _ IH]; [done|]. cbn [concat]. rewrite blen_app, blen_cons, IH. lia.
Qed.

Lemma vec_used desc xs : holds desc xs -> blen xs * elemstep desc <= allocated desc.
Proof.
  intros (_ & _ & Hx & Hb & (sp & E)). rewrite <- Hb, E, blen_app.
  rewrite (blen_concat_step (elemstep desc)) by done. pose proof (blen_nonneg sp). lia.
Qed.

(** A larger block whose start is a copy of [n] bytes of the array, at least the
    elements, holds them. *)
Lemma copy_elements desc xs n m p brk :
  holds desc xs -> blen xs * elemstep desc <= m <= allocated desc -> m <= n ->
  exists b, memcpy (zeros n) 0 (block (content desc)) m = Ok b /\
    holds (Vec (Some (p, b)) (size desc) (elemstep desc) n brk) xs.
Proof.
  intros (Hs & Hsz & Hx & Hb & (sp & E)) Hm Hn. pose proof (blen_nonneg xs).
  pose proof (blen_concat_step _ _ Hx) as Hl.
  rewrite memcpy_ok by (rewrite ?blen_zeros; nia). eexists. split; [done|].
  unfold holds. cbn [content size elemstep allocated block]. split_and!; try done.
  - rewrite blen_bstore; rewrite ?blen_btake, ?blen_zeros; nia.
  - rewrite bstore_0. exists (btake (m - blen (concat xs)) sp ++ bdrop (blen (btake m (block (content desc)))) (zeros n)).
    rewrite app_assoc. f_equal. rewrite E. unfold btake. rewrite take_app.
    rewrite (take_ge (concat xs)) by (unfold blen in *; nia). do 2 f_equal. unfold blen in *. nia.
Qed.

Lemma memcpy_append s xs spare x p :
  Forall (fun y => blen y = s) xs -> blen x = s -> s <= blen spare -> p = blen xs * s ->
  exists spare', memcpy (concat xs ++ spare) p x s = Ok (concat (xs ++ [x]) ++ spare') /\
    blen (concat (xs ++ [x]) ++ spare') = blen (concat xs ++ spare).
Proof.
  intros Hxs Hx Hs ->. pose proof (blen_concat_step s xs Hxs) as Hl. pose proof (blen_nonneg x).
  pose proof (blen_nonneg xs). exists (bdrop s spare).
  rewrite memcpy_ok by (rewrite ?blen_app; nia). rewrite btake_all by lia.
  assert (E : bstore (blen xs * s) x (concat xs ++ spare) = concat (xs ++ [x]) ++ bdrop s spare).
  { unfold bstore. rewrite btake_app_eq by done. rewrite concat_app. cbn [concat].
    rewrite app_nil_r, <- app_assoc. do 2 f_equal. unfold bdrop.
    rewrite drop_app_ge by (unfold blen in *; nia). f_equal. unfold blen in *. nia. }
  split; [by rewrite E|]. rewrite <- E. apply blen_bstore; [nia|]. rewrite blen_app. nia.
Qed.

(** The element stored after the others, when there is room. *)
Lemma vec_append desc p b xs x :
  holds desc xs -> blen x = elemstep desc -> (blen xs + 1) * elemstep desc <= allocated desc ->
  content desc = Some (p, b) ->
  exists b', memcpy b (blen xs * elemstep desc) x (elemstep desc) = Ok b' /\
    holds (Vec (Some (p, b')) (blen xs + 1) (elemstep desc) (allocated desc) (vec_brk desc)) (xs ++ [x]).
Proof.
  intros (Hs & Hsz & Hx & Hb & (sp & E)) Hlx Hroom Ec. rewrite Ec in Hb, E. cbn [block] in *.
  pose proof (blen_concat_step _ _ Hx) as Hl. subst b. rewrite blen_app in Hb.
  destruct (memcpy_append (elemstep desc) xs sp x (blen xs * elemstep desc))
    as (sp' & Em & Hlb); [done|done|nia|done|].
  eexists. split; [exact Em|]. unfold holds. cbn [content size elemstep allocated block].
  split_and!; try done.
  - by rewrite blen_app.
  - apply list.Forall_app. by repeat constructor.
  - rewrite Hlb, blen_app. lia.
  - by exists sp'.
Qed.

(** The array grown by [push_back]. *)
Lemma grow_ok desc xs g w :
  holds desc xs -> mem_ok w -> allocated desc <= g ->
  exists p b, holds (Vec (Some (p, b)) (size desc) (elemstep desc) g (Pos.succ (vec_brk desc))) xs /\
  (tmprealloc ← alloc_block g (vec_brk desc);
   match tmprealloc with
   | None => SETERR ZHWK_ERR_MM_ALLOC_FAIL;; mret (-1, desc)
   | Some (p, b) =>
       b ← lift_res (match content desc with
                     | Some (_, old) => memcpy b 0 old (allocated desc)
                     | None => Ok b
                     end);
       free_block (content desc);;
       mret (0, Vec (Some (p, b)) (size desc) (elemstep desc) g (Pos.succ (vec_brk desc)))
   end) w =
  Ok ((0, Vec (Some (p, b)) (size desc) (elemstep desc) g (Pos.succ (vec_brk desc))),
      set_live (w_live w + match content desc with None => 1 | Some _ => 0 end) w).
Proof.
  intros Hok Hm Hg. pose proof (vec_used desc xs Hok) as Hu. unfold alloc_block.
  destruct (content desc) as [[q old]|] eqn:Ec.
  - destruct (copy_elements desc xs g (allocated desc) (vec_brk desc) (Pos.succ (vec_brk desc)))
      as (b & E & Hb); [done|lia|done|].
    exists (vec_brk desc), b. split; [done|]. rewrite Ec in E. cbn [block] in E.
    erewrite prog_bind_ok by (rewrite (prog_bind_ok _ _ _ _ _ (malloc_ok w Hm)); reflexivity).
    cbv iota. rewrite E. erewrite prog_bind_ok by reflexivity. cbv beta. cbn [free_block].
    rewrite (prog_bind_ok _ _ _ _ _ (free_malloc w)). rewrite Z.add_0_r, set_live_id by done. done.
  - exists (vec_brk desc), (zeros g). split.
    + destruct Hok as (Hs & Hsz & Hx & Hb & (sp & E)). rewrite Ec in Hb, E. cbn [block] in *.
      assert (Hz : 0 <= g) by (rewrite <- Hb in Hg; exact Hg).
      unfold holds. cbn [content size elemstep allocated block].
      split_and!; [done|done|done|by apply blen_zeros|].
      exists (zeros g). symmetry in E. apply app_eq_nil in E as [-> _]. done.
    + erewrite prog_bind_ok by (rewrite (prog_bind_ok _ _ _ _ _ (malloc_ok w Hm)); reflexivity).
      cbv iota. reflexivity.
Qed.

(** [push_back] when nothing fails. *)
Lemma vec_push_ok desc xs x w :
  vec_ok desc xs -> blen x = elemstep desc -> mem_ok w ->
  2 * ((blen xs + 2) * elemstep desc) < 2 ^ 31 ->
  exists desc', qVector__push_back desc x w =
      Ok ((0, desc'), set_live (w_live w + match content desc with None => 1 | Some _ => 0 end) w) /\
    vec_ok desc' (xs ++ [x]) /\ elemstep desc' = elemstep desc.
Proof.
  intros [Hok Hmax] Hlx Hm Hbig. pose proof (vec_used desc xs Hok) as Hu.
  pose proof Hok as (Hs & Hsz & _). pose proof (blen_nonneg xs).
  assert (Hn : blen (xs ++ [x]) = blen xs + 1) by (rewrite blen_app; done).
  unfold qVector__push_back. rewrite Hsz, (int_ok ((blen xs + 1) * _)) by nia.
  erewrite prog_bind_ok by reflexivity. cbv beta.
  destruct (Z.ltb_spec (allocated desc) ((blen xs + 1) * elemstep desc)) as [Hfull|Hroom].
  - destruct (grow_ok desc xs (2 * (allocated desc + elemstep desc)) w Hok Hm) as (p & b & Hb & E);
      [nia|].
    rewrite Hsz in E, Hb. rewrite (int_ok (2 * _)) by nia.
    erewrite prog_bind_ok. 2:{ erewrite prog_bind_ok by reflexivity. exact E. }
    cbv iota. cbn [Z.eqb negb content size elemstep allocated vec_brk].
    destruct (vec_append _ p b xs x Hb Hlx) as (b' & Em & Hh); [cbn; nia|reflexivity|].
    cbn [elemstep] in Em. rewrite !int_ok by nia. erewrite prog_bind_ok by reflexivity. rewrite Em.
    eexists. split; [reflexivity|]. split; [|done].
    split; [exact Hh|]. cbn [allocated elemstep]. rewrite Hn. nia.
  - rewrite (prog_bind_ok _ _ _ _ _ eq_refl). cbv iota. cbn [Z.eqb negb].
    destruct (content desc) as [[p b]|] eqn:Ec.
    2:{ destruct Hok as (_ & _ & _ & Hb & _). rewrite Ec in Hb. cbn [block] in Hb.
        change (blen []) with 0 in Hb. nia. }
    destruct (vec_append desc p b xs x Hok Hlx Hroom Ec) as (b' & Em & Hh).
    rewrite Hsz, !int_ok by nia. erewrite prog_bind_ok by reflexivity. rewrite Em.
    rewrite Z.add_0_r, set_live_id by done. eexists. split; [reflexivity|]. split; [|done].
    split; [exact Hh|]. cbn [allocated elemstep]. rewrite Hn. nia.
Qed.

(** C13. [qVector__push_back] appends a copy of the element: it returns 0 and the
    vector holds the old elements and the new one.  No size overflows as long as
    twice the size of two more elements fits in an [int]; the array stays at most
    twice as large as one more element needs, and a reallocation frees the old
    array: only the first element makes the number of live blocks grow. *)
Theorem push_back_spec desc xs x w :
  vec_ok desc xs -> blen x = elemstep desc -> mem_ok w ->
  2 * ((blen xs + 2) * elemstep desc) < 2 ^ 31 ->
  exists desc' w', qVector__push_back desc x w = Ok ((0, desc'), w') /\ vec_ok desc' (xs ++ [x]) /\
    elemstep desc' = elemstep desc /\
    w_live w' = w_live w + match content desc with None => 1 | Some _ => 0 end.
Proof.
  intros Hv Hlx Hm Hbig. destruct (vec_push_ok desc xs x w Hv Hlx Hm Hbig) as (desc' & E & H & Hs).
  by eexists desc', _.
Qed.

(** ** Elements *)

(** The state in which an element is read or written: the vector holds
    [xs ++ x :: ys] and the iterator, made for its array, stands at [x]. *)
Definition at_element (desc : qVectorDescriptor) (iter : qVectorIterator)
    (xs : list (list byte)) (x : list byte) (ys : list (list byte)) : Prop :=
  holds desc (xs ++ x :: ys) /\ base iter = fst <$> content desc /\ count iter = blen xs /\
  it_elemstep iter = elemstep desc /\ allocated desc < 2 ^ 31.

Lemma at_element_block desc iter xs x ys :
  at_element desc iter xs x ys ->
  exists p spare, content desc = Some (p, concat xs ++ x ++ concat ys ++ spare) /\
    blen (concat xs) = blen xs * elemstep desc /\ blen x = elemstep desc /\
    qVectorIterator_deref desc iter = Ok (blen (concat xs)) /\ 0 < elemstep desc /\
    blen (concat xs ++ x ++ concat ys ++ spare) = allocated desc.
Proof.
  intros (Hok & Hbase & Hcnt & Hstep & Hbig). pose proof (vec_used _ _ Hok) as Hu.
  destruct Hok as (Hs & Hsz & Hx & Hb & (sp & E)).
  apply list.Forall_app in Hx as [Hxs Hx]. apply Forall_cons_iff in Hx as [Hx Hys].
  pose proof (blen_nonneg xs). pose proof (blen_nonneg ys).
  rewrite blen_app, blen_cons in Hu. pose proof (blen_concat_step _ _ Hxs) as Hl.
  unfold qVectorIterator_deref. rewrite Hbase, Hcnt, Hstep.
  destruct (content desc) as [[p b]|]; cbn [block] in *.
  2:{ change (blen []) with 0 in Hb. nia. }
  exists p, sp. rewrite concat_app in E. cbn [concat] in E. rewrite <- !app_assoc in E. subst b.
  split_and!; try done. cbn [fmap option_fmap option_map fst]. rewrite Pos.eqb_refl, Hl.
  apply int_ok. nia.
Qed.

Lemma load_ok desc iter xs x ys : at_element desc iter xs x ys -> load desc iter = Ok x.
Proof.
  intros H.
  destruct (at_element_block _ _ _ _ _ H) as (p & sp & Ec & Hl & Hx & Ed & Hs & Hb).
  unfold load. rewrite Ed, Ec. cbn [block mbind res_bind].
  pose proof (blen_nonneg (concat xs)). pose proof (blen_nonneg (concat ys)).
  pose proof (blen_nonneg sp). rewrite !blen_app.
  rewrite (proj2 (Z.leb_le _ _)), (proj2 (Z.leb_le _ _)) by lia. cbn [andb].
  by rewrite bslice_mid.
Qed.

Lemma store_ok desc iter xs x ys y :
  at_element desc iter xs x ys -> blen y = elemstep desc ->
  exists desc', store desc iter y = Ok desc' /\ at_element desc' iter xs y ys /\
    elemstep desc' = elemstep desc /\ allocated desc' = allocated desc /\
    vec_brk desc' = vec_brk desc.
Proof.
  intros H Hy.
  destruct (at_element_block _ _ _ _ _ H) as (p & sp & Ec & Hl & Hx & Ed & Hs & Hb).
  destruct H as ((_ & Hsz & Hf & _ & _) & Hbase & Hcnt & Hstep & Hbig).
  unfold store. rewrite Ed, Ec. cbn [mbind res_bind].
  pose proof (blen_nonneg (concat xs)). pose proof (blen_nonneg (concat ys)).
  pose proof (blen_nonneg sp).
  rewrite memcpy_ok by (rewrite ?blen_app; lia).
  rewrite btake_all, bstore_mid by lia. cbn [mbind res_bind].
  eexists. split; [reflexivity|]. cbn [elemstep allocated vec_brk]. split_and!; try done.
  split_and!; cbn [elemstep allocated vec_brk content]; try done; [|by rewrite Hbase, Ec].
  apply list.Forall_app in Hf as [Hxs Hf]. apply Forall_cons_iff in Hf as [_ Hys].
  split_and!; cbn [elemstep allocated size content block]; try done.
  - rewrite Hsz, !blen_app, !blen_cons. done.
  - apply list.Forall_app. split; [done|]. by constructor.
  - rewrite <- Hb, !blen_app. lia.
  - exists sp. rewrite concat_app. cbn [concat]. by rewrite <- !app_assoc.
Qed.

(** The next element. *)
Lemma at_next desc iter xs x y ys :
  at_element desc iter xs x (y :: ys) ->
  at_element desc (qVectorIterator_move iter 1) (xs ++ [x]) y ys.
Proof.
  intros (Hok & Hb & Hc & Hs & Hbig). split_and!; cbn; try done.
  - by rewrite <- app_assoc.
  - rewrite Hc, blen_app. done.
Qed.

Lemma at_previous desc iter xs x y ys :
  at_element desc (qVectorIterator_move iter 1) (xs ++ [x]) y ys ->
  at_element desc iter xs x (y :: ys).
Proof.
  intros (Hok & Hb & Hc & Hs & Hbig). cbn in *. rewrite <- app_assoc in Hok.
  split_and!; try done. rewrite blen_app in Hc. change (blen [x]) with 1 in Hc. lia.
Qed.

Lemma isvalid_next desc iter xs x ys :
  at_element desc iter xs x ys ->
  qVectorIterator_isvalid desc (qVectorIterator_move iter 1) = (0 <? blen ys).
Proof.
  intros ((_ & Hsz & _) & _ & Hc & _). unfold qVectorIterator_isvalid, qVectorIterator_move.
  cbn [count]. rewrite Hsz, Hc, blen_app, blen_cons. pose proof (blen_nonneg xs).
  rewrite (proj2 (Z.leb_le _ _)), andb_true_r by lia.
  destruct (Z.ltb_spec 0 (blen ys)); [apply Z.ltb_lt|apply Z.ltb_ge]; lia.
Qed.

(** The loop moves the elements after the position one place down; the last
    place keeps its element. *)
Lemma shift_loop_ok ys : forall fuel desc iter xs x,
  at_element desc iter xs x ys -> (length ys < fuel)%nat ->
  exists desc' iter' z, shift_loop fuel desc iter = Ok (desc', iter') /\
    at_element desc' iter' (xs ++ ys) z [] /\
    elemstep desc' = elemstep desc /\ allocated desc' = allocated desc /\
    vec_brk desc' = vec_brk desc.
Proof.
  induction ys as [|y ys IH]; intros fuel desc iter xs x H Hf; (destruct fuel as [|fuel]; [cbn in Hf; lia|]);
    cbn [shift_loop]; rewrite (isvalid_next _ _ _ _ _ H).
  - exists desc, iter, x. by rewrite app_nil_r.
  - rewrite blen_cons, (proj2 (Z.ltb_lt _ _)) by (pose proof (blen_nonneg ys); lia).
    rewrite (load_ok _ _ _ _ _ (at_next _ _ _ _ _ _ H)). cbn [mbind res_bind].
    assert (Hy : blen y = elemstep desc)
      by (by destruct (at_element_block _ _ _ _ _ (at_next _ _ _ _ _ _ H)) as (? & ? & _ & _ & ? & _)).
    destruct (store_ok _ _ _ _ _ y H Hy) as (d & E & H' & Es & Ea & Eb). rewrite E.
    cbn [mbind res_bind].
    destruct (IH fuel d (qVectorIterator_move iter 1) (xs ++ [y]) y) as (d' & i' & z & E' & H2 & Es2 & Ea2 & Eb2).
    { by apply at_next. } { cbn in Hf. lia. }
    exists d', i', z. rewrite <- app_assoc in H2. split_and!; try done; congruence.
Qed.

(** ** Removing elements *)

(** The elements but the last, wherever the array comes from. *)
Lemma holds_prefix desc xs x :
  holds desc (xs ++ [x]) ->
  holds (Vec (content desc) (blen xs) (elemstep desc) (allocated desc) (vec_brk desc)) xs.
Proof.
  intros (Hs & _ & Hf & Hb & (sp & E)). apply list.Forall_app in Hf as [Hf _].
  split_and!; try done. exists (x ++ sp). cbn [content]. rewrite E, concat_app. cbn [concat].
  by rewrite app_nil_r, <- app_assoc.
Qed.

Lemma pop_ok desc xs x w :
  vec_ok desc (xs ++ [x]) -> mem_ok w -> 2 * (blen xs * elemstep desc) < 2 ^ 31 ->
  exists desc', qVector__pop_back desc w = Ok ((0, desc'), w) /\ vec_ok desc' xs /\
    elemstep desc' = elemstep desc /\
    (allocated desc' = allocated desc \/ allocated desc' = allocated desc / 2).
Proof.
  intros [Hok Hmax] Hm Hbig. pose proof (vec_used _ _ Hok) as Hu. pose proof (holds_prefix _ _ _ Hok) as Hp.
  destruct Hok as (Hs & Hsz & _ & Hb & _). pose proof (blen_nonneg xs).
  rewrite blen_app in Hsz, Hu, Hmax. change (blen [x]) with 1 in Hsz, Hu, Hmax.
  assert (0 <= blen xs * elemstep desc) by nia.
  assert (Hc : exists p b, content desc = Some (p, b)).
  { destruct (content desc) as [[p b]|]; [by eexists _, _|]. cbn in Hb. change (blen []) with 0 in Hb. nia. }
  destruct Hc as (p & b & Ec).
  unfold qVector__pop_back. rewrite Hsz. replace (blen xs + 1 - 1) with (blen xs) by lia.
  rewrite int_ok by nia. erewrite prog_bind_ok by reflexivity. cbn [size elemstep allocated content vec_brk].
  rewrite (int_ok (blen xs * _)) by lia. erewrite prog_bind_ok by reflexivity.
  rewrite (int_ok (2 * _)) by lia. erewrite prog_bind_ok by reflexivity.
  destruct (Z.ltb_spec (2 * (blen xs * elemstep desc)) (allocated desc)) as [Hlt|Hge]; cbn [andb].
  2:{ eexists. split; [reflexivity|]. split; [|by split; [|left]].
      split; [done|]. cbn [allocated elemstep]. nia. }
  rewrite Z.quot_div_nonneg by lia. set (half := allocated desc / 2) in *.
  assert (Hh : 2 * half <= allocated desc < 2 * half + 2)
    by (subst half; pose proof (Z.div_mod (allocated desc) 2); pose proof (Z.mod_pos_bound (allocated desc) 2); lia).
  destruct (Z.eqb_spec half 0) as [Hz|Hnz]; cbn [negb].
  { eexists. split; [reflexivity|]. split; [|by split; [|left]].
    split; [done|]. cbn [allocated elemstep]. nia. }
  destruct (copy_elements _ xs half (blen xs * elemstep desc) (vec_brk desc) (Pos.succ (vec_brk desc)) Hp)
    as (b' & Em & Hb'); cbn [elemstep allocated content size]; [lia|lia|].
  unfold alloc_block.
  erewrite prog_bind_ok by (rewrite (prog_bind_ok _ _ _ _ _ (malloc_ok w Hm)); reflexivity). cbv iota.
  cbn [content] in Em. rewrite Em. erewrite prog_bind_ok by reflexivity. rewrite Ec. cbn [free_block].
  rewrite (prog_bind_ok _ _ _ _ _ (free_malloc w)).
  eexists. split; [reflexivity|]. cbn [elemstep allocated]. split_and!; [|done|by right].
  split; [exact Hb'|]. cbn [allocated elemstep]. nia.
Qed.

(** [qVector__pop_back] on a vector that is not empty removes its last element
    and keeps the others, the bound on the array and the number of live blocks:
    the array shrinks to half its size at most, and the elements that remain
    always fit in the half.  When the smaller array cannot be allocated the call
    reports -1, yet the element is gone: the vector is the shorter one, in the
    array it had. *)
Theorem pop_back_spec desc xs x w :
  vec_ok desc (xs ++ [x]) -> 2 * (blen xs * elemstep desc) < 2 ^ 31 ->
  (mem_ok w ->
   exists desc', qVector__pop_back desc w = Ok ((0, desc'), w) /\ vec_ok desc' xs /\
    elemstep desc' = elemstep desc /\
    (allocated desc' = allocated desc \/ allocated desc' = allocated desc / 2)) /\
  (forall a, w_alloc w = false :: a ->
   2 * (blen xs * elemstep desc) < allocated desc -> allocated desc / 2 <> 0 ->
   exists desc', qVector__pop_back desc w =
      Ok ((-1, desc'), set_err ZHWK_ERR_MM_ALLOC_FAIL (set_alloc a w)) /\
    holds desc' xs /\ content desc' = content desc).
Proof.
  intros Hv Hbig. split; [intros Hm; by apply pop_ok with x|]. destruct Hv as [Hok _].
  intros a Ha Hlt Hnz. pose proof (vec_used _ _ Hok) as Hu. pose proof (holds_prefix _ _ _ Hok) as Hp.
  destruct Hok as (Hs & Hsz & _). pose proof (blen_nonneg xs).
  rewrite blen_app in Hsz, Hu. change (blen [x]) with 1 in Hsz, Hu.
  unfold qVector__pop_back. rewrite Hsz. replace (blen xs + 1 - 1) with (blen xs) by lia.
  rewrite int_ok by nia. erewrite prog_bind_ok by reflexivity. cbn [size elemstep allocated content vec_brk].
  rewrite (int_ok (blen xs * _)) by nia. erewrite prog_bind_ok by reflexivity.
  rewrite (int_ok (2 * _)) by nia. erewrite prog_bind_ok by reflexivity.
  rewrite (proj2 (Z.ltb_lt _ _) Hlt), Z.quot_div_nonneg by nia.
  rewrite (proj2 (Z.eqb_neq _ _) Hnz). cbn [andb negb]. unfold alloc_block.
  assert (E : malloc w = Ok (false, set_alloc a w)) by (unfold malloc; by rewrite Ha).
  erewrite prog_bind_ok by (rewrite (prog_bind_ok _ _ _ _ _ E); reflexivity).
  eexists. split; [reflexivity|]. done.
Qed.

(** [erase] when nothing fails. *)
Lemma vec_erase_ok desc iter xs x ys w :
  vec_ok desc (xs ++ x :: ys) -> at_element desc iter xs x ys -> mem_ok w ->
  2 * ((blen xs + blen ys) * elemstep desc) < 2 ^ 31 ->
  exists desc', qVector__erase desc iter w = Ok ((0, desc'), set_live (w_live w + 1) w) /\
    vec_ok desc' (xs ++ ys) /\ elemstep desc' = elemstep desc.
Proof.
  intros [_ Hmax] Hat Hm Hbig. unfold qVector__erase.
  rewrite (prog_bind_ok _ _ _ _ _ (malloc_ok w Hm)). cbn [negb].
  rewrite (load_ok _ _ _ _ _ Hat). erewrite prog_bind_ok by reflexivity.
  pose proof (proj1 (proj2 (proj1 Hat))) as Hsz.
  destruct (shift_loop_ok ys (S (Z.to_nat (size desc))) desc iter xs x Hat) as (d & i & z & E & H2 & Es & Ea & Eb).
  { rewrite Hsz. unfold blen. rewrite length_app. cbn. lia. }
  rewrite E. erewrite prog_bind_ok by reflexivity.
  assert (Hx : blen x = elemstep d).
  { destruct (at_element_block _ _ _ _ _ Hat) as (? & ? & _ & _ & ? & _). congruence. }
  destruct (store_ok _ _ _ _ _ x H2 Hx) as (d' & E' & H3 & Es' & Ea' & Eb').
  rewrite E'. erewrite prog_bind_ok by reflexivity.
  destruct (pop_ok d' (xs ++ ys) x (set_live (w_live w + 1) w)) as (d'' & Ep & Hok & Es3 & _).
  - split; [apply H3|]. rewrite Ea', Ea, Es', Es, !blen_app. rewrite !blen_app, blen_cons in Hmax.
    change (blen [x]) with 1. lia.
  - done.
  - rewrite Es', Es, blen_app. done.
  - exists d''. split_and!; try done. congruence.
Qed.

(** [qVector__erase] removes the element under an iterator made for the current
    array and keeps the order of the others; the copy of the element it makes is
    never freed: one block leaks. *)
Theorem vec_erase_spec desc iter xs x ys w :
  vec_ok desc (xs ++ x :: ys) -> at_element desc iter xs x ys -> mem_ok w ->
  2 * ((blen xs + blen ys) * elemstep desc) < 2 ^ 31 ->
  exists desc', qVector__erase desc iter w = Ok ((0, desc'), set_live (w_live w + 1) w) /\
    vec_ok desc' (xs ++ ys) /\ elemstep desc' = elemstep desc.
Proof. apply vec_erase_ok. Qed.

(** A vector that is emptied once too often is lost: [qVector__pop_back] on an
    empty vector succeeds and leaves a size of -1, and the next
    [qVector__push_back] copies the element through a NULL pointer. *)
Theorem pop_back_underflow step x w :
  0 < step < 2 ^ 30 -> blen x = step -> mem_ok w ->
  exists desc w1 w2 desc', qVector_constructor step w = Ok (desc, w1) /\ vec_ok desc [] /\
    qVector__pop_back desc w1 = Ok ((0, desc'), w2) /\ size desc' = -1 /\
    qVector__push_back desc' x w2 = Undef.
Proof.
  intros Hs Hx Hm. unfold qVector_constructor.
  rewrite (prog_bind_ok _ _ _ _ _ (malloc_ok w Hm)). cbn [negb].
  eexists _, _, _, _. split; [reflexivity|]. split.
  { split; [|cbn [allocated elemstep]; change (blen []) with 0; lia].
    split_and!; cbn; try done; [lia|by exists []]. }
  unfold qVector__pop_back. cbn [size elemstep allocated content vec_brk].
  rewrite (int_ok (0 - 1)) by lia. erewrite prog_bind_ok by reflexivity. cbn [size elemstep allocated content].
  rewrite (int_ok ((0 - 1) * _)) by lia. erewrite prog_bind_ok by reflexivity.
  rewrite (int_ok (2 * _)) by lia. erewrite prog_bind_ok by reflexivity.
  rewrite andb_false_r. split; [reflexivity|]. split; [done|].
  unfold qVector__push_back. cbn [size elemstep allocated content vec_brk].
  rewrite (int_ok ((0 - 1 + 1) * _)) by lia. erewrite prog_bind_ok by reflexivity.
  cbn [Z.add Z.sub Z.opp Z.mul Z.pos_sub Z.ltb Z.compare].
  rewrite (prog_bind_ok _ _ _ _ _ eq_refl). done.
Qed.

(** ** The theorems at concrete inputs *)

Definition el (a b : Z) : list byte := [byte_of_Z a; byte_of_Z b].

Definition vec2 : qVectorDescriptor :=
  Vec (Some (3%positive, el 1 2 ++ el 3 4 ++ zeros 4)) 2 2 8 4.

Lemma vec2_ok : vec_ok vec2 [el 1 2; el 3 4].
Proof. split; [|by vm_compute]. split_and!; try done; [by repeat constructor|]. by exists (zeros 4). Qed.

Lemma push_back_spec_witness : exists desc' w',
  qVector__push_back vec2 (el 5 6) (start []) = Ok ((0, desc'), w') /\
  vec_ok desc' [el 1 2; el 3 4; el 5 6] /\ elemstep desc' = 2 /\ w_live w' = 0.
Proof. apply (push_back_spec vec2 [el 1 2; el 3 4]); [apply vec2_ok|done|done|done]. Defined.

Lemma pop_back_spec_witness : exists desc',
  qVector__pop_back vec2 (start []) = Ok ((0, desc'), start []) /\ vec_ok desc' [el 1 2] /\
  elemstep desc' = 2 /\ (allocated desc' = 8 \/ allocated desc' = 4).
Proof.
  apply (pop_back_spec vec2 [el 1 2] (el 3 4) (start [])); [apply vec2_ok|done|done].
Defined.

Lemma vec_erase_spec_witness : exists desc',
  qVector__erase vec2 (qVector_begin vec2) (start []) = Ok ((0, desc'), set_live 1 (start [])) /\
  vec_ok desc' [el 3 4] /\ elemstep desc' = 2.
Proof.
  apply (vec_erase_spec vec2 (qVector_begin vec2) [] (el 1 2) [el 3 4] (start []));
    [apply vec2_ok| |done|done].
  split_and!; try done. apply vec2_ok.
Defined.

Lemma pop_back_underflow_witness : exists desc w1 w2 desc',
  qVector_constructor 2 (start []) = Ok (desc, w1) /\ vec_ok desc [] /\
  qVector__pop_back desc w1 = Ok ((0, desc'), w2) /\ size desc' = -1 /\
  qVector__push_back desc' (el 1 2) w2 = Undef.
Proof. apply pop_back_underflow; [lia|done|done]. Defined.
