(* ===== verification/QList.v ===== *)
(** * Lists (zhwkre/listd.h, zhwkre/list.h, zhwkre/containers/list.c)

    A doubly linked list whose nodes own a block of data.  What the block holds is
    a value of type [A]; its [size], the caller's [sizeof], is kept beside it.
    The [prev] and [next] pointers are the store of Chain.v, the [data] and
    [size] fields a second one, both indexed by the node's address; the nodes of
    a list belong to its descriptor, so that a copy of a descriptor is a snapshot
    of the list.  The theorems are about one list used through one descriptor, and
    about copies that are only read; [push_back_frame] serves the lists that share a
    memory in Serialization.v. *)

From S2P Require Import Prelude World Chain.
Local Open Scope Z_scope.

(** ** Data *)

(** The [data] and [size] fields of a node; [None] is NULL. *)
Abbreviation cell A := (option A * Z)%type.

Record qListDescriptor (A : Type) : Type := LDesc {
  head : option positive;
  tail : option positive;
  size : Z;                                (* unsigned int *)
  lnodes : gmap positive link;
  cells : gmap positive (cell A);
  lbrk : positive                          (* the next address *)
}.
Arguments LDesc {A} _ _ _ _ _ _.
Arguments head {A} _.
Arguments tail {A} _.
Arguments size {A} _.
Arguments lnodes {A} _.
Arguments cells {A} _.
Arguments lbrk {A} _.

Section list_operations.
Context {A : Type}.
Abbreviation desc_t := (qListDescriptor A).

Definition set_ends (h t : option positive) (d : desc_t) : desc_t :=
  LDesc h t (size d) (lnodes d) (cells d) (lbrk d).
Definition set_size (n : Z) (d : desc_t) : desc_t :=
  LDesc (head d) (tail d) n (lnodes d) (cells d) (lbrk d).
Definition set_lnodes (m : gmap positive link) (d : desc_t) : desc_t :=
  LDesc (head d) (tail d) (size d) m (cells d) (lbrk d).
Definition set_cells (c : gmap positive (cell A)) (d : desc_t) : desc_t :=
  LDesc (head d) (tail d) (size d) (lnodes d) c (lbrk d).

Definition q__List_initdesc : desc_t := LDesc None None 0 ∅ ∅ 1.

Definition qList_constructor : desc_t := q__List_initdesc.

(** A new node of [d], all of whose fields are NULL or 0. *)
Definition q__List_new (d : desc_t) : io (option positive * desc_t) :=
  ok ← malloc;
  if negb ok then SETERR ZHWK_ERR_MM_ALLOC_FAIL;; mret (None, d) else
  let i := lbrk d in
  mret (Some i, LDesc (head d) (tail d) (size d) (<[i := Link None None]> (lnodes d))
                  (<[i := (None, 0)]> (cells d)) (Pos.succ i)).

(** [node->data = malloc(n)], [memcpy(node->data, target, n)], [node->size = n];
    [false] when the allocation fails. *)
Definition fill_node (i : positive) (target : A) (n : Z) (d : desc_t) : io (bool * desc_t) :=
  ok ← malloc;
  if negb ok then SETERR ZHWK_ERR_MM_ALLOC_FAIL;; mret (false, d)
  else mret (true, set_cells (<[i := (Some target, n)]> (cells d)) d).

(** The first node of an empty list. *)
Definition push_first (target : A) (n : Z) (d : desc_t) : io (Z * desc_t) :=
  '(i, d) ← q__List_new d;
  match i with
  | None => mret (-1, set_ends None (tail d) d)
  | Some i =>
      let d := set_ends (Some i) (Some i) d in
      '(ok, d) ← fill_node i target n d;
      if negb ok then mret (-1, d) else mret (0, set_size (u32 (size d + 1)) d)
  end.

Definition q__List_push_back (d : desc_t) (target : A) (n : Z) : io (Z * desc_t) :=
  match tail d with
  | None => push_first target n d
  | Some t =>
      '(i, d) ← q__List_new d;
      m ← lift_res (upd t (set_next i) (lnodes d));
      let d := set_lnodes m d in
      match i with
      | None => mret (-1, d)
      | Some i =>
          m ← lift_res (upd i (set_prev (Some t)) (lnodes d));
          let d := set_lnodes m d in
          '(ok, d) ← fill_node i target n d;
          if negb ok then mret (-1, d)
          else mret (0, set_size (u32 (size d + 1)) (set_ends (head d) (Some i) d))
      end
  end.

(** [desc->head == NULL] is tested where [desc->head->prev] is meant: after a
    failed allocation the NULL pointer is followed. *)
Definition q__List_push_front (d : desc_t) (target : A) (n : Z) : io (Z * desc_t) :=
  match tail d with
  | None => push_first target n d
  | Some _ =>
      match head d with
      | None => pundef
      | Some h =>
          '(i, d) ← q__List_new d;
          m ← lift_res (upd h (set_prev i) (lnodes d));
          let d := set_lnodes m d in
          match i with
          | None => pundef
          | Some i =>
              m ← lift_res (upd i (set_next (Some h)) (lnodes d));
              let d := set_lnodes m d in
              '(ok, d) ← fill_node i target n d;
              if negb ok then mret (-1, d)
              else mret (0, set_size (u32 (size d + 1)) (set_ends (Some i) (tail d) d))
          end
      end
  end.

(** [free(node->data)], which does nothing for NULL; the data of a node are freed
    at most once. *)
Definition free_data (i : positive) (d : desc_t) : io unit :=
  match cells d !! i with
  | Some (Some _, _) => free
  | Some (None, _) => mret tt
  | None => pundef
  end.

(** [free(node->data); free(node)]. *)
Definition free_lnode (i : positive) (d : desc_t) : io desc_t :=
  free_data i d;;
  free;;
  mret (set_cells (delete i (cells d)) (set_lnodes (delete i (lnodes d)) d)).

(** The only node of a list. *)
Definition pop_only (t : positive) (d : desc_t) : io (Z * desc_t) :=
  d ← free_lnode t d;
  mret (0, set_size (u32 (size d - 1)) (set_ends None None d)).

Definition q__List_pop_back (d : desc_t) : io (Z * desc_t) :=
  match tail d with
  | None => SETERR ZHWK_ERR_LIST_EMPTY;; mret (-1, d)
  | Some t =>
      if decide (tail d = head d) then pop_only t d else
      match lnodes d !! t with
      | Some (Link (Some t') _) =>
          match lnodes d !! t' with
          | Some (Link p' (Some t2)) =>
              d ← free_lnode t2 d;
              m ← lift_res (upd t' (set_next None) (lnodes d));
              mret (0, set_size (u32 (size d - 1)) (set_ends (head d) (Some t') (set_lnodes m d)))
          | _ => pundef
          end
      | _ => pundef
      end
  end.

Definition q__List_pop_front (d : desc_t) : io (Z * desc_t) :=
  match head d with
  | None => SETERR ZHWK_ERR_LIST_EMPTY;; mret (-1, d)
  | Some h =>
      if decide (tail d = head d) then pop_only h d else
      match lnodes d !! h with
      | Some (Link _ (Some h')) =>
          match lnodes d !! h' with
          | Some (Link (Some h2) n') =>
              d ← free_lnode h2 d;
              m ← lift_res (upd h' (set_prev None) (lnodes d));
              mret (0, set_size (u32 (size d - 1)) (set_ends (Some h') (tail d) (set_lnodes m d)))
          | _ => pundef
          end
      | _ => pundef
      end
  end.

(** The [data] and [size] fields are exchanged, not the nodes. *)
Definition q__List_swap_elem (d : desc_t) (a b : positive) : res desc_t :=
  match cells d !! a, cells d !! b with
  | Some ca, Some cb => Ok (set_cells (<[b := ca]> (<[a := cb]> (cells d))) d)
  | _, _ => Undef
  end.

(** The data are freed, the node is not: its link stays in the store. *)
Definition q__List_erase_elem (d : desc_t) (a : positive) : io (Z * desc_t) :=
  match lnodes d !! a with
  | None => pundef
  | Some l =>
      m ← lift_res (upd_opt (prev l) (set_next (next l)) (lnodes d));
      m ← lift_res (upd_opt (next l) (set_prev (prev l)) m);
      let d := set_lnodes m d in
      let h := if decide (head d = Some a) then next l else head d in
      let t := if decide (tail d = Some a) then prev l else tail d in
      let d := set_size (u32 (size d - 1)) (set_ends h t d) in
      free_data a d;;
      mret (0, set_cells (delete a (cells d)) d)
  end.

(** The nodes are freed from the head on. *)
Fixpoint free_loop (fuel : nat) (it : option positive) (d : desc_t) : io desc_t :=
  match fuel with
  | O => fun _ => Diverged
  | S fuel' =>
      match it with
      | None => mret d
      | Some i =>
          match lnodes d !! i with
          | None => pundef
          | Some l => d ← free_lnode i d; free_loop fuel' (next l) d
          end
      end
  end.

Definition q__List_destructor (d : desc_t) : io (Z * desc_t) :=
  d ← free_loop (S (base.size (lnodes d))) (head d) d;
  mret (0, set_size 0 (set_ends None None d)).

(** ** Iterators *)

Definition qList_begin (d : desc_t) : option positive := head d.
Definition qList_end (d : desc_t) : option positive := tail d.

Definition qListIterator_isvalid (it : option positive) : bool :=
  match it with Some _ => true | None => false end.

Definition qListIterator_prev (d : desc_t) (it : positive) : res (option positive) :=
  match lnodes d !! it with Some l => Ok (prev l) | None => Undef end.

Definition qListIterator_next (d : desc_t) (it : positive) : res (option positive) :=
  match lnodes d !! it with Some l => Ok (next l) | None => Undef end.

Definition qListIterator_deref (d : desc_t) (it : positive) : res (cell A) :=
  match cells d !! it with Some c => Ok c | None => Undef end.

(** [qList_foreach(desc, iter)] for a body that does not change the list: it gets
    the node, its data and a state [T], and tells whether to leave the loop. *)
Fixpoint foreach_loop {T} (fuel : nat) (d : desc_t) (it : option positive)
    (body : positive -> cell A -> T -> io (T * bool)) (s : T) : io T :=
  match fuel with
  | O => fun _ => Diverged
  | S fuel' =>
      match it with
      | None => mret s
      | Some i =>
          c ← lift_res (qListIterator_deref d i);
          '(s', stop) ← body i c s;
          if (stop : bool) then mret s' else
          it' ← lift_res (qListIterator_next d i);
          foreach_loop fuel' d it' body s'
      end
  end.

Definition qList_foreach {T} (d : desc_t) (body : positive -> cell A -> T -> io (T * bool)) (s : T)
  : io T := foreach_loop (S (base.size (lnodes d))) d (qList_begin d) body s.

(** The copies are appended whatever the results; a NULL [data] is not a valid
    source. *)
Definition q__List_copy (d : desc_t) : io desc_t :=
  qList_foreach d (fun _ c r =>
    match c with
    | (None, _) => pundef
    | (Some a, n) => '(_, r') ← q__List_push_back r a n; mret (r', false)
    end) qList_constructor.

End list_operations.

(** * Theorems *)

Section list_theorems.
Context {A : Type}.
Implicit Types (d : qListDescriptor A) (xs : list (positive * (A * Z))).

(** ** Invariant *)

(** The addresses of the nodes in order, and what they hold. *)
Definition addrs xs : list positive := xs.*1.
Definition values xs : list (A * Z) := xs.*2.

(** The list [d] is made of the nodes [xs], in this order. *)
Record rep d xs : Prop := Rep {
  rep_nodup : NoDup (addrs xs);
  rep_chain : chain (lnodes d) None (addrs xs) None;
  rep_cells : Forall (fun x => cells d !! x.1 = Some (Some x.2.1, x.2.2)) xs;
  rep_head : head d = first_of (addrs xs) None;
  rep_tail : tail d = last_of None (addrs xs);
  rep_size : size d = u32 (blen xs);
  rep_fresh : Forall (fun i => (i < lbrk d)%positive) (addrs xs)
}.

(** The elements of a list, in order. *)
Definition contains d (l : list (A * Z)) : Prop := exists xs, rep d xs /\ values xs = l.

Lemma rep_constructor : rep qList_constructor [].
Proof. split; try done; constructor. Qed.

Lemma u32_len_succ n : u32 (u32 n + 1) = u32 (n + 1).
Proof. unfold u32, uwrap. by rewrite Zplus_mod_idemp_l. Qed.

Lemma u32_len_pred n : u32 (u32 n - 1) = u32 (n - 1).
Proof. unfold u32, uwrap. by rewrite Zminus_mod_idemp_l. Qed.

Lemma fresh_notin d xs : rep d xs -> lbrk d ∉ addrs xs.
Proof.
  intros H Hin. pose proof (rep_fresh _ _ H) as Hf. rewrite list.Forall_forall in Hf.
  apply Hf in Hin. lia.
Qed.

Lemma fresh_weaken (i j : positive) (l : list positive) :
  (i <= j)%positive -> Forall (fun k => (k < i)%positive) l -> Forall (fun k => (k < j)%positive) l.
Proof. intros H Hf. eapply list.Forall_impl; [exact Hf|]. cbn. intros. lia. Qed.

Lemma cells_frame xs (c c' : gmap positive (cell A)) :
  (forall i, i ∈ addrs xs -> c' !! i = c !! i) ->
  Forall (fun x => c !! x.1 = Some (Some x.2.1, x.2.2)) xs ->
  Forall (fun x => c' !! x.1 = Some (Some x.2.1, x.2.2)) xs.
Proof.
  intros Hc. rewrite !list.Forall_forall. intros H x Hx. rewrite Hc; [by apply H|].
  unfold addrs. apply list_elem_of_fmap_2. eauto.
Qed.

Lemma rep_lookup d xs x ys : rep d (xs ++ x :: ys) -> cells d !! x.1 = Some (Some x.2.1, x.2.2).
Proof. intros H. pose proof (rep_cells _ _ H) as Hc. apply list.Forall_app in Hc as [_ Hc].
  by apply Forall_cons_iff in Hc as [Hc _]. Qed.

(** ** Adding *)

Lemma q__List_new_ok d w :
  mem_ok w -> q__List_new d w =
    Ok ((Some (lbrk d), LDesc (head d) (tail d) (size d) (<[lbrk d := Link None None]> (lnodes d))
          (<[lbrk d := (None, 0)]> (cells d)) (Pos.succ (lbrk d))), set_live (w_live w + 1) w).
Proof. intros Hm. unfold q__List_new. rewrite (prog_bind_ok _ _ _ _ _ (malloc_ok w Hm)). done. Qed.

Lemma fill_node_ok i a n d w :
  mem_ok w -> fill_node i a n d w =
    Ok ((true, set_cells (<[i := (Some a, n)]> (cells d)) d), set_live (w_live w + 1) w).
Proof. intros Hm. unfold fill_node. rewrite (prog_bind_ok _ _ _ _ _ (malloc_ok w Hm)). done. Qed.

(** Two more live blocks. *)
Definition grown (w : world) : world := set_live (w_live w + 2) w.

Lemma grown_eq w : set_live (w_live (set_live (w_live w + 1) w) + 1) (set_live (w_live w + 1) w) = grown w.
Proof. unfold grown. change (set_live (w_live w + 1 + 1) w = set_live (w_live w + 2) w). f_equal. lia. Qed.

(** The nodes that are neither in [l] nor new are as before: several lists share
    one memory in Serialization.v. *)
Definition untouched (l : list positive) d d' : Prop :=
  lbrk d' = Pos.succ (lbrk d) /\
  forall i, i ∉ l -> i <> lbrk d -> lnodes d' !! i = lnodes d !! i /\ cells d' !! i = cells d !! i.

Lemma push_first_frame d a n w :
  rep d [] -> mem_ok w ->
  exists d', push_first a n d w = Ok ((0, d'), grown w) /\ rep d' [(lbrk d, (a, n))] /\ untouched [] d d'.
Proof.
  intros H Hm. unfold push_first. rewrite (prog_bind_ok _ _ _ _ _ (q__List_new_ok d w Hm)). cbv iota.
  erewrite prog_bind_ok by (apply fill_node_ok; exact Hm). rewrite grown_eq. eexists. split; [reflexivity|].
  split; [split; cbn; try done|].
  - repeat constructor. set_solver.
  - split; [by rewrite lookup_insert_eq|done].
  - repeat constructor. by rewrite lookup_insert_eq.
  - by rewrite (rep_size _ _ H).
  - repeat constructor. lia.
  - split; [done|]. intros i _ Hi. cbn. by rewrite !lookup_insert_ne by done.
Qed.

Lemma push_first_ok d a n w :
  rep d [] -> mem_ok w ->
  exists d', push_first a n d w = Ok ((0, d'), grown w) /\ rep d' [(lbrk d, (a, n))].
Proof. intros H Hm. destruct (push_first_frame d a n w H Hm) as (d' & E & Hr & _). eauto. Qed.

Lemma tail_none d xs : rep d xs -> tail d = None -> xs = [].
Proof.
  intros H. rewrite (rep_tail _ _ H). unfold last_of.
  destruct (last_cases (addrs xs)) as [E|(l & q & E)].
  - intros _. by apply fmap_nil_inv in E.
  - rewrite E, last_snoc. done.
Qed.

Lemma rep_snoc_tail d xs x : rep d (xs ++ [x]) -> tail d = Some x.1.
Proof. intros H. rewrite (rep_tail _ _ H). unfold addrs. rewrite fmap_app. apply last_of_snoc. Qed.

Lemma nodup_addrs_snoc xs i x : NoDup (addrs xs) -> i ∉ addrs xs -> NoDup (addrs (xs ++ [(i, x)])).
Proof.
  intros Hnd Hi. unfold addrs. rewrite fmap_app. apply list.NoDup_app. split; [done|]. split.
  - intros j Hj Hin. cbn in Hin. assert (j = i) as -> by set_solver. done.
  - apply list.NoDup_singleton.
Qed.

(** The cells after a node has been added with its data. *)
Lemma cells_new xs (c : gmap positive (cell A)) i a n :
  i ∉ addrs xs -> Forall (fun x => c !! x.1 = Some (Some x.2.1, x.2.2)) xs ->
  Forall (fun x => <[i := (Some a, n)]> (<[i := (None, 0)]> c) !! x.1 = Some (Some x.2.1, x.2.2)) xs.
Proof.
  intros Hi. apply cells_frame. intros j Hj. assert (i <> j) by (intros ->; done). by simplify_map_eq.
Qed.

Lemma push_back_frame d xs a n w :
  rep d xs -> mem_ok w ->
  exists d', q__List_push_back d a n w = Ok ((0, d'), grown w) /\ rep d' (xs ++ [(lbrk d, (a, n))]) /\
    untouched (addrs xs) d d'.
Proof.
  intros H Hm. unfold q__List_push_back. destruct (tail d) as [t|] eqn:Et.
  2:{ assert (xs = []) as -> by eauto using tail_none. by apply push_first_frame. }
  destruct (last_cases (addrs xs)) as [E|(l & q & E)].
  { rewrite (rep_tail _ _ H), E in Et. done. }
  rewrite (rep_tail _ _ H), E, last_of_snoc in Et. injection Et as ->.
  pose proof (fresh_notin d xs H) as Hfr. pose proof (rep_nodup _ _ H) as Hnd.
  pose proof (rep_chain _ _ H) as Hch. rewrite E in Hch, Hfr, Hnd.
  destruct (chain_snoc (<[lbrk d := Link None None]> (lnodes d)) l t (lbrk d)) as (m1 & m2 & E1 & E2 & Hc2);
    [done|done|by rewrite lookup_insert_eq|by apply chain_insert|].
  rewrite (prog_bind_ok _ _ _ _ _ (q__List_new_ok d w Hm)). cbv iota. cbn [lnodes set_lnodes].
  rewrite E1. erewrite prog_bind_ok by reflexivity. cbn [lnodes set_lnodes].
  rewrite E2. erewrite prog_bind_ok by reflexivity.
  erewrite prog_bind_ok by (apply fill_node_ok; exact Hm).
  rewrite grown_eq. eexists. split; [reflexivity|].
  rewrite <- E in Hfr. split; [split; cbn [lnodes cells head tail size lbrk set_cells set_size set_ends set_lnodes]|].
  - apply nodup_addrs_snoc; [apply H|done].
  - unfold addrs in *. rewrite fmap_app, E, <- app_assoc. done.
  - apply list.Forall_app. split; [by apply cells_new, H|]. repeat constructor. by rewrite lookup_insert_eq.
  - rewrite (rep_head _ _ H). unfold addrs in *. rewrite fmap_app, E. by destruct l.
  - unfold addrs. rewrite fmap_app. symmetry. apply last_of_snoc.
  - by rewrite (rep_size _ _ H), u32_len_succ, blen_app.
  - unfold addrs. rewrite fmap_app. apply list.Forall_app. split; [|repeat constructor; cbn; lia].
    eapply fresh_weaken; [|apply (rep_fresh _ _ H)]. lia.
  - split; [done|]. intros i Hi Hn. cbn [lnodes cells set_cells set_size set_ends set_lnodes].
    assert (i <> t) by (intros ->; apply Hi; rewrite E; set_solver).
    rewrite (upd_frame _ _ _ _ _ E2), (upd_frame _ _ _ _ _ E1) by done. by rewrite !lookup_insert_ne by done.
Qed.

Lemma push_back_ok d xs a n w :
  rep d xs -> mem_ok w ->
  exists d', q__List_push_back d a n w = Ok ((0, d'), grown w) /\ rep d' (xs ++ [(lbrk d, (a, n))]).
Proof. intros H Hm. destruct (push_back_frame d xs a n w H Hm) as (d' & E & Hr & _). eauto. Qed.

Lemma push_front_ok d xs a n w :
  rep d xs -> mem_ok w ->
  exists d', q__List_push_front d a n w = Ok ((0, d'), grown w) /\ rep d' ((lbrk d, (a, n)) :: xs).
Proof.
  intros H Hm. unfold q__List_push_front. destruct (tail d) as [t|] eqn:Et.
  2:{ assert (xs = []) as -> by eauto using tail_none. by apply push_first_ok. }
  destruct xs as [|[h x] xs]; [by rewrite (rep_tail _ _ H) in Et|].
  rewrite (rep_head _ _ H). cbn [addrs fmap list_fmap fst first_of].
  pose proof (fresh_notin d _ H) as Hfr. pose proof (rep_nodup _ _ H) as Hnd.
  pose proof (rep_chain _ _ H) as Hch.
  destruct (chain_cons (<[lbrk d := Link None None]> (lnodes d)) h (addrs xs) (lbrk d))
    as (m1 & m2 & E1 & E2 & Hc2); [done|done|by rewrite lookup_insert_eq|by apply chain_insert|].
  rewrite (prog_bind_ok _ _ _ _ _ (q__List_new_ok d w Hm)). cbv iota. cbn [lnodes set_lnodes].
  rewrite E1. erewrite prog_bind_ok by reflexivity. cbn [lnodes set_lnodes].
  rewrite E2. erewrite prog_bind_ok by reflexivity.
  erewrite prog_bind_ok by (apply fill_node_ok; exact Hm).
  rewrite grown_eq. eexists. split; [reflexivity|].
  split; cbn [lnodes cells head tail size lbrk set_cells set_size set_ends set_lnodes].
  - apply list.NoDup_cons. by split.
  - done.
  - constructor; [cbn; by rewrite lookup_insert_eq|by apply cells_new, H].
  - done.
  - rewrite (rep_tail _ _ H). unfold addrs. cbn [fmap list_fmap fst]. by rewrite !last_of_cons.
  - rewrite (rep_size _ _ H), u32_len_succ. f_equal. rewrite (blen_cons (lbrk d, (a, n))). lia.
  - constructor; [cbn; lia|]. eapply fresh_weaken; [|apply (rep_fresh _ _ H)]. lia.
Qed.

(** ** Removing *)

Lemma free_lnode_ok d i c w :
  cells d !! i = Some (Some c.1, c.2) ->
  free_lnode i d w = Ok (set_cells (delete i (cells d)) (set_lnodes (delete i (lnodes d)) d),
                         set_live (w_live w - 2) w).
Proof.
  intros E. unfold free_lnode, free_data. rewrite E. do 2 erewrite prog_bind_ok by reflexivity.
  change (w_live (set_live (w_live w - 1) w)) with (w_live w - 1).
  unfold mret, prog_ret. do 2 f_equal. change (set_live (w_live w - 1 - 1) w = set_live (w_live w - 2) w).
  f_equal. lia.
Qed.

Lemma cells_gone xs (c : gmap positive (cell A)) i :
  i ∉ addrs xs -> Forall (fun x => c !! x.1 = Some (Some x.2.1, x.2.2)) xs ->
  Forall (fun x => delete i c !! x.1 = Some (Some x.2.1, x.2.2)) xs.
Proof.
  intros Hi. apply cells_frame. intros j Hj. apply lookup_delete_ne. intros ->. done.
Qed.

Lemma pop_only_ok d i x w :
  rep d [(i, x)] ->
  exists d', pop_only i d w = Ok ((0, d'), set_live (w_live w - 2) w) /\ rep d' [].
Proof.
  intros H. unfold pop_only. erewrite prog_bind_ok.
  2:{ apply (free_lnode_ok d i x). apply (rep_lookup d [] (i, x) [] H). }
  eexists. split; [reflexivity|]. split; cbn; try done; try constructor.
  by rewrite (rep_size _ _ H), u32_len_pred.
Qed.

Lemma ends_differ d xs x y : rep d (xs ++ [x; y]) -> tail d <> head d.
Proof.
  intros H E. rewrite (rep_tail _ _ H), (rep_head _ _ H) in E. pose proof (rep_nodup _ _ H) as Hnd.
  unfold addrs in *. rewrite !fmap_app in *. cbn [fmap list_fmap] in *.
  change (xs.*1 ++ [x.1; y.1]) with (xs.*1 ++ [x.1] ++ [y.1]) in *. rewrite app_assoc in *.
  rewrite last_of_snoc in E. apply nodup_middle in Hnd as (_ & _ & Hy & _). apply Hy.
  destruct xs as [|z xs]; cbn in *; injection E as ->; set_solver.
Qed.

(** [fields] computes the fields of a descriptor. *)
Ltac fields :=
  unfold set_size, set_ends, set_cells, set_lnodes; cbn [head tail size lnodes cells lbrk].

(** [rep] for a list that has lost one node. *)
Lemma rep_removed d xs x ys h t m :
  rep d (xs ++ x :: ys) -> chain m None (addrs (xs ++ ys)) None ->
  h = first_of (addrs (xs ++ ys)) None -> t = last_of None (addrs (xs ++ ys)) ->
  rep (LDesc h t (u32 (size d - 1)) m (delete x.1 (cells d)) (lbrk d)) (xs ++ ys).
Proof.
  intros H Hch -> ->. pose proof (rep_nodup _ _ H) as Hnd.
  assert (Hsub : addrs (xs ++ ys) `sublist_of` addrs (xs ++ x :: ys)).
  { apply fmap_sublist, sublist_app; [done|]. by apply sublist_cons. }
  split; cbn; try done.
  - by eapply sublist_NoDup.
  - apply cells_gone.
    + unfold addrs in *. rewrite fmap_app in *. apply nodup_middle in Hnd as (_ & _ & ? & ? & _). set_solver.
    + pose proof (rep_cells _ _ H) as Hc. rewrite list.Forall_app, Forall_cons_iff in Hc.
      apply list.Forall_app. tauto.
  - rewrite (rep_size _ _ H), u32_len_pred, !blen_app, blen_cons. f_equal. lia.
  - pose proof (rep_fresh _ _ H) as Hf. rewrite list.Forall_forall in Hf.
    apply list.Forall_forall. intros j Hj. apply Hf. by eapply elem_of_sublist.
Qed.

Lemma addrs_app xs ys : addrs (xs ++ ys) = addrs xs ++ addrs ys.
Proof. apply fmap_app. Qed.

Lemma pop_back_ok d xs x w :
  rep d (xs ++ [x]) ->
  exists d', q__List_pop_back d w = Ok ((0, d'), set_live (w_live w - 2) w) /\ rep d' xs.
Proof.
  intros H. unfold q__List_pop_back. rewrite (rep_snoc_tail _ _ _ H).
  destruct (list.last xs) as [y|] eqn:El.
  2:{ apply last_None in El as ->. cbn [app] in H. rewrite decide_True by (by rewrite (rep_head _ _ H)).
      destruct x. by eapply pop_only_ok. }
  apply last_Some in El as [ys ->]. rewrite <- app_assoc in H. cbn [app] in H.
  pose proof (ends_differ _ _ _ _ H) as Hne. rewrite (rep_snoc_tail d (ys ++ [y]) x) in Hne
    by (by rewrite <- app_assoc).
  rewrite decide_False by done. pose proof (rep_nodup _ _ H) as Hnd. pose proof (rep_chain _ _ H) as Hch.
  rewrite addrs_app in Hnd, Hch. cbn [addrs fmap list_fmap] in Hnd, Hch.
  rewrite (chain_lookup _ None (addrs ys ++ [y.1]) x.1 [] None) by (by rewrite <- app_assoc).
  rewrite last_of_snoc, (chain_lookup _ _ _ _ _ _ Hch). cbn [first_of].
  erewrite prog_bind_ok.
  2:{ apply (free_lnode_ok d x.1 x.2). apply (rep_lookup d (ys ++ [y]) x []). by rewrite <- app_assoc. }
  cbv beta. cbn [lnodes set_cells set_lnodes].
  destruct (chain_drop_last _ _ _ _ Hnd Hch) as (m & E & Hm). rewrite E.
  erewrite prog_bind_ok by reflexivity. eexists. split; [reflexivity|].
  fields. rewrite <- (app_nil_r (ys ++ [y])). apply rep_removed; rewrite ?app_nil_r, ?addrs_app.
  - by rewrite <- app_assoc.
  - done.
  - cbn. rewrite (rep_head _ _ H), addrs_app. by destruct ys.
  - cbn. by rewrite last_of_snoc.
Qed.

Lemma pop_front_ok d xs x w :
  rep d (x :: xs) ->
  exists d', q__List_pop_front d w = Ok ((0, d'), set_live (w_live w - 2) w) /\ rep d' xs.
Proof.
  intros H. unfold q__List_pop_front. pose proof (rep_head _ _ H) as Eh. cbn in Eh. rewrite Eh.
  destruct xs as [|y ys].
  { rewrite decide_True by (by rewrite (rep_tail _ _ H)). destruct x. by eapply pop_only_ok. }
  pose proof (rep_nodup _ _ H) as Hnd. pose proof (rep_chain _ _ H) as Hch.
  cbn [addrs fmap list_fmap] in Hnd, Hch.
  assert (Hne : tail d <> Some x.1).
  { rewrite (rep_tail _ _ H). cbn [addrs fmap list_fmap]. apply list.NoDup_cons in Hnd as [Hx _].
    rewrite last_of_cons. destruct (last_cases (y.1 :: ys.*1)) as [?|(l & q & E)]; [done|].
    rewrite E, last_of_snoc. rewrite E in Hx. set_solver. }
  rewrite decide_False by done. destruct Hch as (Hx & Hy & Hch'). rewrite Hx. cbn [first_of]. rewrite Hy.
  erewrite prog_bind_ok by (apply (free_lnode_ok d x.1 x.2); apply (rep_lookup d [] x _ H)).
  cbv beta. cbn [lnodes set_cells set_lnodes].
  destruct (chain_drop_first (lnodes d) x.1 y.1 ys.*1 Hnd) as (m & E & Hm); [by split_and!|]. rewrite E.
  erewrite prog_bind_ok by reflexivity. eexists. split; [reflexivity|].
  fields. apply (rep_removed d [] x (y :: ys)); try done.
  cbn. rewrite (rep_tail _ _ H). cbn. by rewrite !last_of_cons.
Qed.

Lemma first_of_middle (l1 : list positive) i l2 :
  first_of (l1 ++ i :: l2) None = Some i -> NoDup (l1 ++ i :: l2) -> l1 = [].
Proof.
  destruct l1 as [|j l1]; [done|]. cbn. intros [= ->] [Hj _]%list.NoDup_cons. set_solver.
Qed.

Lemma last_of_middle (l1 : list positive) i l2 :
  last_of None (l1 ++ i :: l2) = Some i -> NoDup (l1 ++ i :: l2) -> l2 = [].
Proof.
  intros Hl Hnd. destruct (last_cases l2) as [->|(l & q & ->)]; [done|].
  apply nodup_middle in Hnd as (_ & _ & _ & Hi & _). change (i :: l ++ [q]) with ((i :: l) ++ [q]) in Hl.
  rewrite app_assoc, last_of_snoc in Hl. injection Hl as ->. set_solver.
Qed.

(** One block is freed: the node itself is not. *)
Lemma erase_elem_ok d xs x ys w :
  rep d (xs ++ x :: ys) ->
  exists d', q__List_erase_elem d x.1 w = Ok ((0, d'), set_live (w_live w - 1) w) /\ rep d' (xs ++ ys).
Proof.
  intros H. unfold q__List_erase_elem. pose proof (rep_nodup _ _ H) as Hnd. pose proof (rep_chain _ _ H) as Hch.
  rewrite addrs_app in Hnd, Hch. cbn [addrs fmap list_fmap] in Hnd, Hch.
  rewrite (chain_lookup _ _ _ _ _ _ Hch). cbn [prev next].
  destruct (chain_unlink _ _ _ _ Hnd Hch) as (m1 & m2 & E1 & E2 & Hm).
  rewrite E1. erewrite prog_bind_ok by reflexivity. rewrite E2. erewrite prog_bind_ok by reflexivity.
  cbv beta. cbn [head tail set_lnodes size set_ends set_size cells].
  unfold free_data. cbn [cells set_size set_ends set_lnodes]. rewrite (rep_lookup _ _ _ _ H).
  erewrite prog_bind_ok by reflexivity. eexists. split; [reflexivity|].
  pose proof (rep_head _ _ H) as Eh. pose proof (rep_tail _ _ H) as Et. rewrite addrs_app in Eh, Et.
  cbn [addrs fmap list_fmap] in Eh, Et.
  fields. apply rep_removed; [done|by rewrite addrs_app|rewrite addrs_app|rewrite addrs_app].
  - case_decide as Hd.
    + rewrite Eh in Hd. apply first_of_middle in Hd; [|done]. change (addrs xs = []) in Hd. by rewrite Hd.
    + rewrite Eh. unfold addrs. destruct xs as [|z xs]; [|done]. cbn in *. done.
  - case_decide as Hd.
    + rewrite Et in Hd. apply last_of_middle in Hd; [|done]. change (addrs ys = []) in Hd. by rewrite Hd, app_nil_r.
    + rewrite Et. destruct (last_cases (addrs ys)) as [E|(l & q & E)]; unfold addrs in *.
      * rewrite E, last_of_snoc in Et. done.
      * rewrite E. change (x.1 :: l ++ [q]) with ((x.1 :: l) ++ [q]). by rewrite !app_assoc, !last_of_snoc.
Qed.

Lemma rep_fuel d xs : rep d xs -> (length xs <= base.size (lnodes d))%nat.
Proof.
  intros H. rewrite <- (length_fmap fst xs).
  apply (chain_size _ None _ None); [apply (rep_nodup _ _ H)|apply (rep_chain _ _ H)].
Qed.

(** Another value in a node. *)
Lemma rep_update d xs i u v ys :
  rep d (xs ++ (i, u) :: ys) ->
  rep (set_cells (<[i := (Some v.1, v.2)]> (cells d)) d) (xs ++ (i, v) :: ys).
Proof.
  intros H. assert (E : addrs (xs ++ (i, v) :: ys) = addrs (xs ++ (i, u) :: ys)).
  { unfold addrs. by rewrite !fmap_app, !fmap_cons. }
  split; fields; rewrite ?E; try apply H.
  2:{ rewrite (rep_size _ _ H), !blen_app, !blen_cons. done. }
  pose proof (rep_nodup _ _ H) as Hnd. unfold addrs in Hnd. rewrite fmap_app, fmap_cons in Hnd.
  apply nodup_middle in Hnd as (_ & _ & Hx & Hy & _).
  pose proof (rep_cells _ _ H) as Hc. rewrite list.Forall_app, Forall_cons_iff in Hc.
  destruct Hc as (Hcx & _ & Hcy). rewrite list.Forall_app, Forall_cons_iff. cbn [fst snd].
  split_and!; [|by simplify_map_eq|].
  - revert Hcx. apply cells_frame. intros j Hj. assert (j <> i) by (intros ->; done). by simplify_map_eq.
  - revert Hcy. apply cells_frame. intros j Hj. assert (j <> i) by (intros ->; done). by simplify_map_eq.
Qed.

Lemma swap_elem_ok d xs p u ys q v zs :
  rep d (xs ++ (p, u) :: ys ++ (q, v) :: zs) ->
  exists d', q__List_swap_elem d p q = Ok d' /\ rep d' (xs ++ (p, v) :: ys ++ (q, u) :: zs) /\
    lnodes d' = lnodes d /\ head d' = head d.
Proof.
  intros H. unfold q__List_swap_elem. pose proof (rep_lookup _ _ _ _ H) as Hp.
  assert (Hq : cells d !! q = Some (Some v.1, v.2)).
  { apply (rep_lookup d (xs ++ (p, u) :: ys) (q, v) zs). by rewrite <- app_assoc. }
  cbn [fst snd] in Hp. rewrite Hp, Hq. eexists. split; [reflexivity|]. split; [|done].
  pose proof (rep_update d xs p u v _ H) as H1.
  pose proof (rep_update (set_cells (<[p := (Some v.1, v.2)]> (cells d)) d)
    (xs ++ (p, v) :: ys) q v u zs) as H2. rewrite <- !app_assoc in H2. by apply H2.
Qed.

(** ** Going through a list *)

Fixpoint visit {T} xs (body : positive -> cell A -> T -> io (T * bool)) (s : T) : io T :=
  match xs with
  | [] => mret s
  | x :: xs' =>
      '(s', stop) ← body x.1 (Some x.2.1, x.2.2) s;
      if (stop : bool) then mret s' else visit xs' body s'
  end.

Lemma foreach_loop_ok {T} fuel d xs (body : positive -> cell A -> T -> io (T * bool)) p s w :
  chain (lnodes d) p (addrs xs) None -> (length xs < fuel)%nat ->
  Forall (fun x => cells d !! x.1 = Some (Some x.2.1, x.2.2)) xs ->
  foreach_loop fuel d (first_of (addrs xs) None) body s w = visit xs body s w.
Proof.
  revert fuel p s w. induction xs as [|x xs IH]; intros fuel p s w Hch Hf Hc;
    (destruct fuel as [|fuel]; [cbn in Hf; lia|]); [done|].
  apply Forall_cons_iff in Hc as [Hx Hc]. cbn [addrs fmap list_fmap] in Hch |- *.
  cbn [first_of foreach_loop visit chain] in *. destruct Hch as [El Hch].
  unfold qListIterator_deref. rewrite Hx. erewrite prog_bind_ok by reflexivity.
  unfold mbind, prog_bind. destruct (body _ _ s w) as [[[s' stop] w']| | | |]; try done.
  destruct stop; [done|]. unfold qListIterator_next. rewrite El. unfold lift_res. cbn [next].
  by apply (IH fuel (Some x.1)); [|cbn in Hf; lia|].
Qed.

Lemma foreach_ok {T} d xs (body : positive -> cell A -> T -> io (T * bool)) s w :
  rep d xs -> qList_foreach d body s w = visit xs body s w.
Proof.
  intros H. unfold qList_foreach, qList_begin. rewrite (rep_head _ _ H). pose proof (rep_fuel _ _ H).
  apply (foreach_loop_ok _ _ _ _ None); [apply H|lia|apply H].
Qed.

Lemma free_loop_ok fuel d p xs w :
  NoDup (addrs xs) -> chain (lnodes d) p (addrs xs) None -> (length xs < fuel)%nat ->
  Forall (fun x => cells d !! x.1 = Some (Some x.2.1, x.2.2)) xs ->
  exists d', free_loop fuel (first_of (addrs xs) None) d w =
    Ok (d', set_live (w_live w - 2 * blen xs) w).
Proof.
  revert fuel d p w. induction xs as [|x xs IH]; intros fuel d p w Hnd Hch Hf Hc;
    (destruct fuel as [|fuel]; [cbn in Hf; lia|]).
  { exists d. cbn. rewrite set_live_id; [done|]. change (blen []) with 0. lia. }
  apply Forall_cons_iff in Hc as [Hx Hc]. cbn [addrs fmap list_fmap first_of free_loop chain] in *.
  destruct Hch as [El Hch]. apply list.NoDup_cons in Hnd as [Hxn Hnd]. rewrite El.
  rewrite (prog_bind_ok _ _ _ _ _ (free_lnode_ok d x.1 x.2 w Hx)). cbn [next].
  destruct (IH fuel (set_cells (delete x.1 (cells d)) (set_lnodes (delete x.1 (lnodes d)) d)) (Some x.1)
    (set_live (w_live w - 2) w)) as (d' & E).
  - done.
  - fields. by apply chain_delete.
  - cbn in Hf. lia.
  - fields. by apply cells_gone.
  - exists d'. etrans; [exact E|]. do 2 f_equal.
    change (set_live (w_live w - 2 - 2 * blen xs) w = set_live (w_live w - 2 * blen (x :: xs)) w).
    rewrite blen_cons. f_equal. lia.
Qed.

(** ** Copying *)

Lemma copy_loop_ok xs : forall r ys w,
  rep r ys -> mem_ok w ->
  exists r' ys', visit xs (fun _ c r =>
      match c with
      | (None, _) => pundef
      | (Some a, n) => '(_, r') ← q__List_push_back r a n; mret (r', false)
      end) r w = Ok (r', set_live (w_live w + 2 * blen xs) w) /\
    rep r' ys' /\ values ys' = values ys ++ values xs.
Proof.
  induction xs as [|[i [a n]] xs IH]; intros r ys w Hr Hm; cbn [visit].
  { exists r, ys. rewrite set_live_id by (change (blen []) with 0; lia).
    split_and!; [done|done|by rewrite app_nil_r]. }
  destruct (push_back_ok r ys a n w Hr Hm) as (r1 & E1 & Hr1).
  destruct (IH r1 _ (grown w) Hr1) as (r' & ys' & E & Hr' & Hv); [done|].
  exists r', ys'. split.
  - cbn [fst snd]. erewrite prog_bind_ok by (erewrite prog_bind_ok by exact E1; reflexivity).
    cbv iota. etrans; [exact E|]. do 2 f_equal. unfold grown.
    change (set_live (w_live w + 2 + 2 * blen xs) w = set_live (w_live w + 2 * blen ((i, (a, n)) :: xs)) w).
    rewrite blen_cons. f_equal. lia.
  - split; [done|]. rewrite Hv. unfold values. rewrite fmap_app, <- app_assoc. done.
Qed.

(** Copy and destruction.  [q__List_copy] builds a list of its own with the same
    elements; [q__List_destructor] stops, frees the two blocks of every node and
    leaves an empty list. *)
Theorem list_copy_destroy d l w :
  contains d l -> mem_ok w ->
  (exists r, q__List_copy d w = Ok (r, set_live (w_live w + 2 * blen l) w) /\ contains r l) /\
  (exists d', q__List_destructor d w = Ok ((0, d'), set_live (w_live w - 2 * blen l) w) /\ contains d' []).
Proof.
  intros (xs & H & <-) Hm. assert (Hl : blen (values xs) = blen xs) by (unfold blen, values; by rewrite length_fmap).
  rewrite Hl. split.
  - unfold q__List_copy. rewrite (foreach_ok d xs _ _ _ H).
    destruct (copy_loop_ok xs qList_constructor [] w rep_constructor Hm) as (r & ys & E & Hr & Hv).
    exists r. split; [exact E|]. by exists ys.
  - unfold q__List_destructor. rewrite (rep_head _ _ H). pose proof (rep_fuel _ _ H).
    destruct (free_loop_ok (S (base.size (lnodes d))) d None xs w) as (d' & E); [apply H|apply H|lia|apply H|].
    rewrite (prog_bind_ok _ _ _ _ _ E). eexists. split; [reflexivity|].
    exists []. split; [|done]. split; done || constructor.
Qed.

(** ** Both ends *)

(** The calls that work at the ends of a list. *)
Inductive list_call : Type :=
| PushBack (a : A) (n : Z)
| PushFront (a : A) (n : Z)
| PopBack
| PopFront.

Definition run_call (c : list_call) d : io (Z * qListDescriptor A) :=
  match c with
  | PushBack a n => q__List_push_back d a n
  | PushFront a n => q__List_push_front d a n
  | PopBack => q__List_pop_back d
  | PopFront => q__List_pop_front d
  end.

Fixpoint run_calls (cs : list list_call) d : io (list Z * qListDescriptor A) :=
  match cs with
  | [] => mret ([], d)
  | c :: cs' =>
      '(r, d) ← run_call c d;
      '(rs, d) ← run_calls cs' d;
      mret (r :: rs, d)
  end.

(** What a call does to the sequence of the elements, and its result. *)
Definition abs_call (c : list_call) (l : list (A * Z)) : Z * list (A * Z) :=
  match c, l with
  | PushBack a n, _ => (0, l ++ [(a, n)])
  | PushFront a n, _ => (0, (a, n) :: l)
  | PopBack, [] | PopFront, [] => (-1, [])
  | PopBack, _ => (0, removelast l)
  | PopFront, _ :: l' => (0, l')
  end.

Fixpoint abs_calls (cs : list list_call) (l : list (A * Z)) : list Z * list (A * Z) :=
  match cs with
  | [] => ([], l)
  | c :: cs' =>
      let '(r, l1) := abs_call c l in
      let '(rs, l2) := abs_calls cs' l1 in
      (r :: rs, l2)
  end.

(** A call on an empty list that takes an element sets the error. *)
Definition abs_err (c : list_call) (l : list (A * Z)) (e : Z) : Z :=
  if (abs_call c l).1 =? 0 then e else ZHWK_ERR_LIST_EMPTY.

Lemma run_call_ok c d l w :
  contains d l -> mem_ok w ->
  exists d' w', run_call c d w = Ok (((abs_call c l).1, d'), w') /\ contains d' (abs_call c l).2 /\
    mem_ok w' /\ w_err w' = abs_err c l (w_err w) /\
    w_live w' - 2 * blen (abs_call c l).2 = w_live w - 2 * blen l.
Proof.
  intros (xs & H & <-) Hm. unfold abs_err. destruct c as [a n|a n| |]; cbn [run_call abs_call].
  - destruct (push_back_ok d xs a n w H Hm) as (d' & E & Hr). exists d', (grown w).
    split_and!; try done; [|cbn; unfold blen, values; rewrite length_app; cbn; lia].
    eexists. split; [exact Hr|]. unfold values. by rewrite fmap_app.
  - destruct (push_front_ok d xs a n w H Hm) as (d' & E & Hr). exists d', (grown w).
    split_and!; try done; [by eexists|cbn; rewrite (blen_cons (a, n)); lia].
  - destruct (list.last xs) as [x|] eqn:El.
    + apply last_Some in El as [ys ->]. destruct (pop_back_ok d ys x w H) as (d' & E & Hr).
      assert (Ev : values (ys ++ [x]) = values ys ++ [x.2]) by (unfold values; by rewrite fmap_app).
      rewrite Ev. exists d', (set_live (w_live w - 2) w).
      destruct (values ys ++ [x.2]) as [|z l] eqn:Ez; [by destruct (values ys)|]. rewrite <- Ez.
      cbn [fst snd]. rewrite removelast_last.
      split_and!; try done; [by exists ys|cbn; rewrite blen_app; change (blen [x.2]) with 1; lia].
    + apply last_None in El as ->. cbn [values fmap list_fmap fst snd]. unfold q__List_pop_back.
      rewrite (rep_tail _ _ H). cbn. eexists _, _. split; [reflexivity|]. split_and!; try done. by exists [].
  - destruct xs as [|x xs].
    + cbn [values fmap list_fmap fst snd]. unfold q__List_pop_front. rewrite (rep_head _ _ H). cbn.
      eexists _, _. split; [reflexivity|]. split_and!; try done. by exists [].
    + destruct (pop_front_ok d xs x w H) as (d' & E & Hr). exists d', (set_live (w_live w - 2) w).
      split_and!; try done; [by exists xs|].
      change (w_live w - 2 - 2 * blen (values xs) = w_live w - 2 * blen (x.2 :: values xs)).
      rewrite blen_cons. lia.
Qed.

(** C20. Refinement.  Whatever sequence of [push_back], [push_front], [pop_back] and
    [pop_front] is called on a list, the results and the elements it ends with
    are those of a double-ended queue: a call that takes an element fails, and
    sets the error, on the empty list only.  Two blocks are live for each
    element. *)
Theorem list_refines cs : forall d l w,
  contains d l -> mem_ok w ->
  exists d' w', run_calls cs d w = Ok (((abs_calls cs l).1, d'), w') /\
    contains d' (abs_calls cs l).2 /\
    w_err w' = (if existsb (fun r => negb (r =? 0)) (abs_calls cs l).1
                then ZHWK_ERR_LIST_EMPTY else w_err w) /\
    w_live w' = w_live w + 2 * (blen (abs_calls cs l).2 - blen l).
Proof.
  induction cs as [|c cs IH]; intros d l w Hd Hm; cbn [run_calls abs_calls].
  { exists d, w. split_and!; [done|done|done|]. cbn. lia. }
  destruct (run_call_ok c d l w Hd Hm) as (d1 & w1 & E & Hd1 & Hm1 & He1 & Hl1).
  rewrite (prog_bind_ok _ _ _ _ _ E). unfold abs_err in He1. destruct (abs_call c l) as [r l1]. cbn [fst snd] in *.
  destruct (IH d1 l1 w1 Hd1 Hm1) as (d2 & w2 & E2 & Hd2 & He2 & Hl2).
  rewrite (prog_bind_ok _ _ _ _ _ E2). destruct (abs_calls cs l1) as [rs l2]. cbn [fst snd] in *.
  exists d2, w2. split_and!; [done|done| |lia]. rewrite He2, He1. cbn [existsb].
  by destruct (r =? 0), (existsb _ rs).
Qed.

(** Editing in place.  [q__List_erase_elem] takes the element at an iterator out
    and keeps the order of the others and their iterators; it frees the data but
    not the node, so that one block leaks.  [q__List_swap_elem] exchanges the
    elements at two iterators, which stay where they are. *)
Theorem list_edit d xs x ys w :
  rep d (xs ++ x :: ys) ->
  (exists d', q__List_erase_elem d x.1 w = Ok ((0, d'), set_live (w_live w - 1) w) /\ rep d' (xs ++ ys)) /\
  (forall ys1 y ys2, ys = ys1 ++ y :: ys2 -> exists d', q__List_swap_elem d x.1 y.1 = Ok d' /\
    rep d' (xs ++ (x.1, y.2) :: ys1 ++ (y.1, x.2) :: ys2)).
Proof.
  intros H. split; [by apply erase_elem_ok|]. intros ys1 y ys2 ->. destruct x as [p u], y as [q v].
  destruct (swap_elem_ok d xs p u ys1 q v ys2 H) as (d' & E & Hr & _). by exists d'.
Qed.

End list_theorems.

(** ** The theorems at concrete inputs *)

Definition three : qListDescriptor Z :=
  LDesc (Some 1%positive) (Some 3%positive) 3
    (<[1%positive := Link None (Some 2%positive)]> (<[2%positive := Link (Some 1%positive) (Some 3%positive)]>
      (<[3%positive := Link (Some 2%positive) None]> ∅)))
    (<[1%positive := (Some 30, 4)]> (<[2%positive := (Some 10, 4)]> (<[3%positive := (Some 20, 4)]> ∅))) 4.

Definition three_nodes : list (positive * (Z * Z)) :=
  [(1%positive, (30, 4)); (2%positive, (10, 4)); (3%positive, (20, 4))].

Lemma three_rep : rep three three_nodes.
Proof.
  split; [|by split_and!|by repeat constructor|done|done|done|by repeat constructor].
  apply (bool_decide_unpack _). by vm_compute.
Qed.

Lemma list_refines_witness :
  exists d' w', run_calls [PushFront 5 4; PopBack; PopBack; PopBack; PopBack; PopBack] three (start []) =
      Ok (([0; 0; 0; 0; 0; -1], d'), w') /\ contains d' [] /\ w_err w' = ZHWK_ERR_LIST_EMPTY /\ w_live w' = -6.
Proof.
  apply (list_refines [PushFront 5 4; PopBack; PopBack; PopBack; PopBack; PopBack] three
    [(30, 4); (10, 4); (20, 4)]); [|done]. exists three_nodes. split; [apply three_rep|done].
Defined.

Lemma list_edit_witness :
  exists d', q__List_erase_elem three 1%positive (start []) = Ok ((0, d'), set_live (-1) (start [])) /\
    rep d' [(2%positive, (10, 4)); (3%positive, (20, 4))].
Proof.
  apply (list_edit three [] (1%positive, (30, 4)) [(2%positive, (10, 4)); (3%positive, (20, 4))] (start [])).
  apply three_rep.
Defined.

Lemma list_copy_destroy_witness :
  exists r, q__List_copy three (start []) = Ok (r, set_live 6 (start [])) /\
    contains r [(30, 4); (10, 4); (20, 4)].
Proof.
  apply (list_copy_destroy three [(30, 4); (10, 4); (20, 4)] (start [])); [|done].
  exists three_nodes. split; [apply three_rep|done].
Defined.
