(* ===== verification/QSort.v ===== *)
(** * Sorting of lists (zhwkre/alg.h, zhwkre/algorithm/bubble_sort.c)

    The loop of the source leaves the pass at the first exchange and starts
    again, so that the number of passes is the number of inversions and one more:
    [bubble_sort] takes that number as fuel, and the square of the length is
    enough ([bubble_sort_spec]). *)

From Stdlib Require Import Sorting.Sorted.
From S2P Require Import Prelude World Chain QList.
Local Open Scope Z_scope.

Section sort_operations.
Context {A : Type}.
Abbreviation desc_t := (qListDescriptor A).

(** A comparator gets two iterators; it may read their [data] and [size]. *)
(** The [for] loop: from [it] on, the first two neighbours on which [cmpr] is not
    0 are exchanged and the loop is left; the result tells whether it was. *)
Fixpoint bubble_pass (cmpr : cell A -> cell A -> Z) (fuel : nat) (d : desc_t) (it : option positive)
  : res (desc_t * bool) :=
  match fuel with
  | O => Diverged
  | S fuel' =>
      match it with
      | None => Undef
      | Some i =>
          n ← qListIterator_next d i;
          match n with
          | None => mret (d, false)
          | Some j =>
              ci ← qListIterator_deref d i;
              cj ← qListIterator_deref d j;
              if negb (cmpr ci cj =? 0) then
                d ← q__List_swap_elem d i j;
                mret (d, true)
              else bubble_pass cmpr fuel' d n
          end
      end
  end.

(** The [while] loop, [fuel] passes at most. *)
Fixpoint bubble_sort (cmpr : cell A -> cell A -> Z) (fuel : nat) (d : desc_t) : res desc_t :=
  match fuel with
  | O => Diverged
  | S fuel' =>
      '(d, exchanged) ← bubble_pass cmpr (S (base.size (lnodes d))) d (head d);
      if (exchanged : bool) then bubble_sort cmpr fuel' d else mret d
  end.

End sort_operations.

(** * Theorems *)

Section sort_theorems.
Context {A : Type} (cmpr : cell A -> cell A -> Z).
Implicit Types (d : qListDescriptor A) (xs : list (positive * (A * Z))).

(** The comparator's answer for two elements is not 0. *)
Definition gt (u v : A * Z) : bool := negb (cmpr (Some u.1, u.2) (Some v.1, v.2) =? 0).

(** No neighbours are out of order. *)
Fixpoint settled (l : list (A * Z)) : Prop :=
  match l with
  | u :: (v :: _) as l' => gt u v = false /\ settled l'
  | _ => True
  end.

Lemma bubble_pass_ok fuel d xs0 xs p :
  rep d (xs0 ++ xs) -> xs <> [] -> (length xs < fuel)%nat -> chain (lnodes d) p (addrs xs) None ->
  exists d' b, bubble_pass cmpr fuel d (first_of (addrs xs) None) = Ok (d', b) /\
    if (b : bool) then
      exists ys x y zs, xs = ys ++ x :: y :: zs /\ gt x.2 y.2 = true /\
        rep d' (xs0 ++ ys ++ (x.1, y.2) :: (y.1, x.2) :: zs)
    else d' = d /\ settled (values xs).
Proof.
  revert fuel xs0 p. induction xs as [|x xs IH]; intros fuel xs0 p H Hne Hf Hch; [done|].
  destruct fuel as [|fuel]; [cbn in Hf; lia|]. cbn [addrs fmap list_fmap first_of bubble_pass chain] in *.
  destruct Hch as [El Hch]. unfold qListIterator_next. rewrite El. cbn [mbind res_bind next].
  destruct xs as [|y xs].
  { exists d, false. by split_and!. }
  cbn [fmap list_fmap first_of]. unfold qListIterator_deref.
  rewrite (rep_lookup _ _ _ _ H). rewrite (rep_lookup d (xs0 ++ [x]) y xs) by (by rewrite <- app_assoc).
  cbn [mbind res_bind]. destruct (negb _) eqn:Eg.
  - destruct x as [i u], y as [j v]. destruct (swap_elem_ok d xs0 i u [] j v xs H) as (d' & E & Hr & _).
    cbn [fst snd] in *. rewrite E. exists d', true. split; [done|].
    exists [], (i, u), (j, v), xs. by split_and!.
  - destruct (IH fuel (xs0 ++ [x]) (Some x.1)) as (d' & b & E & Hb);
      [by rewrite <- app_assoc|done|cbn in *; lia|done|].
    exists d', b. split; [exact E|]. destruct b.
    + destruct Hb as (ys & x' & y' & zs & Ez & Hg & Hr). exists (x :: ys), x', y', zs.
      rewrite Ez. split_and!; [done|done|]. by rewrite <- app_assoc in Hr.
    + destruct Hb as [-> Hs]. split; [done|]. by split.
Qed.

(** ** Inversions *)

Definition above (u : A * Z) (l : list (A * Z)) : nat := length (filter (fun v => gt u v = true) l).

Fixpoint inversions (l : list (A * Z)) : nat :=
  match l with
  | [] => 0
  | u :: l' => above u l' + inversions l'
  end.

Lemma above_app u l1 l2 : above u (l1 ++ l2) = (above u l1 + above u l2)%nat.
Proof. unfold above. by rewrite list.filter_app, length_app. Qed.

Lemma above_cons u v l : above u (v :: l) = ((if gt u v then 1 else 0) + above u l)%nat.
Proof. unfold above. rewrite list.filter_cons. destruct (gt u v) eqn:E; by case_decide. Qed.

Lemma above_length u l : (above u l <= length l)%nat.
Proof. apply list.length_filter. Qed.

Lemma inversions_swap l1 u v l2 :
  gt u v = true -> gt v u = false ->
  inversions (l1 ++ u :: v :: l2) = S (inversions (l1 ++ v :: u :: l2)).
Proof.
  intros H1 H2. induction l1 as [|x l1 IH]; cbn [app inversions].
  - rewrite !above_cons, H1, H2. lia.
  - rewrite IH, !above_app, !above_cons. lia.
Qed.

Lemma inversions_bound l : (inversions l <= length l * length l)%nat.
Proof.
  induction l as [|u l IH]; [done|]. cbn [inversions length].
  pose proof (above_length u l). nia.
Qed.

(** ** Sorting *)

Lemma settled_sorted l :
  (forall u v w, gt u v = false -> gt v w = false -> gt u w = false) ->
  settled l -> StronglySorted (fun u v => gt u v = false) l.
Proof.
  intros Ht. induction l as [|u l IH]; [constructor|]. intros Hs.
  destruct l as [|v l]; [by repeat constructor|]. destruct Hs as [Huv Hs]. specialize (IH Hs).
  constructor; [done|]. constructor; [done|].
  apply StronglySorted_inv in IH as [_ Hv]. eapply list.Forall_impl; [exact Hv|]. cbn. intros w. by apply Ht.
Qed.

Lemma bubble_sort_ok fuel : forall d xs,
  (forall u v, gt u v = true -> gt v u = false) ->
  rep d xs -> xs <> [] -> (inversions (values xs) < fuel)%nat ->
  exists d' xs', bubble_sort cmpr fuel d = Ok d' /\ rep d' xs' /\ addrs xs' = addrs xs /\
    values xs' ≡ₚ values xs /\ settled (values xs').
Proof.
  induction fuel as [|fuel IH]; intros d xs Hasym H Hne Hf; [lia|]. cbn [bubble_sort].
  rewrite (rep_head _ _ H). pose proof (rep_fuel _ _ H).
  destruct (bubble_pass_ok (S (base.size (lnodes d))) d [] xs None H Hne ltac:(lia) (rep_chain _ _ H))
    as (d1 & b & E & Hb). rewrite E. cbn [mbind res_bind]. destruct b.
  2:{ destruct Hb as [-> Hs]. by exists d, xs. }
  destruct Hb as (ys & x & y & zs & -> & Hg & Hr). cbn [app] in Hr.
  destruct (IH d1 _ Hasym Hr) as (d' & xs' & E' & Hr' & Ha & Hp & Hs); [by destruct ys| |].
  - unfold values in *. rewrite !fmap_app, !fmap_cons in *. cbn [snd].
    rewrite (inversions_swap _ x.2 y.2) in Hf by auto. lia.
  - exists d', xs'. split_and!; [done|done| | |done].
    + rewrite Ha. unfold addrs. by rewrite !fmap_app, !fmap_cons.
    + rewrite Hp. unfold values. rewrite !fmap_app, !fmap_cons. cbn [snd].
      apply Permutation_app_head, Permutation_swap.
Qed.

(** A three-way comparator makes the sort run for ever.  alg.h asks for a
    result that is positive only if the first element is the greater; but the
    sort exchanges neighbours on any result that is not 0, so that two elements
    which compare as -1 one way and 1 the other are exchanged again and again. *)
Lemma bubble_sort_diverges d x y zs fuel :
  rep d (x :: y :: zs) -> gt x.2 y.2 = true -> gt y.2 x.2 = true ->
  bubble_sort cmpr fuel d = Diverged.
Proof.
  revert d x y. induction fuel as [|fuel IH]; intros d x y H Hxy Hyx; [done|].
  cbn [bubble_sort]. rewrite (rep_head _ _ H). pose proof (rep_chain _ _ H) as (El & _).
  cbn [addrs fmap list_fmap first_of bubble_pass] in *. unfold qListIterator_next, qListIterator_deref.
  rewrite El. cbn [next mbind res_bind fmap list_fmap first_of].
  rewrite (rep_lookup d [] x (y :: zs) H), (rep_lookup d [x] y zs H). cbn [mbind res_bind].
  unfold gt in Hxy. rewrite Hxy. destruct x as [i u], y as [j v].
  destruct (swap_elem_ok d [] i u [] j v zs H) as (d' & E & Hr & _). cbn [fst snd app] in *. rewrite E.
  cbn [mbind res_bind]. by apply (IH d' (i, v) (j, u)).
Qed.

(** C33. Sorting.  With a comparator that is nonzero exactly when its first element
    comes after its second, in some total preorder, [bubble_sort] terminates on
    every list that is not empty: the elements are those of the list in
    increasing order, and the nodes keep their places.  On an empty list it
    follows a NULL pointer.  With a comparator that is nonzero both ways on the
    first two elements, as the one alg.h describes may be, it never terminates. *)
Theorem bubble_sort_spec d xs :
  rep d xs ->
  ((forall u v, gt u v = true -> gt v u = false) ->
   (forall u v w, gt u v = false -> gt v w = false -> gt u w = false) ->
   xs <> [] -> forall fuel, (length xs * length xs < fuel)%nat ->
   exists d' xs', bubble_sort cmpr fuel d = Ok d' /\ rep d' xs' /\ addrs xs' = addrs xs /\
     values xs' ≡ₚ values xs /\ StronglySorted (fun u v => gt u v = false) (values xs')) /\
  (xs = [] -> forall fuel, bubble_sort cmpr (S fuel) d = Undef) /\
  (forall x y zs, xs = x :: y :: zs -> gt x.2 y.2 = true -> gt y.2 x.2 = true ->
   forall fuel, bubble_sort cmpr fuel d = Diverged).
Proof.
  intros H. split; [|split].
  - intros Hasym Htrans Hne fuel Hf. pose proof (inversions_bound (values xs)) as Hi.
    rewrite (length_fmap snd xs : length (values xs) = _) in Hi.
    destruct (bubble_sort_ok fuel d xs Hasym H Hne ltac:(lia)) as (d' & xs' & E & Hr & Ha & Hp & Hs).
    exists d', xs'. split_and!; try done. by apply settled_sorted.
  - intros -> fuel. cbn [bubble_sort]. by rewrite (rep_head _ _ H).
  - intros x y zs -> Hxy Hyx fuel. by eapply bubble_sort_diverges.
Qed.

End sort_theorems.

(** ** The theorems at concrete inputs *)

Definition by_value (a b : cell Z) : Z :=
  match a.1, b.1 with Some x, Some y => if y <? x then 1 else 0 | _, _ => 0 end.

(** The comparator of alg.h's comment. *)
Definition three_way (a b : cell Z) : Z :=
  match a.1, b.1 with Some x, Some y => x - y | _, _ => 0 end.

Example bubble_sort_three :
  match bubble_sort by_value 10 three with
  | Ok d => (qListIterator_deref d 1, qListIterator_deref d 2, qListIterator_deref d 3) =
      (Ok (Some 10, 4), Ok (Some 20, 4), Ok (Some 30, 4))
  | _ => False
  end.
Proof. reflexivity. Qed.

Lemma gt_by_value u v : gt by_value u v = (v.1 <? u.1).
Proof. unfold gt, by_value. cbn. by destruct (v.1 <? u.1). Qed.

Lemma bubble_sort_spec_witness :
  exists d' xs', bubble_sort by_value 10 three = Ok d' /\ rep d' xs' /\ addrs xs' = addrs three_nodes /\
    values xs' ≡ₚ values three_nodes /\ StronglySorted (fun u v => gt by_value u v = false) (values xs').
Proof.
  apply (bubble_sort_spec by_value three three_nodes three_rep); [| |done|cbn; lia].
  - intros u v. rewrite !gt_by_value. intros H%Z.ltb_lt. apply Z.ltb_ge. lia.
  - intros u v w. rewrite !gt_by_value. intros H1%Z.ltb_ge H2%Z.ltb_ge. apply Z.ltb_ge. lia.
Defined.

Example three_way_diverges fuel : bubble_sort three_way fuel three = Diverged.
Proof.
  apply (bubble_sort_diverges three_way three (1%positive, (30, 4)) (2%positive, (10, 4))
    [(3%positive, (20, 4))] fuel); [apply three_rep|done|done].
Qed.
