(* ===== verification/QMap.v ===== *)
(** * Hash maps (zhwkre/unordered_map.h, zhwkre/containers/unordered_map.c)

    An array of lists of entries.  An entry points to a copy of the key and to a
    copy of the value, which it owns: the blocks are part of the entry here.  The
    hash function is the caller's ([qHashFuncProto]): a parameter.

    The source compares keys with [memcmp] over the size of the key asked for,
    whatever the size of the stored one, and overwrites values whatever their
    size: the theorems are about maps all of whose keys have one size, and all of
    whose values have one, as the macros of the header, which pass [sizeof], make
    them for variables of one type. *)

From S2P Require Import Prelude World Chain QList.
Local Open Scope Z_scope.

(** ** Data *)

Record qMapData : Type := MapData {
  key : option (list byte);      (* None is NULL *)
  value : option (list byte);
  keylen : Z;
  valuelen : Z
}.

Record qMap : Type := Map {
  listArray : option (list (qListDescriptor qMapData));
  maxlength : Z;                 (* unsigned int *)
  counts : Z                     (* unsigned int *)
}.

Definition qHashFuncProto : Type := list byte -> Z -> Z.

(** [sizeof(qMapData)] *)
Definition sizeof_qMapData : Z := 24.

(** ** Operations *)

Definition qMap_constructor (maxhashv : Z) : io qMap :=
  ok ← malloc;
  if negb ok then SETERR ZHWK_ERR_MM_ALLOC_FAIL;; mret (Map None maxhashv 0)
  else mret (Map (Some (replicate (Z.to_nat maxhashv) qList_constructor)) maxhashv 0).

(** When the key cannot be allocated [value] stays uninitialised; the caller does
    not read it. *)
Definition q__MapData_constructor (k v : list byte) (keysize valuesize : Z) : io qMapData :=
  kb ← duplicate k keysize;
  match kb with
  | None => mret (MapData None None keysize valuesize)
  | Some _ =>
      vb ← duplicate v valuesize;
      mret (MapData kb vb keysize valuesize)
  end.

Definition qMap_size (thas : qMap) : Z := counts thas.

(** [memcmp(a, b, n) == 0]; both operands must have [n] bytes. *)
Definition memcmp0 (a b : list byte) (n : Z) : res bool :=
  if (n <=? blen a) && (n <=? blen b) then Ok (bool_decide (btake n a = btake n b)) else Undef.

(** The loop that looks for the key in its list; the operations share it. *)
Definition find_entry (d : qListDescriptor qMapData) (k : list byte) (keysize : Z)
  : io (option positive) :=
  qList_foreach d (fun i c found =>
    match c with
    | (Some md, _) =>
        match key md with
        | None => pundef
        | Some kb =>
            eq ← lift_res (memcmp0 kb k keysize);
            if (eq : bool) then mret (Some i, true) else mret (found, false)
        end
    | (None, _) => pundef
    end) None.

(** [thas->listArray[hashv]] *)
Definition bucket (thas : qMap) (hashv : Z) : res (qListDescriptor qMapData) :=
  match listArray thas with
  | None => Undef
  | Some ls => match ls !! Z.to_nat hashv with Some d => Ok d | None => Undef end
  end.

Definition set_bucket (thas : qMap) (hashv : Z) (d : qListDescriptor qMapData) (n : Z) : qMap :=
  Map (<[Z.to_nat hashv := d]> <$> listArray thas) (maxlength thas) n.

(** [memcpy(md->value, value, valuesize)] for the entry at [i]. *)
Definition overwrite (d : qListDescriptor qMapData) (i : positive) (v : list byte) (valuesize : Z)
  : res (qListDescriptor qMapData) :=
  match cells d !! i with
  | Some (Some md, n) =>
      match value md with
      | None => Undef
      | Some vb =>
          vb ← memcpy vb 0 v valuesize;
          mret (set_cells (<[i := (Some (MapData (key md) (Some vb) (keylen md) (valuelen md)), n)]> (cells d)) d)
      end
  | _ => Undef
  end.

(** The result of the last [push_back] is ignored. *)
Definition q__Map_insert (thas : qMap) (k v : list byte) (keysize valuesize : Z) (hashf : qHashFuncProto)
  : io (Z * qMap) :=
  let hashv := hashf k keysize in
  d ← lift_res (bucket thas hashv);
  found ← find_entry d k keysize;
  match found with
  | Some i =>
      d ← lift_res (overwrite d i v valuesize);
      mret (0, set_bucket thas hashv d (counts thas))
  | None =>
      md ← q__MapData_constructor k v keysize valuesize;
      match key md, value md with
      | Some _, Some _ =>
          '(_, d) ← q__List_push_back d md sizeof_qMapData;
          mret (0, set_bucket thas hashv d (u32 (counts thas + 1)))
      | _, _ => mret (-1, thas)
      end
  end.

(** [free(md->key); free(md->value)] *)
Definition free_entry (d : qListDescriptor qMapData) (i : positive) : io unit :=
  match cells d !! i with
  | Some (Some md, _) =>
      match key md with Some _ => free | None => mret tt end;;
      match value md with Some _ => free | None => mret tt end
  | _ => pundef
  end.

Definition q__Map_erase (thas : qMap) (k : list byte) (keysize : Z) (hashf : qHashFuncProto)
  : io (Z * qMap) :=
  let hashv := hashf k keysize in
  d ← lift_res (bucket thas hashv);
  found ← find_entry d k keysize;
  match found with
  | Some i =>
      free_entry d i;;
      '(_, d) ← q__List_erase_elem d i;
      mret (0, set_bucket thas hashv d (u32 (counts thas - 1)))
  | None => mret (-1, thas)
  end.

(** The entry pointed to. *)
Definition q__Map_ptr_at (thas : qMap) (k : list byte) (keysize : Z) (hashf : qHashFuncProto)
  : io (option qMapData) :=
  let hashv := hashf k keysize in
  d ← lift_res (bucket thas hashv);
  found ← find_entry d k keysize;
  match found with
  | Some i =>
      c ← lift_res (qListIterator_deref d i);
      mret c.1
  | None => mret None
  end.

(** A store of the caller in the value that [q__Map_ptr_at] has pointed to. *)
Definition store_value (thas : qMap) (k : list byte) (keysize : Z) (hashf : qHashFuncProto)
    (v : list byte) : io qMap :=
  let hashv := hashf k keysize in
  d ← lift_res (bucket thas hashv);
  found ← find_entry d k keysize;
  match found with
  | Some i =>
      d ← lift_res (overwrite d i v (blen v));
      mret (set_bucket thas hashv d (counts thas))
  | None => pundef
  end.

(** One turn of the loop of [q__Map_clear]. *)
Definition clear_bucket (d : qListDescriptor qMapData) : io (qListDescriptor qMapData) :=
  if size d =? 0 then mret d else
  qList_foreach d (fun i _ _ => free_entry d i;; mret (tt, false)) tt;;
  '(_, d) ← q__List_destructor d;
  mret d.

Fixpoint clear_loop (ls : list (qListDescriptor qMapData)) : io (list (qListDescriptor qMapData)) :=
  match ls with
  | [] => mret []
  | d :: ls' =>
      d ← clear_bucket d;
      ls' ← clear_loop ls';
      mret (d :: ls')
  end.

(** The array has [maxlength] lists. *)
Definition q__Map_clear (thas : qMap) : io (Z * qMap) :=
  match listArray thas with
  | None => if maxlength thas =? 0 then mret (0, Map None 0 0) else pundef
  | Some ls =>
      ls ← clear_loop ls;
      mret (0, Map (Some ls) (maxlength thas) 0)
  end.

(** * Theorems *)

Section map_theorems.
Context (ks vs : Z).
Implicit Types (kvs : list (list byte * list byte)) (xs : list (positive * (qMapData * Z))).

(** An entry as it lies in its list. *)
Definition pack (kv : list byte * list byte) : qMapData * Z :=
  (MapData (Some kv.1) (Some kv.2) ks vs, sizeof_qMapData).

(** ** The search *)

Lemma memcmp0_eq a b : blen a = ks -> blen b = ks -> memcmp0 a b ks = Ok (bool_decide (a = b)).
Proof.
  intros Ha Hb. unfold memcmp0. rewrite !(proj2 (Z.leb_le _ _)) by lia. cbn [andb].
  by rewrite !btake_all by lia.
Qed.

Lemma find_entry_ok d xs kvs k w :
  rep d xs -> values xs = pack <$> kvs -> Forall (fun kv => blen kv.1 = ks) kvs -> blen k = ks ->
  exists r, find_entry d k ks w = Ok (r, w) /\
    match r with
    | None => k ∉ kvs.*1
    | Some i => exists xs1 xs2 kvs1 v kvs2, xs = xs1 ++ (i, pack (k, v)) :: xs2 /\
        kvs = kvs1 ++ (k, v) :: kvs2 /\ values xs1 = pack <$> kvs1 /\ values xs2 = pack <$> kvs2
    end.
Proof.
  intros H Hv Hk Hl. unfold find_entry. rewrite (foreach_ok d xs _ _ _ H). clear H.
  revert kvs Hv Hk. induction xs as [|[i e] xs IH]; intros kvs Hv Hk; cbn [visit].
  { destruct kvs; [|done]. exists None. split; [done|set_solver]. }
  destruct kvs as [|[k' v] kvs]; [done|]. cbn in Hv. injection Hv as -> Hv.
  apply Forall_cons_iff in Hk as [Hk' Hk]. cbn [fst snd pack key] in *.
  rewrite memcmp0_eq by done. case_bool_decide as Hd; erewrite prog_bind_ok by reflexivity; cbv iota beta.
  - subst k'. exists (Some i). split; [done|]. by exists [], xs, [], v, kvs.
  - destruct (IH kvs Hv Hk) as (r & E & Hr). exists r. split; [exact E|]. destruct r as [j|].
    + destruct Hr as (xs1 & xs2 & kvs1 & v' & kvs2 & -> & -> & E1 & E2).
      exists ((i, pack (k', v)) :: xs1), xs2, ((k', v) :: kvs1), v', kvs2. split_and!; try done.
      unfold values in *. cbn. by rewrite E1.
    + set_solver.
Qed.

Lemma ltm_middle (P Q : list (list byte * list byte)) k v :
  NoDup (P ++ (k, v) :: Q).*1 ->
  k ∉ (P ++ Q).*1 /\ NoDup (P ++ Q).*1 /\
  list_to_map (P ++ (k, v) :: Q) =@{gmap (list byte) (list byte)} <[k := v]> (list_to_map (P ++ Q)).
Proof.
  intros Hnd. assert (Hp : P ++ (k, v) :: Q ≡ₚ (k, v) :: P ++ Q) by (symmetry; apply Permutation_middle).
  pose proof Hnd as Hnd2. rewrite Hp, fmap_cons, list.NoDup_cons in Hnd2. destruct Hnd2 as [Hk Hn].
  split_and!; [done|done|]. rewrite (list_to_map_proper _ _ Hnd Hp). done.
Qed.

(** ** Invariant *)

Context (maxhashv : Z) (hashf : qHashFuncProto).

(** The keys and values of the list with index [h]. *)
Record bucket_ok (h : nat) (d : qListDescriptor qMapData) kvs : Prop := BucketOk {
  b_contains : contains d (pack <$> kvs);
  b_keys : Forall (fun kv => blen kv.1 = ks /\ blen kv.2 = vs /\ Z.to_nat (hashf kv.1 ks) = h) kvs;
  b_nodup : NoDup kvs.*1
}.

(** The map [m] holds the finite map [M]. *)
Definition map_ok (m : qMap) (M : gmap (list byte) (list byte)) : Prop :=
  exists ds kvss, listArray m = Some ds /\ maxlength m = maxhashv /\ length ds = Z.to_nat maxhashv /\
    length kvss = length ds /\
    (forall h d kvs, ds !! h = Some d -> kvss !! h = Some kvs -> bucket_ok h d kvs) /\
    NoDup (concat kvss).*1 /\ M = list_to_map (concat kvss) /\ counts m = u32 (blen (concat kvss)).

(** ** The other lists *)

Lemma bucket_keys_in h d kvs k : bucket_ok h d kvs -> k ∈ kvs.*1 -> Z.to_nat (hashf k ks) = h.
Proof.
  intros H ([k' v] & -> & Hin)%list_elem_of_fmap. pose proof (b_keys _ _ _ H) as Hk.
  rewrite list.Forall_forall in Hk. by apply Hk in Hin as (_ & _ & ?).
Qed.

Context (hash_range : forall k, blen k = ks -> 0 <= hashf k ks < maxhashv).

(** A map opened at the list of the key [k]. *)
Lemma map_focus m M k :
  map_ok m M -> blen k = ks ->
  let h := Z.to_nat (hashf k ks) in
  exists ds d P kvs Q, listArray m = Some ds /\ maxlength m = maxhashv /\ ds !! h = Some d /\
    bucket_ok h d kvs /\ M = list_to_map (P ++ kvs ++ Q) /\ NoDup (P ++ kvs ++ Q).*1 /\
    counts m = u32 (blen (P ++ kvs ++ Q)) /\ k ∉ P.*1 /\ k ∉ Q.*1 /\
    forall d' kvs' n, bucket_ok h d' kvs' -> NoDup (P ++ kvs' ++ Q).*1 ->
      n = u32 (blen (P ++ kvs' ++ Q)) ->
      map_ok (Map (Some (<[h := d']> ds)) maxhashv n) (list_to_map (P ++ kvs' ++ Q)).
Proof using Type*.
  intros (ds & kvss & El & Em & Hlen & Hlk & Hb & Hnd & -> & Hc) Hk h.
  assert (Hh : (h < length ds)%nat) by (specialize (hash_range k Hk); subst h; lia).
  destruct (lookup_lt_is_Some_2 ds h Hh) as [d Hd].
  destruct (lookup_lt_is_Some_2 kvss h ltac:(lia)) as [kvs Hkv].
  pose proof (list.take_drop_middle _ _ _ Hkv) as Esplit.
  assert (Econcat : forall x, concat (take h kvss ++ x :: drop (S h) kvss) =
    concat (take h kvss) ++ x ++ concat (drop (S h) kvss)) by (intros x; by rewrite concat_app).
  rewrite <- Esplit, Econcat in Hnd, Hc |- *.
  assert (Hother : forall j kv, kvss !! j = Some kv -> j <> h -> k ∉ kv.*1).
  { intros j kv Hj Hne Hin. destruct (lookup_lt_is_Some_2 ds j) as [dj Hdj].
    { rewrite <- Hlk. by eapply lookup_lt_Some. }
    apply Hne. symmetry. by apply (bucket_keys_in j dj kv k (Hb j dj kv Hdj Hj)). }
  assert (Hout : forall l : list (list (list byte * list byte)), (forall kv, kv ∈ l -> k ∉ kv.*1) -> k ∉ (concat l).*1).
  { intros l Hl (x & -> & Hin)%list_elem_of_fmap. apply list_elem_of_In, in_concat in Hin as (kv & Hkvl & Hx).
    apply (Hl kv); [by apply list_elem_of_In|]. apply list_elem_of_fmap. exists x. split; [done|].
    by apply list_elem_of_In. }
  exists ds, d, (concat (take h kvss)), kvs, (concat (drop (S h) kvss)). split_and!; try done.
  - by apply (Hb h).
  - apply Hout. intros kv (j & Hj)%list_elem_of_lookup. rewrite lookup_take_Some in Hj. destruct Hj as [Hj Hlt].
    apply (Hother j kv Hj). lia.
  - apply Hout. intros kv (j & Hj)%list_elem_of_lookup. rewrite lookup_drop in Hj.
    apply (Hother _ kv Hj). lia.
  - intros d' kvs' n Hb' Hnd' ->. exists (<[h := d']> ds), (<[h := kvs']> kvss).
    assert (E : <[h := kvs']> kvss = take h kvss ++ kvs' :: drop (S h) kvss).
    { apply list.insert_take_drop. lia. }
    split_and!; cbn [listArray maxlength counts]; try done.
    + by rewrite list.length_insert.
    + by rewrite !list.length_insert.
    + intros j dj kv. destruct (decide (j = h)) as [->|Hne].
      * rewrite !list.list_lookup_insert_eq by lia. by intros [= <-] [= <-].
      * rewrite !list.list_lookup_insert_ne by done. apply Hb.
    + by rewrite E, Econcat.
    + by rewrite E, Econcat.
    + by rewrite E, Econcat.
Qed.

(** ** The operations *)

Lemma bucket_eq m ds h d n :
  listArray m = Some ds -> ds !! Z.to_nat h = Some d ->
  bucket m h = Ok d /\ set_bucket m h d n = Map (Some (<[Z.to_nat h := d]> ds)) (maxlength m) n.
Proof. intros E Hd. unfold bucket, set_bucket. by rewrite E, Hd. Qed.

Lemma overwrite_ok d xs1 i k v0 v xs2 :
  rep d (xs1 ++ (i, pack (k, v0)) :: xs2) -> blen v0 = vs -> blen v = vs ->
  exists d', overwrite d i v vs = Ok d' /\ rep d' (xs1 ++ (i, pack (k, v)) :: xs2).
Proof.
  intros H H0 Hv. unfold overwrite. pose proof (rep_lookup _ _ _ _ H) as Hl.
  cbn [fst snd pack] in Hl. rewrite Hl. cbn [value].
  pose proof (blen_nonneg v). rewrite memcpy_ok by lia. cbn [mbind res_bind].
  rewrite btake_all, bstore_0 by lia.
  replace (bdrop (blen v) v0) with (@nil byte) by (symmetry; apply drop_ge; unfold blen in *; lia).
  rewrite app_nil_r. eexists. split; [reflexivity|]. apply (rep_update d xs1 i _ (pack (k, v)) xs2 H).
Qed.

Lemma bucket_ok_intro h d xs kvs :
  rep d xs -> values xs = pack <$> kvs ->
  Forall (fun kv => blen kv.1 = ks /\ blen kv.2 = vs /\ Z.to_nat (hashf kv.1 ks) = h) kvs ->
  NoDup kvs.*1 -> bucket_ok h d kvs.
Proof. intros. split; [by exists xs|done|done]. Qed.

Lemma MapData_ok k v w :
  mem_ok w -> blen k = ks -> blen v = vs ->
  q__MapData_constructor k v ks vs w = Ok (MapData (Some k) (Some v) ks vs, set_live (w_live w + 2) w).
Proof.
  intros Hm Hk Hv. unfold q__MapData_constructor.
  rewrite (prog_bind_ok _ _ _ _ _ (duplicate_ok k ks w Hm Hk)).
  erewrite prog_bind_ok by (by apply duplicate_ok). rewrite (grown_eq w). done.
Qed.

Lemma insert_new P kvs Q k (v : list byte) :
  k ∉ P.*1 -> k ∉ kvs.*1 -> k ∉ Q.*1 -> NoDup (P ++ kvs ++ Q).*1 ->
  NoDup (P ++ (kvs ++ [(k, v)]) ++ Q).*1 /\
  list_to_map (P ++ (kvs ++ [(k, v)]) ++ Q) =@{gmap (list byte) (list byte)}
    <[k := v]> (list_to_map (P ++ kvs ++ Q)).
Proof.
  intros HP Hkv HQ Hnd. assert (E : P ++ (kvs ++ [(k, v)]) ++ Q = (P ++ kvs) ++ (k, v) :: Q)
    by (by rewrite <- !app_assoc).
  assert (Hnd' : NoDup ((P ++ kvs) ++ (k, v) :: Q).*1).
  { rewrite <- Permutation_middle, fmap_cons, list.NoDup_cons, <- app_assoc. split; [|done].
    rewrite !fmap_app. cbn. set_solver. }
  rewrite E. split; [done|]. apply ltm_middle in Hnd' as (_ & _ & ->). by rewrite <- app_assoc.
Qed.

(** The value of a key of the map replaced. *)
Lemma replace_value P kvs1 kvs2 Q k (v0 v : list byte) :
  NoDup (P ++ (kvs1 ++ (k, v0) :: kvs2) ++ Q).*1 ->
  NoDup (P ++ (kvs1 ++ (k, v) :: kvs2) ++ Q).*1 /\
  list_to_map (P ++ (kvs1 ++ (k, v) :: kvs2) ++ Q) =@{gmap (list byte) (list byte)}
    <[k := v]> (list_to_map (P ++ (kvs1 ++ (k, v0) :: kvs2) ++ Q)) /\
  (list_to_map (P ++ (kvs1 ++ (k, v0) :: kvs2) ++ Q) : gmap (list byte) (list byte)) !! k = Some v0.
Proof.
  intros Hnd.
  assert (Hsame : (P ++ (kvs1 ++ (k, v) :: kvs2) ++ Q).*1 = (P ++ (kvs1 ++ (k, v0) :: kvs2) ++ Q).*1)
    by (by rewrite !fmap_app, !fmap_cons).
  rewrite Hsame. split; [done|].
  assert (E : forall u : list byte, (P ++ (kvs1 ++ (k, u) :: kvs2) ++ Q) = (P ++ kvs1) ++ (k, u) :: (kvs2 ++ Q))
    by (intros u; by rewrite <- !app_assoc).
  pose proof Hnd as Hnd'. rewrite <- Hsame in Hnd'. rewrite E in Hnd, Hnd'. rewrite !E.
  destruct (ltm_middle _ _ _ _ Hnd) as (_ & _ & ->), (ltm_middle _ _ _ _ Hnd') as (_ & _ & ->).
  split; [by rewrite insert_insert_eq|by rewrite lookup_insert_eq].
Qed.

Lemma bucket_replace h d xs1 xs2 i k v0 v kvs1 kvs2 d0 :
  bucket_ok h d0 (kvs1 ++ (k, v0) :: kvs2) -> blen v = vs -> rep d (xs1 ++ (i, pack (k, v)) :: xs2) ->
  values xs1 = pack <$> kvs1 -> values xs2 = pack <$> kvs2 -> bucket_ok h d (kvs1 ++ (k, v) :: kvs2).
Proof.
  intros [_ Hk Hnd] Hv Hr E1 E2. apply (bucket_ok_intro _ _ (xs1 ++ (i, pack (k, v)) :: xs2)); [done| | |].
  - unfold values in *. by rewrite !fmap_app, !fmap_cons, E1, E2.
  - rewrite list.Forall_app, Forall_cons_iff in Hk |- *. cbn [fst snd] in *. tauto.
  - by rewrite fmap_app, fmap_cons in Hnd |- *.
Qed.

Lemma bucket_snoc h d xs i k v kvs d0 :
  bucket_ok h d0 kvs -> k ∉ kvs.*1 -> blen k = ks -> blen v = vs -> Z.to_nat (hashf k ks) = h ->
  rep d (xs ++ [(i, pack (k, v))]) -> values xs = pack <$> kvs -> bucket_ok h d (kvs ++ [(k, v)]).
Proof.
  intros [_ Hk Hnd] Hin Hlk Hv Hh Hr E. apply (bucket_ok_intro _ _ (xs ++ [(i, pack (k, v))])); [done| | |].
  - unfold values in *. by rewrite !fmap_app, E.
  - apply list.Forall_app. by repeat constructor.
  - rewrite fmap_app. apply list.NoDup_app. split_and!; [done| |apply list.NoDup_singleton].
    intros x Hx Hx'. cbn in Hx'. assert (x = k) as -> by set_solver. done.
Qed.

(** A key of the map removed. *)
Lemma remove_key P kvs1 kvs2 Q k (v : list byte) :
  NoDup (P ++ (kvs1 ++ (k, v) :: kvs2) ++ Q).*1 ->
  NoDup (P ++ (kvs1 ++ kvs2) ++ Q).*1 /\
  list_to_map (P ++ (kvs1 ++ kvs2) ++ Q) =@{gmap (list byte) (list byte)}
    delete k (list_to_map (P ++ (kvs1 ++ (k, v) :: kvs2) ++ Q)).
Proof.
  intros Hnd.
  assert (E1 : P ++ (kvs1 ++ (k, v) :: kvs2) ++ Q = (P ++ kvs1) ++ (k, v) :: (kvs2 ++ Q))
    by (by rewrite <- !app_assoc).
  assert (E2 : P ++ (kvs1 ++ kvs2) ++ Q = (P ++ kvs1) ++ (kvs2 ++ Q)) by (by rewrite <- !app_assoc).
  rewrite E1 in Hnd |- *. rewrite E2. destruct (ltm_middle _ _ _ _ Hnd) as (Hk & Hn & ->).
  split; [done|]. symmetry. apply delete_insert_id. by apply not_elem_of_list_to_map.
Qed.

Lemma bucket_remove h d xs1 xs2 k v kvs1 kvs2 d0 :
  bucket_ok h d0 (kvs1 ++ (k, v) :: kvs2) -> rep d (xs1 ++ xs2) ->
  values xs1 = pack <$> kvs1 -> values xs2 = pack <$> kvs2 -> bucket_ok h d (kvs1 ++ kvs2).
Proof.
  intros [_ Hk Hnd] Hr E1 E2. apply (bucket_ok_intro _ _ (xs1 ++ xs2)); [done| | |].
  - unfold values in *. by rewrite !fmap_app, E1, E2.
  - rewrite list.Forall_app, Forall_cons_iff in Hk. apply list.Forall_app. tauto.
  - rewrite fmap_app, fmap_cons in Hnd. rewrite fmap_app. rewrite <- Permutation_middle in Hnd.
    by apply list.NoDup_cons in Hnd as [_ ?].
Qed.

(** What the search in the list of the key finds, and the changes of that list
    that keep the map in order. *)
Lemma search_ok m M k w :
  map_ok m M -> blen k = ks ->
  exists d r, bucket m (hashf k ks) = Ok d /\ find_entry d k ks w = Ok (r, w) /\
    match r with
    | None => M !! k = None /\ exists xs, rep d xs /\
        (forall d', rep d' xs -> map_ok (set_bucket m (hashf k ks) d' (counts m)) M) /\
        (forall i v d', blen v = vs -> rep d' (xs ++ [(i, pack (k, v))]) ->
           map_ok (set_bucket m (hashf k ks) d' (u32 (counts m + 1))) (<[k := v]> M))
    | Some i => exists xs1 xs2 v, rep d (xs1 ++ (i, pack (k, v)) :: xs2) /\ blen v = vs /\ M !! k = Some v /\
        (forall v' d', blen v' = vs -> rep d' (xs1 ++ (i, pack (k, v')) :: xs2) ->
           map_ok (set_bucket m (hashf k ks) d' (counts m)) (<[k := v']> M)) /\
        (forall d', rep d' (xs1 ++ xs2) ->
           map_ok (set_bucket m (hashf k ks) d' (u32 (counts m - 1))) (delete k M))
    end.
Proof using Type*.
  intros Hok Hk. destruct (map_focus m M k Hok Hk)
    as (ds & d & P & kvs & Q & El & Em & Hd & Hb & -> & Hnd & Hc & HkP & HkQ & Hput).
  destruct (b_contains _ _ _ Hb) as (xs & Hr & Hx). pose proof (b_keys _ _ _ Hb) as Hks.
  destruct (find_entry_ok d xs kvs k w Hr Hx) as (r & E & Hr'); [|done|].
  { eapply list.Forall_impl; [exact Hks|]. cbn. tauto. }
  exists d, r. split; [by apply (bucket_eq m ds)|]. split; [done|].
  unfold set_bucket. rewrite El, Em. destruct r as [i|].
  - destruct Hr' as (xs1 & xs2 & kvs1 & v & kvs2 & -> & -> & E1 & E2). exists xs1, xs2, v.
    rewrite list.Forall_app, Forall_cons_iff in Hks. split_and!; [done|tauto| | |].
    { by apply (replace_value _ _ _ _ _ v v). }
    + intros v' d' Hv' Hr'. destruct (replace_value _ _ _ _ _ _ v' Hnd) as (Hnd' & <- & _).
      apply Hput; [by eapply bucket_replace|done|]. rewrite Hc, !blen_app, !blen_cons. done.
    + intros d' Hr'. destruct (remove_key _ _ _ _ _ _ Hnd) as (Hnd' & <-).
      apply Hput; [by eapply bucket_remove|done|].
      rewrite Hc, u32_len_pred, !blen_app, blen_cons. f_equal. lia.
  - assert (Hn : k ∉ (P ++ kvs ++ Q).*1) by (rewrite !fmap_app; set_solver).
    split; [by apply not_elem_of_list_to_map|]. exists xs. split; [done|]. split.
    { intros d' Hr1. apply Hput; [by apply (bucket_ok_intro _ _ xs); [|..|apply Hb]|done|done]. }
    intros i v d' Hv Hr1.
    destruct (insert_new P kvs Q k v HkP Hr' HkQ Hnd) as (Hnd' & <-).
    apply Hput; [by eapply bucket_snoc|done|].
    rewrite Hc, u32_len_succ, !blen_app. change (blen [(k, v)]) with 1. f_equal. lia.
Qed.

(** ** A map as a finite map *)

Inductive map_call : Type :=
| Insert (k v : list byte)
| Erase (k : list byte)
| PtrAt (k : list byte)
| Size.

(** The sizes of the header's macros. *)
Definition call_ok (c : map_call) : Prop :=
  match c with
  | Insert k v => blen k = ks /\ blen v = vs
  | Erase k | PtrAt k => blen k = ks
  | Size => True
  end.

(** A call's result: a status, or the value pointed to. *)
Definition outcome : Type := Z + option (list byte).

Definition run_map (c : map_call) (m : qMap) : io (outcome * qMap) :=
  match c with
  | Insert k v => '(r, m) ← q__Map_insert m k v ks vs hashf; mret (inl r, m)
  | Erase k => '(r, m) ← q__Map_erase m k ks hashf; mret (inl r, m)
  | PtrAt k => e ← q__Map_ptr_at m k ks hashf; mret (inr (e ≫= value), m)
  | Size => mret (inl (qMap_size m), m)
  end.

Definition abs_map (c : map_call) (M : gmap (list byte) (list byte)) : outcome * gmap (list byte) (list byte) :=
  match c with
  | Insert k v => (inl 0, <[k := v]> M)
  | Erase k => (inl (if decide (is_Some (M !! k)) then 0 else -1), delete k M)
  | PtrAt k => (inr (M !! k), M)
  | Size => (inl (u32 (Z.of_nat (base.size M))), M)
  end.

Lemma map_size m M : map_ok m M -> counts m = u32 (Z.of_nat (base.size M)).
Proof. intros (ds & kvss & _ & _ & _ & _ & _ & Hnd & -> & ->). by rewrite map_size_list_to_map. Qed.

Lemma free_entry_ok d i k v n w :
  cells d !! i = Some (Some (MapData (Some k) (Some v) ks vs), n) ->
  free_entry d i w = Ok (tt, set_live (w_live w - 2) w).
Proof.
  intros E. unfold free_entry. rewrite E. cbn [key value]. erewrite prog_bind_ok by reflexivity.
  unfold free, pmodify. change (w_live (set_live (w_live w - 1) w)) with (w_live w - 1).
  change (Ok (tt, set_live (w_live w - 1 - 1) w) = Ok (tt, set_live (w_live w - 2) w)). do 3 f_equal. lia.
Qed.

Lemma map_insert_ok m M k v w :
  map_ok m M -> mem_ok w -> blen k = ks -> blen v = vs ->
  exists m' w', q__Map_insert m k v ks vs hashf w = Ok ((0, m'), w') /\ map_ok m' (<[k := v]> M) /\ mem_ok w' /\
    w_live w' = w_live w + match M !! k with Some _ => 0 | None => 4 end.
Proof using Type*.
  intros Hok Hm Hk Hv. destruct (search_ok m M k w Hok Hk) as (d & r & Eb & Ef & Hr).
  unfold q__Map_insert. rewrite Eb. erewrite prog_bind_ok by reflexivity.
  rewrite (prog_bind_ok _ _ _ _ _ Ef). destruct r as [i|].
  - destruct Hr as (xs1 & xs2 & v0 & Hr & Hv0 & HM & Hput & _).
    destruct (overwrite_ok d xs1 i k v0 v xs2 Hr Hv0 Hv) as (d' & Eo & Hr').
    rewrite Eo. erewrite prog_bind_ok by reflexivity. eexists _, w. split; [reflexivity|].
    rewrite HM. split_and!; [by apply (Hput v d')|done|lia].
  - destruct Hr as (HM & xs & Hr & _ & Hput). rewrite (prog_bind_ok _ _ _ _ _ (MapData_ok k v w Hm Hk Hv)).
    cbn [key value].
    destruct (push_back_ok d xs (pack (k, v)).1 sizeof_qMapData (set_live (w_live w + 2) w) Hr Hm) as (d' & E & Hr').
    unfold pack in E. cbn [fst snd] in E. rewrite (prog_bind_ok _ _ _ _ _ E).
    eexists _, _. split; [reflexivity|]. rewrite HM. split_and!; [by eapply Hput|done|cbn; lia].
Qed.

Lemma store_value_ok m M k v v0 w :
  map_ok m M -> blen k = ks -> blen v = vs -> M !! k = Some v0 ->
  exists m', store_value m k ks hashf v w = Ok (m', w) /\ map_ok m' (<[k := v]> M).
Proof using Type*.
  intros Hok Hk Hv HM0. destruct (search_ok m M k w Hok Hk) as (d & r & Eb & Ef & Hr).
  unfold store_value. rewrite Eb. erewrite prog_bind_ok by reflexivity.
  rewrite (prog_bind_ok _ _ _ _ _ Ef). destruct r as [i|]; [|destruct Hr; congruence].
  destruct Hr as (xs1 & xs2 & v1 & Hr & Hv1 & HM & Hput & _). rewrite Hv.
  destruct (overwrite_ok d xs1 i k v1 v xs2 Hr Hv1 Hv) as (d' & Eo & Hr').
  rewrite Eo. erewrite prog_bind_ok by reflexivity. eexists. split; [reflexivity|]. by apply Hput.
Qed.

Lemma map_erase_ok m M k w :
  map_ok m M -> blen k = ks ->
  exists m' w', q__Map_erase m k ks hashf w =
      Ok ((match M !! k with Some _ => 0 | None => -1 end, m'), w') /\
    map_ok m' (delete k M) /\ w_alloc w' = w_alloc w /\
    w_live w' = w_live w - match M !! k with Some _ => 3 | None => 0 end.
Proof using Type*.
  intros Hok Hk. destruct (search_ok m M k w Hok Hk) as (d & r & Eb & Ef & Hr).
  unfold q__Map_erase. rewrite Eb. erewrite prog_bind_ok by reflexivity.
  rewrite (prog_bind_ok _ _ _ _ _ Ef). destruct r as [i|].
  - destruct Hr as (xs1 & xs2 & v & Hr & Hv & HM & _ & Hput). rewrite HM.
    erewrite prog_bind_ok by (eapply free_entry_ok, (rep_lookup _ _ _ _ Hr)).
    destruct (erase_elem_ok d xs1 (i, pack (k, v)) xs2 (set_live (w_live w - 2) w) Hr) as (d' & E & Hr').
    cbn [fst] in E. rewrite (prog_bind_ok _ _ _ _ _ E). eexists _, _. split; [reflexivity|].
    split_and!; [by apply Hput|done|cbn; lia].
  - destruct Hr as [HM _]. rewrite HM, delete_id by done. eexists m, w. split_and!; [done|done|done|lia].
Qed.

Lemma map_ptr_at_ok m M k w :
  map_ok m M -> blen k = ks ->
  q__Map_ptr_at m k ks hashf w = Ok ((fun v => (pack (k, v)).1) <$> M !! k, w).
Proof using Type*.
  intros Hok Hk. destruct (search_ok m M k w Hok Hk) as (d & r & Eb & Ef & Hr).
  unfold q__Map_ptr_at. rewrite Eb. erewrite prog_bind_ok by reflexivity.
  rewrite (prog_bind_ok _ _ _ _ _ Ef). destruct r as [i|].
  - destruct Hr as (xs1 & xs2 & v & Hr & _ & HM & _). rewrite HM.
    unfold qListIterator_deref. pose proof (rep_lookup _ _ _ _ Hr) as El. cbn [fst snd] in El. rewrite El.
    by erewrite prog_bind_ok by reflexivity.
  - destruct Hr as [HM _]. by rewrite HM.
Qed.

Lemma run_map_ok c m M w :
  map_ok m M -> mem_ok w -> call_ok c ->
  exists m' w', run_map c m w = Ok (((abs_map c M).1, m'), w') /\ map_ok m' (abs_map c M).2 /\ mem_ok w'.
Proof using Type*.
  intros Hok Hm Hc. destruct c as [k v|k|k|]; cbn [run_map abs_map fst snd call_ok] in *.
  - destruct Hc as [Hk Hv]. destruct (map_insert_ok m M k v w Hok Hm Hk Hv) as (m' & w' & E & Hok' & Hm' & _).
    rewrite (prog_bind_ok _ _ _ _ _ E). by exists m', w'.
  - destruct (map_erase_ok m M k w Hok Hc) as (m' & w' & E & Hok' & Hm' & _).
    rewrite (prog_bind_ok _ _ _ _ _ E). exists m', w'. split_and!; [|done|unfold mem_ok in *; congruence].
    do 3 f_equal. destruct (M !! k); [by rewrite decide_True|]. rewrite decide_False by (intros [? ?]; done). done.
  - rewrite (prog_bind_ok _ _ _ _ _ (map_ptr_at_ok m M k w Hok Hc)). exists m, w. split_and!; [|done|done].
    by destruct (M !! k).
  - exists m, w. by rewrite <- (map_size m M Hok).
Qed.

Fixpoint run_maps (cs : list map_call) (m : qMap) : io (list outcome * qMap) :=
  match cs with
  | [] => mret ([], m)
  | c :: cs' =>
      '(r, m) ← run_map c m;
      '(rs, m) ← run_maps cs' m;
      mret (r :: rs, m)
  end.

Fixpoint abs_maps (cs : list map_call) (M : gmap (list byte) (list byte))
  : list outcome * gmap (list byte) (list byte) :=
  match cs with
  | [] => ([], M)
  | c :: cs' =>
      let '(r, M1) := abs_map c M in
      let '(rs, M2) := abs_maps cs' M1 in
      (r :: rs, M2)
  end.

(** C19. Refinement.  For every hash function that stays below the number of lists on
    keys of the map's size, and every sequence of insertions, erasures, searches
    and size queries with keys of one size and values of one size, the results
    are those of a finite map, which the hash map holds in the end. *)
Theorem map_refines cs : forall m M w,
  map_ok m M -> mem_ok w -> Forall call_ok cs ->
  exists m' w', run_maps cs m w = Ok (((abs_maps cs M).1, m'), w') /\ map_ok m' (abs_maps cs M).2.
Proof using Type*.
  induction cs as [|c cs IH]; intros m M w Hok Hm Hc; cbn [run_maps abs_maps]; [by exists m, w|].
  apply Forall_cons_iff in Hc as [Hc Hcs].
  destruct (run_map_ok c m M w Hok Hm Hc) as (m1 & w1 & E1 & Hok1 & Hm1).
  rewrite (prog_bind_ok _ _ _ _ _ E1). destruct (abs_map c M) as [r M1]. cbn [fst snd] in *.
  destruct (IH m1 M1 w1 Hok1 Hm1 Hcs) as (m2 & w2 & E2 & Hok2).
  rewrite (prog_bind_ok _ _ _ _ _ E2). destruct (abs_maps cs M1) as [rs M2]. by exists m2, w2.
Qed.

(** ** Construction and clearing *)

Lemma concat_nils {B} n : concat (replicate n (@nil B)) = [].
Proof. by induction n. Qed.

Lemma empty_buckets ds :
  length ds = Z.to_nat maxhashv -> Forall (fun d => contains d []) ds ->
  map_ok (Map (Some ds) maxhashv 0) ∅.
Proof.
  intros Hl Hds. exists ds, (replicate (length ds) []). rewrite concat_nils. cbn.
  split_and!; try done.
  - apply length_replicate.
  - intros h d kvs Hd [-> _]%lookup_replicate. rewrite list.Forall_forall in Hds.
    split; [apply Hds; by eapply list.list_elem_of_lookup_2|constructor|constructor].
  - constructor.
Qed.

Lemma map_constructor_ok w :
  mem_ok w -> exists m, qMap_constructor maxhashv w = Ok (m, set_live (w_live w + 1) w) /\ map_ok m ∅.
Proof using Type*.
  intros Hm. unfold qMap_constructor. rewrite (prog_bind_ok _ _ _ _ _ (malloc_ok w Hm)). cbn [negb].
  eexists. split; [reflexivity|]. apply empty_buckets; [apply length_replicate|].
  apply Forall_replicate. exists []. split; [apply rep_constructor|done].
Qed.

Lemma free_entries_ok d0 xs kvs w :
  Forall (fun x => cells d0 !! x.1 = Some (Some x.2.1, x.2.2)) xs -> values xs = pack <$> kvs ->
  visit xs (fun i _ _ => free_entry d0 i;; mret (tt, false)) tt w =
    Ok (tt, set_live (w_live w - 2 * blen kvs) w).
Proof.
  revert xs w. induction kvs as [|[k v] kvs IH]; intros xs w Hc Hv.
  - apply fmap_nil_inv in Hv as ->. cbn. rewrite set_live_id; [done|]. change (blen []) with 0. lia.
  - destruct xs as [|[i e] xs]; [done|]. cbn in Hv. injection Hv as -> Hv.
    apply Forall_cons_iff in Hc as [Hi Hc]. cbn [visit fst snd] in *.
    erewrite prog_bind_ok by (erewrite prog_bind_ok by apply (free_entry_ok d0 i k v _ w Hi); reflexivity).
    cbv iota. rewrite (IH xs _ Hc Hv). do 2 f_equal.
    change (set_live (w_live w - 2 - 2 * blen kvs) w = set_live (w_live w - 2 * blen ((k, v) :: kvs)) w).
    rewrite blen_cons. f_equal. lia.
Qed.

Lemma clear_bucket_ok h d kvs w :
  bucket_ok h d kvs -> mem_ok w -> blen kvs < 2 ^ 32 ->
  exists d', clear_bucket d w = Ok (d', set_live (w_live w - 4 * blen kvs) w) /\ contains d' [].
Proof.
  intros [(xs & Hr & Hx) _ _] Hm Hl. unfold clear_bucket. rewrite (rep_size _ _ Hr).
  assert (Hlx : blen xs = blen kvs).
  { unfold blen. rewrite <- (length_fmap snd xs), <- (length_fmap pack kvs). by rewrite <- Hx. }
  pose proof (blen_nonneg kvs). rewrite Hlx, uwrap_small by lia.
  destruct (Z.eqb_spec (blen kvs) 0) as [E|E].
  - exists d. rewrite set_live_id by lia. split; [done|]. exists xs. split; [done|].
    rewrite Hx. destruct kvs; [done|]. rewrite blen_cons in E. pose proof (blen_nonneg kvs). lia.
  - erewrite prog_bind_ok.
    2:{ rewrite (foreach_ok d xs _ _ _ Hr). apply (free_entries_ok d xs kvs w (rep_cells _ _ Hr) Hx). }
    unfold q__List_destructor. rewrite (rep_head _ _ Hr). pose proof (rep_fuel _ _ Hr).
    destruct (free_loop_ok (S (base.size (lnodes d))) d None xs (set_live (w_live w - 2 * blen kvs) w))
      as (d' & E'); [apply Hr|apply Hr|lia|apply Hr|].
    erewrite prog_bind_ok by (rewrite (prog_bind_ok _ _ _ _ _ E'); reflexivity).
    eexists. split.
    + unfold mret, prog_ret. do 2 f_equal.
      change (set_live (w_live w - 2 * blen kvs - 2 * blen xs) w = set_live (w_live w - 4 * blen kvs) w).
      rewrite Hlx. f_equal. lia.
    + exists []. split; [|done]. split; done || constructor.
Qed.

Lemma clear_loop_ok ds : forall kvss w,
  length kvss = length ds -> mem_ok w -> blen (concat kvss) < 2 ^ 32 ->
  (forall h d kvs, ds !! h = Some d -> kvss !! h = Some kvs -> exists h', bucket_ok h' d kvs) ->
  exists ds', clear_loop ds w = Ok (ds', set_live (w_live w - 4 * blen (concat kvss)) w) /\
    length ds' = length ds /\ Forall (fun d => contains d []) ds'.
Proof.
  induction ds as [|d ds IH]; intros kvss w Hl Hm Hbig Hb.
  { destruct kvss; [|done]. exists []. cbn. rewrite set_live_id by (change (blen []) with 0; lia).
    split_and!; [done|done|constructor]. }
  destruct kvss as [|kvs kvss]; [done|]. cbn [concat] in *. rewrite blen_app in *.
  pose proof (blen_nonneg kvs). pose proof (blen_nonneg (concat kvss)).
  destruct (Hb 0%nat d kvs eq_refl eq_refl) as [h' Hb0].
  destruct (clear_bucket_ok h' d kvs w Hb0 Hm ltac:(lia)) as (d' & E & Hd').
  destruct (IH kvss (set_live (w_live w - 4 * blen kvs) w)) as (ds' & E' & Hl' & Hds');
    [by injection Hl|done|lia|intros h; by apply (Hb (S h))|].
  exists (d' :: ds'). split_and!; [|cbn; by rewrite Hl'|by constructor].
  cbn [clear_loop]. rewrite (prog_bind_ok _ _ _ _ _ E), (prog_bind_ok _ _ _ _ _ E').
  unfold mret, prog_ret. do 2 f_equal.
  change (set_live (w_live w - 4 * blen kvs - 4 * blen (concat kvss)) w =
    set_live (w_live w - 4 * (blen kvs + blen (concat kvss))) w). f_equal. lia.
Qed.

(** Construction and clearing.  [qMap_constructor] makes an empty map of one
    block; [q__Map_clear] leaves an empty map and frees the four blocks of every
    entry, so that exactly the array remains of a map nothing was erased from. *)
Theorem map_clear m M w :
  mem_ok w -> 0 <= maxhashv ->
  (exists m0, qMap_constructor maxhashv w = Ok (m0, set_live (w_live w + 1) w) /\ map_ok m0 ∅) /\
  (map_ok m M -> Z.of_nat (base.size M) < 2 ^ 32 ->
   exists m', q__Map_clear m w = Ok ((0, m'), set_live (w_live w - 4 * Z.of_nat (base.size M)) w) /\
     map_ok m' ∅).
Proof using Type*.
  intros Hm Hmax. split.
  - by apply map_constructor_ok.
  - intros (ds & kvss & El & Em & Hlen & Hlk & Hb & Hnd & -> & Hc).
    rewrite map_size_list_to_map by done. intros Hbig.
    destruct (clear_loop_ok ds kvss w Hlk Hm Hbig) as (ds' & E & Hl' & Hds'); [by eauto|].
    unfold q__Map_clear. rewrite El, (prog_bind_ok _ _ _ _ _ E), Em.
    eexists. split; [reflexivity|]. apply empty_buckets; [by rewrite Hl'|done].
Qed.
End map_theorems.

(** ** The theorems at concrete inputs *)

(** A hash function of one-byte keys. *)
Definition hash7 (k : list byte) (n : Z) : Z :=
  match k with b :: _ => byte_to_Z b mod 7 | [] => 0 end.

Lemma hash7_range (k : list byte) : blen k = 1 -> 0 <= hash7 k 1 < 7.
Proof. intros _. destruct k; cbn [hash7]; [lia|]. apply Z.mod_pos_bound. lia. Qed.

Definition map0 : qMap := Map (Some (replicate 7 qList_constructor)) 7 0.

Lemma map0_ok : map_ok 1 1 7 hash7 map0 ∅.
Proof.
  apply empty_buckets; [done|]. apply Forall_replicate. exists []. split; [apply rep_constructor|done].
Qed.

Lemma map_refines_witness :
  exists m' w', run_maps 1 1 hash7
      [Insert [Byte.x01] [Byte.x0a]; Insert [Byte.x08] [Byte.x0b]; Insert [Byte.x01] [Byte.x0c];
       PtrAt [Byte.x01]; Erase [Byte.x08]; Erase [Byte.x08]; Size] map0 (start []) =
      Ok (([inl 0; inl 0; inl 0; inr (Some [Byte.x0c]); inl 0; inl (-1); inl 1], m'), w') /\
    map_ok 1 1 7 hash7 m' {[ [Byte.x01] := [Byte.x0c] ]}.
Proof.
  apply (map_refines 1 1 7 hash7 hash7_range
    [Insert [Byte.x01] [Byte.x0a]; Insert [Byte.x08] [Byte.x0b]; Insert [Byte.x01] [Byte.x0c];
     PtrAt [Byte.x01]; Erase [Byte.x08]; Erase [Byte.x08]; Size] map0 ∅ (start []) map0_ok eq_refl).
  repeat constructor.
Defined.

Lemma map_clear_witness :
  exists m', q__Map_clear map0 (start []) = Ok ((0, m'), start []) /\ map_ok 1 1 7 hash7 m' ∅.
Proof.
  destruct (proj2 (map_clear 1 1 7 hash7 hash7_range map0 ∅ (start []) eq_refl ltac:(lia)) map0_ok
    ltac:(reflexivity)) as (m' & E & H).
  exists m'. split; [exact E|exact H].
Defined.
