(* ===== verification/QTrie.v ===== *)
(** * Tries (zhwkre/trie.h, zhwkre/containers/trie.c)

    A node has 256 children indexed by a [char].  Plain [char] is signed on
    x86-64, so that a byte above 127 indexes the array before its start: undefined
    behaviour ([trie_high_byte]).  The field [parent] is never set and left out;
    of the functions the header declares, the source defines those below.  A node
    owns its children, so a trie is a value; an iterator holds the nodes it points
    to. *)

From S2P Require Import Prelude World Bss.
Local Open Scope Z_scope.

(** ** Data *)

Inductive qTrieNode : Type :=
| TNode (value payload : qBinarySafeString) (children : list (option qTrieNode)).

Definition node_value (n : qTrieNode) : qBinarySafeString := match n with TNode v _ _ => v end.
Definition node_payload (n : qTrieNode) : qBinarySafeString := match n with TNode _ p _ => p end.
Definition node_children (n : qTrieNode) : list (option qTrieNode) := match n with TNode _ _ cs => cs end.

(** [trie_size] is never changed. *)
Record qTrieDescriptor : Type := TDesc {
  trie_size : Z;
  root : option qTrieNode
}.

Record qTrieIterator : Type := TIter {
  realiter : qTrieNode;
  limit : qTrieNode
}.

(** ** Operations *)

(** [memset] through the pointer comes before any test of it. *)
Definition qTrieNode__constructor : io qTrieNode :=
  ok ← malloc;
  if negb ok then pundef else
  v ← qbss_constructor;
  p ← qbss_constructor;
  mret (TNode v p (replicate 256 None)).

(** The loop stops at 255: the last child is not freed. *)
Fixpoint qTrieNode__destructor (node : qTrieNode) : io unit :=
  match node with
  | TNode v p children =>
      qbss_destructor v;;
      qbss_destructor p;;
      (fix loop (n : nat) (cs : list (option qTrieNode)) : io unit :=
         match n, cs with
         | S n', c :: cs' =>
             match c with Some m => qTrieNode__destructor m | None => mret tt end;;
             loop n' cs'
         | _, _ => mret tt
         end) 255%nat children;;
      free
  end.

Definition qTrie_constructor : qTrieDescriptor := TDesc 0 None.

(** [it->children[c]] *)
Definition child (c : byte) (it : qTrieNode) : res (option qTrieNode) :=
  if schar c <? 0 then Undef else
  match node_children it !! Z.to_nat (schar c) with
  | Some m => Ok m
  | None => Undef
  end.

Definition set_child (c : byte) (m : qTrieNode) (it : qTrieNode) : qTrieNode :=
  match it with TNode v p cs => TNode v p (<[Z.to_nat (schar c) := Some m]> cs) end.

(** The loop of [qTrie__ptr_at] over [n] characters of the buffer [s]. *)
Fixpoint walk (n : nat) (s : list byte) (it : qTrieNode) : io (Z * option qTrieNode) :=
  match n with
  | O => mret (0, Some it)
  | S n' =>
      match s with
      | [] => pundef
      | c :: s' =>
          m ← lift_res (child c it);
          match m with
          | None => SETERR ZHWK_ERR_TREE_ELEM_NOTEXIST;; mret (-1, None)
          | Some it' => walk n' s' it'
          end
      end
  end.

(** What is written to [*iter], if anything. *)
Definition qTrie__ptr_at (desc : qTrieDescriptor) (prefix : qBinarySafeString)
  : io (Z * option qTrieIterator) :=
  match root desc with
  | None => SETERR ZHWK_ERR_TREE_ELEM_NOTEXIST;; mret (-1, None)
  | Some top =>
      '(r, it) ← walk (Z.to_nat (size prefix)) (default [] (str prefix)) top;
      mret (r, (fun it => TIter it top) <$> it)
  end.

(** The loop of [qTrie__insert] from the character with index [i] on.  A new node
    gets the characters before it as its [value]; the node the loop ends at gets
    the payload. *)
Fixpoint insert_loop (key payload : list byte) (sz : Z) (n : nat) (s : list byte) (i : Z)
    (it : qTrieNode) : io qTrieNode :=
  match n with
  | O =>
      qbss_destructor (node_payload it);;
      p ← qbss_constructor;
      p ← q__bss_append p payload sz;
      mret (TNode (node_value it) p (node_children it))
  | S n' =>
      match s with
      | [] => pundef
      | c :: s' =>
          m ← lift_res (child c it);
          next ← match m with
                 | Some x => mret x
                 | None =>
                     x ← qTrieNode__constructor;
                     v ← q__bss_append (node_value x) key i;
                     mret (TNode v (node_payload x) (node_children x))
                 end;
          next ← insert_loop key payload sz n' s' (i + 1) next;
          mret (set_child c next it)
      end
  end.

Definition qTrie__insert (desc : qTrieDescriptor) (key : qBinarySafeString) (payload : list byte) (sz : Z)
  : io (Z * qTrieDescriptor) :=
  it ← match root desc with
       | Some it => mret it
       | None => qTrieNode__constructor
       end;
  let buf := default [] (str key) in
  it ← insert_loop buf payload sz (Z.to_nat (size key)) buf 0 it;
  mret (0, TDesc (trie_size desc) (Some it)).

(** * Theorems *)

(** ** The nodes by their paths *)

Fixpoint tfind (t : qTrieNode) (p : list byte) : option qTrieNode :=
  match p with
  | [] => Some t
  | c :: p' =>
      match child c t with
      | Ok (Some m) => tfind m p'
      | _ => None
      end
  end.

Definition node_ok (n : qTrieNode) : Prop :=
  length (node_children n) = 256%nat /\ bss_ok (node_payload n).

(** Every node has 256 children and a payload. *)
Definition trie_ok (t : qTrieNode) : Prop := forall p n, tfind t p = Some n -> node_ok n.

Definition ascii (p : list byte) : Prop := Forall (fun c => byte_to_Z c < 128) p.

Lemma schar_ascii c : byte_to_Z c < 128 -> schar c = byte_to_Z c.
Proof. intros H. unfold schar. by rewrite (proj2 (Z.ltb_lt _ _)). Qed.

(** The bytes of the payload at a path. *)
Definition pay (t : qTrieNode) (p : list byte) : option (list byte) :=
  content ∘ node_payload <$> tfind t p.

Lemma child_eq t c :
  byte_to_Z c < 128 -> length (node_children t) = 256%nat ->
  exists m, child c t = Ok m /\ node_children t !! Z.to_nat (byte_to_Z c) = Some m.
Proof.
  intros Hc Hl. unfold child. rewrite schar_ascii by done. pose proof (byte_to_Z_range c).
  rewrite (proj2 (Z.ltb_ge _ _)) by lia.
  destruct (lookup_lt_is_Some_2 (node_children t) (Z.to_nat (byte_to_Z c))) as [m Hm]; [lia|].
  exists m. by rewrite Hm.
Qed.

Lemma child_high t c : 128 <= byte_to_Z c -> child c t = Undef.
Proof.
  intros Hc. unfold child, schar. pose proof (byte_to_Z_range c).
  by rewrite (proj2 (Z.ltb_ge (byte_to_Z c) 128)), (proj2 (Z.ltb_lt _ _)) by lia.
Qed.

Lemma child_set t c m c' :
  byte_to_Z c < 128 -> length (node_children t) = 256%nat ->
  child c' (set_child c m t) = if decide (c' = c) then Ok (Some m) else child c' t.
Proof.
  intros Hc Hl. destruct (decide (byte_to_Z c' < 128)) as [Hc'|Hc'].
  2:{ rewrite !(child_high _ c') by lia. rewrite decide_False; [done|]. intros ->. lia. }
  unfold child. destruct t as [v p cs]. cbn [set_child node_children] in *.
  rewrite !schar_ascii by done. pose proof (byte_to_Z_range c). pose proof (byte_to_Z_range c').
  rewrite (proj2 (Z.ltb_ge _ _)) by lia. case_decide as Hd.
  - subst c'. by rewrite list.list_lookup_insert_eq by lia.
  - rewrite list.list_lookup_insert_ne; [done|]. intros E. apply Hd. apply byte_to_Z_inj. lia.
Qed.

Lemma tfind_set t c m p :
  byte_to_Z c < 128 -> length (node_children t) = 256%nat ->
  tfind (set_child c m t) p =
    match p with
    | [] => Some (set_child c m t)
    | c' :: p' => if decide (c' = c) then tfind m p' else tfind t p
    end.
Proof.
  intros Hc Hl. destruct p as [|c' p]; [done|]. cbn [tfind]. rewrite child_set by done.
  by case_decide.
Qed.

Lemma trie_ok_child t c m : trie_ok t -> child c t = Ok (Some m) -> trie_ok m.
Proof. intros Ht E p n Hp. apply (Ht (c :: p)). cbn. by rewrite E. Qed.

Lemma trie_ok_set t c m :
  byte_to_Z c < 128 -> trie_ok t -> trie_ok m -> trie_ok (set_child c m t).
Proof.
  intros Hc Ht Hm p n. destruct (Ht [] t eq_refl) as [Hl Hp]. rewrite tfind_set by done.
  destruct p as [|c' p].
  - intros [= <-]. destruct t as [v q cs]. split; [|done]. cbn in *. by rewrite list.length_insert.
  - case_decide; [apply Hm|apply Ht].
Qed.

(** A new node and nothing below it. *)
Lemma constructor_ok w :
  mem_ok w ->
  exists v p w', qTrieNode__constructor w = Ok (TNode v p (replicate 256 None), w') /\ mem_ok w' /\
    bss_ok v /\ content v = [] /\ size v = 0 /\ bss_ok p /\ content p = [].
Proof.
  intros Hm. unfold qTrieNode__constructor. rewrite (prog_bind_ok _ _ _ _ _ (malloc_ok w Hm)). cbn [negb].
  erewrite prog_bind_ok by (apply qbss_constructor_eq; exact Hm).
  erewrite prog_bind_ok by (apply qbss_constructor_eq; exact Hm).
  eexists _, _, _. split; [reflexivity|]. split_and!; try done; apply qbss_new_ok.
Qed.

Lemma pay_leaf v p q :
  content p = [] -> pay (TNode v p (replicate 256 None)) q = if decide (q = []) then Some [] else None.
Proof.
  intros Hc. unfold pay. destruct q as [|c q]; [cbn; by rewrite Hc|]. cbn [tfind].
  rewrite decide_False by done. unfold child. destruct (schar c <? 0); [done|]. cbn [node_children].
  destruct (_ !! _) as [m|] eqn:E; [|done]. by apply lookup_replicate in E as [-> _].
Qed.

Lemma trie_ok_leaf v p : bss_ok p -> trie_ok (TNode v p (replicate 256 None)).
Proof.
  intros Hp q n Hq. destruct q as [|c q].
  { injection Hq as <-. by split. }
  exfalso. revert Hq. cbn [tfind]. unfold child. destruct (schar c <? 0); [done|]. cbn [node_children].
  destruct (_ !! _) as [m|] eqn:E; [|done]. by apply lookup_replicate in E as [-> _].
Qed.

(** ** Insertion *)

Section insertion.
Context (key payload : list byte) (sz : Z).
Context (Hsz : 0 <= sz <= blen payload) (Hmax : sz < 2 ^ 31).

(** The payloads after [s] has been inserted below a node. *)
Definition inserted (s : list byte) (f : list byte -> option (list byte)) (p : list byte) : option (list byte) :=
  if decide (p = s) then Some (btake sz payload)
  else if decide (p `prefix_of` s) then Some (default [] (f p)) else f p.

Lemma inserted_cons c s f p : inserted (c :: s) f (c :: p) = inserted s (fun q => f (c :: q)) p.
Proof.
  unfold inserted. destruct (decide (p = s)) as [->|Hne]; [by rewrite decide_True|].
  rewrite (decide_False (P := c :: p = c :: s)) by congruence.
  destruct (decide (p `prefix_of` s)) as [Hp|Hp].
  - rewrite decide_True; [done|]. by apply prefix_cons.
  - rewrite decide_False; [done|]. intros H. apply Hp. by eapply prefix_cons_inv_2.
Qed.

Lemma insert_end_ok it w :
  trie_ok it -> mem_ok w ->
  exists t' w', insert_loop key payload sz 0 [] 0 it w = Ok (t', w') /\ mem_ok w' /\ trie_ok t' /\
    forall p, pay t' p = inserted [] (pay it) p.
Proof.
  intros Ht Hm. destruct (Ht [] it eq_refl) as [Hl (buf & Hb & _)]. cbn [insert_loop].
  unfold qbss_destructor. rewrite Hb. erewrite prog_bind_ok by reflexivity.
  erewrite prog_bind_ok by (apply qbss_constructor_eq; exact Hm).
  destruct (q__bss_append_ok (Bss (Some (zeros 64)) 0 64) payload sz
    (set_live (w_live (set_live (w_live w - 1) w) + 1) (set_live (w_live w - 1) w)))
    as (b & E & Hok & _ & Hc); [apply qbss_new_ok|done|lia|cbn; lia|].
  rewrite (prog_bind_ok _ _ _ _ _ E). eexists _, _. split; [reflexivity|]. split; [done|]. split.
  - intros p n. destruct p as [|c p]; [intros [= <-]; by split|apply (Ht (c :: p))].
  - intros p. unfold inserted, pay. destruct p as [|c p].
    + cbn. rewrite Hc. done.
    + rewrite !decide_False; [done| |done]. intros H. by apply prefix_nil_inv in H.
Qed.

Lemma insert_loop_ok s : forall rest i it w,
  trie_ok it -> mem_ok w -> ascii s -> 0 <= i -> i + blen s <= blen key -> i + blen s < 2 ^ 31 ->
  exists t' w', insert_loop key payload sz (length s) (s ++ rest) i it w = Ok (t', w') /\ mem_ok w' /\
    trie_ok t' /\ forall p, pay t' p = inserted s (pay it) p.
Proof using Type*.
  induction s as [|c s IH]; intros rest i it w Ht Hm Ha Hi Hb Hb2.
  { destruct (insert_end_ok it w Ht Hm) as (t' & w' & E & H). exists t', w'. split; [exact E|exact H]. }
  apply Forall_cons_iff in Ha as [Hc Ha]. rewrite blen_cons in Hb, Hb2. pose proof (blen_nonneg s).
  destruct (Ht [] it eq_refl) as [Hl _]. destruct (child_eq it c Hc Hl) as (m & Em & _).
  assert (Hnext : exists next w1, (match m with
      | Some x => mret x
      | None =>
          x ← qTrieNode__constructor;
          v ← q__bss_append (node_value x) key i;
          mret (TNode v (node_payload x) (node_children x))
      end) w = Ok (next, w1) /\ mem_ok w1 /\ trie_ok next /\
      forall p, inserted s (pay next) p = inserted s (fun q => pay it (c :: q)) p).
  { destruct m as [x|].
    - exists x, w. split_and!; [done|done|by eapply trie_ok_child|]. intros p.
      unfold inserted, pay. cbn [tfind]. by rewrite Em.
    - destruct (constructor_ok w Hm) as (v & p & w1 & E & Hm1 & Hv & _ & Hv0 & Hp & Hp0).
      rewrite (prog_bind_ok _ _ _ _ _ E). cbn [node_value node_payload node_children].
      destruct (q__bss_append_ok v key i w1) as (b & E' & _); [done|done|lia|lia|].
      rewrite (prog_bind_ok _ _ _ _ _ E'). eexists _, w1. split; [reflexivity|]. split; [done|].
      split; [by apply trie_ok_leaf|]. intros q. unfold inserted.
      assert (En : pay it (c :: q) = None) by (unfold pay; cbn [tfind]; by rewrite Em).
      rewrite En, (pay_leaf b p q Hp0). repeat case_decide; try done. subst q. exfalso.
      by match goal with H : ¬ ([] `prefix_of` s) |- _ => apply H, prefix_nil end. }
  destruct Hnext as (next & w1 & E1 & Hm1 & Hn & Hpay).
  destruct (IH rest (i + 1) next w1 Hn Hm1 Ha ltac:(lia) ltac:(lia) ltac:(lia)) as (next' & w2 & E2 & Hm2 & Hn' & Hp').
  exists (set_child c next' it), w2. split; [|split; [done|split; [by apply trie_ok_set|]]].
  - cbn [app length insert_loop]. rewrite Em. erewrite prog_bind_ok by reflexivity.
    rewrite (prog_bind_ok _ _ _ _ _ E1), (prog_bind_ok _ _ _ _ _ E2). done.
  - intros p. unfold pay at 1. rewrite tfind_set by done. destruct p as [|c' p].
    + unfold inserted. rewrite decide_False by done. rewrite decide_True by apply prefix_nil.
      unfold pay. cbn. by destruct it.
    + case_decide as Hd.
      * subst c'. fold (pay next' p). rewrite Hp', Hpay. symmetry. apply inserted_cons.
      * unfold inserted. rewrite !decide_False; [done| |congruence].
        intros Hpre. apply Hd. by eapply prefix_cons_inv_1.
Qed.
End insertion.

(** ** Search *)

Lemma walk_ok s : forall rest t w,
  trie_ok t -> ascii s ->
  walk (length s) (s ++ rest) t w =
    match tfind t s with
    | Some n => Ok ((0, Some n), w)
    | None => Ok ((-1, None), set_err ZHWK_ERR_TREE_ELEM_NOTEXIST w)
    end.
Proof.
  induction s as [|c s IH]; intros rest t w Ht Ha; [done|].
  apply Forall_cons_iff in Ha as [Hc Ha]. destruct (Ht [] t eq_refl) as [Hl _].
  destruct (child_eq t c Hc Hl) as (m & Em & _). cbn [app length walk tfind]. rewrite Em.
  erewrite prog_bind_ok by reflexivity. destruct m as [m|]; [|done].
  apply IH; [|done]. by eapply trie_ok_child.
Qed.

Definition desc_ok (desc : qTrieDescriptor) : Prop :=
  match root desc with Some t => trie_ok t | None => True end.

(** The payload at a path of a trie. *)
Definition payload_at (desc : qTrieDescriptor) (p : list byte) : option (list byte) :=
  match root desc with Some t => pay t p | None => None end.

(** A string with the bytes [k], and what its block holds. *)
Definition is_string (b : qBinarySafeString) (k : list byte) : Prop := bss_ok b /\ content b = k.

Lemma string_block b k :
  is_string b k ->
  exists rest, default [] (str b) = k ++ rest /\ Z.to_nat (size b) = length k /\ blen k < 2 ^ 31.
Proof.
  intros [(buf & Hs & Hl & H0 & Hc & H2 & _) <-]. unfold content. rewrite Hs. change (default [] (Some buf)) with buf.
  exists (bdrop (size b) buf). rewrite btake_bdrop. split; [done|].
  rewrite (blen_btake (size b) buf) by lia. split; [|lia].
  unfold btake. rewrite length_take. unfold blen in Hl. lia.
Qed.

(** The outcome of a search. *)
Definition search_result (r : option qTrieIterator) (w : world) : res ((Z * option qTrieIterator) * world) :=
  match r with
  | Some n => Ok ((0, Some n), w)
  | None => Ok ((-1, None), set_err ZHWK_ERR_TREE_ELEM_NOTEXIST w)
  end.

Lemma trie_ptr_at_ok desc pb p w :
  desc_ok desc -> is_string pb p -> ascii p ->
  exists r, qTrie__ptr_at desc pb w = search_result r w /\
    content ∘ node_payload ∘ realiter <$> r = payload_at desc p.
Proof.
  intros Hd Hp Ha. unfold qTrie__ptr_at, payload_at, desc_ok in *.
  destruct (root desc) as [t|]; [|by exists None].
  destruct (string_block _ _ Hp) as (rest & -> & -> & _).
  exists ((fun n => TIter n t) <$> tfind t p). unfold pay. pose proof (walk_ok p rest t w Hd Ha) as E.
  by destruct (tfind t p); rewrite (prog_bind_ok _ _ _ _ _ E).
Qed.

(** C34. Insertion and search.  For keys of seven-bit characters [qTrie__insert] puts
    the payload at the key and keeps the payloads of the other keys; but every
    prefix of the key becomes a key itself, with an empty payload if it was not
    one.  [qTrie__ptr_at] finds exactly the keys, and sets the error otherwise. *)
Theorem trie_insert_spec desc kb k payload sz w :
  desc_ok desc -> is_string kb k -> ascii k -> 0 <= sz <= blen payload -> sz < 2 ^ 31 -> mem_ok w ->
  exists desc' w', qTrie__insert desc kb payload sz w = Ok ((0, desc'), w') /\ desc_ok desc' /\ mem_ok w' /\
    forall pb p w1, is_string pb p -> ascii p ->
      exists r, qTrie__ptr_at desc' pb w1 = search_result r w1 /\
        content ∘ node_payload ∘ realiter <$> r =
          (if decide (p = k) then Some (btake sz payload)
           else if decide (p `prefix_of` k) then Some (default [] (payload_at desc p))
           else payload_at desc p).
Proof.
  intros Hd Hk Ha Hsz Hmax Hm. destruct (string_block _ _ Hk) as (rest & Eb & El & Hl).
  assert (Hroot : exists t w1, (match root desc with Some it => mret it | None => qTrieNode__constructor end) w =
      Ok (t, w1) /\ mem_ok w1 /\ trie_ok t /\
      forall p, inserted payload sz k (pay t) p = inserted payload sz k (payload_at desc) p).
  { unfold desc_ok, payload_at in *. destruct (root desc) as [t|]; [by exists t, w|].
    destruct (constructor_ok w Hm) as (v & q & w1 & E & Hm1 & Hv & _ & Hv0 & Hq & Hq0).
    eexists _, w1. split; [exact E|]. split_and!; [done|by apply trie_ok_leaf|].
    intros p. unfold inserted. rewrite (pay_leaf v q p Hq0). repeat case_decide; try done.
    subst p. exfalso. by match goal with H : ¬ ([] `prefix_of` k) |- _ => apply H, prefix_nil end. }
  destruct Hroot as (t & w1 & E & Hm1 & Ht & Hp).
  destruct (insert_loop_ok (k ++ rest) payload sz Hsz Hmax k rest 0 t w1 Ht Hm1 Ha) as (t' & w' & E' & Hm' & Ht' & Hp');
    [lia|rewrite blen_app; pose proof (blen_nonneg rest); lia|lia|].
  exists (TDesc (trie_size desc) (Some t')), w'. split.
  { unfold qTrie__insert. rewrite (prog_bind_ok _ _ _ _ _ E), Eb, El. by rewrite (prog_bind_ok _ _ _ _ _ E'). }
  split; [exact Ht'|]. split; [done|]. intros pb p w2 Hpb Hap.
  destruct (trie_ptr_at_ok (TDesc (trie_size desc) (Some t')) pb p w2 Ht' Hpb Hap) as (r & Er & Hr).
  exists r. split; [done|]. rewrite Hr. cbn [payload_at root]. rewrite Hp', Hp. done.
Qed.

(** A key whose first byte is above 127 reads and writes before the array of the
    children. *)
Theorem trie_high_byte t n kb c k payload sz w :
  is_string kb (c :: k) -> 128 <= byte_to_Z c ->
  qTrie__insert (TDesc n (Some t)) kb payload sz w = Undef /\ qTrie__ptr_at (TDesc n (Some t)) kb w = Undef.
Proof.
  intros Hk Hc. destruct (string_block _ _ Hk) as (rest & Eb & El & _).
  unfold qTrie__insert, qTrie__ptr_at. cbn [root]. rewrite Eb, El. cbn [length app walk].
  rewrite (prog_bind_ok _ _ _ _ _ eq_refl). cbn [insert_loop]. by rewrite child_high.
Qed.

(** ** The theorem at a concrete input *)

Definition string_of (k : list byte) : qBinarySafeString :=
  Bss (Some (k ++ zeros (64 - blen k))) (blen k) 64.

Lemma trie_insert_spec_witness :
  exists desc' w', qTrie__insert qTrie_constructor (string_of [Byte.x61; Byte.x62]) [Byte.x01] 1 (start []) =
      Ok ((0, desc'), w') /\
    exists r, qTrie__ptr_at desc' (string_of [Byte.x61]) (start []) = search_result r (start []) /\
      content ∘ node_payload ∘ realiter <$> r = Some [].
Proof.
  assert (Hs : forall k, blen k <=? 32 = true -> is_string (string_of k) k).
  { intros k Hk%Z.leb_le. pose proof (blen_nonneg k). split; [|apply btake_app].
    exists (k ++ zeros (64 - blen k)). cbn [string_of str size capacity].
    rewrite blen_app, blen_zeros, bdrop_app by lia. split_and!; try lia; done. }
  destruct (trie_insert_spec qTrie_constructor (string_of [Byte.x61; Byte.x62]) [Byte.x61; Byte.x62] [Byte.x01] 1
    (start [])) as (desc' & w' & E & _ & _ & H);
    [done|by apply Hs|by repeat constructor|done|done|done|].
  exists desc', w'. split; [exact E|].
  destruct (H (string_of [Byte.x61]) [Byte.x61] (start [])) as (r & Er & Hr); [by apply Hs|by repeat constructor|].
  exists r. split; [exact Er|exact Hr].
Defined.
