(* ===== verification/Failures.v ===== *)
(** * Failures of the allocator

    What the operations do when [malloc] returns NULL, on paths the theorems of
    the components, which assume that it does not, leave aside: a receive that
    loses its data, a list left with a node without data, a map that counts an
    entry it does not have, a trie that drops a payload. *)

From S2P Require Import Prelude World Bss Netwrap Prot Chain QVector.
From S2P Require QList QMap QTrie.
Local Open Scope Z_scope.

(** The answers that the allocator is going to give: [al], and then success. *)
Definition allocs (al : list bool) (w : world) : Prop := w_alloc w = al.

Lemma malloc_fails al w : allocs (false :: al) w -> malloc w = Ok (false, set_alloc al w).
Proof. unfold allocs, malloc. by intros ->. Qed.

Lemma malloc_works al w :
  allocs (true :: al) w -> malloc w = Ok (true, set_live (w_live w + 1) (set_alloc al w)).
Proof. unfold allocs, malloc. by intros ->. Qed.

(** ** Receiving *)

(** A string that has to grow and cannot is left as it is. *)
Lemma append_nomem bss buf s len al w :
  str bss = Some buf -> capacity bss < u32 (2 * u32 (Bss.size bss + len)) -> allocs (false :: al) w ->
  q__bss_append bss s len w = Ok (bss, set_err ZHWK_ERR_MM_ALLOC_FAIL (set_alloc al w)).
Proof.
  intros Hs Hc Ha. unfold q__bss_append. rewrite Hs. cbv zeta. rewrite (proj2 (Z.ltb_lt _ _)) by done.
  by rewrite (prog_bind_ok _ _ _ _ _ (malloc_fails al w Ha)).
Qed.

(** The read loop does not look at the result of the append. *)
Lemma sockread_nomem n bs es al w :
  32 < n < 2 ^ 30 -> n <= blen bs -> w_rd w = RdData bs :: es -> allocs (false :: al) w ->
  exists es', stream es' = bdrop n bs ++ stream es /\
    sockread (Bss (Some (zeros 64)) 0 64) n w =
      Ok ((0, Bss (Some (zeros 64)) 0 64),
          set_err ZHWK_ERR_MM_ALLOC_FAIL (set_alloc al (set_rd es' w))).
Proof.
  intros Hn Hbs Hrd Ha. unfold sockread. rewrite (proj2 (Z.ltb_ge _ _)) by lia.
  erewrite prog_bind_ok by reflexivity. rewrite Hrd. cbn [length sockread_loop].
  destruct (Z.eqb_spec n 0); [lia|].
  destruct (qStreamSocket_read_data n bs es w) as (buf & Hr & _); [lia|done|].
  rewrite (prog_bind_ok _ _ _ _ _ Hr). cbv beta iota. rewrite Z.min_l in * by lia.
  destruct (Z.eqb_spec n (-1)); [lia|]. set (es' := if blen bs <=? n then es else _).
  exists es'. split.
  { unfold es'. destruct (Z.leb_spec (blen bs) n); [|done]. assert (bdrop n bs = []) as -> by (apply drop_ge; blia). done. }
  erewrite prog_bind_ok by (eapply (append_nomem _ (zeros 64) buf n al (set_rd es' w)); [reflexivity| |exact Ha];
    cbn [capacity Bss.size]; rewrite (uwrap_small 32 (0 + n)), uwrap_small by lia; lia).
  by rewrite Z.sub_diag.
Qed.

(** C35. A receive that cannot grow its string.  [sockread] does not check whether
    the string took the bytes it has read.  When the allocator fails there, a
    receive of more than 32 bytes consumes them from the stream, reports
    success, and stores zeros instead of them; of more than 64, it copies from
    beyond the end of the string: undefined behaviour. *)
Theorem recv_nomem dest n bs es al w :
  32 < n < 2 ^ 30 -> n <= blen dest -> n <= blen bs ->
  w_rd w = RdData bs :: es -> allocs (true :: false :: al) w ->
  if n <=? 64 then
    exists w', recv dest n w = Ok ((0, zeros n ++ bdrop n dest), w') /\
      stream (w_rd w') = bdrop n bs ++ stream es /\ w_err w' = ZHWK_ERR_MM_ALLOC_FAIL
  else recv dest n w = Undef.
Proof.
  intros Hn Hd Hbs Hrd Ha. unfold recv, qbss_constructor. rewrite swrap_small by lia.
  erewrite prog_bind_ok by (rewrite (prog_bind_ok _ _ _ _ _ (malloc_works _ w Ha)); reflexivity).
  destruct (sockread_nomem n bs es al (set_live (w_live w + 1) (set_alloc (false :: al) w)))
    as (es' & Hs & E); [done|done|done|done|].
  destruct (Z.leb_spec n 64).
  - rewrite (prog_bind_ok _ _ _ _ _ E). cbv beta iota. cbn [Z.eqb negb str from_option id].
    rewrite memcpy_ok by (rewrite ?blen_zeros by done; lia). erewrite prog_bind_ok by reflexivity.
    unfold qbss_destructor, free. cbn [str]. erewrite prog_bind_ok by reflexivity.
    assert (Hz : btake n (zeros 64) = zeros n)
      by (unfold btake, zeros; rewrite take_replicate; f_equal; lia).
    rewrite bstore_0, Hz, blen_zeros by lia. eexists. split; [reflexivity|]. by split.
  - rewrite (prog_bind_ok _ _ _ _ _ E). cbv beta iota. cbn [Z.eqb negb str from_option id].
    apply prog_bind_undef. unfold memcpy. change (blen (zeros 64)) with 64.
    by rewrite (proj2 (Z.leb_gt n 64)), andb_false_r by lia.
Qed.

(** ** Lists *)

Module Lists.
Import QList.

Section lists.
Context {A : Type}.
Implicit Types (d : qListDescriptor A) (xs : list (positive * (A * Z))).

(** A list with the nodes [xs] and a last node [j] that has no data and is not
    counted: [size] is that of [xs], and [tail] too unless [xs] is empty. *)
Record dangling d xs (j : positive) : Prop := Dangling {
  dg_nodup : NoDup (addrs xs ++ [j]);
  dg_chain : chain (lnodes d) None (addrs xs ++ [j]) None;
  dg_cells : Forall (fun x => cells d !! x.1 = Some (Some x.2.1, x.2.2)) xs;
  dg_cell : cells d !! j = Some (None, 0);
  dg_head : head d = first_of (addrs xs ++ [j]) None;
  dg_tail : tail d = match xs with [] => Some j | _ => last_of None (addrs xs) end;
  dg_size : size d = u32 (blen xs);
  dg_fresh : Forall (fun i => (i < lbrk d)%positive) (addrs xs ++ [j])
}.

Lemma new_fails d al w :
  allocs (false :: al) w ->
  q__List_new d w = Ok ((None, d), set_err ZHWK_ERR_MM_ALLOC_FAIL (set_alloc al w)).
Proof. intros Ha. unfold q__List_new. by rewrite (prog_bind_ok _ _ _ _ _ (malloc_fails al w Ha)). Qed.

Lemma new_works d al w :
  allocs (true :: al) w ->
  q__List_new d w = Ok ((Some (lbrk d), LDesc (head d) (tail d) (size d)
    (<[lbrk d := Link None None]> (lnodes d)) (<[lbrk d := (None, 0)]> (cells d)) (Pos.succ (lbrk d))),
    set_live (w_live w + 1) (set_alloc al w)).
Proof. intros Ha. unfold q__List_new. by rewrite (prog_bind_ok _ _ _ _ _ (malloc_works al w Ha)). Qed.

Lemma fill_fails i a n d al w :
  allocs (false :: al) w ->
  fill_node i a n d w = Ok ((false, d), set_err ZHWK_ERR_MM_ALLOC_FAIL (set_alloc al w)).
Proof. intros Ha. unfold fill_node. by rewrite (prog_bind_ok _ _ _ _ _ (malloc_fails al w Ha)). Qed.

(** The end of a list that is not empty. *)
Lemma rep_last d xs t : rep d xs -> tail d = Some t -> exists l, addrs xs = l ++ [t].
Proof.
  intros H Et. rewrite (rep_tail _ _ H) in Et. destruct (last_cases (addrs xs)) as [E|(l & q & E)].
  - by rewrite E in Et.
  - rewrite E, last_of_snoc in Et. injection Et as ->. by exists l.
Qed.

(** Nothing but the error when the node cannot be allocated. *)
Lemma push_back_no_node d xs a n al w :
  rep d xs -> allocs (false :: al) w ->
  exists d', q__List_push_back d a n w =
      Ok ((-1, d'), set_err ZHWK_ERR_MM_ALLOC_FAIL (set_alloc al w)) /\ rep d' xs.
Proof.
  intros H Ha. unfold q__List_push_back, push_first. destruct (tail d) as [t|] eqn:Et.
  - destruct (rep_last d xs t H Et) as [l E]. pose proof (rep_chain _ _ H) as Hch. rewrite E in Hch.
    pose proof (chain_lookup _ _ _ _ _ _ Hch) as Ht. cbn [first_of] in Ht.
    rewrite (prog_bind_ok _ _ _ _ _ (new_fails d al w Ha)). cbv beta iota.
    rewrite (upd_ok _ _ _ _ Ht). erewrite prog_bind_ok by reflexivity.
    eexists. split; [reflexivity|].
    assert (Hm : <[t := set_next None (Link (last_of None l) None)]> (lnodes d) = lnodes d)
      by (apply insert_id; by rewrite Ht).
    rewrite Hm. by destruct d.
  - assert (xs = []) as -> by eauto using tail_none.
    rewrite (prog_bind_ok _ _ _ _ _ (new_fails d al w Ha)). cbv beta iota.
    eexists. split; [reflexivity|]. pose proof (rep_head _ _ H) as Eh. cbn in Eh.
    unfold set_ends. rewrite <- Eh. by destruct d.
Qed.

(** A node without data stays behind when the data cannot be allocated. *)
Lemma push_back_no_data d xs a n al w :
  rep d xs -> allocs (true :: false :: al) w ->
  exists d', q__List_push_back d a n w =
      Ok ((-1, d'), set_err ZHWK_ERR_MM_ALLOC_FAIL (set_live (w_live w + 1) (set_alloc al w))) /\
    dangling d' xs (lbrk d).
Proof.
  intros H Ha. unfold q__List_push_back. destruct (tail d) as [t|] eqn:Et.
  2:{ assert (xs = []) as -> by eauto using tail_none. unfold push_first.
    rewrite (prog_bind_ok _ _ _ _ _ (new_works d _ w Ha)). cbv beta iota zeta.
    erewrite prog_bind_ok by (eapply fill_fails; reflexivity). cbv beta iota. cbn [negb].
    eexists. split; [reflexivity|]. split; cbn [lnodes cells head tail size lbrk set_ends].
    - apply list.NoDup_singleton.
    - cbn. by rewrite lookup_insert_eq.
    - constructor.
    - apply lookup_insert_eq.
    - done.
    - done.
    - by rewrite (rep_size _ _ H).
    - repeat constructor. lia. }
  destruct (rep_last d xs t H Et) as [l E].
  pose proof (fresh_notin d xs H) as Hfr. pose proof (rep_nodup _ _ H) as Hnd.
  pose proof (rep_chain _ _ H) as Hch. rewrite E in Hch, Hnd.
  destruct (chain_snoc (<[lbrk d := Link None None]> (lnodes d)) l t (lbrk d)) as (m1 & m2 & E1 & E2 & Hc2);
    [done|by rewrite <- E|by rewrite lookup_insert_eq|apply chain_insert; [by rewrite <- E|done]|].
  rewrite (prog_bind_ok _ _ _ _ _ (new_works d _ w Ha)). cbv beta iota. cbn [lnodes set_lnodes].
  rewrite E1. erewrite prog_bind_ok by reflexivity. cbn [lnodes set_lnodes].
  rewrite E2. erewrite prog_bind_ok by reflexivity.
  erewrite prog_bind_ok by (eapply fill_fails; reflexivity). cbv beta iota. cbn [negb].
  eexists. split; [reflexivity|].
  split; cbn [lnodes cells head tail size lbrk set_cells set_size set_ends set_lnodes].
  - apply (nodup_addrs_snoc xs (lbrk d) (a, n)) in Hfr; [|apply H].
    unfold addrs in *. by rewrite fmap_app in Hfr.
  - by rewrite E, <- app_assoc.
  - eapply cells_frame; [|apply (rep_cells _ _ H)]. intros i Hi. apply lookup_insert_ne. intros <-. done.
  - apply lookup_insert_eq.
  - rewrite (rep_head _ _ H), E. by destruct l.
  - rewrite <- (rep_tail _ _ H). destruct xs; [by rewrite (rep_tail _ _ H) in Et|done].
  - apply H.
  - apply list.Forall_app. split; [|repeat constructor; lia].
    eapply fresh_weaken; [|apply (rep_fresh _ _ H)]. lia.
Qed.

(** A loop over such a list that reads the data of each node and does not stop
    before follows the NULL data of the last node. *)
Lemma foreach_dangling {T} d xs j (body : positive -> cell A -> T -> io (T * bool)) (I : T -> world -> Prop) s w :
  dangling d xs j -> (forall s w, body j (None, 0) s w = Undef) ->
  Forall (fun x => forall s w, I s w ->
    exists s' w', body x.1 (Some x.2.1, x.2.2) s w = Ok ((s', false), w') /\ I s' w') xs ->
  I s w -> qList_foreach d body s w = Undef.
Proof.
  intros [Hnd Hch Hc Hj Hh _ _ _] Hb Hx Hi. unfold qList_foreach, qList_begin. rewrite Hh.
  pose proof (chain_size _ _ _ _ Hnd Hch) as Hf. rewrite length_app in Hf. unfold addrs in Hf at 1.
  rewrite length_fmap in Hf. cbn [length] in Hf.
  assert (length xs < S (base.size (lnodes d)))%nat as Hfuel by lia. clear Hf Hnd Hh.
  revert Hfuel. generalize (S (base.size (lnodes d))). intros fuel.
  assert (exists p, chain (lnodes d) p (addrs xs ++ [j]) None) as [p Hch'] by by exists None. clear Hch.
  revert fuel p s w Hi Hch'. induction xs as [|x xs IH]; intros fuel p s w Hi Hch Hf; (destruct fuel as [|fuel]; [lia|]).
  - cbn [addrs fmap list_fmap app first_of foreach_loop]. unfold qListIterator_deref. rewrite Hj.
    erewrite prog_bind_ok by reflexivity. apply prog_bind_undef, Hb.
  - apply Forall_cons_iff in Hc as [Ec Hc], Hx as [Ex Hx].
    destruct (Ex s w Hi) as (s' & w' & E & Hi').
    cbn [addrs fmap list_fmap app chain] in Hch. destruct Hch as [El Hch].
    cbn [addrs fmap list_fmap app first_of foreach_loop]. unfold qListIterator_deref. rewrite Ec.
    erewrite prog_bind_ok by reflexivity. rewrite (prog_bind_ok _ _ _ _ _ E). cbv beta iota.
    unfold qListIterator_next. rewrite El. erewrite prog_bind_ok by reflexivity. cbn [next].
    apply (IH Hc Hx fuel (Some x.1)); [done|done|cbn in Hf; lia].
Qed.

Lemma copy_dangling d xs j w : dangling d xs j -> mem_ok w -> q__List_copy d w = Undef.
Proof.
  intros H Hm. unfold q__List_copy.
  apply (foreach_dangling d xs j _ (fun r w => mem_ok w /\ exists ys, rep r ys)); [done|done| |].
  - apply list.Forall_forall. intros [i [a n]] _ r w1 (Hm1 & ys & Hr).
    destruct (push_back_ok r ys a n w1 Hr Hm1) as (r' & E & Hr'). eexists r', (grown w1).
    split; [|by split; [|eexists]]. cbn [fst snd]. by rewrite (prog_bind_ok _ _ _ _ _ E).
  - split; [done|]. exists []. apply rep_constructor.
Qed.

(** The list without the pointer to the node behind the tail. *)
Lemma dangling_cut d xs j t l :
  dangling d xs j -> addrs xs = l ++ [t] ->
  lnodes d !! t = Some (Link (last_of None l) (Some j)) /\
  rep (set_lnodes (<[t := Link (last_of None l) None]> (lnodes d)) d) xs.
Proof.
  intros [Hnd Hch Hc _ Hh Ht Hs Hf] E. rewrite E in Hch, Hnd, Hf.
  apply list.NoDup_app in Hnd as (Hnd & _ & _). apply list.Forall_app in Hf as [Hf _].
  pose proof Hch as [H1 _]%chain_app. cbn [first_of] in H1. split; [by apply chain_lookup in H1|].
  assert (Ht' : tail d = last_of None (addrs xs)) by (rewrite Ht; destruct xs; [by destruct l|done]).
  split; cbn [lnodes cells head tail size lbrk set_lnodes]; try done; rewrite ?E; try done.
  - apply (chain_set_next _ _ _ _ (Some j)); [|done]. by apply nodup_middle in Hnd as (_ & _ & ? & _).
  - rewrite Hh, E. by destruct l.
Qed.

(** The next [push_back] overwrites that pointer. *)
Lemma push_back_dangling d xs j a n w :
  dangling d xs j -> xs <> [] -> mem_ok w ->
  exists d', q__List_push_back d a n w = Ok ((0, d'), grown w) /\ rep d' (xs ++ [(lbrk d, (a, n))]).
Proof.
  intros H Hne Hm. destruct (last_cases (addrs xs)) as [E|(l & t & E)].
  { by apply fmap_nil_inv in E. }
  destruct (dangling_cut d xs j t l H E) as [Elt Hr]. set (d0 := set_lnodes _ d) in Hr.
  destruct (push_back_ok d0 xs a n w Hr Hm) as (d' & Ep & Hr'). exists d'. split; [|exact Hr'].
  rewrite <- Ep. unfold q__List_push_back. assert (Et : tail d = last_of None (addrs xs)) by (rewrite (dg_tail _ _ _ H); by destruct xs).
  rewrite E, last_of_snoc in Et. change (tail d0) with (tail d). rewrite Et.
  assert (Hlt : t <> lbrk d).
  { pose proof (dg_fresh _ _ _ H) as Hf. rewrite E in Hf.
    apply list.Forall_app in Hf as [[_ [Hf _]%Forall_cons_iff]%list.Forall_app _]. lia. }
  rewrite (prog_bind_ok _ _ _ _ _ (q__List_new_ok d w Hm)).
  rewrite (prog_bind_ok _ _ _ _ _ (q__List_new_ok d0 w Hm)). cbv beta iota.
  unfold d0. cbn [lnodes cells head tail size lbrk set_lnodes].
  rewrite (upd_ok _ t (Link (last_of None l) (Some j))) by (by rewrite lookup_insert_ne).
  rewrite (upd_ok _ t (Link (last_of None l) None)) by (by rewrite lookup_insert_ne, lookup_insert_eq).
  rewrite (insert_insert_ne _ (lbrk d) t) by done. cbn [set_next prev].
  by rewrite insert_insert_eq.
Qed.

(** Behind the only node of an empty list, it goes on as if that were a regular
    one. *)
Lemma push_back_behind d j a n w :
  dangling d [] j -> mem_ok w ->
  exists d', q__List_push_back d a n w = Ok ((0, d'), grown w) /\
    head d' = Some j /\ cells d' !! j = Some (None, 0) /\ size d' = 1.
Proof.
  intros [_ Hch _ Hj Hh Ht Hs Hf] Hm. cbn in Hch. destruct Hch as [El _].
  apply Forall_cons_iff in Hf as [Hlt _]. assert (Hne : j <> lbrk d) by lia.
  unfold q__List_push_back. rewrite Ht, (prog_bind_ok _ _ _ _ _ (q__List_new_ok d w Hm)). cbv beta iota.
  cbn [lnodes]. rewrite (upd_ok _ j (Link None None)) by (by rewrite lookup_insert_ne).
  erewrite prog_bind_ok by reflexivity. cbn [lnodes set_lnodes].
  rewrite (upd_ok _ (lbrk d) (Link None None)) by (by rewrite lookup_insert_ne, lookup_insert_eq).
  erewrite prog_bind_ok by reflexivity. unfold fill_node.
  erewrite prog_bind_ok by (by rewrite (prog_bind_ok _ _ _ _ _ (malloc_ok (set_live (w_live w + 1) w) Hm))).
  cbv beta iota. cbn [negb]. eexists. split; [by rewrite grown_eq|].
  cbn [head cells size set_size set_ends set_cells set_lnodes]. rewrite !lookup_insert_ne by done.
  by rewrite Hs.
Qed.

Lemma copy_head_null d j n w : head d = Some j -> cells d !! j = Some (None, n) -> q__List_copy d w = Undef.
Proof.
  intros Hh Hj. unfold q__List_copy, qList_foreach, qList_begin. rewrite Hh. cbn [foreach_loop].
  unfold qListIterator_deref. rewrite Hj. erewrite prog_bind_ok by reflexivity. by apply prog_bind_undef.
Qed.


End lists.
End Lists.

(** ** Maps *)

Module Maps.
Import QList QMap.

Section maps.
Context (ks vs maxhashv : Z) (hashf : qHashFuncProto).
Context (hash_range : forall k, blen k = ks -> 0 <= hashf k ks < maxhashv).

Lemma duplicate_fails src n al w :
  allocs (false :: al) w ->
  duplicate src n w = Ok (None, set_err ZHWK_ERR_MM_ALLOC_FAIL (set_alloc al w)).
Proof. intros Ha. unfold duplicate. by rewrite (prog_bind_ok _ _ _ _ _ (malloc_fails al w Ha)). Qed.

Lemma duplicate_works src al w :
  allocs (true :: al) w ->
  duplicate src (blen src) w = Ok (Some src, set_live (w_live w + 1) (set_alloc al w)).
Proof.
  intros Ha. pose proof (blen_nonneg src). unfold duplicate.
  rewrite (prog_bind_ok _ _ _ _ _ (malloc_works al w Ha)). cbn [negb].
  rewrite memcpy_ok by (rewrite ?blen_zeros; lia). erewrite prog_bind_ok by reflexivity.
  rewrite btake_all, bstore_0 by lia.
  assert (bdrop (blen src) (zeros (blen src)) = []) as ->
    by (unfold bdrop, zeros; apply drop_ge; rewrite length_replicate; lia).
  by rewrite app_nil_r.
Qed.

(** A search that finds nothing has compared the key with all of the list. *)
Lemma find_entry_none d xs k n w :
  rep d xs -> find_entry d k n w = Ok (None, w) ->
  Forall (fun x => exists kb, key x.2.1 = Some kb /\ memcmp0 kb k n = Ok false) xs.
Proof using Type.
  intros Hr. unfold find_entry. rewrite (foreach_ok d xs) by done. clear Hr.
  induction xs as [|[i [md m]] xs IH]; [constructor|]. cbn [visit fst snd].
  destruct (key md) as [kb|] eqn:Ek; [|done].
  destruct (memcmp0 kb k n) as [[]| | | |] eqn:Em; try done. intros E.
  constructor; [by exists kb|]. by apply IH.
Qed.

Lemma find_dangling d xs j k n w :
  Lists.dangling d xs j -> Forall (fun x => exists kb, key x.2.1 = Some kb /\ memcmp0 kb k n = Ok false) xs ->
  find_entry d k n w = Undef.
Proof using Type.
  intros Hd Hx. unfold find_entry. apply (Lists.foreach_dangling d xs j _ (fun _ _ => True)); [done|done| |done].
  eapply list.Forall_impl; [exact Hx|]. intros [i [md m]] (kb & Ek & Em) s w' _. cbn [fst snd] in *.
  rewrite Ek, Em. by exists s, w'.
Qed.

Lemma bucket_set m h d d' n : bucket m h = Ok d -> bucket (set_bucket m h d' n) h = Ok d'.
Proof using Type.
  unfold bucket, set_bucket. destruct (listArray m) as [ls|]; [|done]. cbn [fmap option_fmap option_map listArray].
  destruct (ls !! Z.to_nat h) as [d0|] eqn:E; [|done]. intros _.
  by rewrite list_lookup_insert_eq by (by eapply lookup_lt_Some).
Qed.

(** C37. A new key in a map that runs out of memory, for each of the four
    allocations of an insertion.  When the copy of the key or of the value fails
    the insertion returns -1 and the map is the same; in the second case the copy
    of the key is leaked.  When [push_back] fails, the insertion, which does not
    check it, reports success and counts one more entry.  If it was the node that
    could not be allocated, the map holds what it held, the key is not found, and
    both copies are leaked.  If it was the data of the node, both copies and the
    node are, and the list has a node without data ([push_back_nomem]), which the
    next search for any key with this hash that the map does not hold compares:
    undefined behaviour. *)
Theorem map_insert_nomem m M k v w :
  map_ok ks vs maxhashv hashf m M -> blen k = ks -> blen v = vs -> M !! k = None ->
  (allocs [false] w -> exists w', q__Map_insert m k v ks vs hashf w = Ok ((-1, m), w') /\
     w_live w' = w_live w) /\
  (allocs [true; false] w -> exists w', q__Map_insert m k v ks vs hashf w = Ok ((-1, m), w') /\
     w_live w' = w_live w + 1) /\
  (allocs [true; true; false] w -> exists m' w', q__Map_insert m k v ks vs hashf w = Ok ((0, m'), w') /\
     counts m' = u32 (counts m + 1) /\ w_live w' = w_live w + 2 /\
     map_ok ks vs maxhashv hashf (Map (listArray m') (maxlength m') (counts m)) M /\
     q__Map_ptr_at m' k ks hashf w' = Ok (None, w')) /\
  (allocs [true; true; true; false] w -> exists m' w', q__Map_insert m k v ks vs hashf w = Ok ((0, m'), w') /\
     counts m' = u32 (counts m + 1) /\ w_live w' = w_live w + 3 /\
     forall k' w2, blen k' = ks -> hashf k' ks = hashf k ks -> M !! k' = None ->
       q__Map_ptr_at m' k' ks hashf w2 = Undef).
Proof using Type*.
  intros Hok <- <- HM.
  destruct (search_ok (blen k) (blen v) maxhashv hashf hash_range m M k w Hok eq_refl)
    as (d & r & Eb & Ef & Hr).
  destruct r as [i|]; [destruct Hr as (? & ? & ? & _ & _ & HM' & _); congruence|].
  destruct Hr as (_ & xs & Hr & Hkeep & _). unfold q__Map_insert. rewrite Eb.
  erewrite prog_bind_ok by reflexivity. rewrite (prog_bind_ok _ _ _ _ _ Ef).
  assert (Hcopies : forall al, allocs (true :: true :: al) w ->
    q__MapData_constructor k v (blen k) (blen v) w =
      Ok (MapData (Some k) (Some v) (blen k) (blen v),
          set_live (w_live w + 1 + 1) (set_alloc al w))).
  { intros al Ha. unfold q__MapData_constructor.
    rewrite (prog_bind_ok _ _ _ _ _ (duplicate_works k _ w Ha)).
    by rewrite (prog_bind_ok _ _ _ _ _ (duplicate_works v al (set_live (w_live w + 1) (set_alloc (true :: al) w)) eq_refl)). }
  split_and!; intros Ha; [unfold q__MapData_constructor..| |].
  - erewrite prog_bind_ok by (rewrite (prog_bind_ok _ _ _ _ _ (duplicate_fails k _ [] w Ha)); reflexivity).
    eexists. by split.
  - erewrite prog_bind_ok by (rewrite (prog_bind_ok _ _ _ _ _ (duplicate_works k [false] w Ha));
      erewrite prog_bind_ok by (by apply duplicate_fails); reflexivity).
    eexists. by split.
  - rewrite (prog_bind_ok _ _ _ _ _ (Hcopies _ Ha)). cbn [key value]. set (w1 := set_live _ (set_alloc [false] w)).
    destruct (Lists.push_back_no_node d xs (MapData (Some k) (Some v) (blen k) (blen v)) sizeof_qMapData [] w1 Hr
      eq_refl) as (d' & E & Hr').
    rewrite (prog_bind_ok _ _ _ _ _ E). eexists _, _. split; [reflexivity|]. split; [done|].
    split; [unfold w1; cbn; lia|]. pose proof (Hkeep d' Hr') as Hok'. split; [exact Hok'|].
    set (w2 := set_err _ _).
    pose proof (map_ptr_at_ok (blen k) (blen v) maxhashv hashf hash_range _ M k w2 Hok' eq_refl) as Hp.
    rewrite HM in Hp. exact Hp.
  - rewrite (prog_bind_ok _ _ _ _ _ (Hcopies _ Ha)). cbn [key value]. set (w1 := set_live _ (set_alloc [true; false] w)).
    destruct (Lists.push_back_no_data d xs (MapData (Some k) (Some v) (blen k) (blen v)) sizeof_qMapData [] w1 Hr
      eq_refl) as (d' & E & Hd').
    rewrite (prog_bind_ok _ _ _ _ _ E). eexists _, _. split; [reflexivity|]. split; [done|].
    split; [unfold w1; cbn; lia|]. intros k' w2 Hk' Hh HM2. unfold q__Map_ptr_at. rewrite Hh.
    rewrite (bucket_set _ _ _ _ _ Eb). erewrite prog_bind_ok by reflexivity. apply prog_bind_undef.
    eapply find_dangling; [exact Hd'|].
    destruct (search_ok (blen k) (blen v) maxhashv hashf hash_range m M k' w Hok Hk') as (d2 & r2 & Eb2 & Ef2 & Hr2).
    rewrite Hh, Eb in Eb2. injection Eb2 as <-.
    destruct r2 as [i|]; [destruct Hr2 as (? & ? & ? & _ & _ & HM' & _); congruence|].
    by eapply find_entry_none.
Qed.
End maps.
End Maps.

(** ** Vectors *)

(** A vector that cannot grow is left as it is. *)
Theorem vec_push_back_nomem desc xs e w :
  vec_ok desc xs -> allocated desc < (blen xs + 1) * elemstep desc ->
  2 * ((blen xs + 1) * elemstep desc + elemstep desc) < 2 ^ 31 -> w_alloc w = [false] ->
  qVector__push_back desc e w = Ok ((-1, desc), set_err ZHWK_ERR_MM_ALLOC_FAIL (set_alloc [] w)).
Proof.
  intros [(Hes & Hs & _ & Hb & _) _] Hlt Hmax Ha. pose proof (blen_nonneg xs).
  pose proof (blen_nonneg (block (content desc))). unfold qVector__push_back. rewrite Hs.
  rewrite (int_ok ((blen xs + 1) * elemstep desc)) by nia. erewrite prog_bind_ok by reflexivity.
  rewrite (proj2 (Z.ltb_lt _ _)) by done.
  rewrite (int_ok (2 * _)) by nia.
  erewrite prog_bind_ok by (erewrite prog_bind_ok by reflexivity; unfold alloc_block;
    erewrite prog_bind_ok by (by rewrite (prog_bind_ok _ _ _ _ _ (malloc_fails [] w Ha))); reflexivity).
  reflexivity.
Qed.

(** ** Tries *)

Module Tries.
Import QTrie.

Section tries.
Context (key payload : list byte) (sz : Z).

(** The loop at a node that is there: it goes down to it without allocating. *)
Lemma insert_at_node s : forall rest i it n n' w w',
  trie_ok it -> ascii s -> tfind it s = Some n ->
  (forall j r, insert_loop key payload sz 0 r j n w = Ok (n', w')) ->
  exists t', insert_loop key payload sz (length s) (s ++ rest) i it w = Ok (t', w') /\ tfind t' s = Some n'.
Proof.
  induction s as [|c s IH]; intros rest i it n n' w w' Ht Ha Hf Hn.
  { injection Hf as ->. exists n'. split; [apply Hn|done]. }
  apply Forall_cons_iff in Ha as [Hc Ha]. destruct (Ht [] it eq_refl) as [Hl _].
  cbn [tfind] in Hf. destruct (child c it) as [[m|]| | | |] eqn:E; try done.
  destruct (IH rest (i + 1) m n n' w w') as (t' & Et & Hf'); [by eapply trie_ok_child|done..|].
  exists (set_child c t' it). cbn [length app insert_loop]. rewrite E.
  do 2 erewrite prog_bind_ok by reflexivity. rewrite (prog_bind_ok _ _ _ _ _ Et). split; [done|].
  rewrite tfind_set by done. by rewrite decide_True.
Qed.

(** The new payload when its string cannot grow. *)
Lemma replace_nomem n al w :
  bss_ok (node_payload n) -> 32 < sz < 2 ^ 30 -> allocs (true :: false :: al) w ->
  exists w', (forall j r, insert_loop key payload sz 0 r j n w =
      Ok (TNode (node_value n) (Bss (Some (zeros 64)) 0 64) (node_children n), w')) /\
    w_live w' = w_live w /\ w_err w' = ZHWK_ERR_MM_ALLOC_FAIL.
Proof.
  intros (buf & Hb & _) Hsz Ha. set (w1 := set_live (w_live w - 1) w).
  assert (Ec : qbss_constructor w1 =
    Ok (Bss (Some (zeros 64)) 0 64, set_live (w_live w1 + 1) (set_alloc (false :: al) w1))).
  { unfold qbss_constructor. by rewrite (prog_bind_ok _ _ _ _ _ (malloc_works (false :: al) w1 Ha)). }
  eexists. split.
  - intros j r. cbn [insert_loop]. unfold qbss_destructor. rewrite Hb. erewrite prog_bind_ok by reflexivity.
    fold w1. rewrite (prog_bind_ok _ _ _ _ _ Ec).
    erewrite prog_bind_ok; [reflexivity|].
    eapply (append_nomem _ (zeros 64) payload sz al); [reflexivity| |reflexivity].
    cbn [capacity Bss.size]. rewrite (uwrap_small 32 (0 + sz)), uwrap_small by lia. lia.
  - unfold w1. cbn. split; [lia|done].
Qed.

End tries.

(** A payload that cannot be copied.  The first node of a trie is cleared before
    it is known to be there.  When the key is in the trie its payload is freed
    first; a new one of more than 32 bytes that cannot be allocated is dropped,
    and the insertion reports success: the key has an empty payload. *)
Theorem trie_insert_nomem desc kb k payload sz w :
  is_string kb k -> ascii k -> 32 < sz < 2 ^ 30 ->
  match root desc with
  | None => allocs [false] w -> qTrie__insert desc kb payload sz w = Undef
  | Some t => forall n, trie_ok t -> tfind t k = Some n -> allocs [true; false] w ->
      exists desc' w', qTrie__insert desc kb payload sz w = Ok ((0, desc'), w') /\
        payload_at desc' k = Some [] /\ w_live w' = w_live w /\ w_err w' = ZHWK_ERR_MM_ALLOC_FAIL
  end.
Proof.
  intros Hk Ha Hsz. unfold qTrie__insert. destruct (root desc) as [t|].
  - intros n Ht Hn Hal. destruct (string_block _ _ Hk) as (rest & -> & -> & _).
    destruct (Ht k n Hn) as [_ Hp].
    destruct (replace_nomem (k ++ rest) payload sz n [] w Hp Hsz Hal) as (w' & E & Hl & He).
    destruct (insert_at_node (k ++ rest) payload sz k rest 0 t n _ w w' Ht Ha Hn E) as (t' & Et & Hf).
    exists (TDesc (trie_size desc) (Some t')), w'. erewrite prog_bind_ok by reflexivity. cbv zeta.
    rewrite (prog_bind_ok _ _ _ _ _ Et). split; [done|]. split; [|done].
    unfold payload_at, pay. cbn [root]. by rewrite Hf.
  - intros Hal. unfold qTrieNode__constructor. apply prog_bind_undef.
    by rewrite (prog_bind_ok _ _ _ _ _ (malloc_fails [] w Hal)).
Qed.

End Tries.

(** ** Witnesses *)

Lemma recv_nomem_witness :
  recv (zeros 104) 104 (set_alloc [true; false] (start [RdData (zeros 104)])) = Undef.
Proof.
  exact (recv_nomem (zeros 104) 104 (zeros 104) [] [] (set_alloc [true; false] (start [RdData (zeros 104)]))
    ltac:(lia) ltac:(vm_compute; discriminate) ltac:(vm_compute; discriminate) eq_refl eq_refl).
Defined.

(** A list of one element. *)
Definition one_elem : QList.qListDescriptor Z :=
  QList.LDesc (Some 1%positive) (Some 1%positive) 1 {[1%positive := Link None None]}
    {[1%positive := (Some 5, 8)]} 2.

Lemma one_elem_rep : QList.rep one_elem [(1%positive, (5, 8))].
Proof.
  split; try done; cbn.
  - apply list.NoDup_singleton.
  - by repeat constructor.
  - repeat constructor; lia.
Qed.


Lemma map_insert_nomem_witness :
  (exists m' w', QMap.q__Map_insert QMap.map0 [Byte.x01] [Byte.x0a] 1 1 QMap.hash7
      (set_alloc [true; true; false] (start [])) = Ok ((0, m'), w') /\
    QMap.counts m' = 1 /\ QMap.q__Map_ptr_at m' [Byte.x01] 1 QMap.hash7 w' = Ok (None, w')) /\
  exists m' w', QMap.q__Map_insert QMap.map0 [Byte.x01] [Byte.x0a] 1 1 QMap.hash7
      (set_alloc [true; true; true; false] (start [])) = Ok ((0, m'), w') /\
    QMap.q__Map_ptr_at m' [Byte.x01] 1 QMap.hash7 w' = Undef.
Proof.
  split.
  - destruct (Maps.map_insert_nomem 1 1 7 QMap.hash7 QMap.hash7_range QMap.map0 ∅ [Byte.x01] [Byte.x0a]
      (set_alloc [true; true; false] (start [])) QMap.map0_ok eq_refl eq_refl eq_refl) as (_ & _ & H & _).
    destruct (H eq_refl) as (m' & w' & E & Hc & _ & _ & Hp). exists m', w'. split_and!; [exact E|exact Hc|exact Hp].
  - destruct (Maps.map_insert_nomem 1 1 7 QMap.hash7 QMap.hash7_range QMap.map0 ∅ [Byte.x01] [Byte.x0a]
      (set_alloc [true; true; true; false] (start [])) QMap.map0_ok eq_refl eq_refl eq_refl) as (_ & _ & _ & H).
    destruct (H eq_refl) as (m' & w' & E & _ & _ & Hp). exists m', w'. split; [exact E|].
    exact (Hp [Byte.x01] w' eq_refl eq_refl eq_refl).
Defined.

Lemma vec_push_back_nomem_witness :
  exists w', qVector__push_back (Vec None 0 4 0 1) (zeros 4) (set_alloc [false] (start [])) =
    Ok ((-1, Vec None 0 4 0 1), w').
Proof.
  eexists. apply (vec_push_back_nomem (Vec None 0 4 0 1) [] (zeros 4) (set_alloc [false] (start [])));
    [|reflexivity|reflexivity|reflexivity].
  split; [split_and!; [reflexivity|reflexivity|constructor|reflexivity|exists []; reflexivity]|vm_compute; discriminate].
Defined.
