(* ===== verification/Selftest.v ===== *)
(** * What the test programs share (zhwkre/tests)

    The programs of zhwkre/tests exercise the containers with the integers from 0
    to [TESTNUM] and leave with [exit(1)], [pabort] here, at the first deviation.
    They are modelled with [TESTNUM] as a parameter; TestAVLTree.v,
    TestBTree.v and TestContainers.v prove that they pass.  What they print is not
    modelled. *)

From S2P Require Import Prelude World Utils.
Local Open Scope Z_scope.

(** ** Integers as elements *)

(** The bytes of an [int] variable. *)
Definition int4 (i : Z) : list byte := le_enc 4 i.

(** The [int] at an address. *)
Definition read_int (b : list byte) : Z := s32 (le_dec b).

(** The comparator of the tests.  It leaves the program when a size is not 4, and
    its subtraction overflows when the integers are too far apart: the domain of
    the comparator excludes both, and the trees it is used with hold keys of this
    domain only. *)
Definition int_comparator (a : list byte) (asize : Z) (b : list byte) (bsize : Z) : Z :=
  read_int a - read_int b.

Definition int_key (k : list byte) : Prop := blen k = 4 /\ 0 <= read_int k.

#[export] Instance int_comparator_ok : Comparator int_key int_comparator.
Proof. split; unfold ccmp, int_comparator; intros; lia. Qed.

Lemma read_int4 i : 0 <= i < 2 ^ 31 -> read_int (int4 i) = i.
Proof.
  intros Hi. unfold read_int, int4. rewrite le_dec_enc. change (8 * Z.of_nat 4) with 32.
  rewrite uwrap_small by lia. apply swrap_small; lia.
Qed.

Lemma int4_key i : 0 <= i < 2 ^ 31 -> int_key (int4 i).
Proof. intros Hi. split; [done|]. rewrite read_int4 by done. lia. Qed.

Lemma ccmp_int4 i j : 0 <= i < 2 ^ 31 -> 0 <= j < 2 ^ 31 -> ccmp int_comparator (int4 i) (int4 j) = i - j.
Proof. intros Hi Hj. unfold ccmp, int_comparator. by rewrite !read_int4. Qed.

(** ** Loops *)

(** [for(int i = from; i < from + n; i++)]. *)
Fixpoint for_loop {S} (i : Z) (n : nat) (body : Z -> S -> io S) (s : S) : io S :=
  match n with
  | O => mret s
  | Datatypes.S n' => s ← body i s; for_loop (i + 1) n' body s
  end.

(** An invariant of the loop holds at its end. *)
Lemma for_loop_ok {S} (I : Z -> S -> world -> Prop) (body : Z -> S -> io S) hi n : forall i s w,
  i + Z.of_nat n = hi -> I i s w ->
  (forall j s w, i <= j < hi -> I j s w -> exists s' w', body j s w = Ok (s', w') /\ I (j + 1) s' w') ->
  exists s' w', for_loop i n body s w = Ok (s', w') /\ I hi s' w'.
Proof.
  induction n as [|n IH]; intros i s w Hn HI Hb; cbn [for_loop].
  { exists s, w. split; [done|]. by replace hi with i by lia. }
  destruct (Hb i s w ltac:(lia) HI) as (s1 & w1 & E & HI1). rewrite (prog_bind_ok _ _ _ _ _ E).
  apply (IH (i + 1)); [lia|done|]. intros j s2 w2 Hj. apply Hb. lia.
Qed.

(** [if(!ok) exit(1);] *)
Definition expect (ok : bool) : io unit := if ok then mret tt else pabort.

Lemma expect_ok ok w : ok = true -> expect ok w = Ok (tt, w).
Proof. by intros ->. Qed.

(** No error is pending and every allocation succeeds. *)
Definition clean (w : world) : Prop := mem_ok w /\ w_err w = 0.

Lemma set_err_id w : w_err w = 0 -> set_err 0 w = w.
Proof. by intros <-. Qed.

Lemma fatalerr_ok w : w_err w = 0 -> fatalerr w = Ok (tt, w).
Proof.
  intros He. unfold fatalerr. prun. rewrite He. cbn [Z.eqb]. by rewrite set_err_id.
Qed.

(** ** What is left after the erasures

    Both tree tests erase the odd numbers of a range. *)

Section left_after.
Context (TESTNUM : Z).

(** The keys in the tree once the odd numbers below [i] have been erased. *)
Definition left_after (i : Z) : list Z := List.filter (fun j => (j mod 2 =? 0) || (i <=? j)) (seqZ 0 TESTNUM).

Lemma left_after_in i j : j ∈ left_after i <-> 0 <= j < TESTNUM /\ (j mod 2 = 0 \/ i <= j).
Proof using Type.
  unfold left_after. rewrite list_elem_of_In, filter_In, <- list_elem_of_In, elem_of_seqZ.
  rewrite orb_true_iff, Z.eqb_eq, Z.leb_le. lia.
Qed.

Lemma left_after_range i : Forall (fun j => 0 <= j < TESTNUM) (left_after i).
Proof using Type. apply list.Forall_forall. by intros j [? _]%left_after_in. Qed.

Lemma filter_filter (f g : Z -> bool) l :
  List.filter f (List.filter g l) = List.filter (fun j => g j && f j) l.
Proof using Type.
  induction l as [|j l IH]; [done|]. cbn. destruct (g j); cbn; [destruct (f j); by rewrite IH|done].
Qed.

Lemma left_after_step i :
  left_after (i + 1) =
    if i mod 2 =? 0 then left_after i else List.filter (fun j => negb (i =? j)) (left_after i).
Proof using Type.
  unfold left_after. destruct (Z.eqb_spec (i mod 2) 0) as [E|E]; rewrite ?filter_filter;
    apply filter_ext; intros j;
    destruct (Z.eqb_spec (j mod 2) 0), (Z.leb_spec i j), (Z.leb_spec (i + 1) j), (Z.eqb_spec i j);
    subst; done || lia.
Qed.

Lemma left_count m : Z.of_nat (2 * m) <= TESTNUM ->
  length (List.filter (fun j => (j mod 2 =? 0) || (TESTNUM <=? j)) (seqZ 0 (Z.of_nat (2 * m)))) = m.
Proof using Type.
  induction m as [|m IH]; intros Hm; [done|].
  replace (Z.of_nat (2 * S m)) with (Z.of_nat (2 * m) + 2) by lia. rewrite seqZ_app by lia.
  rewrite List.filter_app, length_app, IH by lia.
  change (seqZ (0 + Z.of_nat (2 * m)) 2) with [Z.of_nat (2 * m); 1 + Z.of_nat (2 * m)].
  set (k := Z.of_nat (2 * m)) in *. assert (Ek : k = Z.of_nat m * 2) by (unfold k; lia). cbn [List.filter].
  assert (E0 : k mod 2 = 0) by (rewrite Ek; by apply Z.mod_mul).
  assert (E1 : (1 + k) mod 2 = 1) by (rewrite Ek; by rewrite Z.mod_add).
  rewrite E0, E1, (proj2 (Z.leb_gt TESTNUM (1 + k))) by lia. cbn. lia.
Qed.

Lemma left_after_all : left_after 0 = seqZ 0 TESTNUM.
Proof using Type.
  unfold left_after. rewrite (filter_ext_in _ (fun _ => true)); [apply filter_true|].
  intros j Hj%list_elem_of_In. rewrite elem_of_seqZ in Hj. rewrite orb_true_iff, Z.leb_le. lia.
Qed.

(** Half of an even number of integers is left. *)
Lemma left_after_half : 0 <= TESTNUM -> TESTNUM mod 2 = 0 -> Z.of_nat (length (left_after TESTNUM)) = TESTNUM / 2.
Proof using Type.
  intros Hr Heven. pose proof (Z.div_mod TESTNUM 2 ltac:(done)) as Hdiv. unfold left_after.
  replace (seqZ 0 TESTNUM) with (seqZ 0 (Z.of_nat (2 * Z.to_nat (TESTNUM / 2)))) by (f_equal; lia).
  rewrite left_count by lia. lia.
Qed.

End left_after.
