(* ===== verification/TestAVLTree.v ===== *)
(** * The test of the search tree (zhwkre/tests/avltree_test.c)

    The program inserts the integers below [TESTNUM], finds them, iterates both
    ways, erases the odd ones and looks again.  It passes for every even
    [TESTNUM] ([avltree_test_passes]), although the tree need not be balanced. *)

From stdpp Require Import list_numbers.
From S2P Require Import Prelude World Utils Chain Ordered AVLTree AVLTreeFacts AVLTreeSpec Selftest.
Local Open Scope Z_scope.

(** ** The program *)

(** The loop [for(it = end(desc); isvalid(it); it = prev(it))]. *)
Fixpoint backwards {S} (fuel : nat) (desc : qAVLTreeDescriptor) (it : option positive)
    (body : list byte -> S -> io S) (s : S) : io S :=
  match fuel with
  | O => fun _ => Diverged
  | Datatypes.S fuel' =>
      if qAVLTreeIterator_isvalid it then
        match qAVLTreeIterator_deref desc it with
        | None => pundef
        | Some data =>
            s ← body data s;
            it ← lift_res (qAVLTreeIterator_prev desc it);
            backwards fuel' desc it body s
        end
      else mret s
  end.

Section test.
Context (TESTNUM : Z).

(** The search for [i]. *)
Definition find_int (desc : qAVLTreeDescriptor) (i : Z) : Z * option positive :=
  qAVLTree__ptr_at int_comparator desc (int4 i).

(** A search has found a node, which holds [i]. *)
Definition present (desc : qAVLTreeDescriptor) (search : Z * option positive) (i : Z) : io unit :=
  let '(stat, testiter) := search in
  expect (stat =? 0);;
  expect (qAVLTreeIterator_isvalid testiter);;
  match qAVLTreeIterator_deref desc testiter with
  | None => pundef
  | Some b => expect (read_int b =? i)
  end.

Definition test_insert (i : Z) (desc : qAVLTreeDescriptor) : io qAVLTreeDescriptor :=
  '(stat, desc) ← qAVLTree__insert int_comparator desc (int4 i);
  fatalerr;;
  expect (stat =? 0);;
  mret desc.

Definition test_find (desc : qAVLTreeDescriptor) (i : Z) (_ : unit) : io unit :=
  let search := find_int desc i in
  fatalerr;;
  present desc search i.

Definition test_erase (i : Z) (desc : qAVLTreeDescriptor) : io qAVLTreeDescriptor :=
  if i mod 2 =? 0 then mret desc else
  let '(stat, testiter) := find_int desc i in
  expect (stat =? 0);;
  match testiter with
  | None => pundef
  | Some it =>
      '(stat, desc) ← qAVLTree__erase int_comparator desc it;
      expect (stat =? 0);;
      mret desc
  end.

Definition test_erased (desc : qAVLTreeDescriptor) (i : Z) (_ : unit) : io unit :=
  let search := find_int desc i in
  if i mod 2 =? 0 then present desc search i else expect (search.1 =? -1).

Definition avltree_test : io Z :=
  let N := Z.to_nat TESTNUM in
  desc ← for_loop 0 N test_insert qAVLTree_constructor;
  expect (desc_size desc =? TESTNUM);;
  for_loop 0 N (test_find desc) tt;;
  curr ← foreach (S N) desc (qAVLTree_begin desc)
    (fun b curr => expect (read_int b =? curr);; mret (curr + 1, false)) 0;
  expect (curr =? TESTNUM);;
  curr ← backwards (S N) desc (qAVLTree_end desc)
    (fun b curr => expect (read_int b =? curr);; mret (curr - 1)) (TESTNUM - 1);
  expect (curr =? -1);;
  desc ← for_loop 0 N test_erase desc;
  expect (desc_size desc =? Z.quot TESTNUM 2);;
  for_loop 0 N (test_erased desc) tt;;
  mret 0.

(** ** It passes *)

Context (Hrange : 0 <= TESTNUM < 2 ^ 31).

Abbreviation wf := (AVLTreeFacts.wf (dom := int_key) (comp := int_comparator)).

(** The elements [l] of a tree, all in the range of the test. *)
Definition holds_ints (desc : qAVLTreeDescriptor) (l : list Z) : Prop :=
  wf desc /\ elems desc = int4 <$> l /\ Forall (fun j => 0 <= j < TESTNUM) l.

Lemma mem_ints i l :
  0 <= i < TESTNUM -> Forall (fun j => 0 <= j < TESTNUM) l -> mem int_comparator (int4 i) (int4 <$> l) = bool_decide (i ∈ l).
Proof using Hrange.
  intros Hi. induction 1 as [|j l Hj _ IH]; [by rewrite bool_decide_eq_false_2 by set_solver|].
  rewrite fmap_cons. unfold mem in *. cbn [existsb]. rewrite IH, ccmp_int4 by lia.
  destruct (Z.eqb_spec (i - j) 0) as [E|E]; cbn [orb].
  - symmetry. apply bool_decide_eq_true_2. assert (i = j) as -> by lia. left.
  - apply bool_decide_ext. rewrite elem_of_cons. split; [by right|]. intros [->|?]; [lia|done].
Qed.

Lemma in_range l j : Forall (fun j => 0 <= j < TESTNUM) l -> j ∈ l -> 0 <= j < TESTNUM.
Proof using Type. intros Hl. by apply (proj1 (list.Forall_forall _ _) Hl). Qed.

(** A key of the tree has a node that holds it. *)
Lemma found desc l i :
  holds_ints desc l -> i ∈ l ->
  exists a, qAVLTree__ptr_at int_comparator desc (int4 i) = (0, Some a) /\
    (a, int4 i) ∈ inorder (desc_root desc).
Proof using Hrange.
  intros (Hwf & El & Hl) Hi. pose proof (in_range l i Hl Hi) as Hir.
  destruct (ptr_at_spec desc (int4 i) Hwf (int4_key i ltac:(lia))) as [(a & k & E & Hin & Ek)|[_ Hall]].
  - exists a. split; [done|]. pose proof (list_elem_of_fmap_2 snd _ _ Hin) as Hk.
    change (k ∈ elems desc) in Hk. rewrite El in Hk. apply list_elem_of_fmap in Hk as (j & -> & Hj).
    pose proof (in_range l j Hl Hj). rewrite ccmp_int4 in Ek by lia.
    by replace i with j by lia.
  - exfalso. rewrite El in Hall. rewrite list.Forall_forall in Hall.
    apply (Hall (int4 i)); [by apply list_elem_of_fmap_2|]. rewrite ccmp_int4; lia.
Qed.

Lemma not_found desc l i :
  holds_ints desc l -> 0 <= i < TESTNUM -> i ∉ l ->
  qAVLTree__ptr_at int_comparator desc (int4 i) = (-1, None).
Proof using Hrange.
  intros (Hwf & El & Hl) Hi Hn.
  destruct (ptr_at_spec desc (int4 i) Hwf (int4_key i ltac:(lia))) as [(a & k & E & Hin & Ek)|[E _]]; [|done].
  destruct Hn. pose proof (list_elem_of_fmap_2 snd _ _ Hin) as Hk. change (k ∈ elems desc) in Hk.
  rewrite El in Hk. apply list_elem_of_fmap in Hk as (j & -> & Hj).
  pose proof (in_range l j Hl Hj). rewrite ccmp_int4 in Ek by lia.
  by replace i with j by lia.
Qed.

Lemma present_ok desc l i w : holds_ints desc l -> i ∈ l -> present desc (find_int desc i) i w = Ok (tt, w).
Proof using Hrange.
  intros H Hi. destruct (found desc l i H Hi) as (a & E & Hin). destruct H as (Hwf & _ & Hl).
  pose proof (in_range l i Hl Hi). unfold present, find_int. rewrite E.
  do 2 erewrite prog_bind_ok by (by apply expect_ok).
  assert (Ed : qAVLTreeIterator_deref desc (Some a) = Some (int4 i)).
  { unfold qAVLTreeIterator_deref. cbn. apply node_data_spec; [apply Hwf|done]. }
  rewrite Ed. apply expect_ok. rewrite read_int4 by lia. apply Z.eqb_refl.
Qed.

(** *** The loops *)

Lemma spec_insert_last i :
  0 <= i < TESTNUM ->
  spec_step int_comparator (TInsert (int4 i)) (int4 <$> seqZ 0 i) = (0, int4 <$> seqZ 0 (i + 1)).
Proof using Hrange.
  intros Hi. cbn [spec_step]. rewrite mem_ints; [|done|apply Forall_seqZ; intros; lia].
  rewrite bool_decide_eq_false_2 by (rewrite elem_of_seqZ; lia).
  rewrite seqZ_app by lia. rewrite fmap_app. change (seqZ (0 + i) 1) with [i].
  f_equal. assert (H : Forall (fun j => 0 <= j < i) (seqZ 0 i)) by (apply Forall_seqZ; intros; lia).
  induction H as [|j l Hj _ IH]; cbn [fmap list_fmap place app].
  { done. }
  rewrite ccmp_int4 by lia. rewrite (proj2 (Z.ltb_ge _ _)) by lia. f_equal. exact IH.
Qed.

Lemma insert_loop w :
  clean w -> exists desc w', for_loop 0 (Z.to_nat TESTNUM) test_insert qAVLTree_constructor w = Ok (desc, w') /\
    holds_ints desc (seqZ 0 TESTNUM) /\ clean w'.
Proof using Hrange.
  intros Hc.
  destruct (for_loop_ok (fun i desc w => (wf desc /\ elems desc = int4 <$> seqZ 0 i) /\ clean w)
    test_insert TESTNUM (Z.to_nat TESTNUM) 0 qAVLTree_constructor w) as (desc & w' & E & [Hwf El] & Hc').
  - lia.
  - split; [|done]. split; [|done].
    apply Wf; [reflexivity|constructor|exact I|exact I|split_and!; [constructor|constructor|exact I]].
  - intros i desc w1 Hi ([Hwf El] & Hm & He).
    destruct (tree_step_refines (TInsert (int4 i)) desc w1 Hwf (int4_key i ltac:(lia)) Hm) as (d' & Hwf' & E & El').
    { rewrite El. unfold blen. rewrite length_fmap, length_seqZ. lia. }
    rewrite El, spec_insert_last in E, El' by lia. cbn [tree_step fst snd] in *.
    eexists d', _. split; [|split; [done|]].
    + unfold test_insert. rewrite (prog_bind_ok _ _ _ _ _ E). cbv beta iota.
      erewrite prog_bind_ok by (by apply fatalerr_ok). done.
    + by split.
  - exists desc, w'. split; [exact E|]. split; [|done]. split_and!; [done|done|apply Forall_seqZ; intros; lia].
Qed.

Lemma find_loop desc l w :
  holds_ints desc l -> (forall i, 0 <= i < TESTNUM -> i ∈ l) -> clean w ->
  for_loop 0 (Z.to_nat TESTNUM) (test_find desc) tt w = Ok (tt, w).
Proof using Hrange.
  intros H Hl [Hm He].
  destruct (for_loop_ok (fun _ _ w' => w' = w) (test_find desc) TESTNUM (Z.to_nat TESTNUM) 0 tt w)
    as ([] & w' & E & ->); [lia|done| |done].
  intros i [] w1 Hi ->. exists tt, w. split; [|done]. unfold test_find. cbv zeta.
  rewrite (prog_bind_ok _ _ _ _ _ (fatalerr_ok w He)). by apply (present_ok desc l), Hl.
Qed.

Lemma count_up i n w :
  0 <= i -> 0 <= n -> i + n <= TESTNUM ->
  each (int4 <$> seqZ i n) (fun b curr => expect (read_int b =? curr);; mret (curr + 1, false)) i w = Ok (i + n, w).
Proof using Hrange.
  intros Hi Hn. revert i Hi. pattern n. apply natlike_ind; [| |done]; clear n Hn.
  - intros i Hi _. by rewrite Z.add_0_r.
  - intros n Hn IH i Hi Hle. rewrite seqZ_cons by lia. cbn [fmap list_fmap each].
    erewrite prog_bind_ok.
    2:{ erewrite prog_bind_ok by (apply expect_ok; rewrite read_int4 by lia; apply Z.eqb_refl). reflexivity. }
    cbv beta iota. replace (Z.pred (Z.succ n)) with n by lia. rewrite IH by lia. do 2 f_equal. lia.
Qed.

Lemma backwards_ok desc suf w : forall fuel pre n,
  wf desc -> inorder (desc_root desc) = pre ++ suf -> (length pre < fuel)%nat ->
  0 <= n <= TESTNUM -> pre.*2 = int4 <$> seqZ 0 n ->
  backwards fuel desc (last_of None pre.*1)
    (fun b curr => expect (read_int b =? curr);; mret (curr - 1)) (n - 1) w = Ok (-1, w).
Proof using Hrange.
  intros fuel pre n Hwf. revert fuel suf n. induction pre as [|[a k] pre IH] using rev_ind;
    intros fuel suf n Hin Hf Hn Hk; (destruct fuel as [|fuel]; [lia|]).
  - assert (n = 0) as ->; [|done]. apply (f_equal length) in Hk.
    rewrite !length_fmap, length_seqZ in Hk. cbn in Hk. lia.
  - assert (Hn1 : 0 < n).
    { apply (f_equal length) in Hk. rewrite !length_fmap, length_seqZ, length_app in Hk. cbn in Hk. lia. }
    replace n with (n - 1 + 1) in Hk by lia. rewrite seqZ_app in Hk by lia.
    rewrite !fmap_app in Hk. change (seqZ (0 + (n - 1)) 1) with [n - 1] in Hk.
    apply app_inj_tail in Hk as [Hk Ek]. rewrite fmap_app.
    change ([(a, k)].*1) with [a]. rewrite last_of_snoc.
    cbn [backwards qAVLTreeIterator_isvalid fst].
    assert (Ed : qAVLTreeIterator_deref desc (Some a) = Some k).
    { unfold qAVLTreeIterator_deref. cbn. apply node_data_spec; [apply Hwf|]. rewrite Hin. set_solver. }
    rewrite Ed. cbn [snd] in Ek. subst k.
    erewrite prog_bind_ok.
    2:{ erewrite prog_bind_ok by (apply expect_ok; rewrite read_int4 by lia; apply Z.eqb_eq; lia). reflexivity. }
    assert (El : links (desc_nodes desc) !! a = Some (Link (last_of None pre.*1) (first_of suf.*1 None))).
    { pose proof (wf_thread _ Hwf) as (_ & _ & Hch). unfold ids in Hch. rewrite Hin, !fmap_app, <- app_assoc in Hch.
      by apply chain_lookup in Hch. }
    unfold qAVLTreeIterator_prev. cbn [mbind option_bind]. rewrite El.
    erewrite prog_bind_ok by reflexivity. cbn [prev].
    rewrite length_app in Hf. cbn in Hf.
    apply (IH fuel ((a, int4 (n - 1)) :: suf)); [by rewrite <- app_assoc in Hin|lia|lia|done].
Qed.

Lemma remove_ints i l :
  0 <= i < TESTNUM -> Forall (fun j => 0 <= j < TESTNUM) l ->
  remove int_comparator (int4 i) (int4 <$> l) = int4 <$> List.filter (fun j => negb (i =? j)) l.
Proof using Hrange.
  intros Hi. unfold remove. induction 1 as [|j l Hj _ IH]; [done|].
  cbn [fmap list_fmap List.filter]. rewrite ccmp_int4 by lia.
  replace (i - j =? 0) with (i =? j) by (destruct (Z.eqb_spec i j), (Z.eqb_spec (i - j) 0); done || lia).
  destruct (i =? j); cbn [negb]; [exact IH|]. cbn [fmap list_fmap]. f_equal. exact IH.
Qed.

Lemma erase_loop desc w :
  holds_ints desc (seqZ 0 TESTNUM) -> clean w ->
  exists desc' w', for_loop 0 (Z.to_nat TESTNUM) test_erase desc w = Ok (desc', w') /\
    holds_ints desc' (left_after TESTNUM TESTNUM) /\ clean w'.
Proof using Hrange.
  intros H Hc.
  apply (for_loop_ok (fun i desc w => holds_ints desc (left_after TESTNUM i) /\ clean w)); [lia| |].
  - split; [|done]. destruct H as (Hwf & El & Hl). split; [done|]. split; [|apply left_after_range].
    by rewrite El, left_after_all.
  - intros i d w1 Hi [Hd Hm]. unfold test_erase, find_int. rewrite left_after_step.
    destruct (Z.eqb_spec (i mod 2) 0) as [E|E]; [by exists d, w1|].
    assert (Hin : i ∈ left_after TESTNUM i) by (apply left_after_in; lia).
    destruct (found d (left_after TESTNUM i) i Hd Hin) as (a & Ep & _). destruct Hd as (Hwf & El & _).
    destruct (tree_step_refines (TErase (int4 i)) d w1 Hwf (int4_key i ltac:(lia))) as (d' & Hwf' & Et & El'); [apply Hm| |].
    { rewrite El. unfold blen, left_after. rewrite length_fmap.
      pose proof (filter_length_le (fun j => (j mod 2 =? 0) || (i <=? j)) (seqZ 0 TESTNUM)) as Hfl.
      rewrite length_seqZ in Hfl. lia. }
    cbn [tree_step spec_step] in Et, El'. rewrite Ep in Et |- *.
    rewrite El, mem_ints, bool_decide_eq_true_2 in Et, El' by (done || apply left_after_range).
    cbn [fst snd] in *. rewrite remove_ints in El' by (done || apply left_after_range).
    eexists d', _. split; [|split; [split_and!; [done|exact El'|]|]].
    + erewrite prog_bind_ok by (by apply expect_ok). rewrite (prog_bind_ok _ _ _ _ _ Et). cbv beta iota.
      by erewrite prog_bind_ok by (by apply expect_ok).
    + pose proof (left_after_range TESTNUM (i + 1)) as Hr. rewrite left_after_step in Hr.
      by rewrite (proj2 (Z.eqb_neq _ _)) in Hr.
    + exact Hm.
Qed.

Lemma erased_loop desc w :
  holds_ints desc (left_after TESTNUM TESTNUM) ->
  for_loop 0 (Z.to_nat TESTNUM) (test_erased desc) tt w = Ok (tt, w).
Proof using Hrange.
  intros H.
  destruct (for_loop_ok (fun _ _ w' => w' = w) (test_erased desc) TESTNUM (Z.to_nat TESTNUM) 0 tt w)
    as ([] & w' & E & ->); [lia|done| |done].
  intros i [] w1 Hi ->. exists tt, w. split; [|done]. unfold test_erased. cbv zeta. pose proof (left_after_in TESTNUM TESTNUM i) as Hin.
  destruct (Z.eqb_spec (i mod 2) 0) as [E|E].
  - apply (present_ok desc (left_after TESTNUM TESTNUM)); [done|]. apply Hin. split; [lia|by left].
  - unfold find_int. rewrite (not_found desc (left_after TESTNUM TESTNUM)); [done|done|lia|]. rewrite Hin. lia.
Qed.

(** C38. The test of the search tree passes.  For every even number of elements
    that an [int] can count, the whole program of avltree_test.c returns 0: every
    insertion, search, step forwards and backwards and erasure gives what the
    program compares it with.  (An odd number would fail the comparison of the
    size with [TESTNUM/2].) *)
Theorem avltree_test_passes w :
  TESTNUM mod 2 = 0 -> mem_ok w -> w_err w = 0 -> exists w', avltree_test w = Ok (0, w').
Proof using Hrange.
  intros Heven Hm He. unfold avltree_test. cbv zeta.
  pose proof (Z.div_mod TESTNUM 2 ltac:(done)) as Hdiv.
  destruct (insert_loop w (conj Hm He)) as (desc & w1 & E & H & Hc). rewrite (prog_bind_ok _ _ _ _ _ E).
  pose proof H as (Hwf & El & _).
  assert (Hlen : blen (elems desc) = TESTNUM).
  { rewrite El. unfold blen. rewrite length_fmap, length_seqZ. lia. }
  erewrite prog_bind_ok by (apply expect_ok; rewrite (wf_size _ Hwf), Hlen, uwrap_small by lia; apply Z.eqb_refl).
  erewrite prog_bind_ok by (eapply find_loop; [done|intros; apply elem_of_seqZ; lia|done]).
  erewrite prog_bind_ok.
  2:{ replace (S (Z.to_nat TESTNUM)) with (S (length (elems desc)))
        by (f_equal; unfold blen in Hlen; lia).
      rewrite foreach_elems, El by done. apply count_up; lia. }
  erewrite prog_bind_ok by (apply expect_ok; apply Z.eqb_eq; lia).
  erewrite prog_bind_ok.
  2:{ unfold qAVLTree_end. rewrite max_node_last.
      apply (backwards_ok desc [] w1 (S (Z.to_nat TESTNUM)) (inorder (desc_root desc)));
        [done|by rewrite app_nil_r| |lia|exact El].
      unfold elems, keys, blen in Hlen. rewrite length_fmap in Hlen. lia. }
  erewrite prog_bind_ok by (by apply expect_ok).
  destruct (erase_loop desc w1 H Hc) as (d' & w2 & E2 & H2 & _). rewrite (prog_bind_ok _ _ _ _ _ E2).
  erewrite prog_bind_ok.
  2:{ apply expect_ok. destruct H2 as (Hwf2 & El2 & _). rewrite (wf_size _ Hwf2), El2. unfold blen.
      rewrite length_fmap, left_after_half by (done || lia).
      rewrite Z.quot_div_nonneg, uwrap_small by lia. apply Z.eqb_refl. }
  erewrite prog_bind_ok by (by apply erased_loop). by exists w2.
Qed.
End test.

(** ** Witness *)

Lemma avltree_test_passes_witness : exists w', avltree_test 10000000 (start []) = Ok (0, w').
Proof. apply (avltree_test_passes 10000000); [split; done|reflexivity|reflexivity|reflexivity]. Defined.
