(* ===== verification/TestContainers.v ===== *)
(** * The tests of strings and vectors (zhwkre/tests/bss_test.c, vector_test.c)

    Both programs pass for every number of elements whose bytes the containers
    can count ([bss_test_passes], [vector_test_passes]). *)

From stdpp Require Import list_numbers.
From S2P Require Import Prelude World Utils Selftest.
From S2P Require Bss QVector.
Local Open Scope Z_scope.

(** The integers of a test as elements. *)
Definition ints (from n : Z) : list (list byte) := int4 <$> seqZ from n.

Lemma ints_snoc from n : 0 <= n -> ints from (n + 1) = ints from n ++ [int4 (from + n)].
Proof. intros Hn. unfold ints. by rewrite seqZ_app, fmap_app by lia. Qed.

Lemma ints_split from n j :
  0 <= j < n -> ints from n = ints from j ++ int4 (from + j) :: ints (from + j + 1) (n - j - 1).
Proof.
  intros Hj. unfold ints. replace n with (j + (1 + (n - j - 1))) at 1 by lia.
  rewrite !seqZ_app, !fmap_app by lia. do 2 f_equal.
Qed.

Lemma blen_ints from n : 0 <= n -> blen (ints from n) = n.
Proof. intros Hn. unfold ints, blen. rewrite length_fmap, length_seqZ. lia. Qed.

Lemma ints_step from n : Forall (fun x => blen x = 4) (ints from n).
Proof. unfold ints. apply Forall_fmap, list.Forall_forall. done. Qed.

Lemma blen_concat_ints from n : 0 <= n -> blen (concat (ints from n)) = 4 * n.
Proof.
  intros Hn. rewrite <- (blen_ints from n Hn) at 2. induction (ints_step from n) as [|x l Hx _ IH]; [done|].
  cbn [concat]. rewrite blen_app, blen_cons, IH, Hx. lia.
Qed.

(** ** Strings *)

Module Strings.
Import Bss.

Section bss_test.
Context (ELEMCOUNT : Z).

(** [fakearr[i]]: the block of the string as an array of [int]s. *)
Definition int_in (fakearr : list byte) (i : Z) : res Z :=
  if 4 * i + 4 <=? blen fakearr then Ok (read_int (bslice (4 * i) 4 fakearr)) else Undef.

Definition bss_test : io Z :=
  let N := Z.to_nat ELEMCOUNT in
  bss ← qbss_constructor;
  bss ← for_loop 0 N (fun i bss => q__bss_append bss (int4 i) 4) bss;
  match str bss with
  | None => pundef
  | Some fakearr =>
      for_loop 0 N (fun i _ => v ← lift_res (int_in fakearr i); expect (v =? i)) tt;;
      mret 0
  end.

(** The test of the strings passes for every number of integers whose bytes
    an [int] can count: the string holds them all, in order. *)
Theorem bss_test_passes w :
  0 <= 4 * ELEMCOUNT < 2 ^ 31 -> mem_ok w -> exists w', bss_test w = Ok (0, w').
Proof.
  intros Hr Hm. unfold bss_test. cbv zeta. rewrite (prog_bind_ok _ _ _ _ _ (qbss_constructor_eq w Hm)).
  set (w1 := set_live _ w).
  destruct (for_loop_ok (fun i bss w' => bss_ok bss /\ size bss = 4 * i /\
      content bss = concat (ints 0 i) /\ w' = w1)
    (fun i bss => q__bss_append bss (int4 i) 4) ELEMCOUNT (Z.to_nat ELEMCOUNT) 0 (Bss (Some (zeros 64)) 0 64) w1)
    as (bss & w2 & E & Hok & Hs & Hc & ->); [lia| | |].
  - split; [apply qbss_new_ok|done].
  - intros i b w' Hi (Hb & Hsb & Hcb & ->).
    destruct (q__bss_append_ok b (int4 i) 4 w1 Hb Hm) as (b' & E & Hb' & Hs' & Hc'); [done|lia|].
    exists b', w1. split; [done|]. split; [done|]. split; [lia|]. split; [|done].
    rewrite Hc', Hcb, ints_snoc, concat_app by lia. cbn [concat]. by rewrite app_nil_r, btake_all.
  - rewrite (prog_bind_ok _ _ _ _ _ E). destruct (bss_ok_block bss Hok) as (blk & Hstr & Hbl & _ & Hct).
    rewrite Hstr. erewrite prog_bind_ok; [by exists w1|].
    destruct (for_loop_ok (fun _ _ w' => w' = w1)
      (fun i _ => v ← lift_res (int_in blk i); expect (v =? i)) ELEMCOUNT (Z.to_nat ELEMCOUNT) 0 tt w1)
      as ([] & w' & E' & ->); [lia|done| |exact E'].
    intros i [] w' Hi ->. exists tt, w1. split; [|done].
    assert (Hblk : blk = concat (ints 0 i) ++ int4 i ++ concat (ints (i + 1) (ELEMCOUNT - i - 1)) ++ bdrop (size bss) blk).
    { rewrite <- (btake_bdrop (size bss) blk) at 1. rewrite <- Hct, Hc, (ints_split 0 ELEMCOUNT i) by lia.
      rewrite concat_app. cbn [concat]. by rewrite <- !app_assoc. }
    unfold int_in. rewrite (proj2 (Z.leb_le _ _)) by lia.
    erewrite prog_bind_ok by reflexivity. apply expect_ok.
    rewrite Hblk. replace (4 * i) with (blen (concat (ints 0 i))) by (apply blen_concat_ints; lia).
    rewrite bslice_mid by done. rewrite read_int4 by lia. apply Z.eqb_refl.
Qed.
End bss_test.

Lemma bss_test_passes_witness : exists w', bss_test 10000000 (start []) = Ok (0, w').
Proof. apply (bss_test_passes 10000000); [split; done|reflexivity]. Defined.
End Strings.

(** ** Vectors *)

Module Vectors.
Import QVector.

Section vector_test.
Context (TESTNUM : Z).

(** The [int] at index [i] of the vector. *)
Definition int_at (desc : qVectorDescriptor) (i : Z) : res Z :=
  b ← load desc (qVectorIterator_move (qVector_begin desc) i);
  mret (read_int b).

Definition push_one (i : Z) (desc : qVectorDescriptor) : io qVectorDescriptor :=
  '(_, desc) ← qVector__push_back desc (int4 (i + 1));
  fatalerr;;
  mret desc.

Definition pop_one (_ : Z) (desc : qVectorDescriptor) : io qVectorDescriptor :=
  '(_, desc) ← qVector__pop_back desc;
  fatalerr;;
  mret desc.

Definition check_one (desc : qVectorDescriptor) (i : Z) (_ : unit) : io unit :=
  v ← lift_res (int_at desc i);
  expect (v =? i + 1).

(** The index of the element erased. *)
Definition VICTIM : Z := 1993.

(** After the erasure the values before it are those they were, the others must
    have changed. *)
Definition check_erased (desc : qVectorDescriptor) (i : Z) (_ : unit) : io unit :=
  v ← lift_res (int_at desc i);
  if negb (v =? i + 1) then expect (negb (i <? VICTIM)) else expect (negb (VICTIM <=? i)).

Definition vector_test : io Z :=
  let N := Z.to_nat TESTNUM in
  let half := Z.quot TESTNUM 2 in
  desc ← qVector_constructor 4;
  desc ← for_loop 0 N push_one desc;
  for_loop 0 N (check_one desc) tt;;
  desc ← for_loop 0 (Z.to_nat half) pop_one desc;
  for_loop 0 (Z.to_nat (TESTNUM - half)) (check_one desc) tt;;
  qVector_destructor desc;;
  desc ← qVector_constructor 4;
  desc ← for_loop 0 N push_one desc;
  '(_, desc) ← qVector__erase desc (qVectorIterator_move (qVector_begin desc) VICTIM);
  fatalerr;;
  expect (size desc =? TESTNUM - 1);;
  for_loop 0 (Z.to_nat (TESTNUM - 1)) (check_erased desc) tt;;
  mret 0.

(** *** It passes *)

Context (Hrange : VICTIM < TESTNUM /\ 2 * ((TESTNUM + 2) * 4) < 2 ^ 31).

(** The vector of the test holds [xs]. *)
Definition vec_of (desc : qVectorDescriptor) (xs : list (list byte)) : Prop :=
  vec_ok desc xs /\ elemstep desc = 4.

Lemma constructor_clean w :
  clean w -> exists desc w', qVector_constructor 4 w = Ok (desc, w') /\ vec_of desc [] /\ clean w'.
Proof using Type.
  intros [Hm He]. unfold qVector_constructor. rewrite (prog_bind_ok _ _ _ _ _ (malloc_ok w Hm)).
  eexists _, _. split; [reflexivity|]. split; [|by split]. split; [|done].
  split; [|cbn; done]. split_and!; cbn; try done. by exists [].
Qed.

(** An element of the vector. *)
Lemma int_at_ok desc xs x ys :
  vec_of desc (xs ++ x :: ys) -> blen (xs ++ x :: ys) <= TESTNUM ->
  int_at desc (blen xs) = Ok (read_int x).
Proof using Hrange.
  intros [[Hh Hmax] Hs] Hl. unfold int_at. rewrite Hs in Hmax.
  rewrite (load_ok desc (qVectorIterator_move (qVector_begin desc) (blen xs)) xs x ys); [done|].
  split_and!; [done|done|cbn; lia|done|lia].
Qed.

Lemma int_at_ints desc n j :
  vec_of desc (ints 1 n) -> 0 <= j < n -> n <= TESTNUM -> int_at desc j = Ok (j + 1).
Proof using Hrange.
  intros Hv Hj Hn. pose proof (blen_ints 1 n ltac:(lia)) as Hl. rewrite (ints_split 1 n j) in Hv, Hl by lia.
  pose proof (int_at_ok desc _ _ _ Hv ltac:(lia)) as E. rewrite blen_ints in E by lia.
  rewrite E, read_int4 by lia. f_equal. lia.
Qed.

Lemma push_loop desc w :
  vec_of desc [] -> clean w ->
  exists desc' w', for_loop 0 (Z.to_nat TESTNUM) push_one desc w = Ok (desc', w') /\
    vec_of desc' (ints 1 TESTNUM) /\ clean w'.
Proof using Hrange.
  intros Hv Hc. apply (for_loop_ok (fun i d w => vec_of d (ints 1 i) /\ clean w)); [unfold VICTIM in *; lia|done|].
  intros i d w1 Hi ([Hd Hs] & Hm & He).
  destruct (vec_push_ok d (ints 1 i) (int4 (i + 1)) w1 Hd) as (d' & E & Hd' & Hs'); [by rewrite Hs|done| |].
  { rewrite Hs, blen_ints by lia. lia. }
  set (w2 := set_live _ w1) in E. exists d', w2.
  split; [|split; [split; [|by rewrite Hs']|split; [exact Hm|exact He]]].
  - unfold push_one. rewrite (prog_bind_ok _ _ _ _ _ E). cbv beta iota.
    by erewrite prog_bind_ok by (by apply fatalerr_ok).
  - rewrite ints_snoc by lia. by replace (1 + i) with (i + 1) by lia.
Qed.

Lemma check_loop desc n w :
  vec_of desc (ints 1 n) -> 0 <= n <= TESTNUM ->
  for_loop 0 (Z.to_nat n) (check_one desc) tt w = Ok (tt, w).
Proof using Hrange.
  intros Hv Hn.
  destruct (for_loop_ok (fun _ _ w' => w' = w) (check_one desc) n (Z.to_nat n) 0 tt w)
    as ([] & w' & E & ->); [lia|done| |done].
  intros i [] w1 Hi ->. exists tt, w. split; [|done]. unfold check_one.
  rewrite (int_at_ints desc n i) by (done || lia). erewrite prog_bind_ok by reflexivity.
  apply expect_ok, Z.eqb_refl.
Qed.

Lemma pop_loop desc k w :
  vec_of desc (ints 1 TESTNUM) -> 0 <= k <= TESTNUM -> clean w ->
  exists desc' w', for_loop 0 (Z.to_nat k) pop_one desc w = Ok (desc', w') /\
    vec_of desc' (ints 1 (TESTNUM - k)) /\ clean w'.
Proof using Hrange.
  intros Hv Hk Hc.
  apply (for_loop_ok (fun i d w => vec_of d (ints 1 (TESTNUM - i)) /\ clean w)); [lia|by rewrite Z.sub_0_r|].
  intros i d w1 Hi ([Hd Hs] & Hm & He).
  replace (TESTNUM - i) with (TESTNUM - (i + 1) + 1) in Hd by lia. rewrite ints_snoc in Hd by lia.
  destruct (pop_ok d _ _ w1 Hd Hm) as (d' & E & Hd' & Hs' & _).
  { rewrite Hs, blen_ints by lia. lia. }
  exists d', w1. split; [|split; [split; [done|by rewrite Hs']|by split]].
  unfold pop_one. rewrite (prog_bind_ok _ _ _ _ _ E). cbv beta iota.
  by erewrite prog_bind_ok by (by apply fatalerr_ok).
Qed.

Lemma erased_check_loop desc w :
  vec_of desc (ints 1 VICTIM ++ ints (VICTIM + 2) (TESTNUM - VICTIM - 1)) ->
  for_loop 0 (Z.to_nat (TESTNUM - 1)) (check_erased desc) tt w = Ok (tt, w).
Proof using Hrange.
  intros Hv.
  destruct (for_loop_ok (fun _ _ w' => w' = w) (check_erased desc) (TESTNUM - 1) (Z.to_nat (TESTNUM - 1)) 0 tt w)
    as ([] & w' & E & ->); [unfold VICTIM in *; lia|done| |done].
  intros i [] w1 Hi ->. exists tt, w. split; [|done]. unfold check_erased.
  assert (Hl : blen (ints 1 VICTIM ++ ints (VICTIM + 2) (TESTNUM - VICTIM - 1)) = TESTNUM - 1).
  { rewrite blen_app, !blen_ints by (unfold VICTIM in *; lia). lia. }
  destruct (Z.ltb_spec i VICTIM) as [Hlt|Hge].
  - rewrite (ints_split 1 VICTIM i), <- app_assoc in Hv, Hl by lia. cbn [app] in Hv, Hl.
    pose proof (int_at_ok desc _ _ _ Hv ltac:(lia)) as E. rewrite blen_ints in E by lia.
    rewrite E, read_int4 by lia. erewrite prog_bind_ok by reflexivity.
    rewrite (proj2 (Z.eqb_eq _ _)) by lia. cbn [negb]. apply expect_ok.
    by rewrite (proj2 (Z.leb_gt _ _)) by lia.
  - rewrite (ints_split (VICTIM + 2) _ (i - VICTIM)), app_assoc in Hv, Hl by lia.
    pose proof (int_at_ok desc _ _ _ Hv ltac:(lia)) as E.
    rewrite blen_app, !blen_ints in E by (unfold VICTIM in *; lia).
    replace (VICTIM + (i - VICTIM)) with i in E by lia.
    rewrite E, read_int4 by (unfold VICTIM in *; lia). erewrite prog_bind_ok by reflexivity.
    rewrite (proj2 (Z.eqb_neq _ _)) by lia. by apply expect_ok.
Qed.

(** The test of the vectors passes for every number of elements above 1993
    whose array stays within an [int]: pushes, pops, reads by index and the
    erasure of element 1993 give what the program compares them with. *)
Theorem vector_test_passes w :
  mem_ok w -> w_err w = 0 -> exists w', vector_test w = Ok (0, w').
Proof using Hrange.
  intros Hm He. unfold vector_test. cbv zeta.
  assert (Hpos : 0 <= TESTNUM) by (unfold VICTIM in *; lia).
  rewrite (Z.quot_div_nonneg TESTNUM 2) by lia. pose proof (Z.div_pos TESTNUM 2 Hpos ltac:(lia)) as Hh.
  pose proof (Z.mul_div_le TESTNUM 2 ltac:(lia)) as Hh2.
  destruct (constructor_clean w (conj Hm He)) as (d0 & w0 & E0 & V0 & C0). rewrite (prog_bind_ok _ _ _ _ _ E0).
  destruct (push_loop d0 w0 V0 C0) as (d1 & w1 & E1 & V1 & C1). rewrite (prog_bind_ok _ _ _ _ _ E1).
  erewrite prog_bind_ok by (apply (check_loop d1 TESTNUM); [done|lia]).
  destruct (pop_loop d1 (TESTNUM / 2) w1 V1 ltac:(lia) C1) as (d2 & w2 & E2 & V2 & C2).
  rewrite (prog_bind_ok _ _ _ _ _ E2).
  erewrite prog_bind_ok by (apply (check_loop d2); [done|lia]).
  assert (Ed : exists w3, qVector_destructor d2 w2 = Ok (0, w3) /\ clean w3).
  { unfold qVector_destructor, free_block. destruct C2. destruct (content d2); by eexists. }
  destruct Ed as (w3 & E3 & C3). rewrite (prog_bind_ok _ _ _ _ _ E3).
  destruct (constructor_clean w3 C3) as (d4 & w4 & E4 & V4 & C4). rewrite (prog_bind_ok _ _ _ _ _ E4).
  destruct (push_loop d4 w4 V4 C4) as (d5 & w5 & E5 & [V5 S5] & C5). rewrite (prog_bind_ok _ _ _ _ _ E5).
  rewrite (ints_split 1 TESTNUM VICTIM) in V5 by (unfold VICTIM in *; lia).
  pose proof (blen_ints 1 VICTIM ltac:(done)) as L1.
  pose proof (blen_ints (1 + VICTIM + 1) (TESTNUM - VICTIM - 1) ltac:(unfold VICTIM in *; lia)) as L2.
  destruct (vec_erase_ok d5 (qVectorIterator_move (qVector_begin d5) VICTIM) _ _ _ w5 V5) as (d6 & E6 & V6 & S6).
  - destruct V5 as [Hh5 Hmax]. rewrite S5, blen_app, blen_cons, L1, L2 in Hmax.
    split_and!; [exact Hh5|done|cbn; lia|done|lia].
  - apply C5.
  - rewrite S5, L1, L2. lia.
  - rewrite (prog_bind_ok _ _ _ _ _ E6). cbv beta iota.
    erewrite prog_bind_ok by (apply fatalerr_ok; apply C5).
    erewrite prog_bind_ok.
    2:{ apply expect_ok. destruct V6 as [(_ & -> & _) _]. rewrite blen_app, L1, L2. apply Z.eqb_eq. lia. }
    erewrite prog_bind_ok; [by eexists|]. apply erased_check_loop. split; [exact V6|by rewrite S6].
Qed.
End vector_test.

Lemma vector_test_passes_witness : exists w', vector_test 10000000 (start []) = Ok (0, w').
Proof. apply (vector_test_passes 10000000); [split; done|reflexivity|reflexivity]. Defined.
End Vectors.
