(* ===== verification/Net.v ===== *)
(** * Sockets (zhwkre/network.h, zhwkre/network/socket.c, tcp.c and udp.c)

    The wrappers of the socket calls.  What the system answers is a script
    ([n_answers]) that the program consumes, one answer for a call; the calls it
    has made are recorded with their arguments ([n_calls]).  The connected
    socket of the protocol, with its reads and writes, is the one of World.v.

    [inet_pton] and [inet_ntoa] belong to the system: they are parameters. *)

From S2P Require Import Prelude Layout World Utils.
Local Open Scope Z_scope.

(** ** System calls *)

Inductive syscall : Type :=
| CSocket (domain type protocol : Z)
| CBind (fd : Z) (addr : list byte)
| CListen (fd backlog : Z)
| CAccept (fd : Z)
| CConnect (fd : Z) (addr : list byte)
| CClose (fd : Z)
| CSetsockopt (fd level opt val : Z)
| CRead (fd size : Z)
| CRecv (fd size flags : Z)
| CRecvfrom (fd size flags : Z)
| CSendto (fd : Z) (payload : list byte) (flags : Z) (addr : list byte)
| CPthreadCreate (args : list byte)
| CPthreadDetach (thread : Z)
| CPthreadJoin (thread : Z)
| CMutexInit
| CMutexDestroy
| CFuseNew
| CFuseMount (mountpoint : list byte)
| CFuseLoop
| CFuseUnmount
| CFuseDestroy.

(** The result of a call, and what it stores for the caller: a number (a thread,
    a pointer), an address, data. *)
Record answer : Type := Answer {
  a_ret : Z;
  a_out : Z;
  a_addr : list byte;
  a_data : list byte
}.

(** The answer of a call that only returns a number. *)
Definition ret (r : Z) : answer := Answer r 0 [] [].

Record net : Type := Net {
  n_w : world;
  n_answers : list answer;
  n_calls : list syscall
}.

Abbreviation nio := (prog net).

(** A call waits for its answer. *)
Definition call (c : syscall) : nio answer := fun s =>
  match n_answers s with
  | [] => Blocked
  | a :: answers => Ok (a, Net (n_w s) answers (n_calls s ++ [c]))
  end.

(** The parts of the program that make no such call. *)
Definition lift_io {A} (m : io A) : nio A := fun s =>
  match m (n_w s) with
  | Ok (a, w) => Ok (a, Net w (n_answers s) (n_calls s))
  | Undef => Undef
  | Blocked => Blocked
  | Aborted => Aborted
  | Diverged => Diverged
  end.

(** ** Constants of the system and of zhwkre/error.h *)

Definition AF_UNIX : Z := 1.
Definition AF_INET : Z := 2.
Definition AF_INET6 : Z := 10.
Definition SOCK_STREAM : Z := 1.
Definition SOCK_DGRAM : Z := 2.
Definition IPPROTO_TCP : Z := 6.
Definition TCP_QUICKACK : Z := 12.
Definition MSG_DONTWAIT : Z := 64.
Definition INADDR_ANY : Z := 0.

(** The names that network.h gives them. *)
Definition qStreamSocket : Z := SOCK_STREAM.
Definition qDatagramSocket : Z := SOCK_DGRAM.
Definition qDefaultProto : Z := 0.
Definition qDatagramSocketDefaultFlag : Z := 0.
Definition qUnixDomain : Z := AF_UNIX.
Definition qIPv4 : Z := AF_INET.
Definition qIPv6 : Z := AF_INET6.

Definition ZHWK_ERR_SOCK_DOMAIN_INVAL : Z := 30.
Definition ZHWK_ERR_SOCK_ADDR_INVAL : Z := 31.
Definition ZHWK_ERR_SOCK_FD_OPEN_FAIL : Z := 32.
Definition ZHWK_ERR_SOCK_BIND_FAIL : Z := 33.
Definition ZHWK_ERR_SOCK_CLOSE_FAIL : Z := 34.
Definition ZHWK_ERR_SOCK_SETOPT_FAIL : Z := 35.
Definition ZHWK_ERR_TCP_CONNECT_FAIL : Z := 40.
Definition ZHWK_ERR_TCP_LISTEN_FAIL : Z := 41.
Definition ZHWK_ERR_TCP_ACCEPT_FAIL : Z := 42.
Definition ZHWK_ERR_TCP_RECV_FAIL : Z := 44.
Definition ZHWK_ERR_UDP_RECV_FAIL : Z := 50.
Definition ZHWK_ERR_UDP_SEND_FAIL : Z := 51.

(** ** The C library *)

(** [strncpy(dst, src, n)]: [n] characters are written, NULs after the end of
    [src]. *)
Definition strncpy (dst src : list byte) (n : Z) : res (list byte) :=
  let s := btake n (cstr src) in
  if n <=? blen dst then Ok (bstore 0 (s ++ zeros (n - blen s)) dst) else Undef.

(** [strcpy(dst + off, src)] *)
Definition strcpy (dst : list byte) (off : Z) (src : list byte) : res (list byte) :=
  if off + strlen src <? blen dst then Ok (bstore off (cstr src ++ [NUL]) dst) else Undef.

(** [memset(dst, 0, n)] *)
Definition memset0 (dst : list byte) (n : Z) : res (list byte) :=
  if n <=? blen dst then Ok (bstore 0 (zeros n) dst) else Undef.

(** An array read as a string: undefined when it is not terminated. *)
Definition cstring (buf : list byte) : res (list byte) :=
  if strlen buf <? blen buf then Ok (cstr buf) else Undef.

Definition digit (b : byte) : option Z :=
  let z := byte_to_Z b in
  if (48 <=? z) && (z <=? 57) then Some (z - 48) else None.

Definition is_space (b : byte) : bool :=
  let z := byte_to_Z b in (z =? 32) || ((9 <=? z) && (z <=? 13)).

(** The number at the start of [s], after [acc]. *)
Fixpoint digits (acc : Z) (s : list byte) : Z :=
  match s with
  | [] => acc
  | b :: s' => match digit b with Some d => digits (10 * acc + d) s' | None => acc end
  end.

Definition unsigned_number (s : list byte) : option Z :=
  match s with
  | b :: _ => match digit b with Some _ => Some (digits 0 s) | None => None end
  | [] => None
  end.

Fixpoint skip_space (s : list byte) : list byte :=
  match s with
  | b :: s' => if is_space b then skip_space s' else s
  | [] => []
  end.

(** What a [%d] conversion reads: [None] when there is no number. *)
Definition scan_d (s : list byte) : option Z :=
  match skip_space s with
  | b :: s' =>
      if decide (b = Byte.x2d) then Z.opp <$> unsigned_number s'
      else if decide (b = Byte.x2b) then unsigned_number s'
      else unsigned_number (b :: s')
  | [] => None
  end.

(** [sscanf(s, "%d", &v)] for an integer of [w] bits: [None] when there is no
    number and [v] keeps its value; a number that does not fit is undefined. *)
Definition sscanf_d (w : Z) (s : list byte) : res (option Z) :=
  match scan_d s with
  | None => Ok None
  | Some v => if (- 2 ^ (w - 1) <=? v) && (v <? 2 ^ (w - 1)) then Ok (Some v) else Undef
  end.

(** The [fuel] last decimal digits of [n], without leading zeros. *)
Fixpoint decimal (fuel : nat) (n : Z) : list byte :=
  match fuel with
  | O => []
  | S fuel' => (if n <? 10 then [] else decimal fuel' (n / 10)) ++ [byte_of_Z (48 + n mod 10)]
  end.

(** [sprintf(buf, "%d", n)] for [0 <= n < 2^31]. *)
Definition print_d (n : Z) : list byte := decimal 10 n.

(** The bytes of a 16-bit number in the other order. *)
Definition htons (v : Z) : Z := le_dec (rev (le_enc 2 v)).
Definition ntohs (v : Z) : Z := htons v.

(** ** Data *)

Definition sockaddr_in : cstruct :=
  [("sin_family", CInt false 2); ("sin_port", CInt false 2); ("sin_addr", CInt false 4); ("sin_zero", CBytes 8)]%string.

Record qSocket : Type := Socket {
  desc : Z;
  domain : Z;
  type : Z;
  protocol : Z;
  quickack : Z
}.

Definition set_desc (d : Z) (s : qSocket) : qSocket := Socket d (domain s) (type s) (protocol s) (quickack s).

Section operations.
Context (junk : string -> nat -> byte).
Context (inet_pton : list byte -> option (list byte)) (inet_ntoa : Z -> list byte).

(** An uninitialised array of [n] bytes. *)
Definition local_array (x : string) (n : nat) : list byte := map (junk x) (seq 0 n).

(** ** Addresses *)

(** [inet_pton] is given the address of the whole structure and stores the four
    bytes at its beginning; [sin_addr], which is returned, is elsewhere. *)
Definition str_to_ipv4addr (addrxport : list byte) : res Z :=
  divid ← find_byte addrxport (Byte.x3a) (s32 (strlen addrxport));
  let tmpv := local_array "tmpv" 50 in
  tmpv ← (if negb (divid =? -1) then strncpy tmpv addrxport divid else strcpy tmpv 0 addrxport);
  name ← cstring tmpv;
  let tmpsck := zeros (sizeof sockaddr_in) in
  let tmpsck := match inet_pton name with Some b => bstore 0 b tmpsck | None => tmpsck end in
  Ok (getf sockaddr_in "sin_addr" tmpsck).

(** The address that [qSocket_bind] and [qStreamSocket_connect] make of a string
    with a colon at [separator_pos]; they read the port as an integer of [w]
    bits. *)
Definition make_address (w : Z) (addrxport : list byte) (separator_pos : Z) : res (list byte) :=
  let addr := setf sockaddr_in "sin_family" qIPv4 (zeros (sizeof sockaddr_in)) in
  let addr := setf sockaddr_in "sin_addr" INADDR_ANY addr in
  portstr ← strncpy (zeros 10) (bdrop (separator_pos + 1) addrxport) (u64 (strlen addrxport - separator_pos - 1));
  portstr ← cstring portstr;
  port ← sscanf_d w portstr;
  let addr := setf sockaddr_in "sin_port" (htons (u16 (default 0 port))) addr in
  if negb (separator_pos =? 0) then
    a ← str_to_ipv4addr addrxport;
    Ok (setf sockaddr_in "sin_addr" a addr)
  else Ok addr.

(** ** Sockets of any kind (socket.c) *)

Definition qSocket_constructor (dom ty proto : Z) : qSocket := Socket (-1) dom ty proto 0.

Definition qSocket__open (sock : qSocket) : nio (Z * qSocket) :=
  a ← call (CSocket (domain sock) (type sock) (protocol sock));
  let sock := set_desc (a_ret a) sock in
  if desc sock =? -1 then lift_io (SETERR ZHWK_ERR_SOCK_FD_OPEN_FAIL);; mret (-1, sock)
  else mret (0, sock).

Definition qSocket_bind (sock : qSocket) (addrxport : list byte) : nio Z :=
  if negb (domain sock =? qIPv4) then lift_io (SETERR ZHWK_ERR_SOCK_DOMAIN_INVAL);; mret (-1) else
  separator_pos ← lift_res (find_byte addrxport (Byte.x3a) (s32 (strlen addrxport)));
  if separator_pos =? -1 then lift_io (SETERR ZHWK_ERR_SOCK_ADDR_INVAL);; mret (-1) else
  addr ← lift_res (make_address 32 addrxport separator_pos);
  a ← call (CBind (desc sock) addr);
  if a_ret a =? -1 then lift_io (SETERR ZHWK_ERR_SOCK_BIND_FAIL);; mret (-1) else mret 0.

(** [retv] is the result of a comparison: never -1. *)
Definition qSocket__close (sock : qSocket) : nio (Z * qSocket) :=
  a ← call (CClose (desc sock));
  let retv := if negb (a_ret a =? -1) then 1 else 0 in
  let sock := set_desc (-1) sock in
  if retv =? -1 then lift_io (SETERR ZHWK_ERR_SOCK_CLOSE_FAIL);; mret (-1, sock) else mret (0, sock).

Definition qSocket__destructor (sock : qSocket) : nio (Z * qSocket) := qSocket__close sock.

(** ** Stream sockets (tcp.c) *)

Definition qStreamSocket_connect (sock : qSocket) (addrxport : list byte) : nio Z :=
  if negb (domain sock =? qIPv4) then lift_io (SETERR ZHWK_ERR_SOCK_DOMAIN_INVAL);; mret (-1) else
  separator_pos ← lift_res (find_byte addrxport (Byte.x3a) (s32 (strlen addrxport)));
  if separator_pos =? -1 then lift_io (SETERR ZHWK_ERR_SOCK_ADDR_INVAL);; mret (-1) else
  addr ← lift_res (make_address 16 addrxport separator_pos);
  a ← call (CConnect (desc sock) addr);
  if a_ret a =? -1 then lift_io (SETERR ZHWK_ERR_TCP_CONNECT_FAIL);; mret (-1) else mret 0.

Definition qStreamSocket_listen (sock : qSocket) : nio Z :=
  a ← call (CListen (desc sock) 128);
  if a_ret a =? -1 then lift_io (SETERR ZHWK_ERR_TCP_LISTEN_FAIL);; mret (-1) else mret 0.

(** [memset(srcaddr, 0, 26)], the address and [sprintf] of the port after it. *)
Definition print_address (srcaddr addr : list byte) : res (list byte) :=
  srcaddr ← memset0 srcaddr 26;
  let name := inet_ntoa (getf sockaddr_in "sin_addr" addr) in
  srcaddr ← strcpy srcaddr 0 name;
  strcpy srcaddr (strlen name) (Byte.x3a :: print_d (ntohs (getf sockaddr_in "sin_port" addr))).

(** The address stays uninitialised when the call fails. *)
Definition qStreamSocket_accept (sock : qSocket) (srcaddr : list byte) : nio (qSocket * list byte) :=
  a ← call (CAccept (desc sock));
  let srcinfo := Socket (a_ret a) (domain sock) (type sock) (protocol sock) (quickack sock) in
  (if desc srcinfo =? -1 then lift_io (SETERR ZHWK_ERR_TCP_ACCEPT_FAIL) else mret tt);;
  let srcaddr_in := if desc srcinfo =? -1 then local_array "srcaddr_in" 16 else a_addr a in
  srcaddr ← lift_res (print_address srcaddr srcaddr_in);
  mret (srcinfo, srcaddr).

(** [qack] is not used. *)
Definition qStreamSocket__setQuickAck (sock : qSocket) (qack : Z) : nio (Z * qSocket) :=
  let sock := Socket (desc sock) (domain sock) (type sock) (protocol sock) 1 in
  a ← call (CSetsockopt (desc sock) IPPROTO_TCP TCP_QUICKACK (quickack sock));
  (if a_ret a =? -1 then lift_io (SETERR ZHWK_ERR_SOCK_SETOPT_FAIL) else mret tt);;
  mret (a_ret a, sock).

Definition qStreamSocket_readchar (sock : qSocket) (c : byte) : nio (Z * byte) :=
  a ← call (CRead (desc sock) 1);
  mret (a_ret a, match a_data a with b :: _ => b | [] => c end).

(** What a call stores in a buffer of [size] bytes. *)
Definition received (buffer : list byte) (size : Z) (a : answer) : list byte :=
  bstore 0 (btake size (a_data a)) buffer.

Definition qStreamSocket_nonblock_read (sock : qSocket) (buffer : list byte) (size : Z) : nio (Z * list byte) :=
  buffer ← lift_res (memset0 buffer size);
  a ← call (CRecv (desc sock) size MSG_DONTWAIT);
  (if a_ret a =? -1 then lift_io (SETERR ZHWK_ERR_TCP_RECV_FAIL) else mret tt);;
  mret (a_ret a, received buffer size a).

Definition qStreamSocket_nonblock_readChar (sock : qSocket) (c : byte) : nio (Z * list byte) :=
  qStreamSocket_nonblock_read sock [c] 1.

(** ** Datagram sockets (udp.c) *)

(** [srcaddr] is [None] for NULL. *)
Definition qDatagramSocket_receive (sock : qSocket) (srcaddr : option (list byte)) (buffer : list byte) (size flags : Z)
  : nio (Z * option (list byte) * list byte) :=
  if negb (domain sock =? AF_INET) then lift_io (SETERR ZHWK_ERR_SOCK_ADDR_INVAL);; mret (-1, srcaddr, buffer) else
  buffer ← lift_res (memset0 buffer size);
  a ← call (CRecvfrom (desc sock) size flags);
  let srcaddr_in := if a_ret a =? -1 then zeros (sizeof sockaddr_in) else a_addr a in
  srcaddr ← (match srcaddr with
             | None => mret None
             | Some s => s ← lift_res (print_address s srcaddr_in); mret (Some s)
             end);
  (if a_ret a =? -1 then lift_io (SETERR ZHWK_ERR_UDP_RECV_FAIL) else mret tt);;
  mret (a_ret a, srcaddr, received buffer size a).

(** The family of [dest_addr] is not set; a missing colon is not noticed; without
    a number [tmpport] is read uninitialised. *)
Definition qDatagramSocket_send (sock : qSocket) (dest payload : list byte) (size flags : Z) : nio Z :=
  if negb (domain sock =? AF_INET) then lift_io (SETERR ZHWK_ERR_SOCK_ADDR_INVAL);; mret (-1) else
  separator_pos ← lift_res (find_byte dest (Byte.x3a) (s32 (strlen dest)));
  let dest_addr := zeros (sizeof sockaddr_in) in
  a ← lift_res (str_to_ipv4addr dest);
  let dest_addr := setf sockaddr_in "sin_addr" a dest_addr in
  port ← lift_res (sscanf_d 16 (cstr (bdrop (separator_pos + 1) dest)));
  match port with
  | None => pundef
  | Some tmpport =>
      let dest_addr := setf sockaddr_in "sin_port" (htons (u16 tmpport)) dest_addr in
      if blen payload <? size then pundef else
      a ← call (CSendto (desc sock) (btake size payload) flags dest_addr);
      (if a_ret a =? -1 then lift_io (SETERR ZHWK_ERR_UDP_SEND_FAIL) else mret tt);;
      mret (a_ret a)
  end.

(** ** Listening (netwrap.c) *)

(** The socket that is passed to [listenat] keeps its other fields. *)
Definition listenat (addrxport : list byte) (listensock : qSocket) : nio (Z * qSocket) :=
  let listensock := Socket (desc listensock) qIPv4 qStreamSocket qDefaultProto (quickack listensock) in
  '(r, listensock) ← qSocket__open listensock;
  if negb (r =? 0) then mret (-1, listensock) else
  r ← qSocket_bind listensock addrxport;
  if negb (r =? 0) then mret (-1, listensock) else
  r ← qStreamSocket_listen listensock;
  if negb (r =? 0) then mret (-1, listensock) else mret (0, listensock).

End operations.
