(* ===== verification/Logging.v ===== *)
(** * The log (zhwkre/format.h, zhwkre/format/format.c, zhwkre/log.h,
    zhwkre/tests/fmt_test.c, and [printSomeSpaces] of zhwkre/utils/utils.c)

    The functions and macros write to a terminal: a definition gives the bytes it
    writes.  Of [printf] the conversions that the program uses are written out; a
    format without the arguments it asks for is undefined.  The broken-down local
    time is a parameter.  The rest of the development leaves the calls of the log
    out: they change nothing that the program reads. *)

From S2P Require Import Prelude Net.
From Stdlib Require Import Strings.Byte.
Local Open Scope Z_scope.

(** ** [printf] *)

(** The bytes of a string literal. *)
Definition lit (s : string) : list byte := String.list_byte_of_string s.

(** An argument: an integer of any type, or a C string. *)
Inductive arg : Type :=
| AInt (z : Z)
| AStr (s : list byte).

(** [n] in decimal with at least [prec] digits, of at most 20. *)
Definition print_prec (prec : nat) (n : Z) : list byte :=
  let d := decimal 20 (Z.abs n) in
  (if n <? 0 then [Byte.x2d] else []) ++ replicate (prec - length d) Byte.x30 ++ d.

Definition print_arg (prec : nat) (a : arg) : res (list byte) :=
  match a with AInt n => Ok (print_prec prec n) | AStr _ => Undef end.

(** The conversions %%, %s, %d, %u, %lu and %.<digit>d. *)
Fixpoint format (fmt : list byte) (args : list arg) : res (list byte) :=
  match fmt with
  | Byte.x25 :: Byte.x25 :: fmt' => out ← format fmt' args; mret (Byte.x25 :: out)
  | Byte.x25 :: Byte.x73 :: fmt' =>
      match args with
      | AStr s :: args' => out ← format fmt' args'; mret (s ++ out)
      | _ => Undef
      end
  | Byte.x25 :: Byte.x64 :: fmt' | Byte.x25 :: Byte.x75 :: fmt'
  | Byte.x25 :: Byte.x6c :: Byte.x75 :: fmt' =>
      match args with
      | a :: args' => n ← print_arg 1 a; out ← format fmt' args'; mret (n ++ out)
      | [] => Undef
      end
  | Byte.x25 :: Byte.x2e :: p :: Byte.x64 :: fmt' =>
      match digit p, args with
      | Some prec, a :: args' =>
          n ← print_arg (Z.to_nat prec) a; out ← format fmt' args'; mret (n ++ out)
      | _, _ => Undef
      end
  | Byte.x25 :: _ => Undef
  | c :: fmt' => out ← format fmt' args; mret (c :: out)
  | [] => Ok []
  end.

(** ** Colours *)

Definition Q_ESCAPE_CHAR : byte := Byte.x1b.
Definition Q_COLOR_RESET : list byte := lit "[0m".
Definition Q_COLOR_RED : list byte := lit "[31m".
Definition Q_COLOR_GREEN : list byte := lit "[32m".
Definition Q_COLOR_YELLOW : list byte := lit "[33m".
Definition Q_COLOR_WHITE : list byte := lit "[37m".

(** The format is the literal with the escape character in front. *)
Definition qfmtColor (c : list byte) : res (list byte) :=
  format (Q_ESCAPE_CHAR :: lit "%s") [AStr c].

Definition qfmtClearColor : res (list byte) := qfmtColor Q_COLOR_RESET.

Definition qfmtColorizerF (prefix colored suffix c : list byte) : res (list byte) :=
  format (lit "%s" ++ Q_ESCAPE_CHAR :: lit "%s%s" ++ Q_ESCAPE_CHAR :: lit "%s%s")
    [AStr prefix; AStr c; AStr colored; AStr Q_COLOR_RESET; AStr suffix].

(** [for(int i=0;i<spcs;i++)]: [i] is compared as an unsigned number, and would
    overflow beyond 2^31. *)
Definition printSomeSpaces (spcs : Z) : res (list byte) :=
  if spcs <=? 2 ^ 31 then Ok (replicate (Z.to_nat spcs) Byte.x20) else Undef.

(** ** The log *)

(** [struct tm]; [tm_year] counts from 1900, [tm_mon] from 0. *)
Record tm : Type := Tm { tm_mon : Z; tm_mday : Z; tm_year : Z; tm_hour : Z; tm_min : Z; tm_sec : Z }.

Definition Q_LOG_FAIL : Z := 40.
Definition Q_LOG_WARN : Z := 30.
Definition Q_LOG_SUCC : Z := 20.
Definition Q_LOG_INFO : Z := 10.
Definition Q_LOG_DEBUG : Z := 0.

Definition qLog_TIME_FMT_STR : list byte := lit "(%.2d/%.2d/%.4d %.2d:%.2d:%.2d) ".

Section log.
Context (Q_LOG_LOGLEVEL : Z) (timerep : tm).

Definition qLogCurrTime : res (list byte) :=
  format qLog_TIME_FMT_STR
    [AInt (tm_mon timerep + 1); AInt (tm_mday timerep); AInt (tm_year timerep + 1900);
     AInt (tm_hour timerep); AInt (tm_min timerep); AInt (tm_sec timerep)].

Definition qLogfmt (lvl : Z) (tag color fmtstr : list byte) (args : list arg) : res (list byte) :=
  if Q_LOG_LOGLEVEL <=? lvl then
    head ← qfmtColorizerF (lit "[") tag (lit "]") color;
    time ← qLogCurrTime;
    text ← format fmtstr args;
    mret (head ++ time ++ text ++ [Byte.x0a])
  else Ok [].

(** Without arguments: the text itself is the format. *)
Definition qLog (lvl : Z) (tag color str : list byte) : res (list byte) := qLogfmt lvl tag color str [].

Definition qLogDebug (str : list byte) := qLog Q_LOG_DEBUG (lit "DEBG") Q_COLOR_WHITE str.
Definition qLogDebugfmt (fmtstr : list byte) (args : list arg) :=
  qLogfmt Q_LOG_DEBUG (lit "DEBG") Q_COLOR_WHITE fmtstr args.
Definition qLogInfo (str : list byte) := qLog Q_LOG_INFO (lit "INFO") Q_COLOR_RESET str.
Definition qLogInfofmt (fmtstr : list byte) (args : list arg) :=
  qLogfmt Q_LOG_INFO (lit "INFO") Q_COLOR_RESET fmtstr args.
Definition qLogSucc (str : list byte) := qLog Q_LOG_SUCC (lit "SUCC") Q_COLOR_GREEN str.
Definition qLogSuccfmt (fmtstr : list byte) (args : list arg) :=
  qLogfmt Q_LOG_SUCC (lit "SUCC") Q_COLOR_GREEN fmtstr args.
Definition qLogWarn (str : list byte) := qLog Q_LOG_WARN (lit "WARN") Q_COLOR_YELLOW str.
Definition qLogWarnfmt (fmtstr : list byte) (args : list arg) :=
  qLogfmt Q_LOG_WARN (lit "WARN") Q_COLOR_YELLOW fmtstr args.
Definition qLogFail (str : list byte) := qLog Q_LOG_FAIL (lit "FAIL") Q_COLOR_RED str.
Definition qLogFailfmt (fmtstr : list byte) (args : list arg) :=
  qLogfmt Q_LOG_FAIL (lit "FAIL") Q_COLOR_RED fmtstr args.

(** The message of [WARN] in fuse_server.c. *)
Definition WARN_text (func str : list byte) : res (list byte) :=
  qLogWarnfmt (lit "%s(): %s.") [AStr func; AStr str].

End log.

(** zhwkre/tests/fmt_test.c: all that it writes. *)
Definition fmt_test (timerep : tm) : res (list byte) :=
  let Q_LOG_LOGLEVEL := 0 in
  a ← qLogDebug Q_LOG_LOGLEVEL timerep (lit "A sample debug message!");
  b ← qLogInfo Q_LOG_LOGLEVEL timerep (lit "A sample info message!");
  c ← qLogSucc Q_LOG_LOGLEVEL timerep (lit "A sample succ message!");
  d ← qLogWarn Q_LOG_LOGLEVEL timerep (lit "A sample warn message!");
  e ← qLogFail Q_LOG_LOGLEVEL timerep (lit "A sample fail message!");
  mret (a ++ b ++ c ++ d ++ e).

(** ** What a message looks like *)

(** A text without conversions is printed as it is. *)
Lemma format_plain str args : Forall (fun b => b <> Byte.x25) str -> format str args = Ok str.
Proof.
  induction 1 as [|b str Hb _ IH]; [done|]. transitivity (out ← format str args; mret (b :: out)).
  - destruct b; done.
  - by rewrite IH.
Qed.

(** A percent sign at the end of the text is undefined: [qLog] takes its text for
    a format. *)
Lemma format_percent str args : Forall (fun b => b <> Byte.x25) str -> format (str ++ [Byte.x25]) args = Undef.
Proof.
  induction 1 as [|b str Hb _ IH]; [done|].
  transitivity (out ← format (str ++ [Byte.x25]) args; mret (b :: out)).
  - cbn [app]. destruct b; done.
  - by rewrite IH.
Qed.

(** Numbers of [k] digits at most, padded to [k]. *)
Lemma print_prec_length k n : (0 < k)%nat -> 0 <= n < 10 ^ Z.of_nat k -> length (print_prec k n) = k.
Proof.
  intros Hk Hn. unfold print_prec. rewrite Z.abs_eq, (proj2 (Z.ltb_ge n 0)) by lia.
  assert (Hl : forall f m j, 0 <= m < 10 ^ Z.of_nat j -> (0 < j)%nat -> (length (decimal f m) <= j)%nat).
  { induction f as [|f IH]; intros m j Hm Hj; cbn [decimal]; [cbn; lia|]. rewrite length_app.
    destruct (Z.ltb_spec m 10) as [|Hm10]; [cbn; lia|]. destruct j as [|j]; [lia|].
    rewrite Nat2Z.inj_succ, Z.pow_succ_r in Hm by lia. pose proof (Z.div_mod m 10 ltac:(done)).
    pose proof (Z.mod_pos_bound m 10 ltac:(done)).
    assert (length (decimal f (m / 10)) <= j)%nat; [|cbn; lia].
    apply IH; [nia|]. destruct j as [|j]; [cbn in Hm; lia|lia]. }
  specialize (Hl 20%nat n k Hn Hk). cbn [app]. rewrite length_app, length_replicate. lia.
Qed.

(** The fields of a broken-down time of the years 1900 to 9999. *)
Record tm_ok (t : tm) : Prop := Tm_ok {
  ok_mon : 0 <= tm_mon t <= 11;
  ok_mday : 1 <= tm_mday t <= 31;
  ok_year : 0 <= tm_year t <= 8099;
  ok_hour : 0 <= tm_hour t <= 23;
  ok_min : 0 <= tm_min t <= 59;
  ok_sec : 0 <= tm_sec t <= 60
}.

Definition stamp (t : tm) : list byte :=
  lit "(" ++ print_prec 2 (tm_mon t + 1) ++ lit "/" ++ print_prec 2 (tm_mday t) ++ lit "/" ++
  print_prec 4 (tm_year t + 1900) ++ lit " " ++ print_prec 2 (tm_hour t) ++ lit ":" ++
  print_prec 2 (tm_min t) ++ lit ":" ++ print_prec 2 (tm_sec t) ++ lit ") ".

Lemma qLogCurrTime_ok t : qLogCurrTime t = Ok (stamp t).
Proof. done. Qed.

Lemma stamp_length t : tm_ok t -> blen (stamp t) = 22.
Proof.
  intros []. unfold blen, stamp. rewrite !length_app, !print_prec_length by (lia || (cbn; lia)). done.
Qed.

Definition paint (color s : list byte) : list byte :=
  Q_ESCAPE_CHAR :: color ++ s ++ Q_ESCAPE_CHAR :: Q_COLOR_RESET.

Lemma qfmtColorizerF_ok prefix colored suffix c :
  qfmtColorizerF prefix colored suffix c = Ok (prefix ++ paint c colored ++ suffix).
Proof.
  unfold qfmtColorizerF, paint. cbn. by rewrite app_nil_r, <- ?app_assoc.
Qed.

(** A message of the log.  Below the level of the log nothing is written;
    otherwise one line: the tag in its colour between brackets, with the colour
    reset behind it, the time in 22 characters whatever it is, and the text.  A
    text given without arguments is printed as it is if it has no percent sign,
    and is undefined if it ends with one. *)
Theorem log_line level t lvl tag color fmt args text :
  tm_ok t -> format fmt args = Ok text ->
  qLogfmt level t lvl tag color fmt args =
    (if level <=? lvl then
       Ok (lit "[" ++ paint color tag ++ lit "]" ++ stamp t ++ text ++ [Byte.x0a])
     else Ok []) /\
  blen (stamp t) = 22 /\
  forall str, Forall (fun b => b <> Byte.x25) str -> level <= lvl ->
    qLog level t lvl tag color str = Ok (lit "[" ++ paint color tag ++ lit "]" ++ stamp t ++ str ++ [Byte.x0a]) /\
    qLog level t lvl tag color (str ++ [Byte.x25]) = Undef.
Proof.
  intros Ht Hf. split; [|split; [by apply stamp_length|]].
  - unfold qLogfmt. destruct (level <=? lvl); [|done].
    rewrite qfmtColorizerF_ok, qLogCurrTime_ok, Hf. cbn [mbind res_bind mret res_ret]. by rewrite <- ?app_assoc.
  - intros str Hs Hl. unfold qLog, qLogfmt. rewrite (proj2 (Z.leb_le _ _) Hl), qfmtColorizerF_ok, qLogCurrTime_ok.
    rewrite format_plain, format_percent by done. split; [|done].
    cbn [mbind res_bind mret res_ret]. by rewrite <- ?app_assoc.
Qed.

(** The test of the log writes its five lines. *)
Lemma fmt_test_ok t : exists out, fmt_test t = Ok out /\
  out = concat ((fun '(c, tag, w) => lit "[" ++ paint (lit c) (lit tag) ++ lit "]" ++ stamp t ++
                    lit ("A sample " ++ w ++ " message!") ++ [Byte.x0a])
    <$> [("[37m", "DEBG", "debug"); ("[0m", "INFO", "info"); ("[32m", "SUCC", "succ");
         ("[33m", "WARN", "warn"); ("[31m", "FAIL", "fail")]%string).
Proof.
  eexists. split; [|reflexivity]. unfold fmt_test, qLogDebug, qLogInfo, qLogSucc, qLogWarn, qLogFail, qLog, qLogfmt.
  rewrite !qfmtColorizerF_ok, !qLogCurrTime_ok. cbn [mbind res_bind Z.leb Z.compare Q_LOG_FAIL Q_LOG_WARN Q_LOG_SUCC Q_LOG_INFO Q_LOG_DEBUG].
  rewrite !format_plain by (repeat constructor; done). cbn [mbind res_bind mret res_ret fmap list_fmap concat].
  by rewrite app_nil_r, <- ?app_assoc.
Qed.

(** ** Witness *)

Lemma log_line_witness :
  exists out, qLogWarnfmt 0 (Tm 6 4 76 12 30 5) (lit "%s(): %s.") [AStr (lit "fuse_open"); AStr (lit "busy")] = Ok out /\
    out = lit "[" ++ paint Q_COLOR_YELLOW (lit "WARN") ++ lit "]" ++ lit "(07/04/1976 12:30:05) " ++
          lit "fuse_open(): busy." ++ [Byte.x0a].
Proof.
  eexists. split; [|reflexivity].
  exact (proj1 (log_line 0 (Tm 6 4 76 12 30 5) Q_LOG_WARN (lit "WARN") Q_COLOR_YELLOW (lit "%s(): %s.")
    [AStr (lit "fuse_open"); AStr (lit "busy")] (lit "fuse_open(): busy.") ltac:(split; cbn; lia) eq_refl)).
Defined.
