(* ===== verification/NetFacts.v ===== *)
(** * Sockets: theorems

    Addresses in text form, and what the wrappers ask of the system. *)

From S2P Require Import Prelude Layout World Utils Net.
Local Open Scope Z_scope.

(** ** Decimal numbers *)

Lemma digit_of n : 0 <= n < 10 -> digit (byte_of_Z (48 + n)) = Some n.
Proof.
  intros. unfold digit. rewrite byte_to_of, Z.mod_small by lia.
  rewrite !(proj2 (Z.leb_le _ _)) by lia. cbn [andb]. f_equal. lia.
Qed.

Lemma digits_decimal f : forall n acc rest, 0 <= n < 10 ^ Z.of_nat f ->
  exists k, 0 <= k /\ digits acc (decimal f n ++ rest) = digits (acc * 10 ^ k + n) rest.
Proof.
  induction f as [|f IH]; intros n acc rest Hn.
  { exists 0. split; [done|]. cbn in *. f_equal. lia. }
  rewrite Nat2Z.inj_succ, Z.pow_succ_r in Hn by lia. cbn [decimal].
  pose proof (Z.div_mod n 10 ltac:(lia)). pose proof (Z.mod_pos_bound n 10 ltac:(lia)).
  destruct (Z.ltb_spec n 10) as [Hlt|Hge].
  - exists 1. split; [done|]. cbn [app digits]. rewrite digit_of by lia. f_equal. rewrite Z.mod_small by lia. lia.
  - destruct (IH (n / 10) acc ([byte_of_Z (48 + n mod 10)] ++ rest)) as (k & Hk & E).
    { split; [apply Z.div_pos; lia|]. apply Z.div_lt_upper_bound; lia. }
    exists (k + 1). split; [lia|]. rewrite <- app_assoc, E. cbn [app digits]. rewrite digit_of by lia.
    f_equal. rewrite Z.pow_add_r by lia. lia.
Qed.

(** The characters of a number are digits, one of them at least. *)
Lemma decimal_chars f n : Forall (fun b => exists d, 0 <= d < 10 /\ b = byte_of_Z (48 + d)) (decimal f n).
Proof.
  revert n. induction f as [|f IH]; intros n; [done|]. cbn [decimal]. apply list.Forall_app. split.
  - destruct (n <? 10); [done|apply IH].
  - constructor; [|done]. exists (n mod 10). split; [apply Z.mod_pos_bound; lia|done].
Qed.

Lemma decimal_length f n k : 0 <= n < 10 ^ Z.of_nat k -> (0 < k)%nat -> (length (decimal f n) <= k)%nat.
Proof.
  revert n k. induction f as [|f IH]; intros n k Hn Hk; cbn [decimal]; [cbn; lia|].
  rewrite length_app. cbn [length]. destruct (Z.ltb_spec n 10); [cbn; lia|].
  destruct k as [|[|k]]; [lia|cbn in Hn; lia|].
  assert (length (decimal f (n / 10)) <= S k)%nat; [|lia].
  apply IH; [|lia]. rewrite !Nat2Z.inj_succ, !Z.pow_succ_r in * by lia.
  split; [apply Z.div_pos; lia|apply Z.div_lt_upper_bound; lia].
Qed.

Lemma decimal_cons f n : exists d l, decimal (S f) n = byte_of_Z (48 + d) :: l /\ 0 <= d < 10.
Proof.
  revert n. induction f as [|f IH]; intros n; cbn [decimal] in *.
  - exists (n mod 10), []. split; [by destruct (n <? 10)|apply Z.mod_pos_bound; lia].
  - destruct (n <? 10).
    + exists (n mod 10), []. split; [done|apply Z.mod_pos_bound; lia].
    + destruct (IH (n / 10)) as (d & l & -> & Hd). by eexists d, _.
Qed.

(** What [%d] prints, [%d] reads. *)
Lemma scan_print n : 0 <= n < 10 ^ 10 -> scan_d (print_d n) = Some n.
Proof.
  intros Hn. unfold print_d. destruct (digits_decimal 10 n 0 [] Hn) as (k & _ & E).
  rewrite app_nil_r in E. cbn [digits] in E. rewrite Z.mul_0_l, Z.add_0_l in E.
  destruct (decimal_cons 9 n) as (d & l & Ec & Hd). rewrite Ec in *. clear Ec Hn.
  assert (byte_to_Z (byte_of_Z (48 + d)) = 48 + d) as Eb by (rewrite byte_to_of, Z.mod_small; lia).
  unfold scan_d. cbn [skip_space]. unfold is_space. rewrite Eb.
  rewrite (proj2 (Z.eqb_neq (48 + d) 32)), (proj2 (Z.leb_gt (48 + d) 13)) by lia. rewrite andb_false_r. cbn [orb].
  rewrite !decide_False.
  - unfold unsigned_number. rewrite digit_of by lia. by rewrite E.
  - intros Ex. rewrite Ex in Eb. change (byte_to_Z Byte.x2b) with 43 in Eb. lia.
  - intros Ex. rewrite Ex in Eb. change (byte_to_Z Byte.x2d) with 45 in Eb. lia.
Qed.


(** Neither NUL nor a colon. *)
Lemma print_d_plain n : Forall (fun b => b <> NUL /\ b <> Byte.x3a) (print_d n).
Proof.
  eapply list.Forall_impl; [apply decimal_chars|]. cbn. intros b (d & Hd & ->).
  assert (byte_to_Z (byte_of_Z (48 + d)) = 48 + d) as Eb by (rewrite byte_to_of, Z.mod_small; lia).
  split; intros Ex; rewrite Ex in Eb; [change (byte_to_Z NUL) with 0 in Eb|change (byte_to_Z Byte.x3a) with 58 in Eb]; lia.
Qed.

Lemma print_d_length n : 0 <= n < 10 ^ 5 -> blen (print_d n) <= 5.
Proof. intros Hn. pose proof (decimal_length 10 n 5 Hn ltac:(lia)). unfold blen, print_d. lia. Qed.

(** ** Strings *)

Lemma strlen_app_nul s t : Forall (fun b => b <> NUL) s -> strlen (s ++ NUL :: t) = blen s.
Proof. intros H. unfold strlen. by rewrite cstr_app_nul. Qed.

Lemma strlen_id s : Forall (fun b => b <> NUL) s -> strlen s = blen s.
Proof. intros H. unfold strlen. by rewrite cstr_id. Qed.

(** The first colon of a string. *)
Lemma find_byte_first t s rest n :
  Forall (fun b => b <> t) s -> blen s < n -> find_byte (s ++ t :: rest) t n = Ok (blen s).
Proof.
  unfold find_byte. intros H Hn.
  assert (forall m i, (length s < m)%nat -> find_byte_from i m (s ++ t :: rest) t = Ok (i + blen s)) as Hi.
  { clear Hn. induction H as [|b s Hb H IH]; intros m i Hm; (destruct m as [|m]; [lia|]); cbn.
    - rewrite decide_True by done. f_equal. unfold blen. cbn. lia.
    - rewrite decide_False by done. rewrite IH by (cbn in Hm; lia). rewrite blen_cons. f_equal. lia. }
  rewrite Hi; [done|]. unfold blen in *. lia.
Qed.

Lemma strncpy_ok dst s n :
  Forall (fun b => b <> NUL) s -> blen s <= n <= blen dst ->
  strncpy dst s n = Ok (s ++ zeros (n - blen s) ++ bdrop n dst).
Proof.
  intros Hs Hn. unfold strncpy. rewrite cstr_id, btake_all, (proj2 (Z.leb_le _ _)) by (done || lia).
  rewrite bstore_0, <- app_assoc. do 3 f_equal. rewrite blen_app, blen_zeros by lia. f_equal. lia.
Qed.

Lemma strcpy_ok dst off s :
  Forall (fun b => b <> NUL) s -> 0 <= off -> off + blen s < blen dst ->
  strcpy dst off s = Ok (bstore off (s ++ [NUL]) dst).
Proof.
  intros Hs Hoff Hn. unfold strcpy. rewrite strlen_id, cstr_id by done. by rewrite (proj2 (Z.ltb_lt _ _)).
Qed.

(** ** Text addresses *)

Section addresses.
Context (junk : string -> nat -> byte).
Context (inet_pton : list byte -> option (list byte)) (inet_ntoa : Z -> list byte).

(** A binary IPv4 address has four bytes. *)
Context (pton_length : forall (s b : list byte), inet_pton s = Some b -> blen b = 4).

(** The name of a host in a text address: neither NUL nor a colon, short enough
    for [tmpv]; the rest of that array has a NUL somewhere when a part of a
    string is copied to it. *)
Definition host_ok (host : list byte) : Prop :=
  Forall (fun b => b <> NUL /\ b <> Byte.x3a) host /\ blen host < 50 /\
  NUL ∈ drop (length host) (local_array junk "tmpv" 50).

Lemma host_nonul host : host_ok host -> Forall (fun b => b <> NUL) host.
Proof using Type. intros [H _]. eapply list.Forall_impl; [exact H|]. by intros ? []. Qed.

Lemma host_nocolon host : host_ok host -> Forall (fun b => b <> Byte.x3a) host.
Proof using Type. intros [H _]. eapply list.Forall_impl; [exact H|]. by intros ? []. Qed.

(** The four bytes [inet_pton] stores are not those of [sin_addr]. *)
Lemma pton_elsewhere (name : list byte) :
  getf sockaddr_in "sin_addr"
    (match inet_pton name with Some b => bstore 0 b (zeros (sizeof sockaddr_in)) | None => zeros (sizeof sockaddr_in) end) = 0.
Proof using pton_length.
  destruct (inet_pton name) as [b|] eqn:E; [|done]. apply pton_length in E.
  destruct b as [|b0 [|b1 [|b2 [|b3 [|]]]]]; try (unfold blen in E; cbn in E; lia). done.
Qed.

(** Whatever the text, the address is 0.0.0.0. *)
Lemma str_to_ipv4addr_0 s a : str_to_ipv4addr junk inet_pton s = Ok a -> a = 0.
Proof using pton_length.
  unfold str_to_ipv4addr. destruct (find_byte _ _ _) as [d| | | |]; try done. cbn [mbind res_bind].
  match goal with |- context [if ?b then ?x else ?y] => destruct (if b then x else y) as [t| | | |] end; try done. cbn [mbind res_bind].
  destruct (cstring t) as [n| | | |]; try done. cbn [mbind res_bind]. rewrite pton_elsewhere. by intros [= <-].
Qed.

Lemma cstring_prefix s t : NUL ∈ t -> exists n, cstring (s ++ t) = Ok n.
Proof using Type.
  intros Hin. unfold cstring. rewrite (proj2 (Z.ltb_lt _ _)); [eauto|].
  unfold strlen. induction s as [|b s IH]; cbn [app].
  - induction t as [|b t IH]; [by apply not_elem_of_nil in Hin|]. cbn. case_decide as E; [unfold blen; cbn; lia|].
    apply elem_of_cons in Hin as [<-|Hin]; [done|]. rewrite !blen_cons. specialize (IH Hin). lia.
  - cbn. case_decide; [unfold blen; cbn; lia|]. rewrite !blen_cons. lia.
Qed.

Lemma str_to_ipv4addr_ok host rest :
  host_ok host -> blen (host ++ Byte.x3a :: rest) < 2 ^ 31 -> Forall (fun b => b <> NUL) rest ->
  str_to_ipv4addr junk inet_pton (host ++ Byte.x3a :: rest) = Ok 0.
Proof using pton_length.
  intros Hh Hlen Hrest. pose proof Hh as (_ & H50 & Hnul).
  assert (Forall (fun b => b <> NUL) (host ++ Byte.x3a :: rest)) as Hall.
  { apply list.Forall_app. split; [by apply host_nonul|by constructor]. }
  pose proof (blen_nonneg host). pose proof (blen_nonneg rest).
  rewrite blen_app, blen_cons in Hlen.
  unfold str_to_ipv4addr. rewrite strlen_id, blen_app, blen_cons, swrap_small by (done || lia).
  rewrite find_byte_first by (by apply host_nocolon || lia). cbn [mbind res_bind].
  rewrite (proj2 (Z.eqb_neq _ _)) by lia. cbn [negb].
  assert (strncpy (local_array junk "tmpv" 50) (host ++ Byte.x3a :: rest) (blen host) =
    Ok (host ++ drop (length host) (local_array junk "tmpv" 50))) as ->.
  { assert (blen (local_array junk "tmpv" 50) = 50) as H50' by done.
    unfold strncpy. rewrite cstr_id, btake_app, Z.sub_diag by done.
    rewrite (proj2 (Z.leb_le _ _)) by lia.
    change (zeros 0) with (@nil byte). rewrite app_nil_r, bstore_0. unfold bdrop, blen. by rewrite Nat2Z.id. }
  cbn [mbind res_bind]. destruct (cstring_prefix host _ Hnul) as [n ->]. cbn [mbind res_bind].
  by rewrite pton_elsewhere.
Qed.

(** The address of the family [AF_INET] with the port [p] and the host 0.0.0.0. *)
Definition any_address (p : Z) : list byte :=
  setf sockaddr_in "sin_port" (htons p)
    (setf sockaddr_in "sin_addr" INADDR_ANY (setf sockaddr_in "sin_family" AF_INET (zeros (sizeof sockaddr_in)))).

Lemma any_address_host p : setf sockaddr_in "sin_addr" 0 (any_address p) = any_address p.
Proof using Type. reflexivity. Qed.

(** A text address with the port [p]; with an empty host there is no more to ask. *)
Definition text_ok (host : list byte) (p w : Z) : Prop :=
  (host = [] \/ host_ok host) /\ 0 <= p < 2 ^ 16 /\ p < 2 ^ (w - 1).

Lemma text_length host p w : text_ok host p w -> blen (host ++ Byte.x3a :: print_d p) < 100 /\
  Forall (fun b => b <> NUL) (host ++ Byte.x3a :: print_d p) /\ Forall (fun b => b <> Byte.x3a) host.
Proof using Type.
  intros (Hh & Hp & _). pose proof (print_d_length p ltac:(lia)). rewrite blen_app, blen_cons.
  assert (blen host < 50 /\ Forall (fun b => b <> NUL) host /\ Forall (fun b => b <> Byte.x3a) host) as (Hl & Hn & Hc).
  { destruct Hh as [->|Hh]; [done|]. split_and!; [apply Hh|by apply host_nonul|by apply host_nocolon]. }
  split_and!; [lia| |done]. apply list.Forall_app. split; [done|]. constructor; [done|].
  eapply list.Forall_impl; [apply print_d_plain|]. by intros ? [].
Qed.

(** Reading the port. *)
Lemma make_address_scan host p w :
  text_ok host p 32 ->
  make_address junk inet_pton w (host ++ Byte.x3a :: print_d p) (blen host) =
    (port ← sscanf_d w (print_d p);
     let addr := any_address (u16 (default 0 port)) in
     if negb (blen host =? 0) then
       a ← str_to_ipv4addr junk inet_pton (host ++ Byte.x3a :: print_d p);
       Ok (setf sockaddr_in "sin_addr" a addr)
     else Ok addr).
Proof using Type.
  intros Ht. pose proof (text_length _ _ _ Ht) as (Hlen & Hnul & _). destruct Ht as (_ & Hp & _).
  pose proof (print_d_length p ltac:(lia)) as H5. pose proof (blen_nonneg (print_d p)). pose proof (blen_nonneg host).
  apply list.Forall_app in Hnul as Hsplit. destruct Hsplit as [_ Hd]. apply Forall_cons_iff in Hd as [_ Hd].
  unfold make_address. rewrite strlen_id by done.
  replace (bdrop (blen host + 1) (host ++ Byte.x3a :: print_d p)) with (print_d p).
  2: { symmetry. change (Byte.x3a :: print_d p) with ([Byte.x3a] ++ print_d p). rewrite app_assoc.
       apply bdrop_app_eq. by rewrite blen_app. }
  rewrite blen_app, blen_cons in *. rewrite uwrap_small by lia.
  replace (blen host + (1 + blen (print_d p)) - blen host - 1) with (blen (print_d p)) by lia.
  rewrite strncpy_ok by (done || (change (blen (zeros 10)) with 10; lia)). cbn [mbind res_bind].
  rewrite Z.sub_diag. change (zeros 0) with (@nil byte). cbn [app].
  assert (exists t, bdrop (blen (print_d p)) (zeros 10) = NUL :: t) as [t Et].
  { unfold bdrop, zeros. rewrite drop_replicate. exists (replicate (9 - Z.to_nat (blen (print_d p))) NUL).
    replace (Z.to_nat 10 - Z.to_nat (blen (print_d p)))%nat with (S (9 - Z.to_nat (blen (print_d p)))) by lia. done. }
  rewrite Et. unfold cstring. rewrite strlen_app_nul, cstr_app_nul, blen_app, blen_cons by done.
  pose proof (blen_nonneg t). by rewrite (proj2 (Z.ltb_lt _ _)) by lia.
Qed.

Lemma text_ok_weaken host p w : text_ok host p w -> text_ok host p 32.
Proof using Type. intros (Hh & Hp & _). split_and!; [done|lia|lia|]. cbn. lia. Qed.

Lemma make_address_ok host p w :
  text_ok host p w ->
  make_address junk inet_pton w (host ++ Byte.x3a :: print_d p) (blen host) = Ok (any_address p).
Proof using pton_length.
  intros Ht. pose proof (text_length _ _ _ Ht) as (Hlen & Hnul & _).
  rewrite make_address_scan by by eapply text_ok_weaken. destruct Ht as (Hh & Hp & Hw).
  apply list.Forall_app in Hnul as Hsplit. destruct Hsplit as [_ Hd]. apply Forall_cons_iff in Hd as [_ Hd].
  unfold sscanf_d. rewrite scan_print by lia.
  rewrite (proj2 (Z.leb_le (- 2 ^ (w - 1)) p)), (proj2 (Z.ltb_lt p (2 ^ (w - 1)))) by lia. cbn [andb mbind res_bind default].
  change (u16 (id p)) with (u16 p). rewrite (uwrap_small 16 p) by lia. destruct Hh as [->|Hh]; [done|].
  destruct (Z.eqb_spec (blen host) 0) as [E0|_]; [done|]. cbn [negb].
  rewrite str_to_ipv4addr_ok; [|done|lia|done].
  exact (f_equal Ok (any_address_host p)).
Qed.

(** A port that is too big for the integer it is read to. *)
Lemma make_address_overflow host p w :
  text_ok host p 32 -> 2 ^ (w - 1) <= p ->
  make_address junk inet_pton w (host ++ Byte.x3a :: print_d p) (blen host) = Undef.
Proof using Type.
  intros Ht Hw. rewrite make_address_scan by done. destruct Ht as (_ & Hp & _).
  unfold sscanf_d. rewrite scan_print, (proj2 (Z.ltb_ge p (2 ^ (w - 1)))) by lia. by rewrite andb_false_r.
Qed.

(** *** Printing *)

(** A dotted address has at most 15 characters, neither NUL nor colon. *)
Context (ntoa_text : forall a, Forall (fun b => b <> NUL /\ b <> Byte.x3a) (inet_ntoa a) /\ blen (inet_ntoa a) <= 15).

(** The text of a binary address. *)
Definition address_text (addr : list byte) : list byte :=
  inet_ntoa (getf sockaddr_in "sin_addr" addr) ++ Byte.x3a :: print_d (ntohs (getf sockaddr_in "sin_port" addr)).

Lemma htons_range v : 0 <= htons v < 2 ^ 16.
Proof using Type.
  unfold htons. pose proof (le_dec_range (rev (le_enc 2 v))) as H. unfold blen in H.
  by rewrite length_rev, length_le_enc in H.
Qed.

Lemma address_text_ok addr :
  blen (address_text addr) <= 21 /\ Forall (fun b => b <> NUL) (address_text addr).
Proof using ntoa_text.
  unfold address_text. destruct (ntoa_text (getf sockaddr_in "sin_addr" addr)) as [Hn Hl].
  pose proof (print_d_length (ntohs (getf sockaddr_in "sin_port" addr))) as H5.
  pose proof (htons_range (getf sockaddr_in "sin_port" addr)). unfold ntohs in *.
  rewrite blen_app, blen_cons. split; [lia|]. apply list.Forall_app. split.
  - eapply list.Forall_impl; [exact Hn|]. by intros ? [].
  - constructor; [done|]. eapply list.Forall_impl; [apply print_d_plain|]. by intros ? [].
Qed.

(** The 26 bytes are enough: the text and NULs. *)
Lemma print_address_ok srcaddr addr :
  26 <= blen srcaddr ->
  print_address inet_ntoa srcaddr addr =
    Ok (address_text addr ++ zeros (26 - blen (address_text addr)) ++ bdrop 26 srcaddr).
Proof using ntoa_text.
  intros Hlen. pose proof (address_text_ok addr) as [H21 Hnul]. unfold print_address, address_text in *.
  set (name := inet_ntoa _) in *. set (port := print_d _) in *.
  apply list.Forall_app in Hnul as [Hn Hp]. rewrite blen_app, blen_cons in *.
  pose proof (blen_nonneg name). pose proof (blen_nonneg port).
  unfold memset0. rewrite (proj2 (Z.leb_le _ _)), bstore_0 by done. cbn [mbind res_bind].
  change (blen (zeros 26)) with 26. set (rest := bdrop 26 srcaddr).
  rewrite strcpy_ok by (done || (rewrite blen_app; change (blen (zeros 26)) with 26; pose proof (blen_nonneg rest); lia)).
  cbn [mbind res_bind]. rewrite bstore_0, strlen_id by done.
  assert (forall n, 0 <= n <= 26 -> bdrop n (zeros 26 ++ rest) = zeros (26 - n) ++ rest) as Hz.
  { intros n Hn'. unfold bdrop, zeros. rewrite drop_app_le by (rewrite length_replicate; lia).
    rewrite drop_replicate. do 2 f_equal. lia. }
  rewrite Hz by (rewrite blen_app; change (blen [NUL]) with 1; lia). rewrite blen_app. change (blen [NUL]) with 1.
  rewrite strcpy_ok; [|done|done|].
  2: { rewrite !blen_app, blen_zeros, blen_cons by lia. change (blen [NUL]) with 1. pose proof (blen_nonneg rest). lia. }
  f_equal. rewrite <- !app_assoc. unfold bstore. rewrite btake_app. f_equal.
  rewrite blen_app, blen_cons. change (blen [NUL]) with 1.
  assert (NUL :: zeros (26 - (blen name + 1)) ++ rest = zeros (26 - blen name) ++ rest) as Ez.
  { unfold zeros. replace (Z.to_nat (26 - blen name)) with (S (Z.to_nat (26 - (blen name + 1)))) by lia. done. }
  cbn [app]. rewrite Ez.
  replace (bdrop (blen name + (1 + blen port + 1)) (name ++ zeros (26 - blen name) ++ rest))
    with (zeros (26 - (blen name + (1 + blen port) + 1)) ++ rest).
  2: { unfold bdrop. rewrite drop_app_ge by (unfold blen in *; lia).
       unfold zeros. rewrite drop_app_le by (rewrite length_replicate; unfold blen in *; lia).
       rewrite drop_replicate. do 2 f_equal. unfold blen in *. lia. }
  f_equal. rewrite <- app_assoc. f_equal. cbn [app].
  replace (26 - (blen name + (1 + blen port))) with (Z.succ (26 - (blen name + (1 + blen port) + 1))) by lia.
  unfold zeros. rewrite Z2Nat.inj_succ by lia. done.
Qed.
End addresses.

(** ** What the wrappers do *)

Section wrappers.
Context (junk : string -> nat -> byte).
Context (inet_pton : list byte -> option (list byte)) (inet_ntoa : Z -> list byte).
Context (pton_length : forall (s b : list byte), inet_pton s = Some b -> blen b = 4).
Context (ntoa_text : forall a, Forall (fun b => b <> NUL /\ b <> Byte.x3a) (inet_ntoa a) /\ blen (inet_ntoa a) <= 15).

(** The state after a call that returns [r], with the error [e] for -1. *)
Definition after (s : net) (answers : list answer) (c : syscall) (r e : Z) : net :=
  Net (if r =? -1 then set_err e (n_w s) else n_w s) answers (n_calls s ++ [c]).

(** The result of a wrapper that tells failure from success. *)
Definition status (r : Z) : Z := if r =? -1 then -1 else 0.

Lemma call_ok c s a answers :
  n_answers s = a :: answers -> call c s = Ok (a, Net (n_w s) answers (n_calls s ++ [c])).
Proof using Type. unfold call. by intros ->. Qed.

(** The colon of a text address is found. *)
Lemma find_colon host p w : text_ok junk host p w ->
  find_byte (host ++ Byte.x3a :: print_d p) Byte.x3a (s32 (strlen (host ++ Byte.x3a :: print_d p))) = Ok (blen host).
Proof using Type.
  intros Ht. destruct (text_length junk _ _ _ Ht) as (Hlen & Hn & Hc).
  pose proof (blen_nonneg (host ++ Byte.x3a :: print_d p)). rewrite strlen_id, swrap_small by (done || lia).
  apply find_byte_first; [done|]. rewrite blen_app, blen_cons. pose proof (blen_nonneg (print_d p)). lia.
Qed.

Lemma bind_ok sock host p s a answers
    (Hd : domain sock = AF_INET) (Ht : text_ok junk host p 32) (Ha : n_answers s = a :: answers) :
  qSocket_bind junk inet_pton sock (host ++ Byte.x3a :: print_d p) s =
    Ok (status (a_ret a), after s answers (CBind (desc sock) (any_address p)) (a_ret a) ZHWK_ERR_SOCK_BIND_FAIL).
Proof using pton_length.
  unfold qSocket_bind. rewrite Hd. cbn [qIPv4 AF_INET Z.eqb Pos.eqb negb]. rewrite (find_colon host p 32 Ht).
  erewrite prog_bind_ok by reflexivity. pose proof (blen_nonneg host).
  rewrite (proj2 (Z.eqb_neq _ _)) by lia. rewrite (make_address_ok junk inet_pton pton_length host p 32 Ht).
  erewrite prog_bind_ok by reflexivity. rewrite (prog_bind_ok _ _ _ _ _ (call_ok _ _ _ _ Ha)).
  unfold status, after. by destruct (a_ret a =? -1).
Qed.

(** C28. [qSocket_bind] of a text address with the port [p] binds the port [p] of
    every interface, 0.0.0.0, whatever the host in the text: [inet_pton] stores
    the address it reads outside of the field that is used.  The result and the
    error tell whether the call failed. *)
Theorem bind_spec sock host p s a answers
    (Hd : domain sock = AF_INET) (Ht : text_ok junk host p 32) (Ha : n_answers s = a :: answers) :
  qSocket_bind junk inet_pton sock (host ++ Byte.x3a :: print_d p) s =
    Ok (status (a_ret a), after s answers (CBind (desc sock) (any_address p)) (a_ret a) ZHWK_ERR_SOCK_BIND_FAIL).
Proof using pton_length. by apply bind_ok. Qed.

(** [qStreamSocket_connect] likewise connects to the port [p] of 0.0.0.0,
    whatever the host; it reads the port as a [short], so that the ports from
    32768 on are out of the range for which its behaviour is defined. *)
Theorem connect_spec sock host p s a answers
    (Hd : domain sock = AF_INET) (Ht : text_ok junk host p 16) (Ha : n_answers s = a :: answers) :
  qStreamSocket_connect junk inet_pton sock (host ++ Byte.x3a :: print_d p) s =
    Ok (status (a_ret a), after s answers (CConnect (desc sock) (any_address p)) (a_ret a) ZHWK_ERR_TCP_CONNECT_FAIL).
Proof using pton_length.
  unfold qStreamSocket_connect. rewrite Hd. cbn [qIPv4 AF_INET Z.eqb Pos.eqb negb]. rewrite (find_colon host p 16 Ht).
  erewrite prog_bind_ok by reflexivity. pose proof (blen_nonneg host).
  rewrite (proj2 (Z.eqb_neq _ _)) by lia. rewrite (make_address_ok junk inet_pton pton_length host p 16 Ht).
  erewrite prog_bind_ok by reflexivity. rewrite (prog_bind_ok _ _ _ _ _ (call_ok _ _ _ _ Ha)).
  unfold status, after. by destruct (a_ret a =? -1).
Qed.

(** A port that [connect] cannot read. *)
Theorem connect_high_port sock host p s
    (Hd : domain sock = AF_INET) (Ht : text_ok junk host p 32) (Hp : 2 ^ 15 <= p) :
  qStreamSocket_connect junk inet_pton sock (host ++ Byte.x3a :: print_d p) s = Undef.
Proof using Type.
  unfold qStreamSocket_connect. rewrite Hd. cbn [qIPv4 AF_INET Z.eqb Pos.eqb negb]. rewrite (find_colon host p 32 Ht).
  erewrite prog_bind_ok by reflexivity. pose proof (blen_nonneg host).
  rewrite (proj2 (Z.eqb_neq _ _)) by lia. by rewrite (make_address_overflow junk inet_pton host p 16 Ht).
Qed.

(** The text that [qStreamSocket_accept] writes for a peer is one from which
    [qSocket_bind] reads back the port of that peer. *)
Theorem address_text_roundtrip addr
    (Hj : host_ok junk (inet_ntoa (getf sockaddr_in "sin_addr" addr))) :
  make_address junk inet_pton 32 (address_text inet_ntoa addr)
      (blen (inet_ntoa (getf sockaddr_in "sin_addr" addr))) =
    Ok (any_address (ntohs (getf sockaddr_in "sin_port" addr))).
Proof using pton_length.
  apply (make_address_ok junk inet_pton pton_length). split_and!; [by right|apply htons_range..|].
  unfold ntohs. pose proof (htons_range (getf sockaddr_in "sin_port" addr)). change (2 ^ (32 - 1)) with (2 ^ 31). lia.
Qed.

Lemma accept_ok sock srcaddr s a answers
    (Hs : 26 <= blen srcaddr) (Ha : n_answers s = a :: answers) :
  exists text, qStreamSocket_accept junk inet_ntoa sock srcaddr s =
      Ok ((Socket (a_ret a) (domain sock) (type sock) (protocol sock) (quickack sock),
           text ++ zeros (26 - blen text) ++ bdrop 26 srcaddr),
          after s answers (CAccept (desc sock)) (a_ret a) ZHWK_ERR_TCP_ACCEPT_FAIL) /\
    blen text <= 21 /\ (a_ret a <> -1 -> text = address_text inet_ntoa (a_addr a)).
Proof using ntoa_text.
  set (addr := if a_ret a =? -1 then local_array junk "srcaddr_in" 16 else a_addr a).
  exists (address_text inet_ntoa addr). split_and!.
  - unfold qStreamSocket_accept. rewrite (prog_bind_ok _ _ _ _ _ (call_ok _ _ _ _ Ha)). cbn [desc].
    fold addr. rewrite (print_address_ok inet_ntoa ntoa_text _ _ Hs). unfold after.
    by destruct (a_ret a =? -1).
  - apply (address_text_ok inet_ntoa ntoa_text).
  - intros Hne. unfold addr. by rewrite (proj2 (Z.eqb_neq _ _)).
Qed.

(** C29. [qStreamSocket_accept] never writes more than the 26 bytes of a text
    address, whatever the system answers: they hold the address and the port of
    the peer and then NULs.  The new socket has the descriptor of the answer, -1
    with an error when the call failed, and the attributes of the listening
    one. *)
Theorem accept_spec sock srcaddr s a answers
    (Hs : 26 <= blen srcaddr) (Ha : n_answers s = a :: answers) :
  exists text, qStreamSocket_accept junk inet_ntoa sock srcaddr s =
      Ok ((Socket (a_ret a) (domain sock) (type sock) (protocol sock) (quickack sock),
           text ++ zeros (26 - blen text) ++ bdrop 26 srcaddr),
          after s answers (CAccept (desc sock)) (a_ret a) ZHWK_ERR_TCP_ACCEPT_FAIL) /\
    blen text <= 21 /\ (a_ret a <> -1 -> text = address_text inet_ntoa (a_addr a)).
Proof using ntoa_text. by apply accept_ok. Qed.

(** [qDatagramSocket_send] to a text address sends the payload to the port [p]
    of 0.0.0.0 whatever the host, in an address whose family is not set. *)
Theorem send_spec sock host p payload size flags s a answers
    (Hd : domain sock = AF_INET) (Hh : host_ok junk host) (Hp : 0 <= p < 2 ^ 15)
    (Hsize : size <= blen payload) (Ha : n_answers s = a :: answers) :
  qDatagramSocket_send junk inet_pton sock (host ++ Byte.x3a :: print_d p) payload size flags s =
    Ok (a_ret a, after s answers
      (CSendto (desc sock) (btake size payload) flags (setf sockaddr_in "sin_family" 0 (any_address p)))
      (a_ret a) ZHWK_ERR_UDP_SEND_FAIL).
Proof using pton_length.
  assert (text_ok junk host p 32) as Ht by (split_and!; [by right|lia|lia|cbn; lia]).
  pose proof (text_length junk _ _ _ Ht) as (Hlen & Hnul & _).
  apply list.Forall_app in Hnul as Hsplit. destruct Hsplit as [_ Hdig]. apply Forall_cons_iff in Hdig as [_ Hdig].
  unfold qDatagramSocket_send. rewrite Hd. cbn [qIPv4 AF_INET Z.eqb Pos.eqb negb]. rewrite (find_colon host p 32 Ht).
  erewrite prog_bind_ok by reflexivity.
  rewrite (str_to_ipv4addr_ok junk inet_pton pton_length) by (done || lia).
  erewrite prog_bind_ok by reflexivity.
  replace (bdrop (blen host + 1) (host ++ Byte.x3a :: print_d p)) with (print_d p).
  2: { symmetry. change (Byte.x3a :: print_d p) with ([Byte.x3a] ++ print_d p). rewrite app_assoc.
       apply bdrop_app_eq. by rewrite blen_app. }
  rewrite cstr_id by done. unfold sscanf_d. rewrite scan_print by lia.
  rewrite (proj2 (Z.leb_le (- 2 ^ (16 - 1)) p)), (proj2 (Z.ltb_lt p (2 ^ (16 - 1)))) by (cbn; lia). cbn [andb].
  erewrite prog_bind_ok by reflexivity. rewrite (proj2 (Z.ltb_ge _ _)), (uwrap_small 16 p) by lia.
  rewrite (prog_bind_ok _ _ _ _ _ (call_ok _ _ _ _ Ha)). unfold after. by destruct (a_ret a =? -1).
Qed.
End wrappers.

(** ** Witnesses *)

(** An [inet_pton] that reads everything as 1.2.3.4, and the dotted notation. *)
Definition pton_ex (s : list byte) : option (list byte) := Some [Byte.x01; Byte.x02; Byte.x03; Byte.x04].

Lemma pton_ex_length (s b : list byte) : pton_ex s = Some b -> blen b = 4.
Proof. by intros [= <-]. Qed.

Definition ntoa_ex (a : Z) : list byte :=
  print_d (a mod 256) ++ Byte.x2e :: print_d (a / 2 ^ 8 mod 256) ++ Byte.x2e ::
  print_d (a / 2 ^ 16 mod 256) ++ Byte.x2e :: print_d (a / 2 ^ 24 mod 256).

Lemma ntoa_ex_text a : Forall (fun b => b <> NUL /\ b <> Byte.x3a) (ntoa_ex a) /\ blen (ntoa_ex a) <= 15.
Proof.
  unfold ntoa_ex. split.
  - repeat (apply list.Forall_app; split; [apply print_d_plain|]; constructor; [done|]). apply print_d_plain.
  - assert (forall n, blen (print_d (n mod 256)) <= 3) as H.
    { intros n. pose proof (Z.mod_pos_bound n 256 ltac:(lia)).
      assert (0 <= n mod 256 < 10 ^ Z.of_nat 3) as Hn by (cbn; lia).
      pose proof (decimal_length 10 _ 3 Hn (Nat.lt_0_succ 2)). unfold blen, print_d. lia. }
    rewrite !blen_app, !blen_cons, !blen_app, !blen_cons, !blen_app, !blen_cons.
    pose proof (H a). pose proof (H (a / 2 ^ 8)). pose proof (H (a / 2 ^ 16)). pose proof (H (a / 2 ^ 24)). lia.
Qed.

Definition zero_junk (x : string) (n : nat) : byte := NUL.

(** "1.2.3.4" *)
Definition host_ex : list byte := [Byte.x31; Byte.x2e; Byte.x32; Byte.x2e; Byte.x33; Byte.x2e; Byte.x34].

Lemma host_ex_ok : host_ok zero_junk host_ex.
Proof. split_and!; [repeat constructor; done|done|by left]. Qed.

Lemma text_ex_ok p w : 0 <= p < 2 ^ 16 -> p < 2 ^ (w - 1) -> text_ok zero_junk host_ex p w.
Proof. intros Hp Hw. split_and!; [right; apply host_ex_ok|lia|lia|done]. Qed.

Definition sock_ex : qSocket := Socket 5 AF_INET SOCK_STREAM 0 0.

Definition net_ex (a : answer) : net := Net (start []) [a] [].

Lemma bind_spec_witness :
  qSocket_bind zero_junk pton_ex sock_ex (host_ex ++ Byte.x3a :: print_d 10888) (net_ex (ret 0)) =
    Ok (0, Net (start []) [] [CBind 5 (any_address 10888)]).
Proof.
  apply (bind_spec zero_junk pton_ex pton_ex_length sock_ex host_ex 10888 (net_ex (ret 0)) (ret 0) []);
    [reflexivity|apply text_ex_ok; [split; lia|reflexivity]|reflexivity].
Defined.

Lemma connect_spec_witness :
  qStreamSocket_connect zero_junk pton_ex sock_ex (host_ex ++ Byte.x3a :: print_d 80) (net_ex (ret (-1))) =
    Ok (-1, Net (set_err 40 (start [])) [] [CConnect 5 (any_address 80)]).
Proof.
  apply (connect_spec zero_junk pton_ex pton_ex_length sock_ex host_ex 80 (net_ex (ret (-1))) (ret (-1)) []);
    [reflexivity|apply text_ex_ok; [split; lia|reflexivity]|reflexivity].
Defined.

Lemma accept_spec_witness :
  exists text, qStreamSocket_accept zero_junk ntoa_ex sock_ex (zeros 40) (net_ex (Answer 7 0 (any_address 10888) [])) =
      Ok ((Socket 7 AF_INET SOCK_STREAM 0 0, text ++ zeros (26 - blen text) ++ zeros 14),
          Net (start []) [] [CAccept 5]) /\
    text = address_text ntoa_ex (any_address 10888).
Proof.
  destruct (accept_spec zero_junk ntoa_ex ntoa_ex_text sock_ex (zeros 40)
    (net_ex (Answer 7 0 (any_address 10888) [])) (Answer 7 0 (any_address 10888) []) []
    ltac:(vm_compute; discriminate) eq_refl) as (text & E & _ & Et).
  exists text. split; [exact E|]. apply Et. discriminate.
Defined.

Lemma address_text_roundtrip_witness :
  make_address zero_junk pton_ex 32 (address_text ntoa_ex (any_address 10888)) 7 = Ok (any_address 10888).
Proof.
  apply (address_text_roundtrip zero_junk pton_ex ntoa_ex pton_ex_length (any_address 10888)).
  split; [vm_compute; repeat constructor; discriminate|]. split; [reflexivity|vm_compute; left].
Defined.

Lemma send_spec_witness :
  qDatagramSocket_send zero_junk pton_ex sock_ex (host_ex ++ Byte.x3a :: print_d 53) [NUL; NUL] 2 0 (net_ex (ret 2)) =
    Ok (2, Net (start []) [] [CSendto 5 [NUL; NUL] 0 (setf sockaddr_in "sin_family" 0 (any_address 53))]).
Proof.
  apply (send_spec zero_junk pton_ex pton_ex_length sock_ex host_ex 53 [NUL; NUL] 2 0 (net_ex (ret 2)) (ret 2) []);
    [reflexivity|exact host_ex_ok|split; lia|vm_compute; discriminate|reflexivity].
Defined.
