(* ===== verification/Threads.v ===== *)
(** * Threads, the creation of mutexes and the accept loop

    (zhwkre/concurrent.h, zhwkre/concurrent/threading.c, mutex.c and netwrap.c)

    The functions that run in other threads are not modelled: a thread is the
    bytes it gets as its argument.  [pthread_create] leaves the number of the
    thread indeterminate when it fails ([junk_thread]). *)

From S2P Require Import Prelude Layout World Utils Net NetFacts.
Local Open Scope Z_scope.

Definition ZHWK_ERR_MUTEX_INIT_FAIL : Z := 60.
Definition ZHWK_ERR_MUTEX_DESTROY_FAIL : Z := 63.
Definition ZHWK_ERR_THREAD_CREATE_FAIL : Z := 70.
Definition ZHWK_ERR_THREAD_DETACH_FAIL : Z := 71.
Definition ZHWK_ERR_THREAD_JOIN_FAIL : Z := 72.

(** ** Mutexes (mutex.c) *)

(** Whether [mu] points to a mutex, and whether [lock] and [unlock] are set. *)
Record qMutex : Type := Mutex { mu : bool; methods : bool }.

Definition qMutex_constructor : nio qMutex :=
  ok ← lift_io malloc;
  if negb ok then lift_io (SETERR ZHWK_ERR_MM_ALLOC_FAIL);; mret (Mutex false false) else
  errn ← call CMutexInit;
  lift_io (pmodify (set_mu false));;
  (if a_ret errn =? -1 then lift_io (SETERR ZHWK_ERR_MUTEX_INIT_FAIL) else mret tt);;
  mret (Mutex true true).

Definition qMutex__destructor (m : qMutex) : nio qMutex :=
  if negb (mu m) then pundef else
  errn ← call CMutexDestroy;
  (if a_ret errn =? -1 then lift_io (SETERR ZHWK_ERR_MUTEX_DESTROY_FAIL) else mret tt);;
  lift_io free;;
  mret (Mutex false (methods m)).

(** ** Threads (threading.c) *)

Section threads.
Context (junk : string -> nat -> byte) (junk_thread : Z) (inet_ntoa : Z -> list byte).

Definition qStart (args : list byte) : nio Z :=
  errn ← call (CPthreadCreate args);
  (if a_ret errn =? -1 then lift_io (SETERR ZHWK_ERR_THREAD_CREATE_FAIL) else mret tt);;
  mret (if a_ret errn =? 0 then a_out errn else junk_thread).

Definition qDetach (thr : Z) : nio Z :=
  errn ← call (CPthreadDetach thr);
  (if a_ret errn =? -1 then lift_io (SETERR ZHWK_ERR_THREAD_DETACH_FAIL) else mret tt);;
  mret (a_ret errn).

Definition qRun (args : list byte) : nio Z :=
  lift_io (SETERR 0);;
  tmpthr ← qStart args;
  w ← lift_io pget;
  if negb (w_err w =? 0) then mret (-1) else qDetach tmpthr.

(** [res] stays NULL when the call fails. *)
Definition qWait (thr : Z) : nio Z :=
  errn ← call (CPthreadJoin thr);
  (if a_ret errn =? -1 then lift_io (SETERR ZHWK_ERR_THREAD_JOIN_FAIL) else mret tt);;
  mret (if a_ret errn =? 0 then a_out errn else 0).

(** ** The accept loop (netwrap.c) *)

Definition ConnInfo : cstruct := [("srcaddr", CBytes 40); ("connuid", CInt true 4)]%string.

(** One turn of the loop of [serveat]; [None] goes on.  The socket [incoming] is
    not passed on. *)
Definition serve_one (listener : qSocket) (buid : Z) : nio (option Z) :=
  if 2 ^ 31 <=? buid then pundef else
  ok ← lift_io malloc;
  if negb ok then pundef else
  let conn := local_array junk "conn" (Z.to_nat (sizeof ConnInfo)) in
  '(incoming, srcaddr) ← qStreamSocket_accept junk inet_ntoa listener (btake 40 conn);
  if desc incoming =? -1 then lift_io free;; mret (Some (-1)) else
  let conn := setf ConnInfo "connuid" buid (bstore 0 srcaddr conn) in
  _ ← qRun conn;
  mret None.

Fixpoint serve_loop (fuel : nat) (listener : qSocket) (buid : Z) : nio Z :=
  match fuel with
  | O => fun _ => Diverged
  | S fuel' =>
      r ← serve_one listener (buid + 1);
      match r with
      | Some r => mret r
      | None => serve_loop fuel' listener (buid + 1)
      end
  end.

(** Every turn waits for the answer of [accept]: one turn more than there are
    answers is enough. *)
Definition serveat (listener : qSocket) : nio Z := fun s =>
  serve_loop (S (length (n_answers s))) listener 0 s.

End threads.

(** ** Theorems *)

Section theorems.
Context (junk : string -> nat -> byte) (junk_thread : Z) (inet_ntoa : Z -> list byte).
Context (ntoa_text : forall a, Forall (fun b => b <> NUL /\ b <> Byte.x3a) (inet_ntoa a) /\ blen (inet_ntoa a) <= 15).

Lemma lift_io_bind {A B} (m : io A) (f : A -> nio B) s a w :
  m (n_w s) = Ok (a, w) -> (lift_io m ≫= f) s = f a (Net w (n_answers s) (n_calls s)).
Proof using Type. intros E. apply prog_bind_ok. unfold lift_io. by rewrite E. Qed.

(** [pthread_create] reports errors as positive numbers, which the wrappers do
    not take for errors: when no thread can be created [qRun] still detaches a
    thread, whose number is indeterminate, and returns the result of that. *)
Theorem run_creation_failure args s e d answers
    (Ha : n_answers s = e :: d :: answers) (He : 0 < a_ret e) (Hd : 0 <= a_ret d) :
  qRun junk_thread args s =
    Ok (a_ret d, Net (set_err 0 (n_w s)) answers (n_calls s ++ [CPthreadCreate args; CPthreadDetach junk_thread])).
Proof using Type.
  unfold qRun. rewrite (lift_io_bind _ _ _ tt (set_err 0 (n_w s))) by done. unfold qStart.
  erewrite prog_bind_ok.
  2: { erewrite prog_bind_ok by (apply call_ok; exact Ha). rewrite (proj2 (Z.eqb_neq (a_ret e) (-1))) by lia.
       erewrite prog_bind_ok by reflexivity. rewrite (proj2 (Z.eqb_neq (a_ret e) 0)) by lia. reflexivity. }
  rewrite (lift_io_bind _ _ _ (set_err 0 (n_w s)) (set_err 0 (n_w s))) by done. cbn [w_err set_err Z.eqb negb].
  unfold qDetach. erewrite prog_bind_ok by (by apply call_ok). rewrite (proj2 (Z.eqb_neq (a_ret d) (-1))) by lia.
  erewrite prog_bind_ok by reflexivity. unfold mret, prog_ret. cbn [n_w n_calls n_answers]. by rewrite <- app_assoc.
Qed.

(** A connection: the new descriptor, the address of the peer and the thread that
    is started. *)
Abbreviation connection := (Z * list byte * Z)%type.

Definition conn_answers (c : connection) : list answer :=
  [Answer c.1.1 0 c.1.2 []; Answer 0 c.2 [] []; ret 0].

(** The argument of the thread of a connection. *)
Definition conn_info (addr : list byte) (uid : Z) : list byte :=
  let conn := local_array junk "conn" (Z.to_nat (sizeof ConnInfo)) in
  let text := address_text inet_ntoa addr in
  setf ConnInfo "connuid" uid (bstore 0 (text ++ zeros (26 - blen text) ++ bdrop 26 (btake 40 conn)) conn).

(** The calls made for the connections, the last one numbered [uid], and then for
    the one that fails. *)
Fixpoint conn_calls (listener : qSocket) (uid : Z) (cs : list connection) : list syscall :=
  match cs with
  | [] => [CAccept (desc listener)]
  | c :: cs' =>
      CAccept (desc listener) :: CPthreadCreate (conn_info c.1.2 (uid + 1)) :: CPthreadDetach c.2 ::
      conn_calls listener (uid + 1) cs'
  end.

Lemma conn_size : 26 <= blen (btake 40 (local_array junk "conn" (Z.to_nat (sizeof ConnInfo)))).
Proof using Type. change (26 <= 40). lia. Qed.

Lemma serve_one_ok listener uid c s answers :
  n_answers s = conn_answers c ++ answers -> c.1.1 <> -1 -> uid < 2 ^ 31 -> mem_ok (n_w s) ->
  serve_one junk junk_thread inet_ntoa listener uid s =
    Ok (None, Net (set_err 0 (set_live (w_live (n_w s) + 1) (n_w s))) answers
      (n_calls s ++ [CAccept (desc listener); CPthreadCreate (conn_info c.1.2 uid); CPthreadDetach c.2])).
Proof using ntoa_text.
  destruct c as [[fd addr] thr]. cbn [fst snd conn_answers app]. intros Ha Hfd Huid Hm.
  unfold serve_one. rewrite (proj2 (Z.leb_gt _ _)) by done.
  rewrite (lift_io_bind _ _ _ true (set_live (w_live (n_w s) + 1) (n_w s))) by (by apply malloc_ok). cbn [negb].
  set (s1 := Net _ _ _).
  destruct (accept_ok junk inet_ntoa ntoa_text listener _ s1 _ _ conn_size Ha) as (text & E & _ & Et).
  rewrite (prog_bind_ok _ _ _ _ _ E). cbv beta iota. cbn [desc a_ret]. specialize (Et Hfd). cbn [a_addr] in Et. subst text.
  unfold after. cbn [a_ret]. rewrite !(proj2 (Z.eqb_neq fd (-1))) by done.
  erewrite prog_bind_ok; [reflexivity|]. unfold qRun.
  erewrite lift_io_bind by reflexivity. cbn [n_w n_answers n_calls]. unfold qStart.
  erewrite prog_bind_ok.
  2: { erewrite prog_bind_ok by (by apply call_ok). cbn [a_ret]. erewrite prog_bind_ok by reflexivity. reflexivity. }
  erewrite lift_io_bind by reflexivity. cbv beta; cbn [n_w w_err set_err Z.eqb negb]. unfold qDetach.
  erewrite prog_bind_ok by (by apply call_ok). cbn [a_ret ret Z.eqb].
  erewrite prog_bind_ok by reflexivity. unfold mret, prog_ret. cbn [n_w n_calls n_answers a_out]. by rewrite <- !app_assoc.
Qed.

Lemma serve_loop_ok listener fuel : forall cs uid s answers,
  (length cs < fuel)%nat ->
  n_answers s = concat (map conn_answers cs) ++ ret (-1) :: answers ->
  Forall (fun c => c.1.1 <> -1) cs -> uid + blen cs + 1 < 2 ^ 31 -> mem_ok (n_w s) ->
  serve_loop junk junk_thread inet_ntoa fuel listener uid s =
    Ok (-1, Net (set_err ZHWK_ERR_TCP_ACCEPT_FAIL (set_live (w_live (n_w s) + blen cs) (n_w s))) answers
      (n_calls s ++ conn_calls listener uid cs)).
Proof using ntoa_text.
  induction fuel as [|fuel IH]; intros cs uid s answers Hf Ha Hfd Huid Hm; [lia|]. cbn [serve_loop].
  destruct cs as [|c cs].
  - cbn [concat map app] in Ha. unfold serve_one. unfold blen in Huid. cbn in Huid.
    rewrite (proj2 (Z.leb_gt _ _)) by lia.
    erewrite prog_bind_ok.
    2: { rewrite (lift_io_bind _ _ _ true (set_live (w_live (n_w s) + 1) (n_w s))) by (by apply malloc_ok). cbn [negb].
         set (s1 := Net _ _ _).
         destruct (accept_ok junk inet_ntoa ntoa_text listener _ s1 _ _ conn_size Ha) as (text & E & _).
         rewrite (prog_bind_ok _ _ _ _ _ E). cbn [desc a_ret ret Z.eqb Pos.eqb after].
         erewrite lift_io_bind by reflexivity. reflexivity. }
    unfold mret, prog_ret, set_live, set_err. cbn. do 5 f_equal. unfold blen. cbn. lia.
  - cbn [map concat] in Ha. rewrite <- app_assoc in Ha. apply Forall_cons_iff in Hfd as [Hc Hfd].
    rewrite blen_cons in Huid. pose proof (blen_nonneg cs). cbn in Hf.
    rewrite (prog_bind_ok _ _ _ _ _ (serve_one_ok listener (uid + 1) c s _ Ha Hc ltac:(lia) Hm)).
    rewrite (IH cs (uid + 1) _ answers) by (done || lia). cbn [n_w n_calls]. rewrite <- app_assoc. cbn [app conn_calls].
    do 3 f_equal. unfold set_err, set_live. cbn. f_equal. rewrite blen_cons. lia.
Qed.

(** C30. [serveat] serves every connection in turn until [accept] fails, and then
    returns -1: for each one a thread gets the address of the peer and the
    number of the connection.  The descriptors of the connections are in no call
    and in no argument: the threads cannot use them, and nothing closes them. *)
Theorem serveat_spec listener cs s answers
    (Ha : n_answers s = concat (map conn_answers cs) ++ ret (-1) :: answers)
    (Hfd : Forall (fun c => c.1.1 <> -1) cs) (Hlen : blen cs + 1 < 2 ^ 31) (Hm : mem_ok (n_w s)) :
  serveat junk junk_thread inet_ntoa listener s =
    Ok (-1, Net (set_err ZHWK_ERR_TCP_ACCEPT_FAIL (set_live (w_live (n_w s) + blen cs) (n_w s))) answers
      (n_calls s ++ conn_calls listener 0 cs)).
Proof using ntoa_text.
  unfold serveat. apply serve_loop_ok; try done. rewrite Ha, length_app.
  enough (length cs <= length (concat (map conn_answers cs)))%nat by (cbn; lia).
  clear. induction cs as [|c cs IH]; cbn; lia.
Qed.
End theorems.

(** ** Witnesses *)

Lemma run_creation_failure_witness :
  qRun 99 [] (Net (start []) [ret 11; ret 3] []) =
    Ok (3, Net (start []) [] [CPthreadCreate []; CPthreadDetach 99]).
Proof.
  apply (run_creation_failure 99 [] (Net (start []) [ret 11; ret 3] []) (ret 11) (ret 3) []); [reflexivity|cbn; lia..].
Defined.

Lemma serveat_spec_witness :
  exists info, serveat zero_junk 99 ntoa_ex sock_ex
      (Net (start []) [Answer 7 0 (any_address 4000) []; Answer 0 1 [] []; ret 0; ret (-1)] []) =
    Ok (-1, Net (set_err 42 (set_live 1 (start []))) []
      [CAccept 5; CPthreadCreate info; CPthreadDetach 1; CAccept 5]).
Proof.
  exists (conn_info zero_junk ntoa_ex (any_address 4000) 1).
  apply (serveat_spec zero_junk 99 ntoa_ex ntoa_ex_text sock_ex [(7, any_address 4000, 1)]
    (Net (start []) [Answer 7 0 (any_address 4000) []; Answer 0 1 [] []; ret 0; ret (-1)] []) []);
    [reflexivity|constructor; [discriminate|constructor]|reflexivity|reflexivity].
Defined.
