(* ===== verification/Main.v ===== *)
(** * The server's entry point (server.c)

    [main] waits for one peer on port 10888 and hands the connection over to
    libfuse.  The calls that [fuse_loop] makes to the operations are the argument
    [ops]; they run on the machine state of World.v. *)

From S2P Require Import Prelude Layout World Utils FuseServer Server Net NetFacts Threads.
Local Open Scope Z_scope.

Section main.
Context (junk : string -> nat -> byte).
Context (inet_pton : list byte -> option (list byte)) (inet_ntoa : Z -> list byte).

(** ":10888" *)
Definition options_addrxport : list byte := Byte.x3a :: print_d 10888.

(** An uninitialised [int]. *)
Definition local_int (x : string) : Z := s32 (le_dec (local_array junk x 4)).

(** [fuse_mount] of a NULL pointer, when [fuse_new] fails, is undefined. *)
Definition main (mountpoint : list byte) (ops : list fuse_op) : nio Z :=
  _ ← qMutex_constructor;
  dup ← lift_io malloc;
  let lisock := Socket (local_int "lisock.desc") qIPv4 qStreamSocket qDefaultProto (local_int "lisock.quickack") in
  '(r, lisock) ← qSocket__open lisock;
  if negb (r =? 0) then mret (-1) else
  if negb dup then pundef else
  r ← qSocket_bind junk inet_pton lisock options_addrxport;
  if negb (r =? 0) then mret (-1) else
  r ← qStreamSocket_listen lisock;
  if negb (r =? 0) then mret (-1) else
  '(sock, srcaddr) ← qStreamSocket_accept junk inet_ntoa lisock (zeros 40);
  if desc sock =? -1 then mret 1 else
  _ ← qSocket__close lisock;
  f ← call CFuseNew;
  if a_out f =? 0 then pundef else
  m ← call (CFuseMount mountpoint);
  if negb (a_ret m =? 0) then
    _ ← call CFuseDestroy;
    mret (-1)
  else
  _ ← lift_io (fuse_loop junk ops);
  l ← call CFuseLoop;
  if negb (a_ret l =? 0) then
    _ ← call CFuseUnmount;
    _ ← call CFuseDestroy;
    mret (-1)
  else mret 0.

(** ** Theorems *)

Context (pton_length : forall (s b : list byte), inet_pton s = Some b -> blen b = 4).
Context (ntoa_text : forall a, Forall (fun b => b <> NUL /\ b <> Byte.x3a) (inet_ntoa a) /\ blen (inet_ntoa a) <= 15).

(** The exit code and the calls for the answers to [socket], [bind], [listen],
    [accept], [fuse_mount] and [fuse_loop]. *)
Definition main_outcome (mountpoint : list byte) (so bi li ac mo lo : Z) : Z * list syscall :=
  if so =? -1 then (-1, [CMutexInit; CSocket AF_INET SOCK_STREAM 0])
  else if bi =? -1 then (-1, [CMutexInit; CSocket AF_INET SOCK_STREAM 0; CBind so (any_address 10888)])
  else if li =? -1 then
    (-1, [CMutexInit; CSocket AF_INET SOCK_STREAM 0; CBind so (any_address 10888); CListen so 128])
  else
    let accepted := [CMutexInit; CSocket AF_INET SOCK_STREAM 0; CBind so (any_address 10888); CListen so 128; CAccept so] in
    if ac =? -1 then (1, accepted)
    else
      let mounted := accepted ++ [CClose so; CFuseNew; CFuseMount mountpoint] in
      if negb (mo =? 0) then (-1, mounted ++ [CFuseDestroy])
      else if negb (lo =? 0) then (-1, mounted ++ [CFuseLoop; CFuseUnmount; CFuseDestroy])
      else (0, mounted ++ [CFuseLoop]).

(** The state in which the operations are served. *)
Definition session_world (w : world) : world := set_live (w_live w + 2) (set_mu false w).

Lemma mutex_constructor_ok w a answers calls :
  mem_ok w -> a_ret a <> -1 ->
  qMutex_constructor (Net w (a :: answers) calls) =
    Ok (Mutex true true, Net (set_mu false (set_live (w_live w + 1) w)) answers (calls ++ [CMutexInit])).
Proof using Type.
  intros Hm Ha. unfold qMutex_constructor.
  rewrite (lift_io_bind _ _ _ true (set_live (w_live w + 1) w)) by (by apply malloc_ok). cbn [negb].
  erewrite prog_bind_ok by (by apply call_ok). erewrite lift_io_bind by reflexivity.
  rewrite (proj2 (Z.eqb_neq (a_ret a) (-1))) by done. done.
Qed.

Lemma options_ok : text_ok junk [] 10888 32.
Proof using Type. split_and!; [by left|lia|lia|cbn; lia]. Qed.

Lemma open_ok sock s a answers :
  n_answers s = a :: answers ->
  qSocket__open sock s = Ok ((status (a_ret a), set_desc (a_ret a) sock),
    after s answers (CSocket (domain sock) (type sock) (protocol sock)) (a_ret a) ZHWK_ERR_SOCK_FD_OPEN_FAIL).
Proof using Type.
  intros Ha. unfold qSocket__open. rewrite (prog_bind_ok _ _ _ _ _ (call_ok _ _ _ _ Ha)). cbn [desc set_desc].
  unfold status, after. by destruct (a_ret a =? -1).
Qed.

Lemma listen_ok sock s a answers :
  n_answers s = a :: answers ->
  qStreamSocket_listen sock s = Ok (status (a_ret a),
    after s answers (CListen (desc sock) 128) (a_ret a) ZHWK_ERR_TCP_LISTEN_FAIL).
Proof using Type.
  intros Ha. unfold qStreamSocket_listen. rewrite (prog_bind_ok _ _ _ _ _ (call_ok _ _ _ _ Ha)).
  unfold status, after. by destruct (a_ret a =? -1).
Qed.

Lemma close_ok sock s a answers :
  n_answers s = a :: answers ->
  qSocket__close sock s = Ok ((0, set_desc (-1) sock), Net (n_w s) answers (n_calls s ++ [CClose (desc sock)])).
Proof using Type.
  intros Ha. unfold qSocket__close. rewrite (prog_bind_ok _ _ _ _ _ (call_ok _ _ _ _ Ha)).
  by destruct (a_ret a =? -1).
Qed.

Lemma status_failed r : negb (status r =? 0) = (r =? -1).
Proof using Type. unfold status. by destruct (r =? -1). Qed.

(** From [fuse_new] on. *)
Lemma mounted_ok mountpoint ops w rs w' fn mo lo un de calls :
  a_out fn <> 0 -> fuse_loop junk ops w = Ok (rs, w') ->
  exists s', (
    f ← call CFuseNew;
    if a_out f =? 0 then pundef else
    m ← call (CFuseMount mountpoint);
    if negb (a_ret m =? 0) then
      _ ← call CFuseDestroy;
      mret (-1)
    else
    _ ← lift_io (fuse_loop junk ops);
    l ← call CFuseLoop;
    if negb (a_ret l =? 0) then
      _ ← call CFuseUnmount;
      _ ← call CFuseDestroy;
      mret (-1)
    else mret 0) (Net w (fn :: mo :: (if a_ret mo =? 0 then [lo; un; de] else [de])) calls) =
    Ok (if negb (a_ret mo =? 0) then -1 else if negb (a_ret lo =? 0) then -1 else 0, s') /\
    n_calls s' = (calls ++ [CFuseNew; CFuseMount mountpoint]) ++
      (if negb (a_ret mo =? 0) then [CFuseDestroy]
       else if negb (a_ret lo =? 0) then [CFuseLoop; CFuseUnmount; CFuseDestroy] else [CFuseLoop]) /\
    (a_ret mo = 0 -> n_w s' = w').
Proof using Type.
  intros Hfn Hops. erewrite prog_bind_ok by (by apply call_ok). rewrite (proj2 (Z.eqb_neq (a_out fn) 0)) by done.
  erewrite prog_bind_ok by (by apply call_ok). destruct (Z.eqb_spec (a_ret mo) 0); cbn [negb].
  - erewrite lift_io_bind by exact Hops. erewrite prog_bind_ok by (by apply call_ok).
    destruct (a_ret lo =? 0); cbn [negb].
    + eexists. split; [done|]. cbn. rewrite <- !app_assoc. by split.
    + erewrite prog_bind_ok by (by apply call_ok). erewrite prog_bind_ok by (by apply call_ok).
      eexists. split; [done|]. cbn. rewrite <- !app_assoc. by split.
  - erewrite prog_bind_ok by (by apply call_ok). eexists. split; [done|]. cbn. rewrite <- !app_assoc. by split.
Qed.

Lemma main_ok mountpoint ops w rs w' mi so bi li ac cl fn mo lo un de
    (Hm : mem_ok w) (Hmi : a_ret mi <> -1) (Hfn : a_out fn <> 0)
    (Hops : fuse_loop junk ops (session_world w) = Ok (rs, w')) :
  exists s', main mountpoint ops (Net w (mi :: so :: bi :: li :: ac :: cl :: fn :: mo ::
      (if a_ret mo =? 0 then [lo; un; de] else [de])) []) =
      Ok (fst (main_outcome mountpoint (a_ret so) (a_ret bi) (a_ret li) (a_ret ac) (a_ret mo) (a_ret lo)), s') /\
    n_calls s' = snd (main_outcome mountpoint (a_ret so) (a_ret bi) (a_ret li) (a_ret ac) (a_ret mo) (a_ret lo)) /\
    (a_ret so <> -1 -> a_ret bi <> -1 -> a_ret li <> -1 -> a_ret ac <> -1 -> a_ret mo = 0 -> n_w s' = w').
Proof using All.
  unfold main, main_outcome. rewrite (prog_bind_ok _ _ _ _ _ (mutex_constructor_ok _ _ _ _ Hm Hmi)).
  erewrite lift_io_bind by (by apply malloc_ok). cbn [n_w n_answers n_calls].
  erewrite prog_bind_ok by (by eapply open_ok). cbv beta iota. cbn [negb]. rewrite status_failed.
  unfold after at 1. cbn [n_w n_calls domain type protocol].
  destruct (Z.eqb_spec (a_ret so) (-1)) as [Eso|Eso]; [by eexists|].
  set (lisock := set_desc _ _). set (s1 := Net _ _ _).
  rewrite (prog_bind_ok _ _ _ _ _ (bind_ok junk inet_pton pton_length lisock [] 10888 s1 bi _ eq_refl options_ok eq_refl)).
  rewrite status_failed. unfold after at 1. subst s1. cbn [n_w n_calls].
  destruct (Z.eqb_spec (a_ret bi) (-1)) as [Ebi|Ebi]; [by eexists|].
  erewrite prog_bind_ok by (by eapply listen_ok). rewrite status_failed. unfold after at 1. cbn [n_w n_calls].
  destruct (Z.eqb_spec (a_ret li) (-1)) as [Eli|Eli]; [by eexists|].
  set (s1 := Net _ _ _).
  destruct (accept_ok junk inet_ntoa ntoa_text lisock (zeros 40) s1 ac _ ltac:(vm_compute; discriminate) eq_refl) as (text & E & _).
  rewrite (prog_bind_ok _ _ _ _ _ E). cbv beta iota. cbn [desc]. unfold after. subst s1. cbn [n_w n_calls].
  destruct (Z.eqb_spec (a_ret ac) (-1)) as [Eac|Eac]; [by eexists|].
  erewrite prog_bind_ok by (by eapply close_ok). cbn [n_w n_calls].
  set (w1 := set_live _ (set_mu _ _)). assert (w1 = session_world w) as -> by (unfold w1, session_world, set_live; cbn; f_equal; lia).
  destruct (mounted_ok mountpoint ops _ rs w' fn mo lo un de
    [CMutexInit; CSocket AF_INET SOCK_STREAM 0; CBind (a_ret so) (any_address 10888); CListen (a_ret so) 128;
     CAccept (a_ret so); CClose (a_ret so)] Hfn Hops) as (s' & Es & Ec & Ew).
  exists s'. split; [|split; [|done]].
  - etransitivity; [exact Es|]. by destruct (a_ret mo =? 0), (a_ret lo =? 0).
  - rewrite Ec. by destruct (a_ret mo =? 0), (a_ret lo =? 0).
Qed.

(** C27. The start of the server.  [main] makes its calls in the order socket,
    bind to port 10888 of every interface, listen, accept, close of the listening
    socket, and only then creates and mounts the file system and serves the
    operations; the first call that fails ends it, with the exit code 1 for
    [accept] and -1 for the others.  The listening socket is not closed when
    [bind], [listen] or [accept] fails. *)
Theorem main_spec mountpoint ops w rs w' mi so bi li ac cl fn mo lo un de
    (Hm : mem_ok w) (Hmi : a_ret mi <> -1) (Hfn : a_out fn <> 0)
    (Hops : fuse_loop junk ops (session_world w) = Ok (rs, w')) :
  exists s', main mountpoint ops (Net w (mi :: so :: bi :: li :: ac :: cl :: fn :: mo ::
      (if a_ret mo =? 0 then [lo; un; de] else [de])) []) =
      Ok (fst (main_outcome mountpoint (a_ret so) (a_ret bi) (a_ret li) (a_ret ac) (a_ret mo) (a_ret lo)), s') /\
    n_calls s' = snd (main_outcome mountpoint (a_ret so) (a_ret bi) (a_ret li) (a_ret ac) (a_ret mo) (a_ret lo)).
Proof using All.
  destruct (main_ok mountpoint ops w rs w' mi so bi li ac cl fn mo lo un de Hm Hmi Hfn Hops) as (s' & E & Ec & _).
  by exists s'.
Qed.
End main.

(** ** Witnesses *)

(** Nothing is mounted: [fuse_mount] fails. *)
Lemma main_spec_witness :
  exists s', main zero_junk pton_ex ntoa_ex [Byte.x2f] []
      (Net (start []) [ret 0; ret 3; ret 0; ret 0; Answer 4 0 (any_address 4000) []; ret 0; Answer 0 1 [] []; ret (-1); ret 0] []) =
    Ok (-1, s') /\
    n_calls s' = [CMutexInit; CSocket 2 1 0; CBind 3 (any_address 10888); CListen 3 128; CAccept 3; CClose 3;
      CFuseNew; CFuseMount [Byte.x2f]; CFuseDestroy].
Proof.
  apply (main_spec zero_junk pton_ex ntoa_ex pton_ex_length ntoa_ex_text [Byte.x2f] [] (start []) []
    (session_world (start [])) (ret 0) (ret 3) (ret 0) (ret 0) (Answer 4 0 (any_address 4000) []) (ret 0)
    (Answer 0 1 [] []) (ret (-1)) (ret 0) (ret 0) (ret 0)); [reflexivity|discriminate|discriminate|reflexivity].
Defined.
