(* ===== verification/Program.v ===== *)
(** * The whole server

    [main] of server.c with everything it calls, from the creation of the mutex
    to the end of the event loop, against the interface [Peer] of the machine it
    serves. *)

From S2P Require Import Prelude World Netwrap FuseServer Server FuseFacts FuseOps FuseRequests FuseSpec.
From S2P Require Import Session Remote Net NetFacts Main.
Local Open Scope Z_scope.

Section program.
Context (junk : string -> nat -> byte).
Context (inet_pton : list byte -> option (list byte)) (inet_ntoa : Z -> list byte).
Context (pton_length : forall (s b : list byte), inet_pton s = Some b -> blen b = 4).
Context (ntoa_text : forall a, Forall (fun b => b <> NUL /\ b <> Byte.x3a) (inet_ntoa a) /\ blen (inet_ntoa a) <= 15).
Context {State : Type} `{!Peer State}.

(** The system's answers when nothing goes wrong: the listening socket [so], the
    connection [ac]. *)
Definition nothing_fails (so ac : Z) (peer : list byte) (un de : answer) : list answer :=
  [ret 0; ret so; ret 0; ret 0; Answer ac 0 peer []; ret 0; Answer 0 1 [] []; ret 0; ret 0; un; de].

(** C3. The server from its start to its end.  When the system calls succeed, and
    whoever connects answers in the protocol, the program ends with the exit code
    0 for any sequence of file system calls: it has listened on port 10888,
    accepted one connection, closed the listening socket, mounted the file
    system and run the event loop, in this order; every call has returned what
    the peer's file system gives; the requests have been sent one after the
    other and the replies consumed; the mutex is free; and two blocks, the mutex
    and the copy of the address, and the buffer of every request have never
    been freed. *)
Theorem server_runs mountpoint ops s tl w so ac peer un de :
  so <> -1 -> ac <> -1 -> Forall op_wf ops -> mem_ok w -> wr_ok w -> opuid_ok w ->
  stream (w_rd w) = concat (reply_bytes <$> peer_replies ops s) ++ tl ->
  exists e, main junk inet_pton inet_ntoa mountpoint ops (Net w (nothing_fails so ac peer un de) []) = Ok (0, e) /\
    n_calls e = [CMutexInit; CSocket AF_INET SOCK_STREAM 0; CBind so (any_address 10888); CListen so 128;
      CAccept so; CClose so; CFuseNew; CFuseMount mountpoint; CFuseLoop] /\
    fuse_loop junk ops (session_world w) = Ok (remote_run ops s, n_w e) /\
    w_tx (n_w e) = w_tx w ++ session_messages junk ops (w_opuid w) /\ stream (w_rd (n_w e)) = tl /\
    w_mu (n_w e) = false /\ w_live (n_w e) = w_live w + 2 + request_count ops.
Proof using All.
  intros Hso Hac Hwf Hm Hwr Hou Hs.
  destruct (session_served_ok junk ops _ _ tl (session_world w) Hwf Hm eq_refl Hwr Hou (peer_served ops s Hwf) Hs)
    as (w' & E & Htx & Hst & Hmu & Hl).
  destruct (main_ok junk inet_pton inet_ntoa pton_length ntoa_text mountpoint ops w _ w' (ret 0) (ret so) (ret 0)
    (ret 0) (Answer ac 0 peer []) (ret 0) (Answer 0 1 [] []) (ret 0) (ret 0) un de Hm ltac:(done) ltac:(done) E)
    as (e & Em & Ec & Ew).
  unfold main_outcome in Em, Ec. cbn [a_ret ret] in *.
  rewrite (proj2 (Z.eqb_neq _ _) Hso), (proj2 (Z.eqb_neq _ _) Hac) in Em, Ec.
  specialize (Ew Hso ltac:(done) ltac:(done) Hac eq_refl). subst w'.
  exists e. split; [exact Em|]. split; [exact Ec|]. split; [exact E|]. split; [exact Htx|]. split; [exact Hst|].
  split; [exact Hmu|exact Hl].
Qed.

End program.

(** ** Witness *)

Lemma server_runs_witness :
  exists e, main zero_junk pton_ex ntoa_ex [Byte.x2f] session_ex
      (Net (from_peer (concat (reply_bytes <$> peer_replies session_ex 3)))
        (nothing_fails 3 4 (any_address 4000) (ret 0) (ret 0)) []) = Ok (0, e) /\
    w_live (n_w e) = 5.
Proof.
  destruct (server_runs zero_junk pton_ex ntoa_ex pton_ex_length ntoa_ex_text [Byte.x2f] session_ex 3 []
    (from_peer (concat (reply_bytes <$> peer_replies session_ex 3))) 3 4 (any_address 4000) (ret 0) (ret 0))
    as (e & E & _ & _ & _ & _ & _ & Hl);
    [discriminate|discriminate|exact session_ex_wf|reflexivity|apply Forall_nil_2|by split
    |by rewrite app_nil_r|].
  exists e. split; [exact E|exact Hl].
Defined.
