(* ===== verification/BTree.v ===== *)
(** * The B-tree (zhwkre/btree.h, zhwkre/pair.h, zhwkre/containers/btree.c)

    A node holds one or two pairs and has up to three children, which it owns: a
    tree is a value.  An iterator keeps a pointer to its node and, to go up
    again, the parents it came through ([track], an array of 100 entries); the
    nodes it points to are the subtrees at the time it was made, so that an
    iterator is used with the tree it was made for.

    [kv[i].key == NULL] tells that there is no pair: the pairs are options.
    [extrakv] and [extrachild] hold a third pair and a fourth child of a node that
    the caller is going to split. *)

From S2P Require Import Prelude World Utils.
Local Open Scope Z_scope.

(** ** Data *)

(** The sizes of a pair are the lengths of its blocks. *)
Record qPair : Type := Pair { key : list byte; value : list byte }.

Inductive qBTreeNode : Type :=
| NULL
| BNode (kv0 kv1 : option qPair) (child0 child1 child2 : qBTreeNode)
        (extrakv : option qPair) (extrachild : qBTreeNode).

Record qBTreeDescriptor : Type := BDesc {
  size : Z;              (* unsigned int *)
  root : qBTreeNode
}.

(** [track] is the stack of the parents with the number of the child taken, the
    last one first; [top] is its length. *)
Record qBTreeIterator : Type := BIter {
  node : qBTreeNode;
  which : Z;
  track : list (qBTreeNode * Z)
}.

Definition is_null (t : qBTreeNode) : bool := match t with NULL => true | _ => false end.

(** [childs[n]] of a node; following a NULL pointer is undefined. *)
Definition child (t : qBTreeNode) (n : Z) : res qBTreeNode :=
  match t with
  | NULL => Undef
  | BNode _ _ c0 c1 c2 _ _ =>
      if n =? 0 then Ok c0 else if n =? 1 then Ok c1 else if n =? 2 then Ok c2 else Undef
  end.

(** [kv[n]] *)
Definition kv (t : qBTreeNode) (n : Z) : res (option qPair) :=
  match t with
  | NULL => Undef
  | BNode kv0 kv1 _ _ _ _ _ => if n =? 0 then Ok kv0 else if n =? 1 then Ok kv1 else Undef
  end.

(** A pair whose [key] is not NULL. *)
Definition some_pair (p : option qPair) : res qPair :=
  match p with Some p => Ok p | None => Undef end.

(** ** Insertion *)

Definition new_node : qBTreeNode := BNode None None NULL NULL NULL None NULL.

Definition qBTreeNode__constructor : io qBTreeNode :=
  ok ← malloc;
  if negb ok then SETERR ZHWK_ERR_MM_ALLOC_FAIL;; mret NULL else mret new_node.

Definition qBTree_constructor : qBTreeDescriptor := BDesc 0 NULL.

Section operations.
Context (comp : Cmp).

(** The node is split around the middle one of its three pairs, which is the
    result; [toprochild] becomes the left part, [nodesplit] the right one. *)
Definition qBTreeNode__split_up (nodesplit toprochild : qBTreeNode)
  : res (qPair * qBTreeNode * qBTreeNode) :=
  match nodesplit, toprochild with
  | BNode k0 k1 c0 c1 c2 e ec, BNode _ _ _ _ _ _ _ =>
      p0 ← some_pair k0;
      pe ← some_pair e;
      if ccmp comp (key pe) (key p0) <? 0 then
        Ok (p0, BNode e None ec c0 NULL None NULL, BNode k1 None c1 c2 NULL None NULL)
      else
        p1 ← some_pair k1;
        if ccmp comp (key pe) (key p1) <? 0 then
          Ok (pe, BNode k0 None c0 ec NULL None NULL, BNode k1 None c1 c2 NULL None NULL)
        else
          Ok (p1, BNode k0 None c0 c1 NULL None NULL, BNode e None ec c2 NULL None NULL)
  | _, _ => Undef
  end.

(** The results: -1 the key exists or there is no memory, 0 done, 1 the node has
    to be split. *)
Fixpoint qBTree__recursive_insert (t : qBTreeNode) (pair : qPair) : io (Z * qBTreeNode) :=
  match t with
  | NULL =>
      n ← qBTreeNode__constructor;
      match n with
      | NULL => mret (-1, NULL)
      | _ => mret (0, BNode (Some pair) None NULL NULL NULL None NULL)
      end
  | BNode k0 k1 c0 c1 c2 e ec =>
      if is_null c0 && is_null c1 && is_null c2 then
        match k1 with
        | Some _ => mret (1, BNode k0 k1 c0 c1 c2 (Some pair) ec)
        | None =>
            p0 ← lift_res (some_pair k0);
            let firstcmp := ccmp comp (key pair) (key p0) in
            if firstcmp =? 0 then mret (-1, t)
            else if 0 <? firstcmp then mret (0, BNode k0 (Some pair) c0 c1 c2 e ec)
            else mret (0, BNode (Some pair) k0 c0 c1 c2 e ec)
        end
      else
        p0 ← lift_res (some_pair k0);
        let firstcmp := ccmp comp (key pair) (key p0) in
        if firstcmp =? 0 then mret (-1, t)
        else if firstcmp <? 0 then
          '(issp, c0) ← qBTree__recursive_insert c0 pair;
          if (issp =? 0) || (issp =? -1) then mret (issp, BNode k0 k1 c0 c1 c2 e ec) else
          topronode ← qBTreeNode__constructor;
          '(topropair, topronode, c0) ← lift_res (qBTreeNode__split_up c0 topronode);
          match k1 with
          | Some _ => mret (1, BNode k0 k1 c0 c1 c2 (Some topropair) topronode)
          | None => mret (0, BNode k0 (Some topropair) c0 topronode c1 e ec)
          end
        else
          let secondcmp := match k1 with Some p1 => ccmp comp (key pair) (key p1) | None => 0 end in
          if match k1 with None => true | Some _ => false end || (secondcmp <? 0) then
            '(issp, c1) ← qBTree__recursive_insert c1 pair;
            if (issp =? 0) || (issp =? -1) then mret (issp, BNode k0 k1 c0 c1 c2 e ec) else
            topronode ← qBTreeNode__constructor;
            '(topropair, topronode, c1) ← lift_res (qBTreeNode__split_up c1 topronode);
            match k1 with
            | Some _ => mret (1, BNode k0 k1 c0 c1 c2 (Some topropair) topronode)
            | None => mret (0, BNode k0 (Some topropair) c0 topronode c1 e ec)
            end
          else if secondcmp =? 0 then mret (-1, t)
          else
            '(issp, c2) ← qBTree__recursive_insert c2 pair;
            if (issp =? 0) || (issp =? -1) then mret (issp, BNode k0 k1 c0 c1 c2 e ec) else
            topronode ← qBTreeNode__constructor;
            '(topropair, topronode, c2) ← lift_res (qBTreeNode__split_up c2 topronode);
            mret (1, BNode k0 k1 c0 c1 c2 (Some topropair) topronode)
  end.

(** On -1 the pair that has been allocated is not freed. *)
Definition qBTree__insert (desc : qBTreeDescriptor) (k : list byte) (keysize : Z) (v : list byte) (valuesize : Z)
  : io (Z * qBTreeDescriptor) :=
  kb ← duplicate k keysize;
  match kb with
  | None => mret (-1, desc)
  | Some kb =>
      vb ← duplicate v valuesize;
      match vb with
      | None => free;; mret (-1, desc)
      | Some vb =>
          '(stat, r) ← qBTree__recursive_insert (root desc) (Pair kb vb);
          if (stat =? 0) || (stat =? -1) then mret (stat, BDesc (u32 (size desc + (stat + 1))) r) else
          newrootchild ← qBTreeNode__constructor;
          if is_null newrootchild then mret (-1, BDesc (size desc) r) else
          '(newrootpair, newrootchild, r) ← lift_res (qBTreeNode__split_up r newrootchild);
          newroot ← qBTreeNode__constructor;
          if is_null newroot then mret (-1, BDesc (size desc) r) else
          mret (0, BDesc (u32 (size desc + 1)) (BNode (Some newrootpair) None newrootchild r NULL None NULL))
      end
  end.

(** ** Search *)

(** [track[top] = {parent, childno}; top++]; the array has 100 entries. *)
Definition push (parent : qBTreeNode) (childno : Z) (tr : list (qBTreeNode * Z))
  : res (list (qBTreeNode * Z)) :=
  if (length tr <? 100)%nat then Ok ((parent, childno) :: tr) else Undef.

Definition zero_iter : qBTreeIterator := BIter NULL 0 [].

Fixpoint qBTree__recursive_search (t : qBTreeNode) (tr : list (qBTreeNode * Z)) (k : list byte)
  : res (Z * qBTreeIterator) :=
  match t with
  | NULL => Ok (-1, zero_iter)
  | BNode k0 k1 c0 c1 c2 _ _ =>
      p0 ← some_pair k0;
      let first_cmp := ccmp comp k (key p0) in
      if first_cmp =? 0 then Ok (0, BIter t 0 tr)
      else if first_cmp <? 0 then
        tr ← push t 0 tr;
        qBTree__recursive_search c0 tr k
      else
        match k1 with
        | None =>
            if is_null c1 then Ok (-1, zero_iter)
            else
              tr ← push t 1 tr;
              qBTree__recursive_search c1 tr k
        | Some p1 =>
            let second_cmp := ccmp comp k (key p1) in
            if second_cmp =? 0 then Ok (0, BIter t 1 tr)
            else if second_cmp <? 0 then
              tr ← push t 1 tr;
              qBTree__recursive_search c1 tr k
            else
              tr ← push t 2 tr;
              qBTree__recursive_search c2 tr k
        end
  end.

Definition qBTree__ptr_at (desc : qBTreeDescriptor) (k : list byte) : res (Z * qBTreeIterator) :=
  qBTree__recursive_search (root desc) [] k.

End operations.

(** ** Deletion *)

(** The subtree with a new child. *)
Definition set_child (t : qBTreeNode) (n : Z) (c : qBTreeNode) : res qBTreeNode :=
  match t with
  | NULL => Undef
  | BNode k0 k1 c0 c1 c2 e ec =>
      if n =? 0 then Ok (BNode k0 k1 c c1 c2 e ec)
      else if n =? 1 then Ok (BNode k0 k1 c0 c c2 e ec)
      else if n =? 2 then Ok (BNode k0 k1 c0 c1 c e ec)
      else Undef
  end.

Definition set_kv (t : qBTreeNode) (n : Z) (p : option qPair) : res qBTreeNode :=
  match t with
  | NULL => Undef
  | BNode k0 k1 c0 c1 c2 e ec =>
      if n =? 0 then Ok (BNode p k1 c0 c1 c2 e ec)
      else if n =? 1 then Ok (BNode k0 p c0 c1 c2 e ec)
      else Undef
  end.

(** [kv[1].key != NULL] *)
Definition has_spare (t : qBTreeNode) : bool :=
  match t with BNode _ (Some _) _ _ _ _ _ => true | _ => false end.

(** The sibling [sib] on the right of a child that has lost its pair gives its
    first pair up to the parent, and the parent's goes down: the child and the
    sibling afterwards and the pair of the parent.  The assignments are those of
    the source, on the two nodes. *)
Definition shift_left (c sib : qBTreeNode) (mid : option qPair) : res (qBTreeNode * qBTreeNode * option qPair) :=
  match c, sib with
  | BNode _ k1 c0 _ c2 e ec, BNode s0 s1 d0 d1 d2 se sec =>
      Ok (BNode mid k1 c0 d0 c2 e ec, BNode s1 None d1 d2 NULL se sec, s0)
  | _, _ => Undef
  end.

Definition shift_right (c sib : qBTreeNode) (mid : option qPair) : res (qBTreeNode * qBTreeNode * option qPair) :=
  match c, sib with
  | BNode _ k1 c0 _ c2 e ec, BNode s0 s1 d0 d1 d2 se sec =>
      Ok (BNode mid k1 d2 c0 c2 e ec, BNode s0 None d0 d1 NULL se sec, s1)
  | _, _ => Undef
  end.

(** -1 when the right sibling is missing or has one pair only. *)
Definition qBTree__rotate_left (t : qBTreeNode) (which : Z) : res (Z * qBTreeNode) :=
  if which =? 2 then Ok (-1, t) else
  sib ← child t (which + 1);
  if is_null sib || negb (has_spare sib) then Ok (-1, t) else
  c ← child t which;
  mid ← kv t which;
  '(c, sib, mid) ← shift_left c sib mid;
  t ← set_child t which c;
  t ← set_child t (which + 1) sib;
  t ← set_kv t which mid;
  Ok (0, t).

Definition qBTree__rotate_right (t : qBTreeNode) (which : Z) : res (Z * qBTreeNode) :=
  if which =? 0 then Ok (-1, t) else
  sib ← child t (which - 1);
  if is_null sib || negb (has_spare sib) then Ok (-1, t) else
  c ← child t which;
  mid ← kv t (which - 1);
  '(c, sib, mid) ← shift_right c sib mid;
  t ← set_child t which c;
  t ← set_child t (which - 1) sib;
  t ← set_kv t (which - 1) mid;
  Ok (0, t).

(** 1 when the node has lost its last pair. *)
Definition lost (k : option qPair) : Z := match k with None => 1 | Some _ => 0 end.

(** A child without pair, whose own child is in [childs[0]], is merged with a
    sibling and a pair of the parent. *)
Definition qBTree__merge (t : qBTreeNode) (which : Z) : io (Z * qBTreeNode) :=
  match t with
  | NULL => pundef
  | BNode k0 k1 c0 c1 c2 e ec =>
      if which =? 0 then
        match c0, c1 with
        | BNode _ _ a0 _ _ ae aec, BNode b0 _ d0 d1 _ _ _ =>
            free;;
            mret (lost k1, BNode k1 None (BNode k0 b0 a0 d0 d1 ae aec) c2 NULL e ec)
        | _, _ => pundef
        end
      else if which =? 1 then
        match c0, c1 with
        | BNode a0 _ b0 b1 b2 ae aec, BNode _ _ d0 _ _ _ _ =>
            free;;
            let c0' := if is_null b1 then BNode a0 k0 b0 d0 b2 ae aec else BNode a0 k0 b0 b1 d0 ae aec in
            mret (lost k1, BNode k1 None c0' c2 NULL e ec)
        | _, _ => pundef
        end
      else if which =? 2 then
        match c1, c2 with
        | BNode a0 _ b0 b1 b2 ae aec, BNode _ _ d0 _ _ _ _ =>
            free;;
            let c1' := if is_null b1 then BNode a0 k1 b0 d0 b2 ae aec else BNode a0 k1 b0 b1 d0 ae aec in
            mret (0, BNode k0 None c0 c1' NULL e ec)
        | _, _ => pundef
        end
      else mret (-1, t)
  end.

(** [free(p.key); free(p.value)] *)
Definition free_pair (p : option qPair) : io unit :=
  match p with Some _ => free;; free | None => mret tt end.

(** What follows the deletion in a child: nothing unless the child has lost its
    pair; then a pair is borrowed from a sibling, on the sides given, or the
    child is merged. *)
Definition rebalance (status : Z) (t : qBTreeNode) (left right : bool) (which : Z) : io (Z * qBTreeNode) :=
  if (status =? 0) || (status =? -1) then mret (status, t) else
  '(r, t) ← lift_res (if left then qBTree__rotate_left t which else Ok (-1, t));
  if r =? 0 then mret (0, t) else
  '(r, t) ← lift_res (if right then qBTree__rotate_right t which else Ok (-1, t));
  if r =? 0 then mret (0, t) else
  qBTree__merge t which.

Fixpoint qBTree__recursive_erase_min (t : qBTreeNode) (flag_free : bool) : io (Z * qBTreeNode) :=
  match t with
  | NULL => mret (-1, t)
  | BNode k0 k1 c0 c1 c2 e ec =>
      if negb (is_null c0) then
        '(status, c0) ← qBTree__recursive_erase_min c0 flag_free;
        rebalance status (BNode k0 k1 c0 c1 c2 e ec) true false 0
      else
        (if flag_free then free_pair k0 else mret tt);;
        match k1 with
        | Some _ => mret (0, BNode k1 None c0 c1 c2 e ec)
        | None => mret (1, BNode None None c0 c1 c2 e ec)
        end
  end.

(** The first pair of a subtree; [None] stands for the result -1. *)
Fixpoint qBTree__get_min (t : qBTreeNode) : option (option qPair) :=
  match t with
  | NULL => None
  | BNode k0 _ c0 _ _ _ _ => if is_null c0 then Some k0 else qBTree__get_min c0
  end.

Section operations.
Context (comp : Cmp).

Fixpoint qBTree__recursive_erase (t : qBTreeNode) (target : qPair) : io (Z * qBTreeNode) :=
  match t with
  | NULL => mret (-1, t)
  | BNode k0 k1 c0 c1 c2 e ec =>
      p0 ← lift_res (some_pair k0);
      let firstcmp := ccmp comp (key target) (key p0) in
      if firstcmp =? 0 then
        match qBTree__get_min c1 with
        | None => qBTree__recursive_erase_min t true
        | Some m =>
            free_pair k0;;
            '(status, c1) ← qBTree__recursive_erase_min c1 false;
            rebalance status (BNode m k1 c0 c1 c2 e ec) true true 1
        end
      else if firstcmp <? 0 then
        '(status, c0) ← qBTree__recursive_erase c0 target;
        rebalance status (BNode k0 k1 c0 c1 c2 e ec) true false 0
      else
        match k1 with
        | None =>
            '(status, c1) ← qBTree__recursive_erase c1 target;
            rebalance status (BNode k0 k1 c0 c1 c2 e ec) false true 1
        | Some p1 =>
            let secondcmp := ccmp comp (key target) (key p1) in
            if secondcmp =? 0 then
              match qBTree__get_min c2 with
              | None => free_pair k1;; mret (0, BNode k0 None c0 c1 c2 e ec)
              | Some m =>
                  free_pair k1;;
                  '(status, c2) ← qBTree__recursive_erase_min c2 false;
                  rebalance status (BNode k0 m c0 c1 c2 e ec) false true 2
              end
            else if secondcmp <? 0 then
              '(status, c1) ← qBTree__recursive_erase c1 target;
              rebalance status (BNode k0 k1 c0 c1 c2 e ec) true true 1
            else
              '(status, c2) ← qBTree__recursive_erase c2 target;
              rebalance status (BNode k0 k1 c0 c1 c2 e ec) false true 2
        end
  end.

(** The pair is copied first; the copy is not freed when the key is not found. *)
Definition qBTree__erase (desc : qBTreeDescriptor) (elem : qBTreeIterator) : io (Z * qBTreeDescriptor) :=
  p ← lift_res (kv (node elem) (which elem));
  p ← lift_res (some_pair p);
  ok ← malloc;
  if negb ok then pundef else
  ok ← malloc;
  if negb ok then pundef else
  '(status, r) ← qBTree__recursive_erase (root desc) p;
  if status =? -1 then mret (-1, BDesc (size desc) r) else
  r ← (if status =? 1 then
         r' ← lift_res (child r 0);
         free;;
         mret r'
       else mret r);
  free;;
  free;;
  mret (0, BDesc (u32 (size desc - 1)) r).

End operations.

(** ** Iterators *)

Definition qBTreeIterator_isvalid (i : qBTreeIterator) : bool := negb (is_null (node i)).

Definition qBTreeIterator_deref (i : qBTreeIterator) : res (option qPair) := kv (node i) (which i).

(** The loop down the first children. *)
Fixpoint leftmost (t : qBTreeNode) (tr : list (qBTreeNode * Z)) : res qBTreeIterator :=
  match t with
  | NULL => Undef
  | BNode _ _ c0 _ _ _ _ =>
      if is_null c0 then Ok (BIter t 0 tr)
      else
        tr ← push t 0 tr;
        leftmost c0 tr
  end.

(** The loop down the last children. *)
Fixpoint rightmost (t : qBTreeNode) (tr : list (qBTreeNode * Z)) : res qBTreeIterator :=
  match t with
  | NULL => Undef
  | BNode _ k1 _ c1 c2 _ _ =>
      match k1 with
      | None =>
          if is_null c1 then Ok (BIter t 0 tr) else tr ← push t 1 tr; rightmost c1 tr
      | Some _ =>
          if is_null c2 then Ok (BIter t 1 tr) else tr ← push t 2 tr; rightmost c2 tr
      end
  end.

Definition qBTree_begin (desc : qBTreeDescriptor) : res qBTreeIterator :=
  if is_null (root desc) then Ok zero_iter else leftmost (root desc) [].

Definition qBTree_end (desc : qBTreeDescriptor) : res qBTreeIterator :=
  if is_null (root desc) then Ok zero_iter else rightmost (root desc) [].

(** The loop up from a first child, and what follows it. *)
Fixpoint up_prev (tr : list (qBTreeNode * Z)) : qBTreeIterator :=
  match tr with
  | [] => zero_iter
  | (parent, childno) :: tr' =>
      if childno =? 0 then up_prev tr' else BIter parent (childno - 1) tr'
  end.

(** The loop up from a last child. *)
Fixpoint up_next (tr : list (qBTreeNode * Z)) : res qBTreeIterator :=
  match tr with
  | [] => Ok zero_iter
  | (parent, childno) :: tr' =>
      if childno =? 2 then up_next tr'
      else
        p ← kv parent childno;
        match p with
        | None => up_next tr'
        | Some _ => Ok (BIter parent childno tr')
        end
  end.

Definition qBTreeIterator_prev (it : qBTreeIterator) : res qBTreeIterator :=
  c ← child (node it) (which it);
  if is_null c then
    if which it =? 1 then Ok (BIter (node it) 0 (track it))
    else Ok (up_prev (track it))
  else
    tr ← push (node it) (which it) (track it);
    rightmost c tr.

Definition qBTreeIterator_next (it : qBTreeIterator) : res qBTreeIterator :=
  c ← child (node it) (which it + 1);
  if is_null c then
    if (which it =? 0) && has_spare (node it) then Ok (BIter (node it) 1 (track it))
    else up_next (track it)
  else
    tr ← push (node it) (which it + 1) (track it);
    leftmost c tr.
