(* ===== verification/BTreeOrder.v ===== *)
(** * The B-tree: what it stands for

    A B-tree stands for the list of its pairs in key order; search, insertion and
    deletion are specified by the functions of this file on such lists, and the
    lemmas say how a pair of a node cuts the list. *)

From S2P Require Import Prelude World Utils Ordered BTree.
Local Open Scope Z_scope.

Section spec.
Context (comp : Cmp).

Fixpoint find_pair (k : list byte) (l : list qPair) : option qPair :=
  match l with
  | [] => None
  | p :: l' => if ccmp comp k (key p) =? 0 then Some p else find_pair k l'
  end.

(** Before the first pair with a greater key. *)
Fixpoint insert_pair (q : qPair) (l : list qPair) : list qPair :=
  match l with
  | [] => [q]
  | p :: l' => if ccmp comp (key q) (key p) <? 0 then q :: p :: l' else p :: insert_pair q l'
  end.

Fixpoint remove_pair (k : list byte) (l : list qPair) : list qPair :=
  match l with
  | [] => []
  | p :: l' => if ccmp comp k (key p) =? 0 then l' else p :: remove_pair k l'
  end.
End spec.

Section order.
Context {dom : list byte -> Prop} {comp : Cmp} `{!Comparator dom comp}.

Abbreviation lt a b := (ccmp comp a b < 0).

(** Keys of [dom] in increasing order. *)
Definition in_order (l : list qPair) : Prop :=
  Forall (fun p => dom (key p)) l /\ ordered (comp := comp) (map key l).

Lemma in_order_app l1 l2 :
  in_order (l1 ++ l2) <->
  in_order l1 /\ in_order l2 /\ Forall (fun p => Forall (fun q => lt (key p) (key q)) l2) l1.
Proof.
  unfold in_order. rewrite list.Forall_app, map_app, ordered_app, List.Forall_map.
  setoid_rewrite List.Forall_map. tauto.
Qed.

Lemma in_order_cons p l :
  in_order (p :: l) <-> dom (key p) /\ in_order l /\ Forall (fun q => lt (key p) (key q)) l.
Proof.
  unfold in_order. cbn [map ordered]. rewrite Forall_cons_iff, List.Forall_map. tauto.
Qed.

Lemma in_order_dom l : in_order l -> Forall (fun p => dom (key p)) l.
Proof. by intros []. Qed.

(** A pair of a node separates those before it from those after it. *)
Lemma in_order_middle l1 p l2 :
  in_order (l1 ++ p :: l2) ->
  in_order l1 /\ in_order l2 /\ dom (key p) /\
  Forall (fun q => lt (key q) (key p)) l1 /\ Forall (fun q => lt (key p) (key q)) l2.
Proof.
  rewrite in_order_app, in_order_cons. intros (? & (? & ? & ?) & Hall). split_and!; try done.
  eapply list.Forall_impl; [exact Hall|]. cbn. intros q Hq. by apply Forall_cons_iff in Hq as [? _].
Qed.

Lemma above k p l :
  dom k -> dom (key p) -> in_order l -> lt k (key p) ->
  Forall (fun q => lt (key p) (key q)) l -> Forall (fun q => lt k (key q)) l.
Proof.
  intros Hk Hp [Hl _] Hkp H. rewrite list.Forall_forall in Hl, H |- *. intros q Hq.
  eapply ccmp_lt_trans; [exact Hk|exact Hp|by apply Hl|done|by apply H].
Qed.

Lemma below k p l :
  dom k -> dom (key p) -> in_order l -> 0 < ccmp comp k (key p) ->
  Forall (fun q => lt (key q) (key p)) l -> Forall (fun q => lt (key q) k) l.
Proof.
  intros Hk Hp [Hl _] Hkp H. rewrite list.Forall_forall in Hl, H |- *. intros q Hq.
  eapply ccmp_lt_trans; [by apply Hl|exact Hp|exact Hk|by apply H|]. by apply ccmp_swap.
Qed.

Lemma find_pair_none k l : Forall (fun q => ccmp comp k (key q) <> 0) l -> find_pair comp k l = None.
Proof. induction 1 as [|p l Hp _ IH]; [done|]. cbn. by rewrite (proj2 (Z.eqb_neq _ _) Hp). Qed.

Lemma find_pair_app k l1 l2 :
  find_pair comp k (l1 ++ l2) = match find_pair comp k l1 with Some p => Some p | None => find_pair comp k l2 end.
Proof. induction l1 as [|p l1 IH]; [done|]. cbn. by destruct (_ =? 0). Qed.

Lemma remove_pair_none k l : find_pair comp k l = None -> remove_pair comp k l = l.
Proof. induction l as [|p l IH]; [done|]. cbn. destruct (_ =? 0); [done|]. intros E. by rewrite IH. Qed.

Lemma remove_pair_app k l1 l2 :
  remove_pair comp k (l1 ++ l2) =
  match find_pair comp k l1 with Some _ => remove_pair comp k l1 ++ l2 | None => l1 ++ remove_pair comp k l2 end.
Proof.
  induction l1 as [|p l1 IH]; [done|]. cbn. destruct (_ =? 0); [done|].
  rewrite IH. by destruct (find_pair comp k l1).
Qed.

Lemma above_none k l : Forall (fun q => lt k (key q)) l -> find_pair comp k l = None.
Proof. intros H. apply find_pair_none. eapply list.Forall_impl; [exact H|]. cbn. lia. Qed.

Lemma below_none k l :
  dom k -> in_order l -> Forall (fun q => lt (key q) k) l -> find_pair comp k l = None.
Proof.
  intros Hk [Hl _] H. apply find_pair_none. rewrite list.Forall_forall in *. intros q Hq.
  apply H in Hq as Hqk. apply ccmp_swap in Hqk; [lia|by apply Hl|done].
Qed.

(** *** Comparing with a pair in the middle *)

Section middle.
Context (k : list byte) (l1 : list qPair) (p : qPair) (l2 : list qPair).
Hypothesis Hord : in_order (l1 ++ p :: l2).
Hypothesis Hk : dom k.

Lemma split_lt : lt k (key p) -> find_pair comp k (p :: l2) = None.
Proof using All.
  intros Hlt. apply in_order_middle in Hord as (_ & H2 & Hp & _ & Hl2). apply above_none.
  constructor; [done|]. by apply (above k p l2).
Qed.

Lemma split_gt : 0 < ccmp comp k (key p) -> find_pair comp k l1 = None /\ (ccmp comp k (key p) =? 0) = false.
Proof using All.
  intros Hgt. apply in_order_middle in Hord as (H1 & _ & Hp & Hl1 & _). split; [|lia].
  apply below_none; [done..|]. by apply (below k p l1).
Qed.

Lemma split_eq : ccmp comp k (key p) = 0 -> find_pair comp k l1 = None.
Proof using All.
  intros E. apply in_order_middle in Hord as (H1 & _ & Hp & Hl1 & _). apply below_none; [done..|].
  destruct H1 as [Hd _]. rewrite list.Forall_forall in *. intros q Hq.
  eapply ccmp_lt_eq; [by apply Hd|exact Hp|done|by apply Hl1|by apply ccmp_eq_sym].
Qed.

Lemma find_lt : lt k (key p) -> find_pair comp k (l1 ++ p :: l2) = find_pair comp k l1.
Proof using All. intros Hlt. rewrite find_pair_app, split_lt by done. by destruct (find_pair comp k l1). Qed.

Lemma find_gt : 0 < ccmp comp k (key p) -> find_pair comp k (l1 ++ p :: l2) = find_pair comp k l2.
Proof using All. intros Hgt. destruct (split_gt Hgt) as [E E']. rewrite find_pair_app, E. cbn. by rewrite E'. Qed.

Lemma find_eq : ccmp comp k (key p) = 0 -> find_pair comp k (l1 ++ p :: l2) = Some p.
Proof using All. intros E. rewrite find_pair_app, split_eq by done. cbn. by rewrite E. Qed.

Lemma remove_lt : lt k (key p) -> remove_pair comp k (l1 ++ p :: l2) = remove_pair comp k l1 ++ p :: l2.
Proof using All.
  intros Hlt. rewrite remove_pair_app. destruct (find_pair comp k l1) eqn:E; [done|].
  by rewrite !remove_pair_none by (done || by apply split_lt).
Qed.

Lemma remove_gt : 0 < ccmp comp k (key p) -> remove_pair comp k (l1 ++ p :: l2) = l1 ++ p :: remove_pair comp k l2.
Proof using All. intros Hgt. destruct (split_gt Hgt) as [E E']. rewrite remove_pair_app, E. cbn. by rewrite E'. Qed.

Lemma remove_eq : ccmp comp k (key p) = 0 -> remove_pair comp k (l1 ++ p :: l2) = l1 ++ l2.
Proof using All. intros E. rewrite remove_pair_app, split_eq by done. cbn. by rewrite E. Qed.
End middle.

Lemma insert_lt q l1 p l2 :
  lt (key q) (key p) -> insert_pair comp q (l1 ++ p :: l2) = insert_pair comp q l1 ++ p :: l2.
Proof.
  intros Hlt. induction l1 as [|p' l1 IH]; cbn [insert_pair app].
  - by rewrite (proj2 (Z.ltb_lt _ _) Hlt).
  - destruct (_ <? 0); [done|]. by rewrite IH.
Qed.

Lemma insert_gt q l1 p l2 :
  in_order (l1 ++ p :: l2) -> dom (key q) -> 0 < ccmp comp (key q) (key p) ->
  insert_pair comp q (l1 ++ p :: l2) = l1 ++ p :: insert_pair comp q l2.
Proof.
  intros Hord Hq Hgt. apply in_order_middle in Hord as (H1 & _ & Hp & Hl1 & _).
  pose proof (below _ _ _ Hq Hp H1 Hgt Hl1) as Hb. apply in_order_dom in H1. clear Hl1.
  induction l1 as [|p' l1 IH]; cbn [insert_pair app].
  - by rewrite (proj2 (Z.ltb_ge _ _)) by lia.
  - apply Forall_cons_iff in Hb as [Hp' Hb], H1 as [Hd H1]. apply ccmp_swap in Hp'; [|done..].
    rewrite (proj2 (Z.ltb_ge _ _)) by lia. by rewrite IH.
Qed.

Lemma insert_pair_in q l x : In x (insert_pair comp q l) <-> x = q \/ In x l.
Proof.
  induction l as [|p l IH]; cbn; [naive_solver|]. destruct (_ <? 0); cbn; [naive_solver|]. rewrite IH. tauto.
Qed.

Lemma insert_pair_length q l : length (insert_pair comp q l) = S (length l).
Proof. induction l as [|p l IH]; [done|]. cbn. destruct (_ <? 0); cbn; [done|by rewrite IH]. Qed.

(** A key that is not there can be inserted in order. *)
Lemma insert_in_order q l :
  in_order l -> dom (key q) -> find_pair comp (key q) l = None -> in_order (insert_pair comp q l).
Proof.
  induction l as [|p l IH]; intros Hord Hq Hf; [by apply in_order_cons|].
  pose proof Hord as Hs. apply in_order_cons in Hs as (Hp & Hl & Hpl). cbn in *.
  destruct (Z.eqb_spec (ccmp comp (key q) (key p)) 0) as [|Hne]; [done|].
  destruct (Z.ltb_spec (ccmp comp (key q) (key p)) 0) as [Hlt|Hge].
  - apply in_order_cons. split_and!; [done..|]. constructor; [done|]. by apply (above _ p).
  - apply in_order_cons. split_and!; [done|by apply IH|]. apply list.Forall_forall. intros x Hx.
    apply list_elem_of_In, insert_pair_in in Hx as [->|Hx].
    + apply ccmp_swap; [done..|lia].
    + rewrite list.Forall_forall in Hpl. by apply Hpl, list_elem_of_In.
Qed.

Lemma remove_in_order k l : in_order l -> in_order (remove_pair comp k l).
Proof.
  induction l as [|p l IH]; intros Hord; [done|]. apply in_order_cons in Hord as (Hp & Hl & Hpl). cbn.
  destruct (_ =? 0); [done|]. apply in_order_cons. split_and!; [done|by apply IH|].
  clear -Hpl. induction Hpl as [|q l Hq Hpl IH]; [done|]. cbn. destruct (_ =? 0); [done|by constructor].
Qed.

Lemma find_pair_some k l p : find_pair comp k l = Some p -> In p l /\ ccmp comp k (key p) = 0.
Proof.
  induction l as [|q l IH]; [done|]. cbn. destruct (Z.eqb_spec (ccmp comp k (key q)) 0) as [E|_].
  - intros [= ->]. by split; [left|].
  - intros E. apply IH in E as [? ?]. by split; [right|].
Qed.
End order.
