(* ===== verification/BTreeFacts.v ===== *)
(** * The B-tree: invariant, search and iteration

    A tree in order is a 2-3 tree of some height ([tree23]); what it holds is the
    list of its pairs in key order ([pairs]).  The theorems of this file are about
    the functions that do not change a tree. *)

From S2P Require Import Prelude World Utils Ordered BTree BTreeOrder.
Local Open Scope Z_scope.

(** ** Shape *)

(** All the leaves are [h] levels below; a node has one pair and two children or
    two pairs and three children. *)
Fixpoint tree23 (h : nat) (t : qBTreeNode) : Prop :=
  match h, t with
  | O, NULL => True
  | S h', BNode (Some _) k1 c0 c1 c2 None NULL =>
      tree23 h' c0 /\ tree23 h' c1 /\ match k1 with Some _ => tree23 h' c2 | None => c2 = NULL end
  | _, _ => False
  end.

Definition opt (p : option qPair) : list qPair := match p with Some p => [p] | None => [] end.

(** The pairs in key order. *)
Fixpoint pairs (t : qBTreeNode) : list qPair :=
  match t with
  | NULL => []
  | BNode k0 k1 c0 c1 c2 _ _ => pairs c0 ++ opt k0 ++ pairs c1 ++ opt k1 ++ pairs c2
  end.

Lemma tree23_inv h t :
  tree23 (S h) t -> exists p0 k1 c0 c1 c2, t = BNode (Some p0) k1 c0 c1 c2 None NULL /\
    tree23 h c0 /\ tree23 h c1 /\ match k1 with Some _ => tree23 h c2 | None => c2 = NULL end.
Proof.
  destruct t as [|k0 k1 c0 c1 c2 e ec]; [done|]. cbn.
  destruct k0 as [p0|], e as [e|], ec as [|]; try done. intros (H0 & H1 & H2).
  by exists p0, k1, c0, c1, c2.
Qed.

Lemma tree23_null h t : tree23 h t -> is_null t = match h with O => true | _ => false end.
Proof. destruct h, t; done. Qed.

Lemma tree23_0 t : tree23 0 t -> t = NULL.
Proof. by destruct t. Qed.

(** Three or one pairs at most for each level: the heights that occur are small. *)
Lemma tree23_size h t : tree23 h t -> 2 ^ Z.of_nat h <= blen (pairs t) + 1.
Proof.
  revert t. induction h as [|h IH]; intros t Ht; [by apply tree23_0 in Ht as ->|].
  apply tree23_inv in Ht as (p0 & k1 & c0 & c1 & c2 & -> & H0 & H1 & H2).
  apply IH in H0. apply IH in H1. cbn [pairs opt]. rewrite !blen_app.
  change (blen [p0]) with 1. pose proof (blen_nonneg (opt k1)). pose proof (blen_nonneg (pairs c2)).
  rewrite Nat2Z.inj_succ, Z.pow_succ_r by lia. lia.
Qed.

(** ** Positions *)

(** The pairs of a node before and after its child [n]. *)
Definition left_part (t : qBTreeNode) (n : Z) : list qPair :=
  match t with
  | NULL => []
  | BNode k0 k1 c0 c1 _ _ _ =>
      if n =? 0 then [] else if n =? 1 then pairs c0 ++ opt k0
      else pairs c0 ++ opt k0 ++ pairs c1 ++ opt k1
  end.

Definition right_part (t : qBTreeNode) (n : Z) : list qPair :=
  match t with
  | NULL => []
  | BNode k0 k1 _ c1 c2 _ _ =>
      if n =? 0 then opt k0 ++ pairs c1 ++ opt k1 ++ pairs c2
      else if n =? 1 then opt k1 ++ pairs c2 else []
  end.

Fixpoint left_of (tr : list (qBTreeNode * Z)) : list qPair :=
  match tr with
  | [] => []
  | (par, n) :: tr' => left_of tr' ++ left_part par n
  end.

Fixpoint right_of (tr : list (qBTreeNode * Z)) : list qPair :=
  match tr with
  | [] => []
  | (par, n) :: tr' => right_part par n ++ right_of tr'
  end.

(** [tr] leads from the root of height [H] to the subtree [t] of height [h]. *)
Fixpoint track_ok (H : nat) (root : qBTreeNode) (h : nat) (t : qBTreeNode) (tr : list (qBTreeNode * Z)) : Prop :=
  match tr with
  | [] => t = root /\ h = H
  | (par, n) :: tr' =>
      child par n = Ok t /\ (n = 2 -> has_spare par = true) /\ tree23 (S h) par /\ track_ok H root (S h) par tr'
  end.

Lemma track_ok_height H root h t tr : track_ok H root h t tr -> (length tr + h = H)%nat.
Proof.
  revert h t. induction tr as [|[par n] tr IH]; intros h t; cbn; [by intros [_ ->]|].
  intros (_ & _ & _ & Hr). apply IH in Hr. lia.
Qed.

Lemma child_parts t n c : child t n = Ok c -> pairs t = left_part t n ++ pairs c ++ right_part t n.
Proof.
  destruct t as [|k0 k1 c0 c1 c2 e ec]; [done|]. cbn [child left_part right_part pairs].
  repeat (case_match; try done); intros [= <-]; rewrite <- ?app_assoc; try done. by rewrite app_nil_r.
Qed.

Lemma track_ok_pairs H root h t tr :
  track_ok H root h t tr -> pairs root = left_of tr ++ pairs t ++ right_of tr.
Proof.
  revert h t. induction tr as [|[par n] tr IH]; intros h t; cbn [track_ok left_of right_of].
  - intros [-> _]. by rewrite app_nil_r.
  - intros (Hc & _ & _ & Hr). rewrite (IH _ _ Hr), (child_parts _ _ _ Hc), <- !app_assoc. done.
Qed.

(** The iterator [it] of [root] stands at the pair [p], after [l1] and before
    [l2]. *)
Definition points (H : nat) (root : qBTreeNode) (it : qBTreeIterator) (l1 : list qPair) (p : qPair)
    (l2 : list qPair) : Prop :=
  exists h, track_ok H root h (node it) (track it) /\ tree23 h (node it) /\
    (which it = 0 \/ which it = 1) /\ kv (node it) (which it) = Ok (Some p) /\
    exists c c', child (node it) (which it) = Ok c /\ child (node it) (which it + 1) = Ok c' /\
      l1 = left_of (track it) ++ left_part (node it) (which it) ++ pairs c /\
      l2 = pairs c' ++ right_part (node it) (which it + 1) ++ right_of (track it).

(** An iterator at a pair of the tree is valid and gives the pair. *)
Lemma points_pairs H root it l1 p l2 :
  points H root it l1 p l2 ->
  pairs root = l1 ++ p :: l2 /\ qBTreeIterator_isvalid it = true /\ qBTreeIterator_deref it = Ok (Some p).
Proof.
  destruct it as [nd w tr]. intros (h & Ht & H23 & Hw & Hkv & c & c' & Hc & Hc' & -> & ->).
  cbn [node which track] in *. split; [|split; [|done]].
  - rewrite (track_ok_pairs _ _ _ _ _ Ht). destruct nd as [|k0 k1 c0 c1 c2 e ec]; [done|].
    destruct Hw as [-> | ->]; change (0 + 1) with 1 in *; change (1 + 1) with 2 in *; cbn in *;
      simplify_eq; cbn [opt]; by rewrite <- ?app_assoc.
  - unfold qBTreeIterator_isvalid. cbn [node]. by destruct nd.
Qed.

(** The equations between lists of pairs around a known child. *)
Ltac node_parts :=
  cbn [node which track]; change (1 - 1) with 0; change (2 - 1) with 1;
  change (0 + 1) with 1; change (1 + 1) with 2;
  try done; cbn; rewrite <- ?app_assoc, ?app_nil_r; done.

Section iteration.
Context (H : nat) (root : qBTreeNode) (Hroot : tree23 H root) (Hmax : (H <= 100)%nat).

Lemma push_ok h t tr n :
  track_ok H root (S h) t tr -> push t n tr = Ok ((t, n) :: tr).
Proof using Hmax.
  clear Hroot. intros Ht. apply track_ok_height in Ht. unfold push.
  by rewrite (proj2 (Nat.ltb_lt _ _)) by lia.
Qed.

(** Down to the first pair of a subtree. *)
Lemma leftmost_ok h : forall t tr,
  tree23 (S h) t -> track_ok H root (S h) t tr ->
  exists it p l, leftmost t tr = Ok it /\ pairs t = p :: l /\
    points H root it (left_of tr) p (l ++ right_of tr).
Proof using Hmax.
  clear Hroot. induction h as [|h IH]; intros t tr H23 Ht;
    pose proof H23 as Hs; apply tree23_inv in Hs as (p0 & k1 & c0 & c1 & c2 & -> & H0 & H1 & H2);
    cbn [leftmost]; rewrite (tree23_null _ _ H0).
  - apply tree23_0 in H0 as ->, H1 as ->. exists (BIter (BNode (Some p0) k1 NULL NULL c2 None NULL) 0 tr), p0, (opt k1 ++ pairs c2).
    split_and!; [done|done|]. exists 1%nat. split_and!; try done; [by left|].
    exists NULL, NULL. split_and!; try done; cbn. by rewrite app_nil_r.
  - rewrite (push_ok _ _ _ _ Ht). cbn [mbind res_bind].
    destruct (IH c0 ((BNode (Some p0) k1 c0 c1 c2 None NULL, 0) :: tr) H0) as (it & p & l & E & Ep & Hp).
    { by split_and!. }
    exists it, p, (l ++ opt (Some p0) ++ pairs c1 ++ opt k1 ++ pairs c2). split_and!; [done|cbn [pairs]; by rewrite Ep|].
    cbn [left_of right_of] in Hp. cbn [left_part right_part] in Hp. change (0 =? 0) with true in Hp. cbv iota in Hp.
    rewrite app_nil_r in Hp. by rewrite <- !app_assoc in *.
Qed.
(** Down to the last one. *)
Lemma rightmost_ok h : forall t tr,
  tree23 (S h) t -> track_ok H root (S h) t tr ->
  exists it p l, rightmost t tr = Ok it /\ pairs t = l ++ [p] /\
    points H root it (left_of tr ++ l) p (right_of tr).
Proof using Hmax.
  clear Hroot. induction h as [|h IH]; intros t tr H23 Ht;
    pose proof H23 as Hs; apply tree23_inv in Hs as (p0 & k1 & c0 & c1 & c2 & -> & H0 & H1 & H2);
    cbn [rightmost].
  - apply tree23_0 in H0 as ->, H1 as ->. destruct k1 as [p1|].
    + apply tree23_0 in H2 as ->. cbn [is_null].
      eexists _, p1, [p0]. split_and!; [done..|]. exists 1%nat. split_and!; try done; [by right|].
      exists NULL, NULL. by split_and!.
    + subst c2. cbn [is_null]. eexists _, p0, []. split_and!; [done..|]. exists 1%nat. split_and!; try done; [by left|].
      exists NULL, NULL. by split_and!.
  - destruct k1 as [p1|].
    + rewrite (tree23_null _ _ H2), (push_ok _ _ _ _ Ht). cbn [mbind res_bind].
      destruct (IH c2 ((BNode (Some p0) (Some p1) c0 c1 c2 None NULL, 2) :: tr) H2) as (it & p & l & E & Ep & Hp).
      { by split_and!. }
      exists it, p, (pairs c0 ++ [p0] ++ pairs c1 ++ [p1] ++ l).
      split_and!; [done|cbn [pairs opt]; by rewrite Ep, <- !app_assoc|].
      cbn [left_of right_of left_part right_part opt] in Hp. cbn [Z.eqb Pos.eqb] in Hp.
      by rewrite <- !app_assoc in Hp.
    + subst c2. rewrite (tree23_null _ _ H1), (push_ok _ _ _ _ Ht). cbn [mbind res_bind].
      destruct (IH c1 ((BNode (Some p0) None c0 c1 NULL None NULL, 1) :: tr) H1) as (it & p & l & E & Ep & Hp).
      { by split_and!. }
      exists it, p, (pairs c0 ++ [p0] ++ l).
      split_and!; [done|cbn [pairs opt]; rewrite Ep, <- !app_assoc; done|].
      cbn [left_of right_of left_part right_part opt] in Hp. cbn [Z.eqb Pos.eqb] in Hp.
      by rewrite <- !app_assoc in Hp.
Qed.

(** Up to the pair after a subtree. *)
Lemma up_next_ok tr : forall h t,
  track_ok H root h t tr ->
  match right_of tr with
  | [] => up_next tr = Ok zero_iter
  | p :: l => exists it, up_next tr = Ok it /\ points H root it (left_of tr ++ pairs t) p l
  end.
Proof using Type.
  clear Hroot Hmax. induction tr as [|[par n] tr IH]; intros h t; [done|].
  intros (Hc & Hspare & H23 & Ht). pose proof (child_parts _ _ _ Hc) as Hparts.
  specialize (IH _ _ Ht). cbn [up_next left_of right_of].
  assert (right_part par n = [] -> up_next ((par, n) :: tr) = up_next tr ->
    match right_of tr with
    | [] => up_next ((par, n) :: tr) = Ok zero_iter
    | p :: l => exists it, up_next ((par, n) :: tr) = Ok it /\
        points H root it ((left_of tr ++ left_part par n) ++ pairs t) p l
    end) as Hup.
  { intros E ->. rewrite E, app_nil_r in Hparts. by rewrite <- app_assoc, <- Hparts. }
  cbn [up_next] in Hup. pose proof H23 as Hs. apply tree23_inv in Hs as (p0 & k1 & c0 & c1 & c2 & -> & _ & _ & H2).
  cbn in Hc. destruct (Z.eqb_spec n 0) as [->|_]; [|destruct (Z.eqb_spec n 1) as [->|_];
    [|destruct (Z.eqb_spec n 2) as [->|_]; [by apply Hup|done]]]; injection Hc as ->.
  - cbn. eexists. split; [done|]. exists (S h). split_and!; try done; [by left|].
    exists t, c1. split_and!; node_parts.
  - destruct k1 as [p1|]; [|subst c2; by apply Hup].
    cbn. eexists. split; [done|]. exists (S h). split_and!; try done; [by right|].
    exists t, c2. split_and!; node_parts.
Qed.

(** Up to the pair before a subtree. *)
Lemma up_prev_ok tr : forall h t,
  track_ok H root h t tr ->
  (left_of tr = [] /\ up_prev tr = zero_iter) \/
  exists p l, left_of tr = l ++ [p] /\ points H root (up_prev tr) l p (pairs t ++ right_of tr).
Proof using Type.
  clear Hroot Hmax. induction tr as [|[par n] tr IH]; intros h t; [by left|].
  intros (Hc & Hspare & H23 & Ht). pose proof (child_parts _ _ _ Hc) as Hparts.
  specialize (IH _ _ Ht). cbn [up_prev left_of right_of].
  apply tree23_inv in H23 as Hs. destruct Hs as (p0 & k1 & c0 & c1 & c2 & -> & _ & _ & H2).
  cbn in Hc. destruct (Z.eqb_spec n 0) as [->|_]; [|destruct (Z.eqb_spec n 1) as [->|_];
    [|destruct (Z.eqb_spec n 2) as [->|_]; [|done]]]; injection Hc as ->.
  - cbn [left_part]. change (0 =? 0) with true. cbv iota. rewrite app_nil_r.
    destruct IH as [IH|(p & l & E & Hp)]; [by left|right]. exists p, l. split; [done|].
    by rewrite Hparts, <- !app_assoc in Hp.
  - right. exists p0, (left_of tr ++ pairs c0). split; [cbn; by rewrite <- !app_assoc|].
    exists (S h). split_and!; try done; [by left|]. exists c0, t. split_and!; node_parts.
  - right. destruct k1 as [p1|].
    + exists p1, (left_of tr ++ pairs c0 ++ [p0] ++ pairs c1). split; [cbn; by rewrite <- !app_assoc|].
      exists (S h). split_and!; try done; [by right|]. exists c1, t. split_and!; node_parts.
    + by specialize (Hspare eq_refl).
Qed.
(** One step forward: to the following pair, or no more pair. *)
Lemma next_ok it l1 p l2 :
  points H root it l1 p l2 ->
  match l2 with
  | [] => qBTreeIterator_next it = Ok zero_iter
  | q :: l => exists it', qBTreeIterator_next it = Ok it' /\ points H root it' (l1 ++ [p]) q l
  end.
Proof using Hmax.
  clear Hroot. destruct it as [nd w tr]. intros Hp. pose proof (points_pairs _ _ _ _ _ _ Hp) as [Hall _].
  destruct Hp as (h & Ht & H23 & Hw & Hkv & c & c' & Hc & Hc' & -> & ->).
  unfold qBTreeIterator_next. cbn [node which track] in *. rewrite Hc'. cbn [mbind res_bind].
  destruct h as [|h]; [by apply tree23_0 in H23 as ->|].
  pose proof H23 as Hs. apply tree23_inv in Hs as (p0 & k1 & c0 & c1 & c2 & -> & H0 & H1 & H2).
  assert (tree23 h c' /\ (w + 1 = 2 -> has_spare (BNode (Some p0) k1 c0 c1 c2 None NULL) = true) \/
    (w = 1 /\ k1 = None)) as [[Hc23 Hsp]|[-> ->]].
  { destruct Hw as [-> | ->]; [left|destruct k1; [left|by right]];
      change (0 + 1) with 1 in *; change (1 + 1) with 2 in *; cbn in Hc'; by simplify_eq. }
  2: { done. }
  rewrite (tree23_null _ _ Hc23). destruct h as [|h].
  - apply tree23_0 in Hc23 as ->, H0 as ->, H1 as ->.
    pose proof (up_next_ok tr _ _ Ht) as Hup.
    destruct Hw as [-> | ->]; cbn in Hkv, Hc; simplify_eq.
    + cbn [Z.eqb andb has_spare]. destruct k1 as [p1|]; cbn [andb].
      * apply tree23_0 in H2 as ->. eexists. split; [done|]. exists 1%nat.
        split_and!; try done; [by right|]. exists NULL, NULL. split_and!; node_parts.
      * subst c2. revert Hup. node_parts.
    + apply tree23_0 in H2 as ->. revert Hup. node_parts.
  - rewrite (push_ok _ _ _ _ Ht). cbn [mbind res_bind].
    destruct (leftmost_ok h c' ((BNode (Some p0) k1 c0 c1 c2 None NULL, w + 1) :: tr) Hc23)
      as (it & q & l & E & Eq & Hq); [by split_and!|].
    rewrite Eq. cbn [app]. exists it. split; [done|]. cbn [left_of right_of] in Hq.
    assert ((left_of tr ++ left_part (BNode (Some p0) k1 c0 c1 c2 None NULL) w ++ pairs c) ++ [p] =
      left_of tr ++ left_part (BNode (Some p0) k1 c0 c1 c2 None NULL) (w + 1)) as ->; [|done].
    destruct Hw as [-> | ->]; cbn in Hkv, Hc; simplify_eq; node_parts.
Qed.
(** One step backward. *)
Lemma prev_ok it l1 p l2 :
  points H root it l1 p l2 ->
  (l1 = [] /\ qBTreeIterator_prev it = Ok zero_iter) \/
  exists q l it', l1 = l ++ [q] /\ qBTreeIterator_prev it = Ok it' /\ points H root it' l q (p :: l2).
Proof using Hmax.
  clear Hroot. destruct it as [nd w tr]. intros (h & Ht & H23 & Hw & Hkv & c & c' & Hc & Hc' & -> & ->).
  unfold qBTreeIterator_prev. cbn [node which track] in *. rewrite Hc. cbn [mbind res_bind].
  destruct h as [|h]; [by apply tree23_0 in H23 as ->|].
  pose proof H23 as Hs. apply tree23_inv in Hs as (p0 & k1 & c0 & c1 & c2 & -> & H0 & H1 & H2).
  assert (tree23 h c) as Hc23. { destruct Hw as [-> | ->]; cbn in Hc; by simplify_eq. }
  rewrite (tree23_null _ _ Hc23).
  assert (p :: pairs c' ++ right_part (BNode (Some p0) k1 c0 c1 c2 None NULL) (w + 1) ++ right_of tr =
    right_part (BNode (Some p0) k1 c0 c1 c2 None NULL) w ++ right_of tr) as ->.
  { destruct Hw as [-> | ->]; change (0 + 1) with 1 in *; change (1 + 1) with 2 in *;
      cbn in Hkv, Hc'; simplify_eq; node_parts. }
  destruct h as [|h].
  - apply tree23_0 in Hc23 as ->, H0 as ->, H1 as ->. cbn [pairs]. rewrite app_nil_r.
    destruct Hw as [-> | ->]; cbn in Hkv; simplify_eq.
    + change (0 =? 1) with false. cbv iota. destruct (up_prev_ok tr _ _ Ht) as [[E E']|(q & l & E & Hq)].
      * left. cbn. by rewrite E, E'.
      * right. exists q, l, (up_prev tr). split_and!; [cbn; by rewrite app_nil_r|done|]. revert Hq. node_parts.
    + right. exists p0, (left_of tr). eexists. split_and!; [done..|]. exists 1%nat.
      split_and!; try done; [by left|]. exists NULL, NULL. split_and!; node_parts.
  - right. rewrite (push_ok _ _ _ _ Ht). cbn [mbind res_bind].
    destruct (rightmost_ok h c ((BNode (Some p0) k1 c0 c1 c2 None NULL, w) :: tr) Hc23)
      as (it & q & l & E & Eq & Hq).
    { split_and!; try done. by destruct Hw as [-> | ->]. }
    exists q, (left_of tr ++ left_part (BNode (Some p0) k1 c0 c1 c2 None NULL) w ++ l), it.
    cbn [left_of right_of] in Hq. rewrite Eq, <- !app_assoc in *. by split_and!.
Qed.

End iteration.

(** The two ends of the tree. *)
Lemma begin_ok H n r :
  tree23 H r -> (H <= 100)%nat ->
  match pairs r with
  | [] => qBTree_begin (BDesc n r) = Ok zero_iter
  | p :: l => exists it, qBTree_begin (BDesc n r) = Ok it /\ points H r it [] p l
  end.
Proof.
  intros Hr Hmax. unfold qBTree_begin. cbn [root]. destruct H as [|h].
  - by apply tree23_0 in Hr as ->.
  - rewrite (tree23_null _ _ Hr).
    destruct (leftmost_ok (S h) r Hmax h r [] Hr) as (it & p & l & E & Ep & Hp); [done|].
    rewrite Ep. exists it. split; [done|]. cbn in Hp. by rewrite app_nil_r in Hp.
Qed.

Lemma end_ok H n r :
  tree23 H r -> (H <= 100)%nat ->
  (pairs r = [] /\ qBTree_end (BDesc n r) = Ok zero_iter) \/
  exists p l it, pairs r = l ++ [p] /\ qBTree_end (BDesc n r) = Ok it /\ points H r it l p [].
Proof.
  intros Hr Hmax. unfold qBTree_end. cbn [root]. destruct H as [|h].
  - apply tree23_0 in Hr as ->. by left.
  - right. rewrite (tree23_null _ _ Hr).
    destruct (rightmost_ok (S h) r Hmax h r [] Hr) as (it & p & l & E & Ep & Hp); [done|].
    exists p, l, it. by split_and!.
Qed.

(** ** Walking over a tree *)

(** [for (it = begin; isvalid(it); it = next(it))], and the same with [end] and
    [prev]: the pairs seen, with the number of turns as fuel. *)
Fixpoint walk (step : qBTreeIterator -> res qBTreeIterator) (fuel : nat) (it : qBTreeIterator) : res (list qPair) :=
  match fuel with
  | O => Undef
  | S fuel' =>
      if qBTreeIterator_isvalid it then
        p ← qBTreeIterator_deref it;
        p ← some_pair p;
        it ← step it;
        l ← walk step fuel' it;
        Ok (p :: l)
      else Ok []
  end.

Lemma walk_next H r (Hmax : (H <= 100)%nat) l2 : forall it l1 p fuel,
  points H r it l1 p l2 -> (length l2 + 1 < fuel)%nat ->
  walk qBTreeIterator_next fuel it = Ok (p :: l2).
Proof.
  induction l2 as [|q l2 IH]; intros it l1 p fuel Hp Hf; (destruct fuel as [|fuel]; [lia|]); cbn [walk];
    pose proof (points_pairs _ _ _ _ _ _ Hp) as (_ & -> & ->); cbn [mbind res_bind some_pair];
    pose proof (next_ok _ _ Hmax _ _ _ _ Hp) as Hn; cbn in Hn, Hf.
  - rewrite Hn. cbn [mbind res_bind]. by destruct fuel; [lia|].
  - destruct Hn as (it' & -> & Hp'). cbn [mbind res_bind]. by rewrite (IH _ _ _ _ Hp') by lia.
Qed.

Lemma walk_prev H r (Hmax : (H <= 100)%nat) l1 : forall it p l2 fuel,
  points H r it l1 p l2 -> (length l1 + 1 < fuel)%nat ->
  walk qBTreeIterator_prev fuel it = Ok (p :: rev l1).
Proof.
  induction l1 as [|q l1 IH] using rev_ind; intros it p l2 fuel Hp Hf; (destruct fuel as [|fuel]; [lia|]);
    cbn [walk]; pose proof (points_pairs _ _ _ _ _ _ Hp) as (_ & -> & ->); cbn [mbind res_bind some_pair];
    destruct (prev_ok _ _ Hmax _ _ _ _ Hp) as [[E ->]|(q' & l & it' & E & -> & Hp')]; cbn [mbind res_bind].
  - by destruct fuel; [cbn in Hf; lia|].
  - by destruct l.
  - by destruct l1.
  - apply app_inj_tail in E as [<- <-]. rewrite length_app in Hf. cbn in Hf.
    rewrite (IH _ _ _ _ Hp') by lia. by rewrite rev_app_distr.
Qed.

(** The loop over a tree with [qBTree_begin] and [qBTreeIterator_next] ends
    and sees every pair once, in key order; with [qBTree_end] and
    [qBTreeIterator_prev] it sees them in the opposite order. *)
Theorem btree_iteration H n r (Hr : tree23 H r) (Hmax : (H <= 100)%nat) :
  exists it it', qBTree_begin (BDesc n r) = Ok it /\ qBTree_end (BDesc n r) = Ok it' /\
    walk qBTreeIterator_next (length (pairs r) + 2) it = Ok (pairs r) /\
    walk qBTreeIterator_prev (length (pairs r) + 2) it' = Ok (rev (pairs r)).
Proof.
  pose proof (begin_ok H n r Hr Hmax) as Hb.
  destruct (end_ok H n r Hr Hmax) as [[E He]|(q & l' & it' & E & He & Hq)].
  - rewrite E in *. exists zero_iter, zero_iter. by split_and!.
  - destruct (pairs r) as [|p l] eqn:Ep; [by destruct l'|]. destruct Hb as (it & Hb & Hp).
    exists it, it'. split_and!; [done..| |].
    + apply (walk_next _ _ Hmax _ _ _ _ _ Hp). cbn. lia.
    + rewrite (walk_prev _ _ Hmax _ _ _ _ (length (p :: l) + 2) Hq).
      * by rewrite E, rev_app_distr.
      * rewrite E, length_app. cbn. lia.
Qed.

(** ** Search *)

Section search.
Context {dom : list byte -> Prop} {comp : Cmp} `{!Comparator dom comp}.
Context (H : nat) (r : qBTreeNode) (Hmax : (H <= 100)%nat) (k : list byte) (Hk : dom k).

Lemma recursive_search_ok : forall t h tr,
  tree23 h t -> track_ok H r h t tr -> in_order (comp := comp) (dom := dom) (pairs t) ->
  match find_pair comp k (pairs t) with
  | Some p => exists it l1 l2, qBTree__recursive_search comp t tr k = Ok (0, it) /\ points H r it l1 p l2
  | None => qBTree__recursive_search comp t tr k = Ok (-1, zero_iter)
  end.
Proof using All.
  induction t as [|k0 k1 c0 IH0 c1 IH1 c2 IH2 e ec _]; intros h tr H23 Ht Hord; [done|].
  destruct h as [|h]; [done|]. pose proof H23 as Hs.
  apply tree23_inv in Hs as (p0 & ? & ? & ? & ? & [= -> <- <- <- <- -> ->] & H0 & H1 & H2).
  cbn [qBTree__recursive_search some_pair mbind res_bind]. rewrite (push_ok _ _ Hmax _ _ _ 0 Ht),
    (push_ok _ _ Hmax _ _ _ 1 Ht), (push_ok _ _ Hmax _ _ _ 2 Ht). cbn [mbind res_bind].
  cbn [pairs opt app] in Hord |- *. pose proof (in_order_middle _ _ _ Hord) as (Ho0 & Hor & _).
  destruct (Z.eqb_spec (ccmp comp k (key p0)) 0) as [E0|N0].
  { rewrite find_eq by done. eexists _, _, _. split; [done|]. exists (S h).
    split_and!; try done; [by left|]. eexists c0, c1. by split_and!. }
  destruct (Z.ltb_spec (ccmp comp k (key p0)) 0) as [L0|G0].
  { rewrite find_lt by done. by eapply IH0; [|by split_and!|]. }
  rewrite find_gt by (done || lia). destruct k1 as [p1|].
  - cbn [opt app] in Hor |- *. pose proof (in_order_middle _ _ _ Hor) as (Ho1 & Ho2 & _).
    destruct (Z.eqb_spec (ccmp comp k (key p1)) 0) as [E1|N1].
    { rewrite find_eq by done. eexists _, _, _. split; [done|]. exists (S h).
      split_and!; try done; [by right|]. eexists c1, c2. by split_and!. }
    destruct (Z.ltb_spec (ccmp comp k (key p1)) 0) as [L1|G1].
    + rewrite find_lt by done. by eapply IH1; [|by split_and!|].
    + rewrite find_gt by (done || lia). by eapply IH2; [|by split_and!|].
  - subst c2. cbn [opt app pairs] in Hor |- *. rewrite app_nil_r in *.
    destruct c1 as [|? ? ? ? ? ? ?] eqn:E1; [done|]. rewrite <- E1 in *. cbn [is_null].
    replace (is_null c1) with false by (by rewrite E1). by eapply IH1; [|by split_and!|].
Qed.
End search.

Lemma btree_search_ok (dom : list byte -> Prop) (comp : Cmp) (HC : Comparator dom comp) H n r k
    (Hr : tree23 H r) (Hmax : (H <= 100)%nat)
    (Hord : in_order (dom := dom) (comp := comp) (pairs r)) (Hk : dom k) :
  match find_pair comp k (pairs r) with
  | Some p => exists it l1 l2, qBTree__ptr_at comp (BDesc n r) k = Ok (0, it) /\
      qBTreeIterator_deref it = Ok (Some p) /\ pairs r = l1 ++ p :: l2 /\ points H r it l1 p l2
  | None => qBTree__ptr_at comp (BDesc n r) k = Ok (-1, zero_iter)
  end.
Proof.
  unfold qBTree__ptr_at. cbn [root].
  pose proof (recursive_search_ok H r Hmax k Hk r H [] Hr (conj eq_refl eq_refl) Hord) as Hs.
  destruct (find_pair comp k (pairs r)) as [p|]; [|done].
  destruct Hs as (it & l1 & l2 & E & Hp). exists it, l1, l2.
  by pose proof (points_pairs _ _ _ _ _ _ Hp) as (? & _ & ?).
Qed.

(** On a well-formed tree in key order [qBTree__ptr_at] finds the pair whose
    key compares equal: the result is 0 with an iterator at that pair, from
    which one goes on; when there is no such pair the result is -1. *)
Theorem btree_search_spec (dom : list byte -> Prop) (comp : Cmp) (HC : Comparator dom comp) H n r k
    (Hr : tree23 H r) (Hmax : (H <= 100)%nat)
    (Hord : in_order (dom := dom) (comp := comp) (pairs r)) (Hk : dom k) :
  match find_pair comp k (pairs r) with
  | Some p => exists it l1 l2, qBTree__ptr_at comp (BDesc n r) k = Ok (0, it) /\
      qBTreeIterator_deref it = Ok (Some p) /\ pairs r = l1 ++ p :: l2 /\ points H r it l1 p l2
  | None => qBTree__ptr_at comp (BDesc n r) k = Ok (-1, zero_iter)
  end.
Proof. by apply (btree_search_ok dom comp HC H). Qed.

(** ** Witnesses *)

(** The pairs "a", "b", "c" and "d" with empty values. *)
Definition pair_ex (b : byte) : qPair := Pair [b] [].

Definition tree_ex : qBTreeNode :=
  BNode (Some (pair_ex Byte.x62)) None
    (BNode (Some (pair_ex Byte.x61)) None NULL NULL NULL None NULL)
    (BNode (Some (pair_ex Byte.x63)) (Some (pair_ex Byte.x64)) NULL NULL NULL None NULL) NULL None NULL.

Lemma tree_ex_tree23 : tree23 2 tree_ex.
Proof. by cbn. Qed.

Lemma tree_ex_in_order : in_order (dom := int_string) (comp := string_comparator) (pairs tree_ex).
Proof. split; [repeat constructor|cbn; repeat constructor]. Qed.

Lemma btree_iteration_witness :
  exists it it', qBTree_begin (BDesc 4 tree_ex) = Ok it /\ qBTree_end (BDesc 4 tree_ex) = Ok it' /\
    walk qBTreeIterator_next 6 it = Ok (map pair_ex [Byte.x61; Byte.x62; Byte.x63; Byte.x64]) /\
    walk qBTreeIterator_prev 6 it' = Ok (map pair_ex [Byte.x64; Byte.x63; Byte.x62; Byte.x61]).
Proof. apply (btree_iteration 2 4 tree_ex tree_ex_tree23). lia. Defined.

Lemma btree_search_spec_witness :
  exists it l1 l2, qBTree__ptr_at string_comparator (BDesc 4 tree_ex) [Byte.x64] = Ok (0, it) /\
    qBTreeIterator_deref it = Ok (Some (pair_ex Byte.x64)) /\
    pairs tree_ex = l1 ++ pair_ex Byte.x64 :: l2 /\ points 2 tree_ex it l1 (pair_ex Byte.x64) l2.
Proof.
  apply (btree_search_spec int_string string_comparator _ 2 4 tree_ex [Byte.x64] tree_ex_tree23);
    [lia|apply tree_ex_in_order|reflexivity].
Defined.
