(* ===== verification/BTreeInsert.v ===== *)
(** * The B-tree: insertion

    [qBTree__insert] is right for the trees and keys for which [insert_safe]
    holds.  The others are those where the program goes wrong: the first child
    of a node with one pair is split ([btree_insert_loses]), or the key is in a
    leaf with two pairs, where it is not looked for ([btree_insert_duplicates]). *)

From S2P Require Import Prelude World Utils Ordered BTree BTreeOrder BTreeFacts.
Local Open Scope Z_scope.

(** The nodes of a tree that is being changed, and the blocks of a tree. *)
Fixpoint nodes (t : qBTreeNode) : Z :=
  match t with
  | NULL => 0
  | BNode _ _ c0 c1 c2 _ ec => 1 + nodes c0 + nodes c1 + nodes c2 + nodes ec
  end.

Definition blocks (t : qBTreeNode) : Z := nodes t + 2 * blen (pairs t).

Lemma result_live {A} (x : A) n m w : n = m -> Ok (x, set_live n w) = Ok (x, set_live m w).
Proof. by intros ->. Qed.

Lemma result_same {A} (x : A) n w : n = w_live w -> Ok (x, w) = Ok (x, set_live n w).
Proof. intros ->. by rewrite set_live_id. Qed.

Section insertion.
Context {dom : list byte -> Prop} {comp : Cmp} `{!Comparator dom comp}.
Context (q : qPair) (Hq : dom (key q)).

(** A new pair makes the node too big. *)
Fixpoint overflows (t : qBTreeNode) : bool :=
  match t with
  | BNode (Some p0) k1 c0 c1 c2 _ _ =>
      match k1 with
      | None => false
      | Some p1 =>
          is_null c0 ||
          (if ccmp comp (key q) (key p0) <? 0 then overflows c0
           else if ccmp comp (key q) (key p1) <? 0 then overflows c1 else overflows c2)
      end
  | _ => false
  end.

(** No first child of a node with one pair is split, and the key is not in a leaf
    with two pairs. *)
Fixpoint insert_safe (t : qBTreeNode) : bool :=
  match t with
  | BNode (Some p0) k1 c0 c1 c2 _ _ =>
      let first := ccmp comp (key q) (key p0) in
      let second := match k1 with Some p1 => ccmp comp (key q) (key p1) | None => -1 end in
      if is_null c0 then negb (has_spare t) || (negb (first =? 0) && negb (second =? 0))
      else if first =? 0 then true
      else if first <? 0 then insert_safe c0 && (has_spare t || negb (overflows c0))
      else if second =? 0 then true
      else if second <? 0 then insert_safe c1 else insert_safe c2
  | _ => true
  end.

(** What a node that is too big is split into. *)
Definition splits (h : nat) (t : qBTreeNode) (l : list qPair) : Prop :=
  t <> NULL /\ exists m a b, qBTreeNode__split_up comp t new_node = Ok (m, a, b) /\
    tree23 h a /\ tree23 h b /\ pairs a ++ m :: pairs b = l /\ nodes a + nodes b = nodes t + 1.

(** The results of the recursive insertion: [f] is the pair with the key of the
    new one, [ov] tells that the node gets too big, [l] is what it has to hold. *)
Definition outcome (h : nat) (t : qBTreeNode) (f : option qPair) (ov : bool) (l : list qPair)
    (st : Z) (t' : qBTreeNode) : Prop :=
  match f with
  | Some _ => st = -1 /\ t' = t
  | None => if ov then st = 1 /\ splits h t' l else st = 0 /\ tree23 h t' /\ pairs t' = l
  end.

Definition inserted (h : nat) (t : qBTreeNode) (st : Z) (t' : qBTreeNode) : Prop :=
  outcome h t (find_pair comp (key q) (pairs t)) (overflows t) (insert_pair comp q (pairs t)) st t'.

Lemma btree_constructor_ok w : mem_ok w ->
  qBTreeNode__constructor w = Ok (new_node, set_live (w_live w + 1) w).
Proof using Type. intros Hw. unfold qBTreeNode__constructor. by rewrite (prog_bind_ok _ _ _ _ _ (malloc_ok w Hw)). Qed.

(** A leaf with two pairs. *)
Lemma leaf_splits p0 p1 :
  splits 1 (BNode (Some p0) (Some p1) NULL NULL NULL (Some q) NULL) (insert_pair comp q [p0; p1]).
Proof using Type.
  split; [done|]. cbn. destruct (_ <? 0); [by eexists _, _, _; split_and!|].
  destruct (_ <? 0); by eexists _, _, _; split_and!.
Qed.

(** A node with two pairs whose child has been split in [a], [m] and [b]. *)
Section splitting.
Context (h : nat) (p0 p1 m : qPair) (a b : qBTreeNode).
Context (Ha : tree23 h a) (Hb : tree23 h b).

Lemma splits_0 c1 c2 :
  tree23 h c1 -> tree23 h c2 -> ccmp comp (key m) (key p0) < 0 ->
  splits (S h) (BNode (Some p0) (Some p1) b c1 c2 (Some m) a)
    ((pairs a ++ m :: pairs b) ++ p0 :: pairs c1 ++ p1 :: pairs c2).
Proof using Ha Hb.
  intros H1 H2 L0. split; [done|]. cbn. rewrite (proj2 (Z.ltb_lt _ _) L0).
  eexists _, _, _. split_and!; [done..| |cbn; lia]. cbn. by rewrite <- !app_assoc, !app_nil_r.
Qed.

Lemma splits_1 c0 c2 :
  tree23 h c0 -> tree23 h c2 -> 0 < ccmp comp (key m) (key p0) -> ccmp comp (key m) (key p1) < 0 ->
  splits (S h) (BNode (Some p0) (Some p1) c0 b c2 (Some m) a)
    (pairs c0 ++ p0 :: (pairs a ++ m :: pairs b) ++ p1 :: pairs c2).
Proof using Ha Hb.
  intros H0 H2 G0 L1. split; [done|]. cbn.
  rewrite (proj2 (Z.ltb_ge _ _)), (proj2 (Z.ltb_lt _ _) L1) by lia. cbn.
  eexists _, _, _. split_and!; [done..| |cbn; lia]. cbn. by rewrite <- !app_assoc, !app_nil_r.
Qed.

Lemma splits_2 c0 c1 :
  tree23 h c0 -> tree23 h c1 -> 0 < ccmp comp (key m) (key p0) -> 0 < ccmp comp (key m) (key p1) ->
  splits (S h) (BNode (Some p0) (Some p1) c0 c1 b (Some m) a)
    (pairs c0 ++ p0 :: pairs c1 ++ p1 :: pairs a ++ m :: pairs b).
Proof using Ha Hb.
  intros H0 H1 G0 G1. split; [done|]. cbn.
  rewrite !(proj2 (Z.ltb_ge _ _)) by lia. cbn.
  eexists _, _, _. split_and!; [done..| |cbn; lia]. cbn. by rewrite <- !app_assoc, !app_nil_r.
Qed.
End splitting.

(** What a node does with one of its children. *)
Lemma child_step h c (f : qBTreeNode -> qBTreeNode) (K : qPair -> qBTreeNode -> qBTreeNode -> io (Z * qBTreeNode)) w st c' :
  mem_ok w ->
  qBTree__recursive_insert comp c q w = Ok ((st, c'), set_live (w_live w + (nodes c' - nodes c)) w) ->
  inserted h c st c' ->
  forall prog, (
    '(issp, c) ← qBTree__recursive_insert comp c q;
    if (issp =? 0) || (issp =? -1) then mret (issp, f c) else
    topronode ← qBTreeNode__constructor;
    '(topropair, topronode, c) ← lift_res (qBTreeNode__split_up comp c topronode);
    K topropair topronode c) w = prog ->
  (exists p, find_pair comp (key q) (pairs c) = Some p /\ prog = Ok ((-1, f c), w)) \/
  (find_pair comp (key q) (pairs c) = None /\ overflows c = false /\ exists c', tree23 h c' /\
    pairs c' = insert_pair comp q (pairs c) /\
    prog = Ok ((0, f c'), set_live (w_live w + (nodes c' - nodes c)) w)) \/
  (find_pair comp (key q) (pairs c) = None /\ overflows c = true /\ exists m a b, tree23 h a /\ tree23 h b /\
    pairs a ++ m :: pairs b = insert_pair comp q (pairs c) /\
    prog = K m a b (set_live (w_live w + (nodes a + nodes b - nodes c)) w)).
Proof using Type.
  intros Hw E Hins prog <-. rewrite (prog_bind_ok _ _ _ _ _ E). unfold inserted, outcome in Hins.
  destruct (find_pair comp (key q) (pairs c)) as [p|].
  - destruct Hins as [-> ->]. left. exists p. split; [done|]. cbn. rewrite set_live_id; [done|lia].
  - right. destruct (overflows c).
    + destruct Hins as (-> & _ & m & a & b & Es & Ha & Hb & Ep & En). right. split_and!; [done..|].
      exists m, a, b. split_and!; [done..|]. change ((1 =? 0) || (1 =? -1)) with false. cbv iota.
      erewrite prog_bind_ok by (by apply btree_constructor_ok). rewrite Es.
      erewrite prog_bind_ok by reflexivity. f_equal. unfold set_live. cbn. f_equal. lia.
    + destruct Hins as (-> & H' & Ep). left. split_and!; [done..|]. by exists c'.
Qed.

(** The middle pair of a split child is below or above a pair that the child and
    the new pair are below or above. *)
Lemma split_middle (P : qPair -> Prop) m l1 l2 l :
  l1 ++ m :: l2 = insert_pair comp q l -> P q -> Forall P l -> P m.
Proof using Type.
  intros E Hpq Hl. assert (In m (insert_pair comp q l)) as Hin by (rewrite <- E; apply in_elt).
  apply insert_pair_in in Hin as [-> |Hin]; [done|]. rewrite list.Forall_forall in Hl. by apply Hl, list_elem_of_In.
Qed.

(** A node is a leaf or has children. *)
Lemma leaf_or_inner h p0 k1 c0 c1 c2 :
  tree23 (S h) (BNode (Some p0) k1 c0 c1 c2 None NULL) ->
  (h = O /\ c0 = NULL /\ c1 = NULL /\ c2 = NULL) \/
  (exists h', h = S h' /\ is_null c0 = false /\ is_null c1 = false).
Proof using Type.
  intros (H0 & H1 & H2). destruct h as [|h'].
  - left. apply tree23_0 in H0 as ->, H1 as ->. destruct k1; [apply tree23_0 in H2|]; by subst.
  - right. exists h'. split; [done|]. by rewrite (tree23_null _ _ H0), (tree23_null _ _ H1).
Qed.

Lemma insert_leaf p0 k1 w :
  let t := BNode (Some p0) k1 NULL NULL NULL None NULL in
  in_order (dom := dom) (comp := comp) (pairs t) -> insert_safe t = true -> mem_ok w ->
  exists st t', qBTree__recursive_insert comp t q w = Ok ((st, t'), set_live (w_live w + (nodes t' - nodes t)) w) /\
    inserted 1 t st t'.
Proof using All.
  intros t Hord Hs Hw. subst t. unfold inserted, outcome. cbn in *. destruct k1 as [p1|].
  - apply andb_prop in Hs as [N0 N1]. apply negb_true_iff in N0, N1. cbn. rewrite N0, N1.
    eexists _, _. split; [apply result_same; cbn; lia|].
    split; [done|]. apply leaf_splits.
  - cbn. erewrite prog_bind_ok by reflexivity.
    destruct (Z.eqb_spec (ccmp comp (key q) (key p0)) 0) as [E|N].
    { eexists _, _. split; [apply result_same; cbn; lia|done]. }
    destruct (Z.ltb_spec 0 (ccmp comp (key q) (key p0))) as [L|G].
    + rewrite (proj2 (Z.ltb_ge _ _)) by lia.
      eexists _, _. split; [apply result_same; cbn; lia|done].
    + rewrite (proj2 (Z.ltb_lt _ _)) by lia.
      eexists _, _. split; [apply result_same; cbn; lia|done].
Qed.
(** *** The three children of a node *)

Section inner.
Context (h : nat) (p0 : qPair) (k1 : option qPair) (c0 c1 c2 : qBTreeNode) (w : world) (Hw : mem_ok w).
Abbreviation t := (BNode (Some p0) k1 c0 c1 c2 None NULL).
Context (H23 : tree23 (S h) t).

(** A step of the recursion on the child [c]. *)
Abbreviation step c := (exists st c',
  qBTree__recursive_insert comp c q w = Ok ((st, c'), set_live (w_live w + (nodes c' - nodes c)) w) /\
  inserted h c st c').

(** The program that goes on with the child [c], put back by [f]; [K] takes the
    parts of a child that has been split. *)
Abbreviation goes_on c f K := (
  '(issp, c) ← qBTree__recursive_insert comp c q;
  if (issp =? 0) || (issp =? -1) then mret (issp, f c) else
  topronode ← qBTreeNode__constructor;
  '(topropair, topronode, c) ← lift_res (qBTreeNode__split_up comp c topronode);
  K topropair topronode c).

Abbreviation result prog f ov l := (exists st t',
  prog w = Ok ((st, t'), set_live (w_live w + (nodes t' - nodes t)) w) /\ outcome (S h) t f ov l st t').

Lemma insert_child0 :
  step c0 -> Forall (fun x => ccmp comp (key x) (key p0) < 0) (pairs c0) ->
  ccmp comp (key q) (key p0) < 0 -> has_spare t || negb (overflows c0) = true ->
  result
    (goes_on c0 (fun c => BNode (Some p0) k1 c c1 c2 None NULL)
      (fun m a b => match k1 with
                    | Some _ => mret (1, BNode (Some p0) k1 b c1 c2 (Some m) a)
                    | None => mret (0, BNode (Some p0) (Some m) b a c1 None NULL)
                    end))
    (find_pair comp (key q) (pairs c0)) (match k1 with Some _ => overflows c0 | None => false end)
    (insert_pair comp q (pairs c0) ++ p0 :: pairs c1 ++ opt k1 ++ pairs c2).
Proof using All.
  intros (st & c' & E & Hins) B0 L Hsp. destruct H23 as (H0 & H1 & H2). unfold outcome.
  edestruct (child_step h c0) as [(p & -> & E')|[(-> & Hov & c'' & Hc & Ep & E')|(-> & Hov & m & a & b & Ha & Hb & Ep & E')]];
    [exact Hw|exact E|exact Hins|reflexivity|rewrite E'; clear E'..]; rewrite ?Hov in *.
  - eexists _, _. split; [apply result_same; cbn; lia|done].
  - replace (match k1 with Some _ => false | None => false end) with false by (by destruct k1).
    eexists _, _. split; [apply result_live; cbn; lia|]. split_and!; [done|by cbn|cbn; by rewrite Ep].
  - rewrite orb_false_r in Hsp. destruct k1 as [p1|]; [|done].
    eexists _, _. split; [apply result_live; cbn; lia|].
    split; [done|]. rewrite <- Ep. apply splits_0; try done.
    by apply (split_middle (fun x => ccmp comp (key x) (key p0) < 0) _ _ _ _ Ep).
Qed.

Lemma insert_child1 :
  step c1 -> Forall (fun x => 0 < ccmp comp (key x) (key p0)) (pairs c1) -> 0 < ccmp comp (key q) (key p0) ->
  (forall p1, k1 = Some p1 ->
    Forall (fun x => ccmp comp (key x) (key p1) < 0) (pairs c1) /\ ccmp comp (key q) (key p1) < 0) ->
  result
    (goes_on c1 (fun c => BNode (Some p0) k1 c0 c c2 None NULL)
      (fun m a b => match k1 with
                    | Some _ => mret (1, BNode (Some p0) k1 c0 b c2 (Some m) a)
                    | None => mret (0, BNode (Some p0) (Some m) c0 a b None NULL)
                    end))
    (find_pair comp (key q) (pairs c1)) (match k1 with Some _ => overflows c1 | None => false end)
    (pairs c0 ++ p0 :: insert_pair comp q (pairs c1) ++ opt k1 ++ pairs c2).
Proof using All.
  intros (st & c' & E & Hins) A0 G0 B1. destruct H23 as (H0 & H1 & H2). unfold outcome.
  edestruct (child_step h c1) as [(p & -> & E')|[(-> & Hov & c'' & Hc & Ep & E')|(-> & Hov & m & a & b & Ha & Hb & Ep & E')]];
    [exact Hw|exact E|exact Hins|reflexivity|rewrite E'; clear E'..]; rewrite ?Hov in *.
  - eexists _, _. split; [apply result_same; cbn; lia|done].
  - replace (match k1 with Some _ => false | None => false end) with false by (by destruct k1).
    eexists _, _. split; [apply result_live; cbn; lia|]. split_and!; [done|by cbn|cbn; by rewrite Ep].
  - destruct k1 as [p1|].
    + destruct (B1 p1 eq_refl) as [Bx Bq]. eexists _, _. split; [apply result_live; cbn; lia|].
      split; [done|]. rewrite <- Ep. apply splits_1; try done.
      * by apply (split_middle (fun x => 0 < ccmp comp (key x) (key p0)) _ _ _ _ Ep).
      * by apply (split_middle (fun x => ccmp comp (key x) (key p1) < 0) _ _ _ _ Ep).
    + subst c2. eexists _, _. split; [apply result_live; cbn; lia|].
      split_and!; [done|by cbn|cbn; by rewrite app_nil_r, <- Ep].
Qed.

Lemma insert_child2 p1 :
  k1 = Some p1 -> step c2 ->
  Forall (fun x => 0 < ccmp comp (key x) (key p0)) (pairs c2) -> 0 < ccmp comp (key q) (key p0) ->
  Forall (fun x => 0 < ccmp comp (key x) (key p1)) (pairs c2) -> 0 < ccmp comp (key q) (key p1) ->
  result
    (goes_on c2 (fun c => BNode (Some p0) k1 c0 c1 c None NULL)
      (fun m a b => mret (1, BNode (Some p0) k1 c0 c1 b (Some m) a)))
    (find_pair comp (key q) (pairs c2)) (overflows c2)
    (pairs c0 ++ p0 :: pairs c1 ++ p1 :: insert_pair comp q (pairs c2)).
Proof using All.
  intros Ek (st & c' & E & Hins) A0 G0 A1 G1. destruct H23 as (H0 & H1 & H2). unfold outcome.
  subst k1.
  edestruct (child_step h c2) as [(p & -> & E')|[(-> & Hov & c'' & Hc & Ep & E')|(-> & Hov & m & a & b & Ha & Hb & Ep & E')]];
    [exact Hw|exact E|exact Hins|reflexivity|rewrite E'; clear E'..]; rewrite ?Hov in *.
  - eexists _, _. split; [apply result_same; cbn; lia|done].
  - eexists _, _. split; [apply result_live; cbn; lia|]. split_and!; [done|by cbn|cbn; by rewrite Ep].
  - eexists _, _. split; [apply result_live; cbn; lia|].
    split; [done|]. rewrite <- Ep. apply splits_2; try done.
    + by apply (split_middle (fun x => 0 < ccmp comp (key x) (key p0)) _ _ _ _ Ep).
    + by apply (split_middle (fun x => 0 < ccmp comp (key x) (key p1)) _ _ _ _ Ep).
Qed.
End inner.

(** The pairs after a pair compare greater. *)
Lemma greater p l :
  dom (key p) -> in_order (dom := dom) (comp := comp) l -> Forall (fun x => ccmp comp (key p) (key x) < 0) l ->
  Forall (fun x => 0 < ccmp comp (key x) (key p)) l.
Proof using All.
  intros Hp [Hl _] H. rewrite list.Forall_forall in *. intros x Hx. apply ccmp_swap; [done|by apply Hl|by apply H].
Qed.

Lemma btree_recursive_insert_ok : forall t h w,
  tree23 (S h) t -> in_order (dom := dom) (comp := comp) (pairs t) -> insert_safe t = true -> mem_ok w ->
  exists st t', qBTree__recursive_insert comp t q w = Ok ((st, t'), set_live (w_live w + (nodes t' - nodes t)) w) /\
    inserted (S h) t st t'.
Proof using All.
  induction t as [|k0 k1 c0 IH0 c1 IH1 c2 IH2 e ec _]; intros h w H23 Hord Hs Hw; [done|].
  pose proof H23 as Hs'.
  apply tree23_inv in Hs' as (p0 & ? & ? & ? & ? & [= -> <- <- <- <- -> ->] & H0 & H1 & H2).
  destruct (leaf_or_inner _ _ _ _ _ _ H23) as [(-> & -> & -> & ->)|(h' & -> & L0 & L1)];
    [by apply insert_leaf|].
  cbn [pairs opt app] in Hord. pose proof (in_order_middle _ _ _ Hord) as (Ho0 & Hor & Hp0 & B0 & A0).
  apply (greater _ _ Hp0 Hor) in A0. cbn [qBTree__recursive_insert some_pair]. rewrite L0, L1. cbn [andb].
  erewrite prog_bind_ok by reflexivity. cbn [insert_safe] in Hs. rewrite L0 in Hs.
  unfold inserted. cbn [pairs opt app overflows]. rewrite L0. cbn [orb].
  destruct (Z.eqb_spec (ccmp comp (key q) (key p0)) 0) as [E0|N0].
  { rewrite find_eq by done. eexists _, _. split; [apply result_same; cbn; lia|done]. }
  destruct (Z.ltb_spec (ccmp comp (key q) (key p0)) 0) as [L|G].
  { apply andb_prop in Hs as [Hs0 Hsp]. rewrite find_lt, insert_lt by done.
    apply insert_child0; try done. by apply IH0. }
  assert (0 < ccmp comp (key q) (key p0)) as G0 by lia. rewrite find_gt, insert_gt by done.
  destruct k1 as [p1|]; cbn [opt app] in Hor, A0 |- *.
  2: { subst c2. cbn [pairs] in *. rewrite app_nil_r in *. cbn in Hs. cbn [orb].
    rewrite <- (app_nil_r (insert_pair _ _ _)).
    apply (insert_child1 (S h') p0 None c0 c1 NULL w Hw H23); try done. by apply IH1. }
  pose proof (in_order_middle _ _ _ Hor) as (Ho1 & Ho2 & Hp1 & B1 & A1). apply (greater _ _ Hp1 Ho2) in A1.
  apply list.Forall_app in A0 as [A00 A01]. apply Forall_cons_iff in A01 as [_ A02]. cbn [orb].
  destruct (Z.ltb_spec (ccmp comp (key q) (key p1)) 0) as [L|G'].
  { rewrite (proj2 (Z.eqb_neq (ccmp comp (key q) (key p1)) 0)) in Hs by lia. rewrite find_lt, insert_lt by done.
    apply (insert_child1 (S h') p0 (Some p1) c0 c1 c2 w Hw H23); try done; [by apply IH1|].
    by intros ? [= <-]. }
  destruct (Z.eqb_spec (ccmp comp (key q) (key p1)) 0) as [E1|N1].
  { rewrite find_eq by done. eexists _, _. split; [apply result_same; cbn; lia|done]. }
  rewrite find_gt, insert_gt by (done || lia).
  apply (insert_child2 (S h') p0 (Some p1) c0 c1 c2 w Hw H23 p1 eq_refl); try done; [by apply IH2|lia].
Qed.
End insertion.

(** *** The whole insertion *)

(** Two results with the same value whose counts of live blocks are equal. *)
Ltac exact_live n w := refine (result_live (0, BDesc (u32 (n + 1)) _) _ _ w _); cbn; lia.

Section toplevel.
Context {dom : list byte -> Prop} {comp : Cmp} `{!Comparator dom comp}.

(** A key greater than all those of the tree can always be inserted. *)
Lemma insert_safe_greatest q t h :
  dom (key q) -> tree23 h t -> Forall (fun p => dom (key p) /\ ccmp comp (key p) (key q) < 0) (pairs t) ->
  insert_safe (comp := comp) q t = true.
Proof using All.
  intros Hq. revert h. induction t as [|k0 k1 c0 IH0 c1 IH1 c2 IH2 e ec _]; intros h H23 Hall; [done|].
  destruct h as [|h]; [done|].
  apply tree23_inv in H23 as (p0 & ? & ? & ? & ? & [= -> <- <- <- <- -> ->] & H0 & H1 & H2).
  cbn [pairs opt] in Hall. apply list.Forall_app in Hall as [_ Hall].
  apply Forall_cons_iff in Hall as [[D0 L0] Hall]. apply list.Forall_app in Hall as [HA1 Hall].
  apply ccmp_swap in L0; [|done..]. cbn [insert_safe].
  destruct (Z.eqb_spec (ccmp comp (key q) (key p0)) 0); [lia|].
  destruct (Z.ltb_spec (ccmp comp (key q) (key p0)) 0); [lia|].
  destruct k1 as [p1|].
  - apply Forall_cons_iff in Hall as [[D1 L1] HA2]. apply ccmp_swap in L1; [|done..].
    destruct (Z.eqb_spec (ccmp comp (key q) (key p1)) 0); [lia|].
    destruct (Z.ltb_spec (ccmp comp (key q) (key p1)) 0); [lia|].
    destruct (is_null c0); [done|]. by eapply IH2.
  - destruct (is_null c0); [done|]. cbn. by eapply IH1.
Qed.

Lemma insert_null q w : mem_ok w ->
  qBTree__recursive_insert comp NULL q w =
  Ok ((0, BNode (Some q) None NULL NULL NULL None NULL), set_live (w_live w + 1) w).
Proof using Type. intros Hw. cbn [qBTree__recursive_insert]. by rewrite (prog_bind_ok _ _ _ _ _ (btree_constructor_ok w Hw)). Qed.

Lemma btree_insert_ok H n r k v w
    (Hr : tree23 H r) (Hord : in_order (dom := dom) (comp := comp) (pairs r)) (Hk : dom k)
    (Hsafe : insert_safe (comp := comp) (Pair k v) r = true) (Hn : u32 n = n) (Hw : mem_ok w) :
  match find_pair comp k (pairs r) with
  | Some _ => qBTree__insert comp (BDesc n r) k (blen k) v (blen v) w =
      Ok ((-1, BDesc n r), set_live (w_live w + 2) w)
  | None => exists H' r', qBTree__insert comp (BDesc n r) k (blen k) v (blen v) w =
        Ok ((0, BDesc (u32 (n + 1)) r'), set_live (w_live w + (blocks r' - blocks r)) w) /\
      (H' = H \/ H' = S H) /\ tree23 H' r' /\ pairs r' = insert_pair comp (Pair k v) (pairs r) /\
      in_order (dom := dom) (comp := comp) (pairs r')
  end.
Proof using All.
  unfold qBTree__insert.
  rewrite (prog_bind_ok _ _ _ _ _ (duplicate_ok k _ w Hw eq_refl)).
  erewrite prog_bind_ok by (by apply duplicate_ok). cbn [root size].
  set (w2 := set_live _ (set_live _ w)). assert (w2 = set_live (w_live w + 2) w) as Ew2.
  { unfold w2, set_live. cbn. f_equal. lia. }
  assert (mem_ok w2) as Hw2 by done. clearbody w2.
  assert (forall r', pairs r' = insert_pair comp (Pair k v) (pairs r) -> find_pair comp k (pairs r) = None ->
    in_order (dom := dom) (comp := comp) (pairs r') /\ blocks r' - blocks r = nodes r' - nodes r + 2) as Hfin.
  { intros r' E F. rewrite E. split; [by apply insert_in_order|].
    unfold blocks. rewrite E. unfold blen. rewrite insert_pair_length. lia. }
  destruct H as [|h].
  - apply tree23_0 in Hr as ->. cbn [pairs find_pair].
    rewrite (prog_bind_ok _ _ _ _ _ (insert_null (Pair k v) w2 Hw2)).
    exists 1%nat, (BNode (Some (Pair k v)) None NULL NULL NULL None NULL).
    destruct (Hfin (BNode (Some (Pair k v)) None NULL NULL NULL None NULL) eq_refl eq_refl) as [Ho ->].
    split_and!; [|by right|done..]. rewrite Ew2. exact_live n w.
  - destruct (btree_recursive_insert_ok (Pair k v) Hk r h w2 Hr Hord Hsafe Hw2) as (st & t' & E & Hins).
    rewrite (prog_bind_ok _ _ _ _ _ E). unfold inserted, outcome in Hins. cbn [key] in Hins.
    destruct (find_pair comp k (pairs r)) as [p|].
    { destruct Hins as [-> ->]. rewrite set_live_id by lia. change ((-1 =? 0) || (-1 =? -1)) with true.
      unfold mret, prog_ret. cbv iota. change (-1 + 1) with 0. by rewrite Z.add_0_r, Hn, Ew2. }
    destruct (overflows (Pair k v) r).
    + destruct Hins as (-> & Hne & m & a & b & Es & Ha & Hb & Ep & En).
      change ((1 =? 0) || (1 =? -1)) with false. cbv iota.
      erewrite prog_bind_ok by (by apply btree_constructor_ok). cbn [is_null new_node]. fold new_node. rewrite Es.
      erewrite prog_bind_ok by reflexivity. cbv beta iota. erewrite prog_bind_ok by (by apply btree_constructor_ok).
      cbn [is_null new_node].
      exists (S (S h)), (BNode (Some m) None a b NULL None NULL).
      destruct (Hfin (BNode (Some m) None a b NULL None NULL)) as [Ho ->];
        [cbn; by rewrite app_nil_r, <- Ep|done|].
      split_and!; [|by right|by cbn|cbn; by rewrite app_nil_r, <- Ep|done].
      rewrite Ew2. exact_live n w.
    + destruct Hins as (-> & H' & Ep). exists (S h), t'. destruct (Hfin t' Ep eq_refl) as [Ho ->].
      split_and!; [|by left|done..]. rewrite Ew2. exact_live n w.
Qed.

(** C25. Insertion into a well-formed tree in key order, when [insert_safe] holds
    and no allocation fails: a key that is there leaves the tree as it was with
    the result -1 (the two blocks of the copied pair stay allocated); otherwise
    the result is 0, the tree is well-formed, one level higher at most, its
    pairs are the old ones with the new one at its place, the size counts it,
    and the blocks allocated are those of the tree. *)
Theorem btree_insert_spec H n r k v w
    (Hr : tree23 H r) (Hord : in_order (dom := dom) (comp := comp) (pairs r)) (Hk : dom k)
    (Hsafe : insert_safe (comp := comp) (Pair k v) r = true) (Hn : u32 n = n) (Hw : mem_ok w) :
  match find_pair comp k (pairs r) with
  | Some _ => qBTree__insert comp (BDesc n r) k (blen k) v (blen v) w =
      Ok ((-1, BDesc n r), set_live (w_live w + 2) w)
  | None => exists H' r', qBTree__insert comp (BDesc n r) k (blen k) v (blen v) w =
        Ok ((0, BDesc (u32 (n + 1)) r'), set_live (w_live w + (blocks r' - blocks r)) w) /\
      (H' = H \/ H' = S H) /\ tree23 H' r' /\ pairs r' = insert_pair comp (Pair k v) (pairs r) /\
      in_order (dom := dom) (comp := comp) (pairs r')
  end.
Proof using All. by apply (btree_insert_ok H). Qed.

(** Insertion of the pairs of a list, one after the other. *)
Fixpoint insert_all (l : list qPair) (desc : qBTreeDescriptor) : io qBTreeDescriptor :=
  match l with
  | [] => mret desc
  | p :: l' =>
      '(_, desc) ← qBTree__insert comp desc (key p) (blen (key p)) (value p) (blen (value p));
      insert_all l' desc
  end.

Lemma insert_pair_last q l :
  dom (key q) -> Forall (fun p => dom (key p) /\ ccmp comp (key p) (key q) < 0) l -> insert_pair comp q l = l ++ [q].
Proof using All.
  intros Hq. induction 1 as [|p l [Hp L] _ IH]; [done|]. apply ccmp_swap in L; [|done..]. cbn.
  rewrite (proj2 (Z.ltb_ge _ _)) by lia. by rewrite IH.
Qed.

Lemma insert_all_ok l : forall l0 H r w,
  tree23 H r -> pairs r = l0 -> in_order (dom := dom) (comp := comp) (l0 ++ l) ->
  blen (l0 ++ l) < 2 ^ 32 -> mem_ok w ->
  exists H' r', insert_all l (BDesc (blen l0) r) w =
      Ok (BDesc (blen (l0 ++ l)) r', set_live (w_live w + (blocks r' - blocks r)) w) /\
    tree23 H' r' /\ pairs r' = l0 ++ l.
Proof using All.
  induction l as [|p l IH]; intros l0 H r w Hr Hp Hord Hlen Hw.
  - exists H, r. rewrite app_nil_r. split_and!; [|done..]. apply result_same. lia.
  - pose proof (in_order_middle _ _ _ Hord) as (Ho0 & _ & Hd & Hl0 & _).
    assert (Forall (fun q => dom (key q) /\ ccmp comp (key q) (key p) < 0) l0) as Hg.
    { apply list.Forall_and. split; [exact (in_order_dom _ Ho0)|done]. }
    pose proof (blen_nonneg l0). pose proof (blen_nonneg l).
    rewrite blen_app in Hlen. change (blen (p :: l)) with (blen ([p] ++ l)) in Hlen.
    rewrite blen_app in Hlen. change (blen [p]) with 1 in Hlen.
    destruct p as [k v]. cbn [key] in *. subst l0.
    pose proof (btree_insert_ok H (blen (pairs r)) r k v w Hr Ho0 Hd
      (insert_safe_greatest (Pair k v) r H Hd Hr Hg) (uwrap_small 32 (blen (pairs r)) ltac:(lia)) Hw) as Hi.
    rewrite (below_none k (pairs r) Hd Ho0 Hl0) in Hi.
    destruct Hi as (H' & r' & E & _ & Hr' & Ep & _). rewrite insert_pair_last in Ep by done.
    cbn [insert_all key value]. rewrite (prog_bind_ok _ _ _ _ _ E). rewrite uwrap_small by lia.
    replace (blen (pairs r) + 1) with (blen (pairs r ++ [Pair k v])) by (by rewrite blen_app).
    destruct (IH (pairs r ++ [Pair k v]) H' r' (set_live (w_live w + (blocks r' - blocks r)) w)) as (H2 & r2 & E2 & Hr2 & Ep2);
      [done|done|by rewrite <- app_assoc| |done|].
    { rewrite !blen_app. change (blen [Pair k v]) with 1. lia. }
    exists H2, r2. rewrite E2, <- app_assoc in *. split_and!; [|done..].
    refine (result_live _ _ _ w _). cbn. lia.
Qed.

(** A tree into which pairs have been inserted in increasing order of their
    keys holds exactly these pairs, in this order; it is well-formed, its size is
    their number, and the blocks allocated are those of the tree. *)
Theorem btree_insert_ascending l w
    (Hord : in_order (dom := dom) (comp := comp) l) (Hlen : blen l < 2 ^ 32) (Hw : mem_ok w) :
  exists H r, insert_all l qBTree_constructor w = Ok (BDesc (blen l) r, set_live (w_live w + blocks r) w) /\
    tree23 H r /\ pairs r = l.
Proof using All.
  destruct (insert_all_ok l [] 0 NULL w) as (H & r & E & Hr & Ep); [done..|].
  exists H, r. split_and!; [|done..]. change qBTree_constructor with (BDesc (blen (@nil qPair)) NULL).
  rewrite E. refine (result_live _ _ _ w _). change (blocks NULL) with 0. lia.
Qed.
End toplevel.

(** ** Where the program goes wrong *)

(** When the first child of a node with one pair is split, its halves and
    the pair between them are stored behind the pair of the node.  After the
    insertion of "e", "d", "c", "b" and "a", all with the result 0, the tree of
    size 5 is not in key order, and neither "a" nor "b" is found. *)
Theorem btree_insert_loses :
  exists desc w,
    insert_all (comp := string_comparator)
      (map pair_ex [Byte.x65; Byte.x64; Byte.x63; Byte.x62; Byte.x61]) qBTree_constructor (start []) = Ok (desc, w) /\
    size desc = 5 /\
    pairs (root desc) = map pair_ex [Byte.x63; Byte.x64; Byte.x61; Byte.x62; Byte.x65] /\
    qBTree__ptr_at string_comparator desc [Byte.x61] = Ok (-1, zero_iter) /\
    qBTree__ptr_at string_comparator desc [Byte.x62] = Ok (-1, zero_iter).
Proof.
  eexists _, _. split; [vm_compute; reflexivity|]. split; [vm_compute; reflexivity|].
  split; [vm_compute; reflexivity|]. split; vm_compute; reflexivity.
Qed.

(** A leaf with two pairs is not searched for the new key, which is then in the
    tree twice: "a" after "a" and "b". *)
Theorem btree_insert_duplicates :
  exists desc w,
    insert_all (comp := string_comparator) (map pair_ex [Byte.x61; Byte.x62; Byte.x61])
      qBTree_constructor (start []) = Ok (desc, w) /\
    size desc = 3 /\ pairs (root desc) = map pair_ex [Byte.x61; Byte.x61; Byte.x62].
Proof.
  eexists _, _. split; [vm_compute; reflexivity|]. split; vm_compute; reflexivity.
Qed.

(** ** Witnesses *)

Lemma btree_insert_spec_witness :
  exists H' r', qBTree__insert string_comparator (BDesc 4 tree_ex) [Byte.x65] 1 [] 0 (start []) =
      Ok ((0, BDesc 5 r'), set_live (blocks r' - blocks tree_ex) (start [])) /\
    tree23 H' r' /\ pairs r' = map pair_ex [Byte.x61; Byte.x62; Byte.x63; Byte.x64; Byte.x65].
Proof.
  destruct (btree_insert_spec (dom := int_string) (comp := string_comparator) 2 4 tree_ex [Byte.x65] [] (start [])
    tree_ex_tree23 tree_ex_in_order eq_refl eq_refl eq_refl eq_refl) as (H' & r' & E & _ & Hr & Ep & _).
  exists H', r'. split; [exact E|]. split; [exact Hr|exact Ep].
Defined.

Lemma btree_insert_ascending_witness :
  exists H r, insert_all (comp := string_comparator) (pairs tree_ex) qBTree_constructor (start []) =
      Ok (BDesc 4 r, set_live (blocks r) (start [])) /\
    tree23 H r /\ pairs r = pairs tree_ex.
Proof.
  exact (btree_insert_ascending (dom := int_string) (comp := string_comparator) (pairs tree_ex) (start [])
    tree_ex_in_order eq_refl eq_refl).
Defined.
