(* ===== verification/BTreeErase.v ===== *)
(** * The B-tree: deletion

    A subtree from which a pair is taken may lose a level: its top node is then
    left with no pair and one child, and the parent borrows a pair for it from a
    sibling or merges it with one.  The pairs are those of the tree without the
    deleted one all the way up. *)

From S2P Require Import Prelude World Utils Ordered BTree BTreeOrder BTreeFacts BTreeInsert.
Local Open Scope Z_scope.

(** ** Rebalancing *)

(** A node that has lost its only pair. *)
Definition hollow (c : qBTreeNode) : qBTreeNode := BNode None None c NULL NULL None NULL.

(** A subtree of height [h] after a deletion with the status [st]. *)
Definition shrunk (h : nat) (st : Z) (t : qBTreeNode) : Prop :=
  (st = 0 /\ tree23 h t) \/
  (st = 1 /\ exists g c, h = S g /\ t = hollow c /\ tree23 g c).

(** What a step from [t] gives: the pairs [l], and [d] blocks less than the nodes
    that disappear. *)
Abbreviation becomes prog w h t l d := (exists st t',
  prog w = Ok ((st, t'), set_live (w_live w + (nodes t' - nodes t) - d) w) /\
  shrunk h st t' /\ pairs t' = l).

Lemma free_ok w : free w = Ok (tt, set_live (w_live w - 1) w).
Proof. done. Qed.

Lemma free_pair_ok p w : free_pair (Some p) w = Ok (tt, set_live (w_live w - 2) w).
Proof. unfold free_pair. erewrite prog_bind_ok by reflexivity. rewrite free_ok. unfold set_live. cbn. do 3 f_equal. lia. Qed.

(** Associativity, to compare the lists of pairs of two trees. *)
Ltac same_pairs := cbn; rewrite ?app_nil_r, <- ?app_assoc; cbn; rewrite <- ?app_assoc, ?app_nil_r; done.

Section rebalance.
Context (g : nat) (w : world).

(** A child of a node with [k1] as second pair, in the last place. *)
Definition last_child (h : nat) (k1 : option qPair) (c2 : qBTreeNode) : Prop :=
  match k1 with Some _ => tree23 h c2 | None => c2 = NULL end.

Lemma rebalance_0 p0 k1 d c1 c2 right :
  tree23 g d -> tree23 (S g) c1 -> last_child (S g) k1 c2 ->
  let t := BNode (Some p0) k1 (hollow d) c1 c2 None NULL in
  becomes (rebalance 1 t true right 0) w (S (S g)) t (pairs t) 0.
Proof.
  intros Hd H1 H2 t. subst t. apply tree23_inv in H1 as (s0 & s1 & d0 & d1 & d2 & -> & D0 & D1 & D2).
  unfold rebalance. cbn [Z.eqb Pos.eqb orb]. destruct s1 as [s1|].
  - erewrite prog_bind_ok by reflexivity. cbv beta iota. cbn [Z.eqb].
    exists 0, (BNode (Some s0) k1 (BNode (Some p0) None d d0 NULL None NULL)
      (BNode (Some s1) None d1 d2 NULL None NULL) c2 None NULL).
    split_and!; [apply result_same; cbn; lia|left; split; [done|by cbn]|same_pairs].
  - subst d2. erewrite prog_bind_ok by reflexivity. cbv beta iota. cbn [Z.eqb].
    erewrite prog_bind_ok by (by destruct right). cbv beta iota. cbn [Z.eqb].
    cbn [qBTree__merge hollow Z.eqb]. erewrite prog_bind_ok by apply free_ok.
    exists (lost k1), (BNode k1 None (BNode (Some p0) (Some s0) d d0 d1 None NULL) c2 NULL None NULL).
    split_and!; [refine (result_live _ _ _ w _); cbn; lia| |destruct k1; same_pairs].
    destruct k1 as [p1|]; [left; by split|right]. split; [done|]. cbn in H2. subst c2. by eexists _, _.
Qed.

(** The left sibling gives a pair, or is merged with. *)
Lemma rebalance_1_left p0 k1 d c0 c2 :
  tree23 g d -> tree23 (S g) c0 -> last_child (S g) k1 c2 ->
  let t := BNode (Some p0) k1 c0 (hollow d) c2 None NULL in
  becomes (rebalance 1 t false true 1) w (S (S g)) t (pairs t) 0.
Proof.
  intros Hd H0 H2 t. subst t. apply tree23_inv in H0 as (s0 & s1 & d0 & d1 & d2 & -> & D0 & D1 & D2).
  unfold rebalance. cbn [Z.eqb Pos.eqb orb]. erewrite prog_bind_ok by reflexivity. cbv beta iota. cbn [Z.eqb].
  destruct s1 as [s1|].
  - erewrite prog_bind_ok by reflexivity. cbv beta iota. cbn [Z.eqb].
    exists 0, (BNode (Some s1) k1 (BNode (Some s0) None d0 d1 NULL None NULL)
      (BNode (Some p0) None d2 d NULL None NULL) c2 None NULL).
    split_and!; [apply result_same; cbn; lia|left; split; [done|by cbn]|same_pairs].
  - subst d2. erewrite prog_bind_ok by reflexivity. cbv beta iota. cbn [Z.eqb].
    cbn [qBTree__merge hollow Z.eqb Pos.eqb]. erewrite prog_bind_ok by apply free_ok.
    exists (lost k1), (BNode k1 None (BNode (Some s0) (Some p0) d0 d1 d None NULL) c2 NULL None NULL).
    split_and!; [|destruct k1 as [p1|]; [left; by split|right]|destruct k1; same_pairs].
    + destruct g; [apply tree23_0 in D1 as ->, Hd as ->|rewrite (tree23_null _ _ D1)];
        refine (result_live _ _ _ w _); cbn; lia.
    + split; [done|]. cbn in H2. subst c2. by eexists _, _.
Qed.

Lemma rebalance_1 p0 k1 d c0 c2 left :
  tree23 g d -> tree23 (S g) c0 -> last_child (S g) k1 c2 ->
  let t := BNode (Some p0) k1 c0 (hollow d) c2 None NULL in
  becomes (rebalance 1 t left true 1) w (S (S g)) t (pairs t) 0.
Proof.
  intros Hd H0 H2 t. pose proof (rebalance_1_left p0 k1 d c0 c2 Hd H0 H2) as Hleft. cbv zeta in Hleft. fold t in Hleft.
  destruct left; [|done]. destruct (is_null c2 || negb (has_spare c2)) eqn:E.
  - unfold rebalance in *. cbn [Z.eqb Pos.eqb orb] in *. revert Hleft.
    erewrite prog_bind_ok by reflexivity. cbv beta iota. cbn [Z.eqb]. intros Hleft.
    assert (lift_res (qBTree__rotate_left t 1) w = Ok ((-1, t), w)) as Erot.
    { subst t. by destruct c2 as [|? [?|] ? ? ? ? ?]. }
    by rewrite (prog_bind_ok _ _ _ _ _ Erot).
  - destruct k1 as [p1|]; cbn in H2; [|by subst c2].
    apply tree23_inv in H2 as (s0 & s1 & d0 & d1 & d2 & -> & D0 & D1 & D2). destruct s1 as [s1|]; [|done].
    subst t. unfold rebalance. cbn [Z.eqb Pos.eqb orb]. erewrite prog_bind_ok by reflexivity. cbv beta iota. cbn [Z.eqb].
    exists 0, (BNode (Some p0) (Some s0) c0 (BNode (Some p1) None d d0 NULL None NULL)
      (BNode (Some s1) None d1 d2 NULL None NULL) None NULL).
    split_and!; [apply result_same; cbn; lia|left; split; [done|by cbn]|same_pairs].
Qed.

Lemma rebalance_2 p0 p1 d c0 c1 left :
  tree23 g d -> tree23 (S g) c0 -> tree23 (S g) c1 ->
  let t := BNode (Some p0) (Some p1) c0 c1 (hollow d) None NULL in
  becomes (rebalance 1 t left true 2) w (S (S g)) t (pairs t) 0.
Proof.
  intros Hd H0 H1 t. subst t. apply tree23_inv in H1 as (s0 & s1 & d0 & d1 & d2 & -> & D0 & D1 & D2).
  unfold rebalance. cbn [Z.eqb Pos.eqb orb]. erewrite prog_bind_ok by (by destruct left). cbv beta iota. cbn [Z.eqb].
  destruct s1 as [s1|].
  - erewrite prog_bind_ok by reflexivity. cbv beta iota. cbn [Z.eqb].
    exists 0, (BNode (Some p0) (Some s1) c0 (BNode (Some s0) None d0 d1 NULL None NULL)
      (BNode (Some p1) None d2 d NULL None NULL) None NULL).
    split_and!; [apply result_same; cbn; lia|left; split; [done|by cbn]|same_pairs].
  - subst d2. erewrite prog_bind_ok by reflexivity. cbv beta iota. cbn [Z.eqb].
    cbn [qBTree__merge hollow Z.eqb Pos.eqb]. erewrite prog_bind_ok by apply free_ok.
    exists 0, (BNode (Some p0) None c0 (BNode (Some s0) (Some p1) d0 d1 d None NULL) NULL None NULL).
    split_and!; [|left; by split|same_pairs].
    destruct g; [apply tree23_0 in D1 as ->, Hd as ->|rewrite (tree23_null _ _ D1)];
      refine (result_live _ _ _ w _); cbn; lia.
Qed.
End rebalance.

(** ** After the deletion in a child *)

Section settle.
Context (h : nat) (w : world) (st : Z) (c : qBTreeNode) (Hc : shrunk h st c).

Lemma no_rebalance t left right n :
  tree23 (S h) t -> becomes (rebalance 0 t left right n) w (S h) t (pairs t) 0.
Proof using Type.
  intros Ht. exists 0, t. split_and!; [apply result_same; lia|by left|done].
Qed.

Lemma settle_0 p0 k1 c1 c2 right :
  tree23 h c1 -> last_child h k1 c2 ->
  let t := BNode (Some p0) k1 c c1 c2 None NULL in
  becomes (rebalance st t true right 0) w (S h) t (pairs t) 0.
Proof using Hc.
  intros H1 H2. destruct Hc as [[-> H]|(-> & g & d & -> & -> & Hd)].
  - by apply no_rebalance.
  - by apply rebalance_0.
Qed.

Lemma settle_1 p0 k1 c0 c2 left :
  tree23 h c0 -> last_child h k1 c2 ->
  let t := BNode (Some p0) k1 c0 c c2 None NULL in
  becomes (rebalance st t left true 1) w (S h) t (pairs t) 0.
Proof using Hc.
  intros H0 H2. destruct Hc as [[-> H]|(-> & g & d & -> & -> & Hd)].
  - by apply no_rebalance.
  - by apply rebalance_1.
Qed.

Lemma settle_2 p0 p1 c0 c1 left :
  tree23 h c0 -> tree23 h c1 ->
  let t := BNode (Some p0) (Some p1) c0 c1 c None NULL in
  becomes (rebalance st t left true 2) w (S h) t (pairs t) 0.
Proof using Hc.
  intros H0 H1. destruct Hc as [[-> H]|(-> & g & d & -> & -> & Hd)].
  - by apply no_rebalance.
  - by apply rebalance_2.
Qed.
End settle.

(** The deletion in the child [c] of [t], put back by [f], and what follows. *)
Lemma in_child h h' c t (f : qBTreeNode -> qBTreeNode) prog (K : Z -> qBTreeNode -> io (Z * qBTreeNode)) w d lc l :
  becomes prog w h c lc d ->
  (forall c', nodes (f c') = nodes c' + (nodes t - nodes c)) ->
  (forall st c' w', shrunk h st c' -> pairs c' = lc ->
     becomes (K st c') w' h' (f c') (pairs (f c')) 0 /\ pairs (f c') = l) ->
  becomes ('(st, c) ← prog; K st c) w h' t l d.
Proof.
  intros (st & c' & E & Hs & Hp) Hn HK. rewrite (prog_bind_ok _ _ _ _ _ E).
  destruct (HK st c' (set_live (w_live w + (nodes c' - nodes c) - d) w) Hs Hp) as [(st' & t' & E' & Hs' & Hp') Hl].
  exists st', t'. split_and!; [|done|congruence].
  rewrite E'. refine (result_live _ _ _ w _). cbn. specialize (Hn c'). lia.
Qed.

(** ** The first pair of a subtree *)

Lemma erase_min_ok flag : forall t g w, tree23 (S g) t ->
  exists p l, qBTree__get_min t = Some (Some p) /\ pairs t = p :: l /\
    becomes (qBTree__recursive_erase_min t flag) w (S g) t l (if flag then 2 else 0).
Proof.
  induction t as [|k0 k1 c0 IH0 c1 IH1 c2 IH2 e ec _]; intros g w H23; [done|]. pose proof H23 as Hs.
  apply tree23_inv in Hs as (p0 & ? & ? & ? & ? & [= -> <- <- <- <- -> ->] & H0 & H1 & H2).
  cbn [qBTree__get_min qBTree__recursive_erase_min]. rewrite (tree23_null _ _ H0).
  destruct g as [|g]; cbn [negb].
  - apply tree23_0 in H0 as ->, H1 as ->. exists p0, (opt k1 ++ pairs c2). split_and!; [done..|].
    assert ((if flag then free_pair (Some p0) else mret tt) w =
      Ok (tt, set_live (w_live w - (if flag then 2 else 0)) w)) as Ef.
    { destruct flag; [apply free_pair_ok|]. apply result_same. lia. }
    rewrite (prog_bind_ok _ _ _ _ _ Ef). destruct k1 as [p1|].
    + apply tree23_0 in H2 as ->. exists 0, (BNode (Some p1) None NULL NULL NULL None NULL).
      split_and!; [refine (result_live _ _ _ w _); cbn; lia|by left|done].
    + subst c2. exists 1, (hollow NULL).
      split_and!; [refine (result_live _ _ _ w _); cbn; lia|right|done]. split; [done|]. by exists O, NULL.
  - destruct (IH0 g w H0) as (p & l & -> & Ep & Hb).
    exists p, (l ++ p0 :: pairs c1 ++ opt k1 ++ pairs c2).
    split_and!; [done|cbn [pairs opt]; by rewrite Ep|].
    apply (in_child _ _ c0 _ (fun c => BNode (Some p0) k1 c c1 c2 None NULL) _
      (fun st c => rebalance st (BNode (Some p0) k1 c c1 c2 None NULL) true false 0) _ _ _ _ Hb).
    + intros c'. cbn. lia.
    + intros st c' w' Hc <-. split; [|done]. by apply (settle_0 _ w' st c' Hc).
Qed.

(** ** Deletion of a key *)

Section deletion.
Context {dom : list byte -> Prop} {comp : Cmp} `{!Comparator dom comp}.
Context (q : qPair) (Hq : dom (key q)).

(** The result of the deletion in [t], which holds [l] or its key is not there. *)
Definition erased (h : nat) (t : qBTreeNode) (f : option qPair) (l : list qPair) (w : world)
    (prog : io (Z * qBTreeNode)) : Prop :=
  match f with
  | None => prog w = Ok ((-1, t), w)
  | Some _ => becomes prog w h t l 2
  end.

(** The deletion goes on in a child. *)
Lemma erase_in_child h h' c t (f : qBTreeNode -> qBTreeNode) (K : Z -> qBTreeNode -> io (Z * qBTreeNode)) w fp lc l :
  erased h c fp lc w (qBTree__recursive_erase comp c q) ->
  f c = t -> K (-1) t w = Ok ((-1, t), w) ->
  (forall c', nodes (f c') = nodes c' + (nodes t - nodes c)) ->
  (forall st c' w', shrunk h st c' -> pairs c' = lc ->
     becomes (K st (f c')) w' h' (f c') (pairs (f c')) 0 /\ pairs (f c') = l) ->
  erased h' t fp l w ('(st, c) ← qBTree__recursive_erase comp c q; K st (f c)).
Proof using Type.
  intros Hc Hf Hk Hn HK. unfold erased in *. destruct fp as [p|].
  - by apply (in_child h h' c t f _ (fun st c => K st (f c)) w 2 lc l Hc).
  - by rewrite (prog_bind_ok _ _ _ _ _ Hc), Hf.
Qed.

Lemma erased_ext h t f l w prog prog' :
  prog w = prog' w -> erased h t f l w prog' -> erased h t f l w prog.
Proof using Type. unfold erased. by intros ->. Qed.

(** The blocks of the deleted pair are freed first. *)
Lemma after_free p h t l w prog :
  becomes prog (set_live (w_live w - 2) w) h t l 0 -> becomes (free_pair (Some p);; prog) w h t l 2.
Proof using Type.
  intros (st & t' & E & Hs & Hp). exists st, t'. split_and!; [|done..].
  rewrite (prog_bind_ok _ _ _ _ _ (free_pair_ok p w)), E. refine (result_live _ _ _ w _). cbn. lia.
Qed.

(** *** A key found in a node *)

Section found.
Context (h : nat) (p0 : qPair) (k1 : option qPair) (c0 c1 c2 : qBTreeNode) (w : world).
Abbreviation t := (BNode (Some p0) k1 c0 c1 c2 None NULL).
Context (H23 : tree23 (S h) t).

(** The first pair is replaced by the one that follows it. *)
Lemma erase_first :
  becomes
    (match qBTree__get_min c1 with
     | None => qBTree__recursive_erase_min t true
     | Some m =>
         free_pair (Some p0);;
         '(status, c1) ← qBTree__recursive_erase_min c1 false;
         rebalance status (BNode m k1 c0 c1 c2 None NULL) true true 1
     end) w (S h) t (pairs c0 ++ pairs c1 ++ opt k1 ++ pairs c2) 2.
Proof using H23.
  pose proof H23 as (H0 & H1 & H2). destruct h as [|g].
  - apply tree23_0 in H1 as ->, H0 as ->. cbn [qBTree__get_min].
    destruct (erase_min_ok true _ _ w H23) as (p & l & _ & Ep & Hb). cbn in Ep. injection Ep as <- <-. done.
  - destruct (erase_min_ok false c1 g (set_live (w_live w - 2) w) H1) as (m & l & -> & -> & Hb).
    apply after_free.
    apply (in_child _ _ c1 _ (fun c => BNode (Some m) k1 c0 c c2 None NULL) _
      (fun st c => rebalance st (BNode (Some m) k1 c0 c c2 None NULL) true true 1) _ _ _ _ Hb).
    + intros c'. cbn. lia.
    + intros st c' w' Hc <-. split; [|done]. by apply (settle_1 _ w' st c' Hc).
Qed.

Lemma erase_second p1 :
  k1 = Some p1 ->
  becomes
    (match qBTree__get_min c2 with
     | None => free_pair k1;; mret (0, BNode (Some p0) None c0 c1 c2 None NULL)
     | Some m =>
         free_pair k1;;
         '(status, c2) ← qBTree__recursive_erase_min c2 false;
         rebalance status (BNode (Some p0) m c0 c1 c2 None NULL) false true 2
     end) w (S h) t (pairs c0 ++ p0 :: pairs c1 ++ pairs c2) 2.
Proof using H23.
  pose proof H23 as (H0 & H1 & H2). intros E. subst k1. destruct h as [|g].
  - apply tree23_0 in H2 as ->, H1 as ->, H0 as ->. cbn [qBTree__get_min]. apply after_free.
    exists 0, (BNode (Some p0) None NULL NULL NULL None NULL).
    split_and!; [apply result_same; cbn; lia|by left|done].
  - destruct (erase_min_ok false c2 g (set_live (w_live w - 2) w) H2) as (m & l & -> & -> & Hb).
    apply after_free.
    apply (in_child _ _ c2 _ (fun c => BNode (Some p0) (Some m) c0 c1 c None NULL) _
      (fun st c => rebalance st (BNode (Some p0) (Some m) c0 c1 c None NULL) false true 2) _ _ _ _ Hb).
    + intros c'. cbn. lia.
    + intros st c' w' Hc <-. split; [|done]. by apply (settle_2 _ w' st c' Hc).
Qed.
End found.

Lemma recursive_erase_ok : forall t h w,
  tree23 h t -> in_order (dom := dom) (comp := comp) (pairs t) ->
  erased h t (find_pair comp (key q) (pairs t)) (remove_pair comp (key q) (pairs t)) w
    (qBTree__recursive_erase comp t q).
Proof using All.
  induction t as [|k0 k1 c0 IH0 c1 IH1 c2 IH2 e ec _]; intros h w H23 Hord; [done|].
  destruct h as [|h]; [done|]. pose proof H23 as Hs.
  apply tree23_inv in Hs as (p0 & ? & ? & ? & ? & [= -> <- <- <- <- -> ->] & H0 & H1 & H2).
  cbn [pairs opt app] in Hord |- *. pose proof (in_order_middle _ _ _ Hord) as (Ho0 & Hor & _).
  cbn [qBTree__recursive_erase some_pair]. eapply erased_ext; [by erewrite prog_bind_ok by reflexivity|].
  destruct (Z.eqb_spec (ccmp comp (key q) (key p0)) 0) as [E0|N0].
  { rewrite find_eq, remove_eq by done. by apply erase_first. }
  destruct (Z.ltb_spec (ccmp comp (key q) (key p0)) 0) as [L0|G0].
  { rewrite find_lt, remove_lt by done.
    eapply (erase_in_child _ _ c0 _ (fun c => BNode (Some p0) k1 c c1 c2 None NULL)
      (fun st t => rebalance st t true false 0)); [by apply IH0|done|done|intros; cbn; lia|].
    intros st c' w' Hc <-. split; [|done]. by apply (settle_0 _ w' st c' Hc). }
  rewrite find_gt, remove_gt by (done || lia). destruct k1 as [p1|]; cbn [opt app] in Hor |- *.
  2: { subst c2. cbn [pairs] in *. rewrite app_nil_r in *.
    eapply (erase_in_child _ _ c1 _ (fun c => BNode (Some p0) None c0 c NULL None NULL)
      (fun st t => rebalance st t false true 1)); [by apply IH1|done|done|intros; cbn; lia|].
    intros st c' w' Hc <-. split; [|cbn; by rewrite app_nil_r]. by apply (settle_1 _ w' st c' Hc). }
  pose proof (in_order_middle _ _ _ Hor) as (Ho1 & Ho2 & _).
  destruct (Z.eqb_spec (ccmp comp (key q) (key p1)) 0) as [E1|N1].
  { rewrite find_eq, remove_eq by done. by apply (erase_second h p0 (Some p1) c0 c1 c2 w H23 p1). }
  destruct (Z.ltb_spec (ccmp comp (key q) (key p1)) 0) as [L1|G1].
  - rewrite find_lt, remove_lt by done.
    eapply (erase_in_child _ _ c1 _ (fun c => BNode (Some p0) (Some p1) c0 c c2 None NULL)
      (fun st t => rebalance st t true true 1)); [by apply IH1|done|done|intros; cbn; lia|].
    intros st c' w' Hc <-. split; [|done]. by apply (settle_1 _ w' st c' Hc).
  - rewrite find_gt, remove_gt by (done || lia).
    eapply (erase_in_child _ _ c2 _ (fun c => BNode (Some p0) (Some p1) c0 c1 c None NULL)
      (fun st t => rebalance st t false true 2)); [by apply IH2|done|done|intros; cbn; lia|].
    intros st c' w' Hc <-. split; [|done]. by apply (settle_2 _ w' st c' Hc).
Qed.
End deletion.

(** What is left of a tree of height [H]: a well-formed tree with the pairs [l],
    at most one level lower. *)
Definition leaves (H H' : nat) (r' : qBTreeNode) (l : list qPair) : Prop :=
  tree23 H' r' /\ pairs r' = l /\ (H' = H \/ S H' = H).

Lemma btree_erase_ok (dom : list byte -> Prop) (comp : Cmp) (HC : Comparator dom comp) H n r it l1 p l2 w
    (Hr : tree23 H r) (Hord : in_order (dom := dom) (comp := comp) (pairs r))
    (Hit : points H r it l1 p l2) (Hw : mem_ok w) :
  exists H' r', qBTree__erase comp (BDesc n r) it w =
      Ok ((0, BDesc (u32 (n - 1)) r'), set_live (w_live w + (blocks r' - blocks r)) w) /\
    leaves H H' r' (l1 ++ l2) /\ in_order (dom := dom) (comp := comp) (pairs r').
Proof.
  pose proof (points_pairs _ _ _ _ _ _ Hit) as (Epr & _ & Ed). unfold qBTreeIterator_deref in Ed.
  rewrite Epr in Hord. pose proof (in_order_middle _ _ _ Hord) as (_ & _ & Hp & _).
  assert (remove_pair comp (key p) (pairs r) = l1 ++ l2) as Erem.
  { rewrite Epr. apply remove_eq; [done..|by apply ccmp_refl]. }
  assert (find_pair comp (key p) (pairs r) = Some p) as Ef.
  { rewrite Epr. apply find_eq; [done..|by apply ccmp_refl]. }
  unfold qBTree__erase. rewrite Ed. erewrite prog_bind_ok by reflexivity. erewrite prog_bind_ok by reflexivity.
  erewrite prog_bind_ok by (by apply malloc_ok). cbn [negb].
  erewrite prog_bind_ok by (by apply malloc_ok). cbn [negb root size].
  set (w2 := set_live _ (set_live _ w)). assert (w2 = set_live (w_live w + 2) w) as Ew2.
  { unfold w2, set_live. cbn. f_equal. lia. }
  clearbody w2.
  pose proof (recursive_erase_ok p Hp r H w2 Hr) as He. rewrite Epr in He. specialize (He Hord).
  rewrite <- Epr, Ef, Erem in He. destruct He as (st & t' & E & Hsh & Et').
  rewrite (prog_bind_ok _ _ _ _ _ E).
  assert (in_order (dom := dom) (comp := comp) (l1 ++ l2)) as Hord'.
  { rewrite <- Erem, Epr. by apply remove_in_order. }
  assert (blen (pairs r) = blen (l1 ++ l2) + 1) as El.
  { rewrite Epr, !blen_app. change (p :: l2) with ([p] ++ l2). rewrite blen_app. change (blen [p]) with 1. lia. }
  destruct Hsh as [[-> Ht']|(-> & g & c & -> & -> & Hc)].
  - exists H, t'. rewrite Et'. split_and!; [|by split_and!; [..|left]|done].
    rewrite Ew2. refine (result_live (0, BDesc (u32 (n - 1)) t') _ _ w _).
    unfold blocks. rewrite Et'. cbn. lia.
  - assert (pairs c = l1 ++ l2) as Ec by (rewrite <- Et'; cbn; by rewrite app_nil_r).
    exists g, c. rewrite Ec. split_and!; [|by split_and!; [..|right]|done].
    rewrite Ew2. refine (result_live (0, BDesc (u32 (n - 1)) c) _ _ w _).
    unfold blocks. rewrite Ec. cbn. lia.
Qed.

(** C26. [qBTree__erase] of an iterator of a well-formed tree in key order removes
    exactly the pair at which the iterator stands: the result is 0, the tree is
    well-formed and in order, at most one level lower, the size counts one pair
    less, and the blocks freed are those of the pair and of the nodes that have
    disappeared. *)
Theorem btree_erase_spec (dom : list byte -> Prop) (comp : Cmp) (HC : Comparator dom comp) H n r it l1 p l2 w
    (Hr : tree23 H r) (Hord : in_order (dom := dom) (comp := comp) (pairs r))
    (Hit : points H r it l1 p l2) (Hw : mem_ok w) :
  exists H' r', qBTree__erase comp (BDesc n r) it w =
      Ok ((0, BDesc (u32 (n - 1)) r'), set_live (w_live w + (blocks r' - blocks r)) w) /\
    leaves H H' r' (l1 ++ l2) /\ in_order (dom := dom) (comp := comp) (pairs r').
Proof. by apply (btree_erase_ok dom comp HC H n r it l1 p l2). Qed.

(** A key that is not in the tree leaves it as it is, with the result -1; the two
    blocks of the copied pair stay allocated. *)
Theorem btree_erase_absent (dom : list byte -> Prop) (comp : Cmp) (HC : Comparator dom comp) H n r it p w
    (Hr : tree23 H r) (Hord : in_order (dom := dom) (comp := comp) (pairs r)) (Hp : dom (key p))
    (Hit : qBTreeIterator_deref it = Ok (Some p)) (Habs : find_pair comp (key p) (pairs r) = None) (Hw : mem_ok w) :
  qBTree__erase comp (BDesc n r) it w = Ok ((-1, BDesc n r), set_live (w_live w + 2) w).
Proof.
  unfold qBTree__erase, qBTreeIterator_deref in *. rewrite Hit.
  erewrite prog_bind_ok by reflexivity. erewrite prog_bind_ok by reflexivity.
  erewrite prog_bind_ok by (by apply malloc_ok). cbn [negb].
  erewrite prog_bind_ok by (by apply malloc_ok). cbn [negb root size].
  set (w2 := set_live _ (set_live _ w)).
  pose proof (recursive_erase_ok p Hp r H w2 Hr Hord) as He. rewrite Habs in He.
  rewrite (prog_bind_ok _ _ _ _ _ He). refine (result_live (-1, BDesc n r) _ _ w _). cbn. lia.
Qed.

(** ** Witnesses *)

(** The iterator at "b", in the node at the top. *)
Definition it_ex : qBTreeIterator := BIter tree_ex 0 [].

Lemma it_ex_points :
  points 2 tree_ex it_ex [pair_ex Byte.x61] (pair_ex Byte.x62) [pair_ex Byte.x63; pair_ex Byte.x64].
Proof. exists 2%nat. split_and!; [done|by cbn|by left|done|]. by eexists _, _. Qed.

Lemma btree_erase_spec_witness :
  exists H' r', qBTree__erase string_comparator (BDesc 4 tree_ex) it_ex (start []) =
      Ok ((0, BDesc 3 r'), set_live (blocks r' - blocks tree_ex) (start [])) /\
    tree23 H' r' /\ pairs r' = map pair_ex [Byte.x61; Byte.x63; Byte.x64].
Proof.
  destruct (btree_erase_spec int_string string_comparator _ 2 4 tree_ex it_ex _ _ _ (start [])
    tree_ex_tree23 tree_ex_in_order it_ex_points eq_refl) as (H' & r' & E & (Hr & Ep & _) & _).
  exists H', r'. split; [exact E|]. split; [exact Hr|exact Ep].
Defined.
