(* ===== verification/BTreeSpec.v ===== *)
(** * What the B-tree implements

    The abstract state of a B-tree is its list of pairs in key order; a client's
    calls are insertions, searches, and erasures of a key that has been searched.
    The refinement theorem relates any sequence of calls on the tree of BTree.v to
    the same sequence on the list, as long as what is inserted is greater than
    what is there: otherwise keys can be lost (BTreeInsert.v). *)

From S2P Require Import Prelude World Utils Ordered BTree BTreeOrder BTreeFacts BTreeInsert BTreeErase.
Local Open Scope Z_scope.

(** ** Calls *)

Inductive btree_call : Type :=
| BInsert (k v : list byte)
| BFind (k : list byte)
| BErase (k : list byte).

Definition btree_key (c : btree_call) : list byte :=
  match c with BInsert k _ | BFind k | BErase k => k end.

Section calls.
Context (comp : Cmp).

(** A call on the tree and what it returns: the status, and the pair a search has
    found. *)
Definition btree_step (c : btree_call) (desc : qBTreeDescriptor)
  : io ((Z * option qPair) * qBTreeDescriptor) :=
  match c with
  | BInsert k v =>
      '(r, desc) ← qBTree__insert comp desc k (blen k) v (blen v);
      mret ((r, None), desc)
  | BFind k =>
      '(r, it) ← lift_res (qBTree__ptr_at comp desc k);
      if negb (r =? 0) then mret ((r, None), desc) else
      p ← lift_res (qBTreeIterator_deref it);
      mret ((r, p), desc)
  | BErase k =>
      '(r, it) ← lift_res (qBTree__ptr_at comp desc k);
      if negb (r =? 0) then mret ((r, None), desc) else
      '(r, desc) ← qBTree__erase comp desc it;
      mret ((r, None), desc)
  end.

Fixpoint btree_run (cs : list btree_call) (desc : qBTreeDescriptor)
  : io (list (Z * option qPair) * qBTreeDescriptor) :=
  match cs with
  | [] => mret ([], desc)
  | c :: cs' =>
      '(r, desc) ← btree_step c desc;
      '(rs, desc) ← btree_run cs' desc;
      mret (r :: rs, desc)
  end.

(** The same call on the list of pairs. *)
Definition pairs_step (c : btree_call) (l : list qPair) : (Z * option qPair) * list qPair :=
  match c with
  | BInsert k v =>
      match find_pair comp k l with
      | Some _ => ((-1, None), l)
      | None => ((0, None), insert_pair comp (Pair k v) l)
      end
  | BFind k =>
      match find_pair comp k l with Some p => ((0, Some p), l) | None => ((-1, None), l) end
  | BErase k =>
      match find_pair comp k l with
      | Some _ => ((0, None), remove_pair comp k l)
      | None => ((-1, None), l)
      end
  end.

Fixpoint pairs_run (cs : list btree_call) (l : list qPair) : list (Z * option qPair) * list qPair :=
  match cs with
  | [] => ([], l)
  | c :: cs' =>
      let '(r, l1) := pairs_step c l in
      let '(rs, l2) := pairs_run cs' l1 in
      (r :: rs, l2)
  end.

(** The call does not insert a key below one that is there. *)
Definition appends (c : btree_call) (l : list qPair) : bool :=
  match c with
  | BInsert k _ => forallb (fun p => ccmp comp (key p) k <? 0) l
  | _ => true
  end.

Fixpoint all_append (cs : list btree_call) (l : list qPair) : bool :=
  match cs with
  | [] => true
  | c :: cs' => appends c l && all_append cs' (pairs_step c l).2
  end.

End calls.

(** ** Refinement *)

Section refinement.
Context {dom : list byte -> Prop} {comp : Cmp} `{!Comparator dom comp}.

(** The tree is well-formed and in order, and its size is right. *)
Definition btree_ok (desc : qBTreeDescriptor) : Prop :=
  (exists H, tree23 H (root desc)) /\ in_order (dom := dom) (comp := comp) (pairs (root desc)) /\
  size desc = blen (pairs (root desc)).

Lemma btree_empty_ok : btree_ok qBTree_constructor.
Proof using Type. split; [by exists 0%nat|]. split; [|done]. split; constructor. Qed.

(** The iterators' stacks are large enough. *)
Lemma height_small H t : tree23 H t -> blen (pairs t) < 2 ^ 32 -> (H <= 100)%nat.
Proof using Type.
  intros Ht%tree23_size Hl. destruct (Nat.le_gt_cases H 100) as [|Hgt]; [done|].
  pose proof (Z.pow_le_mono_r 2 101 (Z.of_nat H) ltac:(lia) ltac:(lia)). lia.
Qed.

Lemma remove_pair_length k l : (length (remove_pair comp k l) <= length l)%nat.
Proof using Type. induction l as [|p l IH]; [done|]. cbn. destruct (_ =? 0); cbn; lia. Qed.

Lemma appends_greatest k v l :
  in_order (dom := dom) (comp := comp) l -> appends comp (BInsert k v) l = true ->
  Forall (fun p => dom (key p) /\ ccmp comp (key p) k < 0) l.
Proof using Type.
  intros Ho Ha. apply list.Forall_and. split; [exact (in_order_dom _ Ho)|].
  apply list.Forall_forall. intros p Hp%list_elem_of_In. apply Z.ltb_lt.
  by apply (proj1 (forallb_forall _ _) Ha).
Qed.

(** The search, on a tree that is well-formed. *)
Lemma ptr_at_ok k desc :
  btree_ok desc -> dom k -> size desc < 2 ^ 32 ->
  match find_pair comp k (pairs (root desc)) with
  | Some p => exists H it l1 l2, tree23 H (root desc) /\ qBTree__ptr_at comp desc k = Ok (0, it) /\
      qBTreeIterator_isvalid it = true /\ qBTreeIterator_deref it = Ok (Some p) /\
      pairs (root desc) = l1 ++ p :: l2 /\ points H (root desc) it l1 p l2
  | None => qBTree__ptr_at comp desc k = Ok (-1, zero_iter)
  end.
Proof using Type*.
  intros ([H Hr] & Ho & Hn) Hk Hs. destruct desc as [n r]. cbn [root size] in *.
  pose proof (btree_search_ok dom comp _ H n r k Hr (height_small H r Hr ltac:(lia)) Ho Hk) as E.
  destruct (find_pair comp k (pairs r)) as [p|]; [|done].
  destruct E as (it & l1 & l2 & E & Ed & El & Hp). exists H, it, l1, l2.
  by pose proof (points_pairs _ _ _ _ _ _ Hp) as (_ & ? & _).
Qed.

(** The blocks of a tree, when the call has changed it. *)
Definition after (w : world) (d d' : qBTreeDescriptor) : world :=
  set_live (w_live w + (blocks (root d') - blocks (root d))) w.

Lemma after_same w d : after w d d = w.
Proof using Type. apply set_live_id. lia. Qed.

Lemma after_after w d1 d2 d3 : after (after w d1 d2) d2 d3 = after w d1 d3.
Proof using Type. unfold after, set_live. cbn. f_equal. lia. Qed.

Lemma btree_step_refines c desc w :
  btree_ok desc -> dom (btree_key c) -> appends comp c (pairs (root desc)) = true ->
  size desc + 1 < 2 ^ 32 -> mem_ok w ->
  exists desc', btree_ok desc' /\
    btree_step comp c desc w = Ok (((pairs_step comp c (pairs (root desc))).1, desc'), after w desc desc') /\
    pairs (root desc') = (pairs_step comp c (pairs (root desc))).2.
Proof using Type*.
  intros Hok Hk Ha Hs Hm. pose proof Hok as ([H Hr] & Ho & Hn). pose proof (blen_nonneg (pairs (root desc))).
  destruct c as [k v|k|k]; cbn [btree_key btree_step pairs_step] in *.
  - pose proof (appends_greatest k v _ Ho Ha) as Hg. destruct desc as [n r]. cbn [root size] in *.
    pose proof (btree_insert_ok H n r k v w Hr Ho Hk (insert_safe_greatest (Pair k v) r H Hk Hr Hg)
      (uwrap_small 32 n ltac:(lia)) Hm) as Hi.
    rewrite below_none in Hi |- * by (done || by apply list.Forall_and in Hg as [_ ?]).
    destruct Hi as (H' & r' & E & _ & Hr' & Ep & Ho').
    exists (BDesc (u32 (n + 1)) r'). split; [|split; [|done]].
    + split; [by exists H'|]. split; [done|]. cbn [root size]. rewrite uwrap_small by lia.
      rewrite Ep. unfold blen in *. rewrite insert_pair_length. lia.
    + by rewrite (prog_bind_ok _ _ _ _ _ E).
  - pose proof (ptr_at_ok k desc Hok Hk ltac:(lia)) as Hp. exists desc. rewrite after_same.
    destruct (find_pair comp k (pairs (root desc))) as [p|].
    + destruct Hp as (_ & it & l1 & l2 & _ & E & _ & Ed & _). rewrite E. split; [done|]. split; [|done].
      erewrite prog_bind_ok by reflexivity. cbn [Z.eqb negb]. rewrite Ed. by erewrite prog_bind_ok by reflexivity.
    + rewrite Hp. split; [done|]. split; [|done]. by erewrite prog_bind_ok by reflexivity.
  - pose proof (ptr_at_ok k desc Hok Hk ltac:(lia)) as Hp.
    destruct (find_pair comp k (pairs (root desc))) as [p|] eqn:Ef.
    + destruct Hp as (H' & it & l1 & l2 & Hr' & E & _ & _ & El & Hp). destruct desc as [n r]. cbn [root size] in *.
      destruct (btree_erase_ok dom comp _ H' n r it l1 p l2 w Hr' Ho Hp Hm)
        as (H2 & r2 & E2 & (Hr2 & Ep2 & _) & Ho2).
      exists (BDesc (u32 (n - 1)) r2). split; [|split].
      * split; [by exists H2|]. split; [done|]. cbn [root size]. rewrite Hn, El, Ep2 in *.
        rewrite !blen_app, blen_cons in *. pose proof (blen_nonneg l1). pose proof (blen_nonneg l2).
        rewrite uwrap_small by lia. lia.
      * rewrite E. erewrite prog_bind_ok by reflexivity. cbn [Z.eqb negb]. by rewrite (prog_bind_ok _ _ _ _ _ E2).
      * cbn [root snd]. rewrite Ep2, El. symmetry. rewrite El in Ho. apply remove_eq; [done..|].
        apply find_pair_some in Ef. tauto.
    + exists desc. rewrite after_same, Hp. split; [done|]. split; [|done]. by erewrite prog_bind_ok by reflexivity.
Qed.

Lemma pairs_step_size c l : blen (pairs_step comp c l).2 <= blen l + 1.
Proof using Type.
  destruct c as [k v|k|k]; cbn [pairs_step]; destruct (find_pair comp k l); cbn [snd]; try lia; unfold blen.
  - rewrite insert_pair_length. lia.
  - pose proof (remove_pair_length k l). lia.
Qed.

(** C17. The B-tree implements a sorted list of pairs.  Any sequence of searches,
    erasures and insertions that append (of fewer than 2^32 pairs in all) stops,
    with the results and the pairs of the same sequence on the list; the tree
    stays well-formed, in order and of the right size, no NULL pointer is
    followed, the iterators' stacks do not overflow, and the blocks held are
    exactly those of the tree, so what is erased is freed. *)
Theorem btree_refines cs desc w :
  btree_ok desc -> Forall (fun c => dom (btree_key c)) cs ->
  all_append comp cs (pairs (root desc)) = true -> size desc + blen cs < 2 ^ 32 -> mem_ok w ->
  exists desc', btree_ok desc' /\
    btree_run comp cs desc w = Ok (((pairs_run comp cs (pairs (root desc))).1, desc'), after w desc desc') /\
    pairs (root desc') = (pairs_run comp cs (pairs (root desc))).2.
Proof using Type*.
  intros Hok Hcs. revert desc w Hok. induction Hcs as [|c cs Hc Hcs IH]; intros desc w Hok Ha Hs Hm.
  { exists desc. cbn. by rewrite after_same. }
  rewrite blen_cons in Hs. pose proof (blen_nonneg cs). cbn [all_append] in Ha. apply andb_true_iff in Ha as [Ha Has].
  destruct (btree_step_refines c desc w Hok Hc Ha ltac:(lia) Hm) as (d1 & Hok1 & E1 & El1).
  pose proof (pairs_step_size c (pairs (root desc))) as Hst. cbn [btree_run pairs_run].
  destruct (pairs_step comp c (pairs (root desc))) as [r l1]. cbn [fst snd] in *. subst l1.
  destruct (IH d1 (after w desc d1)) as (d2 & Hok2 & E2 & El2); [done|done| |done|].
  { destruct Hok as (_ & _ & ?), Hok1 as (_ & _ & ?). lia. }
  exists d2. rewrite (prog_bind_ok _ _ _ _ _ E1), (prog_bind_ok _ _ _ _ _ E2).
  destruct (pairs_run comp cs (pairs (root d1))) as [rs l2]. by rewrite after_after.
Qed.

End refinement.

(** ** Witness *)

Lemma btree_refines_witness :
  exists desc', (btree_run string_comparator
      [BFind [Byte.x63]; BErase [Byte.x63]; BFind [Byte.x63]; BInsert [Byte.x65] []; BErase [Byte.x7a]]
      (BDesc 4 tree_ex) (start [])) =
    Ok (([(0, Some (pair_ex Byte.x63)); (0, None); (-1, None); (0, None); (-1, None)], desc'),
        after (start []) (BDesc 4 tree_ex) desc') /\
    pairs (root desc') = map pair_ex [Byte.x61; Byte.x62; Byte.x64; Byte.x65].
Proof.
  destruct (btree_refines (dom := int_string) (comp := string_comparator)
    [BFind [Byte.x63]; BErase [Byte.x63]; BFind [Byte.x63]; BInsert [Byte.x65] []; BErase [Byte.x7a]]
    (BDesc 4 tree_ex) (start [])) as (d & _ & E & Ep);
    [split; [by exists 2%nat; apply tree_ex_tree23|by split; [apply tree_ex_in_order|]]
    |repeat constructor|by vm_compute|by vm_compute|done|].
  exists d. split; [exact E|exact Ep].
Defined.
