(* ===== verification/BTreeSafe.v ===== *)
(** * The B-tree in any order

    Keys can get out of order (BTreeInsert.v), and a caller may give a comparison
    function that is not an order.  What follows holds even then: for any function
    and any sequence of calls no NULL pointer is followed, the tree keeps its
    shape, the iterators' stacks do not overflow, and the tree is the multiset of
    the pairs that have been inserted and not been erased: none is lost or
    doubled by splitting, rotating and merging nodes.  No law of comparison is
    assumed in this file. *)

From S2P Require Import Prelude World Utils Ordered BTree BTreeOrder BTreeFacts BTreeInsert BTreeErase BTreeSpec.
Local Open Scope Z_scope.

(** ** Multisets of pairs *)

#[export] Instance qPair_eq_dec : EqDecision qPair.
Proof. solve_decision. Defined.

Definition times (p : qPair) (l : list qPair) : nat := count_occ qPair_eq_dec l p.

Lemma times_app p l1 l2 : times p (l1 ++ l2) = (times p l1 + times p l2)%nat.
Proof. apply count_occ_app. Qed.

Lemma times_cons p q l : times p (q :: l) = (times p [q] + times p l)%nat.
Proof. apply (times_app p [q] l). Qed.

Lemma times_permutation l1 l2 : l1 ≡ₚ l2 <-> forall p, times p l1 = times p l2.
Proof. apply (Permutation_count_occ qPair_eq_dec). Qed.

(** Permutations of concatenations, from permutations of their parts. *)
Ltac times_parts :=
  repeat first
    [ rewrite times_app in *
    | match goal with
      | H : context [times ?x (?p :: ?q :: ?l)] |- _ => rewrite (times_cons x p (q :: l)) in H
      | H : context [times ?x (?p :: ?l1 ++ ?l2)] |- _ => rewrite (times_cons x p (l1 ++ l2)) in H
      | H : context [times ?x (?p :: pairs ?t)] |- _ => rewrite (times_cons x p (pairs t)) in H
      | |- context [times ?x (?p :: ?q :: ?l)] => rewrite (times_cons x p (q :: l))
      | |- context [times ?x (?p :: ?l1 ++ ?l2)] => rewrite (times_cons x p (l1 ++ l2))
      | |- context [times ?x (?p :: ?l)] => is_var l; rewrite (times_cons x p l)
      | |- context [times ?x (?p :: pairs ?t)] => rewrite (times_cons x p (pairs t))
      end ].

Ltac bag :=
  repeat match goal with H : _ ≡ₚ _ |- _ => rewrite times_permutation in H end;
  apply times_permutation; let x := fresh "x" in intros x;
  repeat match goal with H : forall p, times p _ = times p _ |- _ => specialize (H x) end;
  rewrite ?app_nil_r in *; times_parts; change (times x []) with O in *; lia.

(** ** Insertion *)

Section insertion.
Context (comp : Cmp) (q : qPair).

(** What a node that is too big is split into. *)
Definition parts (h : nat) (t : qBTreeNode) (l : list qPair) : Prop :=
  t <> NULL /\ exists m a b, qBTreeNode__split_up comp t new_node = Ok (m, a, b) /\
    tree23 h a /\ tree23 h b /\ pairs a ++ m :: pairs b ≡ₚ l /\ nodes a + nodes b = nodes t + 1.

(** A pair of [t] compares equal. *)
Definition equal_in (t : qBTreeNode) : Prop := exists p, In p (pairs t) /\ ccmp comp (key q) (key p) = 0.

(** The three results of the recursive insertion in [t]. *)
Definition stored (h : nat) (t : qBTreeNode) (st : Z) (t' : qBTreeNode) : Prop :=
  (st = -1 /\ t' = t /\ equal_in t) \/
  (st = 0 /\ tree23 h t' /\ pairs t' ≡ₚ q :: pairs t) \/
  (st = 1 /\ parts h t' (q :: pairs t)).

Abbreviation stores prog w h t := (exists st t',
  prog w = Ok ((st, t'), set_live (w_live w + (nodes t' - nodes t)) w) /\ stored h t st t').

(** Wherever the third pair belongs, the halves are well-formed. *)
Lemma any_parts h p0 p1 m c0 c1 c2 a l :
  tree23 h c0 -> tree23 h c1 -> tree23 h c2 -> tree23 h a ->
  pairs c0 ++ p0 :: pairs c1 ++ p1 :: pairs c2 ++ m :: pairs a ≡ₚ l ->
  parts (S h) (BNode (Some p0) (Some p1) c0 c1 c2 (Some m) a) l.
Proof using Type.
  intros H0 H1 H2 Ha Hl. split; [done|]. cbn.
  repeat (destruct (_ <? 0)); eexists _, _, _; (split_and!; [done..| |cbn; lia]); rewrite <- Hl; cbn; bag.
Qed.

(** What a node does with one of its children: [f] puts the child back. *)
Lemma store_in_child h h' c t (f : qBTreeNode -> qBTreeNode) (K : qPair -> qBTreeNode -> qBTreeNode -> io (Z * qBTreeNode)) w :
  mem_ok w -> stores (qBTree__recursive_insert comp c q) w h c ->
  f c = t -> (forall c', nodes (f c') = nodes c' + (nodes t - nodes c)) ->
  (forall p, In p (pairs c) -> In p (pairs t)) ->
  (forall c', tree23 h c' -> pairs c' ≡ₚ q :: pairs c -> tree23 h' (f c') /\ pairs (f c') ≡ₚ q :: pairs t) ->
  (forall m a b, tree23 h a -> tree23 h b -> pairs a ++ m :: pairs b ≡ₚ q :: pairs c ->
     exists st t', (forall w', K m a b w' = Ok ((st, t'), w')) /\ stored h' t st t' /\
       nodes t' = nodes a + nodes b + (nodes t - nodes c)) ->
  stores (
    '(issp, c) ← qBTree__recursive_insert comp c q;
    if (issp =? 0) || (issp =? -1) then mret (issp, f c) else
    topronode ← qBTreeNode__constructor;
    '(topropair, topronode, c) ← lift_res (qBTreeNode__split_up comp c topronode);
    K topropair topronode c) w h' t.
Proof using Type.
  intros Hw (st & c' & E & Hst) Hf Hn Hin H0 H1. rewrite (prog_bind_ok _ _ _ _ _ E).
  destruct Hst as [(-> & -> & p & Hp & E0)|[(-> & Hc & Ep)|(-> & _ & m & a & b & Es & Ha & Hb & Ep & En)]].
  - exists (-1), t. split; [|left; split_and!; [done..|]; exists p; split; [by apply Hin|done]]. rewrite Hf. cbn. apply result_live. lia.
  - exists 0, (f c'). destruct (H0 c' Hc Ep) as [Ht Et].
    split; [cbn; apply result_live; rewrite Hn; lia|]. right. by left.
  - destruct (H1 m a b Ha Hb Ep) as (st & t' & EK & Hst & Hn'). exists st, t'. split; [|done].
    change ((1 =? 0) || (1 =? -1)) with false. cbv iota.
    erewrite prog_bind_ok by (by apply btree_constructor_ok). rewrite Es.
    erewrite prog_bind_ok by reflexivity. rewrite EK. refine (result_live _ _ _ w _). cbn. lia.
Qed.

Lemma store_leaf p0 k1 w :
  let t := BNode (Some p0) k1 NULL NULL NULL None NULL in
  stores (qBTree__recursive_insert comp t q) w 1 t.
Proof using Type.
  intros t. subst t. cbn. destruct k1 as [p1|].
  - eexists _, _. split; [apply result_same; cbn; lia|]. right. right. split; [done|].
    by apply any_parts; [..|cbn; bag].
  - erewrite prog_bind_ok by reflexivity. destruct (Z.eqb_spec (ccmp comp (key q) (key p0)) 0) as [E|_].
    { eexists _, _. split; [apply result_same; cbn; lia|]. left. split_and!; [done..|]. exists p0. split; [by left|done]. }
    destruct (0 <? _); (eexists _, _; split; [apply result_same; cbn; lia|]; right; left; split_and!; [done..|cbn; bag]).
Qed.

Lemma recursive_insert_stores : forall t h w, tree23 (S h) t -> mem_ok w ->
  stores (qBTree__recursive_insert comp t q) w (S h) t.
Proof using Type.
  induction t as [|k0 k1 c0 IH0 c1 IH1 c2 IH2 e ec _]; intros h w H23 Hw; [done|]. pose proof H23 as Hs.
  apply tree23_inv in Hs as (p0 & ? & ? & ? & ? & [= -> <- <- <- <- -> ->] & H0 & H1 & H2).
  destruct (leaf_or_inner _ _ _ _ _ _ H23) as [(-> & -> & -> & ->)|(h' & -> & L0 & L1)]; [by apply store_leaf|].
  cbn [qBTree__recursive_insert some_pair]. rewrite L0, L1. cbn [andb].
  erewrite prog_bind_ok by reflexivity.
  assert (forall p, In p (opt (Some p0) ++ opt k1) -> ccmp comp (key q) (key p) = 0 ->
    stores (mret (M:=prog world) (-1, BNode (Some p0) k1 c0 c1 c2 None NULL)) w (S (S h')) (BNode (Some p0) k1 c0 c1 c2 None NULL)) as Hsame.
  { intros p Hp E. eexists _, _. split; [apply result_same; lia|left; split_and!; [done..|]].
    exists p. split; [|done]. cbn [pairs opt]. rewrite !in_app_iff in *. tauto. }
  destruct (Z.eqb_spec (ccmp comp (key q) (key p0)) 0) as [E0|_]; [by eapply Hsame; [left|]|]. destruct (_ <? 0).
  { apply (store_in_child (S h') _ c0 _ (fun c => BNode (Some p0) k1 c c1 c2 None NULL)); try done; [by apply IH0|..].
    - intros c'. cbn. lia.
    - intros p. cbn [pairs]. rewrite !in_app_iff. tauto.
    - intros c' Hc Ep. split; [done|]. cbn. bag.
    - intros m a b Ha Hb Ep. destruct k1 as [p1|]; [|subst c2]; (eexists _, _; split; [done|]; split; [|cbn; lia]).
      + right. right. split; [done|]. apply any_parts; try done. cbn. bag.
      + right. left. split_and!; [done..|]. cbn. bag. }
  destruct k1 as [p1|]; cbn [orb].
  2: { apply (store_in_child (S h') _ c1 _ (fun c => BNode (Some p0) None c0 c c2 None NULL)); try done; [by apply IH1|..].
    - intros c'. cbn. lia.
    - intros p. cbn [pairs]. rewrite !in_app_iff. tauto.
    - intros c' Hc Ep. split; [done|]. cbn. bag.
    - intros m a b Ha Hb Ep. eexists _, _. split; [done|]. split; [|cbn; subst c2; cbn; lia].
      right. left. split_and!; [done..|]. subst c2. cbn. bag. }
  destruct (_ <? 0).
  { apply (store_in_child (S h') _ c1 _ (fun c => BNode (Some p0) (Some p1) c0 c c2 None NULL)); try done; [by apply IH1|..].
    - intros c'. cbn. lia.
    - intros p. cbn [pairs]. rewrite !in_app_iff. tauto.
    - intros c' Hc Ep. split; [done|]. cbn. bag.
    - intros m a b Ha Hb Ep. eexists _, _. split; [done|]. split; [|cbn; lia].
      right. right. split; [done|]. apply any_parts; try done. cbn. bag. }
  destruct (Z.eqb_spec (ccmp comp (key q) (key p1)) 0) as [E1|_]; [by eapply Hsame; [right; left|]|].
  apply (store_in_child (S h') _ c2 _ (fun c => BNode (Some p0) (Some p1) c0 c1 c None NULL)); try done; [by apply IH2|..].
  - intros c'. cbn. lia.
  - intros p. cbn [pairs]. rewrite !in_app_iff. tauto.
  - intros c' Hc Ep. split; [done|]. cbn. bag.
  - intros m a b Ha Hb Ep. eexists _, _. split; [done|]. split; [|cbn; lia].
    right. right. split; [done|]. apply any_parts; try done. cbn. bag.
Qed.
End insertion.

Lemma insert_bag (comp : Cmp) H n r k v w (Hr : tree23 H r) (Hn : u32 n = n) (Hw : mem_ok w) :
  (equal_in comp (Pair k v) r /\
   qBTree__insert comp (BDesc n r) k (blen k) v (blen v) w = Ok ((-1, BDesc n r), set_live (w_live w + 2) w)) \/
  exists H' r', tree23 H' r' /\ pairs r' ≡ₚ Pair k v :: pairs r /\
    qBTree__insert comp (BDesc n r) k (blen k) v (blen v) w =
      Ok ((0, BDesc (u32 (n + 1)) r'), after w (BDesc n r) (BDesc (u32 (n + 1)) r')).
Proof.
  unfold qBTree__insert. rewrite (prog_bind_ok _ _ _ _ _ (duplicate_ok k _ w Hw eq_refl)).
  erewrite prog_bind_ok by (by apply duplicate_ok). cbn [root size].
  set (w2 := set_live _ (set_live _ w)). assert (w2 = set_live (w_live w + 2) w) as Ew2.
  { unfold w2, set_live. cbn. f_equal. lia. }
  assert (mem_ok w2) as Hw2 by done. clearbody w2.
  assert (forall r', pairs r' ≡ₚ Pair k v :: pairs r -> blocks r' - blocks r = nodes r' - nodes r + 2) as Hfin.
  { intros r' E%Permutation_length. unfold blocks, blen. rewrite E. cbn [length]. lia. }
  destruct H as [|h].
  - apply tree23_0 in Hr as ->. right. rewrite (prog_bind_ok _ _ _ _ _ (insert_null (Pair k v) w2 Hw2)).
    exists 1%nat, (BNode (Some (Pair k v)) None NULL NULL NULL None NULL). split_and!; [done..|].
    rewrite Ew2. unfold after. cbn [root]. rewrite Hfin by done. exact_live n w.
  - destruct (recursive_insert_stores comp (Pair k v) r h w2 Hr Hw2) as (st & t' & E & Hst).
    rewrite (prog_bind_ok _ _ _ _ _ E). destruct Hst as [(-> & -> & Heq)|[(-> & Ht & Ep)|(-> & _ & m & a & b & Es & Ha & Hb & Ep & En)]].
    + left. split; [done|]. rewrite set_live_id by lia. change ((-1 =? 0) || (-1 =? -1)) with true.
      unfold mret, prog_ret. cbv iota. change (-1 + 1) with 0. by rewrite Z.add_0_r, Hn, Ew2.
    + right. exists (S h), t'. split_and!; [done..|]. rewrite Ew2. unfold after. cbn [root].
      rewrite (Hfin _ Ep). exact_live n w.
    + right. change ((1 =? 0) || (1 =? -1)) with false. cbv iota.
      erewrite prog_bind_ok by (by apply btree_constructor_ok). cbn [is_null new_node]. fold new_node. rewrite Es.
      erewrite prog_bind_ok by reflexivity. cbv beta iota. erewrite prog_bind_ok by (by apply btree_constructor_ok).
      cbn [is_null new_node]. assert (pairs (BNode (Some m) None a b NULL None NULL) ≡ₚ Pair k v :: pairs r) as Ep'.
      { cbn. bag. }
      exists (S (S h)), (BNode (Some m) None a b NULL None NULL). split_and!; [done..|].
      rewrite Ew2. unfold after. cbn [root]. rewrite (Hfin _ Ep'). exact_live n w.
Qed.

(** ** Deletion *)

Section deletion.
Context (comp : Cmp) (q : qPair).

(** Nothing is found, or a pair that compares equal goes, with its blocks. *)
Definition taken (h : nat) (t : qBTreeNode) (w : world) (prog : io (Z * qBTreeNode)) : Prop :=
  prog w = Ok ((-1, t), w) \/
  exists p l1 l2, pairs t = l1 ++ p :: l2 /\ ccmp comp (key q) (key p) = 0 /\ becomes prog w h t (l1 ++ l2) 2.

Lemma taken_ext h t w prog prog' : prog w = prog' w -> taken h t w prog' -> taken h t w prog.
Proof using Type. unfold taken. by intros ->. Qed.

(** The deletion in the child between the pairs [la] and [lb] of [t]. *)
Lemma take_in_child h h' c t (f : qBTreeNode -> qBTreeNode) (K : Z -> qBTreeNode -> io (Z * qBTreeNode)) w la lb :
  taken h c w (qBTree__recursive_erase comp c q) ->
  f c = t -> K (-1) t w = Ok ((-1, t), w) ->
  (forall c', nodes (f c') = nodes c' + (nodes t - nodes c)) ->
  (forall c', pairs (f c') = la ++ pairs c' ++ lb) ->
  (forall st c' w', shrunk h st c' -> becomes (K st (f c')) w' h' (f c') (pairs (f c')) 0) ->
  taken h' t w ('(st, c) ← qBTree__recursive_erase comp c q; K st (f c)).
Proof using Type.
  intros [Hc|(p & l1 & l2 & Ec & E0 & Hc)] Hf Hk Hn Hp HK.
  - left. by rewrite (prog_bind_ok _ _ _ _ _ Hc), Hf.
  - right. exists p, (la ++ l1), (l2 ++ lb). split_and!; [|done|].
    + by rewrite <- Hf, Hp, Ec, <- !app_assoc.
    + apply (in_child h h' c t f _ (fun st c => K st (f c)) w 2 (l1 ++ l2) _ Hc Hn).
      intros st c' w' Hs E. split; [by apply HK|]. by rewrite Hp, E, <- !app_assoc.
Qed.

Lemma recursive_erase_takes : forall t h w, tree23 h t -> taken h t w (qBTree__recursive_erase comp t q).
Proof using Type.
  induction t as [|k0 k1 c0 IH0 c1 IH1 c2 IH2 e ec _]; intros h w H23; [by left|].
  destruct h as [|h]; [done|]. pose proof H23 as Hs.
  apply tree23_inv in Hs as (p0 & ? & ? & ? & ? & [= -> <- <- <- <- -> ->] & H0 & H1 & H2).
  cbn [qBTree__recursive_erase some_pair]. eapply taken_ext; [by erewrite prog_bind_ok by reflexivity|].
  destruct (Z.eqb_spec (ccmp comp (key q) (key p0)) 0) as [E0|N0].
  { right. exists p0, (pairs c0), (pairs c1 ++ opt k1 ++ pairs c2). split_and!; [done..|]. by apply erase_first. }
  destruct (_ <? 0).
  { eapply (take_in_child _ _ c0 _ (fun c => BNode (Some p0) k1 c c1 c2 None NULL)
      (fun st t => rebalance st t true false 0) _ []); [by apply IH0|done|done|intros; cbn; lia|done|].
    intros st c' w' Hc. by apply (settle_0 _ w' st c' Hc). }
  destruct k1 as [p1|].
  2: { subst c2. eapply (take_in_child _ _ c1 _ (fun c => BNode (Some p0) None c0 c NULL None NULL)
      (fun st t => rebalance st t false true 1) _ (pairs c0 ++ [p0]) []);
      [by apply IH1|done|done|intros; cbn; lia|intros; cbn; by rewrite <- !app_assoc|].
    intros st c' w' Hc. by apply (settle_1 _ w' st c' Hc). }
  destruct (Z.eqb_spec (ccmp comp (key q) (key p1)) 0) as [E1|N1].
  { right. exists p1, (pairs c0 ++ p0 :: pairs c1), (pairs c2).
    split_and!; [cbn; by rewrite <- !app_assoc|done|]. rewrite <- app_assoc.
    by apply (erase_second h p0 (Some p1) c0 c1 c2 w H23 p1). }
  destruct (_ <? 0).
  - eapply (take_in_child _ _ c1 _ (fun c => BNode (Some p0) (Some p1) c0 c c2 None NULL)
      (fun st t => rebalance st t true true 1) _ (pairs c0 ++ [p0]));
      [by apply IH1|done|done|intros; cbn; lia|intros; cbn; by rewrite <- !app_assoc|].
    intros st c' w' Hc. by apply (settle_1 _ w' st c' Hc).
  - eapply (take_in_child _ _ c2 _ (fun c => BNode (Some p0) (Some p1) c0 c1 c None NULL)
      (fun st t => rebalance st t false true 2) _ (pairs c0 ++ p0 :: pairs c1 ++ [p1]) []);
      [by apply IH2|done|done|intros; cbn; lia|intros; cbn; rewrite app_nil_r; by rewrite <- !app_assoc; cbn; rewrite <- !app_assoc|].
    intros st c' w' Hc. by apply (settle_2 _ w' st c' Hc).
Qed.
End deletion.

(** ** Search *)

Section search.
Context (comp : Cmp) (H : nat) (r : qBTreeNode) (Hmax : (H <= 100)%nat) (k : list byte).

Lemma recursive_search_finds : forall t h tr,
  tree23 h t -> track_ok H r h t tr ->
  qBTree__recursive_search comp t tr k = Ok (-1, zero_iter) \/
  exists it l1 p l2, qBTree__recursive_search comp t tr k = Ok (0, it) /\ points H r it l1 p l2 /\
    ccmp comp k (key p) = 0.
Proof using Hmax.
  induction t as [|k0 k1 c0 IH0 c1 IH1 c2 IH2 e ec _]; intros h tr H23 Ht; [by left|].
  destruct h as [|h]; [done|]. pose proof H23 as Hs.
  apply tree23_inv in Hs as (p0 & ? & ? & ? & ? & [= -> <- <- <- <- -> ->] & H0 & H1 & H2).
  cbn [qBTree__recursive_search some_pair mbind res_bind]. rewrite (push_ok _ _ Hmax _ _ _ 0 Ht),
    (push_ok _ _ Hmax _ _ _ 1 Ht), (push_ok _ _ Hmax _ _ _ 2 Ht). cbn [mbind res_bind].
  destruct (Z.eqb_spec (ccmp comp k (key p0)) 0) as [E0|_].
  { right. eexists _, _, p0, _. split_and!; [done| |done]. exists (S h).
    split_and!; try done; [by left|]. eexists c0, c1. by split_and!. }
  destruct (_ <? 0); [by eapply IH0; [|by split_and!]|]. destruct k1 as [p1|].
  2: { destruct c1 as [|? ? ? ? ? ? ?] eqn:E1; [by left|]. rewrite <- E1 in *. cbn [is_null].
    replace (is_null c1) with false by (by rewrite E1). by eapply IH1; [|by split_and!]. }
  destruct (Z.eqb_spec (ccmp comp k (key p1)) 0) as [E1|_].
  { right. eexists _, _, p1, _. split_and!; [done| |done]. exists (S h).
    split_and!; try done; [by right|]. eexists c1, c2. by split_and!. }
  destruct (_ <? 0); [by eapply IH1; [|by split_and!]|by eapply IH2; [|by split_and!]].
Qed.
End search.

(** ** Calls *)

(** The tree has its shape and its size. *)
Definition btree_wf (desc : qBTreeDescriptor) : Prop :=
  (exists H, tree23 H (root desc)) /\ size desc = blen (pairs (root desc)).

Section calls.
Context (comp : Cmp).

(** The pair at which an iterator stands, found with [k]. *)
Definition found (k : list byte) (p : qPair) (l : list qPair) : Prop := In p l /\ ccmp comp k (key p) = 0.

(** What a call does with the multiset [l], with its result and the number of
    blocks that it leaves allocated outside of the tree. *)
Inductive bag_step : btree_call -> list qPair -> Z * option qPair -> list qPair -> Z -> Prop :=
| bag_insert k v l l' : l' ≡ₚ Pair k v :: l -> bag_step (BInsert k v) l (0, None) l' 0
| bag_refuse k v l p : found k p l -> bag_step (BInsert k v) l (-1, None) l 2
| bag_find k l p : found k p l -> bag_step (BFind k) l (0, Some p) l 0
| bag_no_find k l : bag_step (BFind k) l (-1, None) l 0
| bag_erase k l l' p p' :
    found k p l -> ccmp comp (key p) (key p') = 0 -> l ≡ₚ p' :: l' -> bag_step (BErase k) l (0, None) l' 0
| bag_no_erase k l : bag_step (BErase k) l (-1, None) l 0
| bag_astray k l p : found k p l -> bag_step (BErase k) l (-1, None) l 2.

Inductive bag_run : list btree_call -> list qPair -> list (Z * option qPair) -> list qPair -> Z -> Prop :=
| bag_done l : bag_run [] l [] l 0
| bag_more c cs l r l1 n rs l2 m :
    bag_step c l r l1 n -> bag_run cs l1 rs l2 m -> bag_run (c :: cs) l (r :: rs) l2 (n + m).

(** The blocks after a call that leaves [n] blocks allocated. *)
Definition leaking (n : Z) (w : world) (d d' : qBTreeDescriptor) : world :=
  set_live (w_live w + (blocks (root d') - blocks (root d)) + n) w.

Lemma leaking_same n w d : leaking n w d d = set_live (w_live w + n) w.
Proof using Type. unfold leaking, set_live. f_equal. lia. Qed.

Lemma leaking_0 w d d' : leaking 0 w d d' = after w d d'.
Proof using Type. unfold leaking, after, set_live. f_equal. lia. Qed.

Lemma leaking_leaking n m w d1 d2 d3 : leaking m (leaking n w d1 d2) d2 d3 = leaking (n + m) w d1 d3.
Proof using Type. unfold leaking, set_live. cbn. f_equal. lia. Qed.

Lemma ptr_at_finds desc k : btree_wf desc -> size desc < 2 ^ 32 ->
  qBTree__ptr_at comp desc k = Ok (-1, zero_iter) \/
  exists H it l1 p l2, tree23 H (root desc) /\ qBTree__ptr_at comp desc k = Ok (0, it) /\
    points H (root desc) it l1 p l2 /\ found k p (pairs (root desc)) /\ qBTreeIterator_deref it = Ok (Some p).
Proof using Type.
  intros [[H Hr] Hn] Hs. unfold qBTree__ptr_at.
  destruct (recursive_search_finds comp H (root desc) (height_small _ _ Hr ltac:(lia)) k _ H [] Hr)
    as [E|(it & l1 & p & l2 & E & Hp & E0)]; [done|by left|right].
  pose proof (points_pairs _ _ _ _ _ _ Hp) as (Ep & _ & Ed).
  exists H, it, l1, p, l2. split_and!; try done. split; [|done]. rewrite Ep. apply in_elt.
Qed.

Lemma erase_bag H n r it l1 p l2 w :
  tree23 H r -> points H r it l1 p l2 -> mem_ok w ->
  qBTree__erase comp (BDesc n r) it w = Ok ((-1, BDesc n r), set_live (w_live w + 2) w) \/
  exists H' r' p', tree23 H' r' /\ ccmp comp (key p) (key p') = 0 /\ pairs r ≡ₚ p' :: pairs r' /\
    qBTree__erase comp (BDesc n r) it w =
      Ok ((0, BDesc (u32 (n - 1)) r'), after w (BDesc n r) (BDesc (u32 (n - 1)) r')).
Proof using Type.
  intros Hr Hit Hw. pose proof (points_pairs _ _ _ _ _ _ Hit) as (_ & _ & Ed). unfold qBTreeIterator_deref in Ed.
  unfold qBTree__erase. rewrite Ed. erewrite prog_bind_ok by reflexivity. erewrite prog_bind_ok by reflexivity.
  erewrite prog_bind_ok by (by apply malloc_ok). cbn [negb].
  erewrite prog_bind_ok by (by apply malloc_ok). cbn [negb root size].
  set (w2 := set_live _ (set_live _ w)). assert (w2 = set_live (w_live w + 2) w) as Ew2.
  { unfold w2, set_live. cbn. f_equal. lia. }
  clearbody w2.
  destruct (recursive_erase_takes comp p r H w2 Hr) as [E|(p' & la & lb & Er & E0 & st & t' & E & Hsh & Et)];
    rewrite (prog_bind_ok _ _ _ _ _ E); [left; by rewrite Ew2|right].
  assert (forall r', pairs r' = la ++ lb -> pairs r ≡ₚ p' :: pairs r' /\ blocks r' - blocks r = nodes r' - nodes r - 2) as Hfin.
  { intros r' Er'. rewrite Er, Er'. split; [symmetry; apply Permutation_middle|].
    unfold blocks. rewrite Er, Er', !blen_app, blen_cons. lia. }
  destruct Hsh as [[-> Ht']|(-> & g & c & -> & -> & Hc)].
  - exists H, t', p'. destruct (Hfin t' Et) as [Hp Hb]. split_and!; [done..|].
    rewrite Ew2. unfold after. cbn [root]. rewrite Hb.
    refine (result_live (0, BDesc (u32 (n - 1)) t') _ _ w _). cbn. lia.
  - assert (pairs c = la ++ lb) as Ec by (rewrite <- Et; cbn; by rewrite app_nil_r).
    exists g, c, p'. destruct (Hfin c Ec) as [Hp Hb]. split_and!; [done..|].
    rewrite Ew2. unfold after. cbn [root]. rewrite Hb.
    refine (result_live (0, BDesc (u32 (n - 1)) c) _ _ w _). cbn. lia.
Qed.

Lemma btree_step_bag c desc w :
  btree_wf desc -> size desc + 1 < 2 ^ 32 -> mem_ok w ->
  exists r desc' n, btree_wf desc' /\ size desc' <= size desc + 1 /\
    bag_step c (pairs (root desc)) r (pairs (root desc')) n /\
    btree_step comp c desc w = Ok ((r, desc'), leaking n w desc desc').
Proof using Type.
  intros Hwf Hs Hm. pose proof Hwf as [[H Hr] Hn]. pose proof (blen_nonneg (pairs (root desc))).
  destruct c as [k v|k|k]; cbn [btree_step].
  - destruct desc as [n r]. cbn [root size] in *.
    destruct (insert_bag comp H n r k v w Hr (uwrap_small 32 n ltac:(lia)) Hm)
      as [[(p & Hp & E0) E]|(H' & r' & Hr' & Ep & E)].
    + exists (-1, None), (BDesc n r), 2. split_and!; [done|cbn [size]; lia|by apply (bag_refuse _ _ _ p)|].
      by rewrite (prog_bind_ok _ _ _ _ _ E), leaking_same.
    + exists (0, None), (BDesc (u32 (n + 1)) r'), 0. rewrite (prog_bind_ok _ _ _ _ _ E), leaking_0.
      cbn [root size]. rewrite uwrap_small by lia. split_and!; [|lia|by constructor|done].
      split; [by exists H'|]. cbn [root size]. apply Permutation_length in Ep.
      unfold blen in *. rewrite Ep. cbn [length]. lia.
  - destruct (ptr_at_finds desc k Hwf ltac:(lia)) as [E|(H' & it & l1 & p & l2 & _ & E & _ & Hf & Ed)]; rewrite E.
    + exists (-1, None), desc, 0. rewrite leaking_0, after_same. erewrite prog_bind_ok by reflexivity.
      split_and!; [done|lia|constructor|done].
    + exists (0, Some p), desc, 0. rewrite leaking_0, after_same. erewrite prog_bind_ok by reflexivity.
      cbn [Z.eqb negb]. rewrite Ed. erewrite prog_bind_ok by reflexivity. split_and!; [done|lia|by constructor|done].
  - destruct (ptr_at_finds desc k Hwf ltac:(lia)) as [E|(H' & it & l1 & p & l2 & Hr' & E & Hp & Hf & _)]; rewrite E.
    + exists (-1, None), desc, 0. rewrite leaking_0, after_same. erewrite prog_bind_ok by reflexivity.
      split_and!; [done|lia|constructor|done].
    + destruct desc as [n r]. cbn [root size] in *. erewrite prog_bind_ok by reflexivity. cbn [Z.eqb negb].
      destruct (erase_bag H' n r it l1 p l2 w Hr' Hp Hm) as [E'|(H2 & r' & p' & Hr2 & E0 & Ep & E')];
        rewrite (prog_bind_ok _ _ _ _ _ E').
      * exists (-1, None), (BDesc n r), 2. rewrite leaking_same.
        split_and!; [done|cbn [size]; lia|by apply (bag_astray _ _ p)|done].
      * exists (0, None), (BDesc (u32 (n - 1)) r'), 0. rewrite leaking_0. cbn [root size].
        apply Permutation_length in Ep as El. unfold blen in *. cbn [length] in El.
        rewrite uwrap_small by lia. split_and!; [|lia|by eapply bag_erase|done].
        split; [by exists H2|]. cbn [root size]. unfold blen. lia.
Qed.

(** C18. For any comparison function, whatever it answers, any sequence of
    insertions, searches and erasures on a tree of the right shape (in any order)
    runs without following a NULL pointer or overflowing an iterator's stack; the
    tree keeps its shape and its size, and the multiset of its pairs changes as
    the results say: an insertion adds exactly its pair or finds an equal one, an
    erasure removes exactly one pair or none, a search finds a pair that compares
    equal or changes nothing.  The blocks held are those of the tree and two for
    each insertion refused and each erasure that does not find again the key
    that has just been found. *)
Theorem btree_safe cs desc w :
  btree_wf desc -> size desc + blen cs < 2 ^ 32 -> mem_ok w ->
  exists rs desc' n, btree_wf desc' /\
    bag_run cs (pairs (root desc)) rs (pairs (root desc')) n /\
    btree_run comp cs desc w = Ok ((rs, desc'), leaking n w desc desc').
Proof using Type.
  revert desc w. induction cs as [|c cs IH]; intros desc w Hwf Hs Hm.
  { exists [], desc, 0. rewrite leaking_0, after_same. split_and!; [done|constructor|done]. }
  rewrite blen_cons in Hs. pose proof (blen_nonneg cs).
  destruct (btree_step_bag c desc w Hwf ltac:(lia) Hm) as (r & d1 & n & Hwf1 & Hs1 & Hb & E).
  destruct (IH d1 (leaking n w desc d1) Hwf1 ltac:(lia) Hm) as (rs & d2 & m & Hwf2 & Hbs & Es).
  exists (r :: rs), d2, (n + m). split_and!; [done|by econstructor|]. cbn [btree_run].
  by rewrite (prog_bind_ok _ _ _ _ _ E), (prog_bind_ok _ _ _ _ _ Es), leaking_leaking.
Qed.

End calls.

(** ** Witness *)

(** The keys in descending order, after which two of them are not found any more
    ([btree_insert_loses]), and a comparison function that is no order. *)
Definition calls_ex : list btree_call :=
  map (fun b => BInsert [b] []) [Byte.x65; Byte.x64; Byte.x63; Byte.x62; Byte.x61] ++
  [BFind [Byte.x61]; BErase [Byte.x65]; BInsert [Byte.x63] []].

Definition always_less : Cmp := fun _ _ _ _ => -1.

Lemma btree_safe_witness :
  (exists rs desc' n, btree_wf desc' /\
    bag_run string_comparator calls_ex [] rs (pairs (root desc')) n /\
    btree_run string_comparator calls_ex qBTree_constructor (start []) =
      Ok ((rs, desc'), leaking n (start []) qBTree_constructor desc')) /\
  (exists rs desc' n, btree_wf desc' /\
    bag_run always_less calls_ex [] rs (pairs (root desc')) n /\
    btree_run always_less calls_ex qBTree_constructor (start []) =
      Ok ((rs, desc'), leaking n (start []) qBTree_constructor desc')).
Proof.
  assert (btree_wf qBTree_constructor) as Hwf by (split; [by exists 0%nat|done]).
  split; apply (btree_safe _ calls_ex qBTree_constructor (start []) Hwf eq_refl eq_refl).
Defined.

(** What the calls of the example return: the tree that the first search looks
    through is out of order. *)
Example calls_ex_results :
  match btree_run string_comparator calls_ex qBTree_constructor (start []) with
  | Ok ((rs, desc), _) => (rs, size desc, pairs (root desc))
  | _ => ([], 0, [])
  end =
  ([(0, None); (0, None); (0, None); (0, None); (0, None); (-1, None); (0, None); (-1, None)], 4,
   map pair_ex [Byte.x63; Byte.x64; Byte.x61; Byte.x62]).
Proof. vm_compute. reflexivity. Qed.
