(* ===== verification/TestBTree.v ===== *)
(** * The test of the B-tree (zhwkre/tests/btree_test.c)

    The program inserts the integers below [TESTNUM], each with its successor as
    value, finds them, iterates both ways, erases the odd ones and looks again.
    It passes for every even [TESTNUM] ([btree_test_passes]): it inserts in
    increasing order, the order in which no key is lost. *)

From stdpp Require Import list_numbers.
From S2P Require Import Prelude World Utils Ordered BTree BTreeOrder BTreeFacts BTreeInsert BTreeSpec Selftest.
Local Open Scope Z_scope.

(** ** The program *)

(** The loop [for(it = first; isvalid(it); it = step(it))]. *)
Fixpoint iterate {S} (step : qBTreeIterator -> res qBTreeIterator) (fuel : nat) (it : qBTreeIterator)
    (body : qPair -> S -> io S) (s : S) : io S :=
  match fuel with
  | O => fun _ => Diverged
  | Datatypes.S fuel' =>
      if qBTreeIterator_isvalid it then
        p ← lift_res (qBTreeIterator_deref it);
        p ← lift_res (some_pair p);
        s ← body p s;
        it ← lift_res (step it);
        iterate step fuel' it body s
      else mret s
  end.

(** What the loops over a whole tree do: the body for each pair. *)
Fixpoint along {S} (body : qPair -> S -> io S) (l : list qPair) (s : S) : io S :=
  match l with
  | [] => mret s
  | p :: l' => s ← body p s; along body l' s
  end.

Lemma prog_bind_ext {A B} (m : io A) (f g : A -> io B) w :
  (forall a w, f a w = g a w) -> (m ≫= f) w = (m ≫= g) w.
Proof. intros E. unfold mbind, prog_bind. destruct (m w) as [[a w']| | | |]; [apply E|done..]. Qed.

(** One turn of the loop at a pair, and its end. *)
Lemma iterate_step {S} step fuel H r it l1 p l2 (body : qPair -> S -> io S) s w :
  points H r it l1 p l2 ->
  iterate step (Datatypes.S fuel) it body s w =
    (s ← body p s; it ← lift_res (step it); iterate step fuel it body s) w.
Proof.
  intros Hp. pose proof (points_pairs _ _ _ _ _ _ Hp) as (_ & Hv & Hd). cbn [iterate].
  rewrite Hv, Hd. by do 2 erewrite prog_bind_ok by reflexivity.
Qed.

Lemma iterate_end {S} step fuel (body : qPair -> S -> io S) s w :
  iterate step (Datatypes.S fuel) zero_iter body s w = Ok (s, w).
Proof. done. Qed.

Section over_a_tree.
Context {S : Type} (H : nat) (r : qBTreeNode) (Hmax : (H <= 100)%nat) (body : qPair -> S -> io S).

Lemma iterate_next l2 : forall it l1 p fuel s w,
  points H r it l1 p l2 -> (length l2 + 1 < fuel)%nat ->
  iterate qBTreeIterator_next fuel it body s w = along body (p :: l2) s w.
Proof using Hmax.
  induction l2 as [|q l2 IH]; intros it l1 p fuel s w Hp Hf; (destruct fuel as [|fuel]; [lia|]);
    rewrite (iterate_step _ _ _ _ _ _ _ _ _ _ _ Hp); cbn [along length] in *;
    apply prog_bind_ext; intros s' w'; pose proof (next_ok _ _ Hmax _ _ _ _ Hp) as Hn; cbn in Hn.
  - rewrite Hn; erewrite prog_bind_ok by reflexivity. destruct fuel as [|fuel]; [lia|]. apply iterate_end.
  - destruct Hn as (it' & -> & Hp'). erewrite prog_bind_ok by reflexivity. apply (IH _ _ _ _ _ _ Hp'). lia.
Qed.

Lemma iterate_prev l1 : forall it p l2 fuel s w,
  points H r it l1 p l2 -> (length l1 + 1 < fuel)%nat ->
  iterate qBTreeIterator_prev fuel it body s w = along body (p :: rev l1) s w.
Proof using Hmax.
  induction l1 as [|q l1 IH] using rev_ind; intros it p l2 fuel s w Hp Hf; (destruct fuel as [|fuel]; [lia|]);
    rewrite (iterate_step _ _ _ _ _ _ _ _ _ _ _ Hp), ?rev_app_distr; cbn [along app rev];
    apply prog_bind_ext; intros s' w';
    destruct (prev_ok _ _ Hmax _ _ _ _ Hp) as [[E ->]|(q' & l & it' & E & -> & Hp')]; erewrite prog_bind_ok by reflexivity.
  - destruct fuel as [|fuel]; [cbn in Hf; lia|]. apply iterate_end.
  - by destruct l.
  - by destruct l1.
  - apply app_inj_tail in E as [<- <-]. rewrite length_app in Hf. cbn in Hf.
    apply (IH _ _ _ _ _ _ Hp'). lia.
Qed.

(** The loops from [begin] and from [end]. *)
Lemma iterate_up fuel n s w :
  tree23 H r -> (length (pairs r) < fuel)%nat ->
  exists it, qBTree_begin (BDesc n r) = Ok it /\
    iterate qBTreeIterator_next fuel it body s w = along body (pairs r) s w.
Proof using Hmax.
  intros Hr Hf. pose proof (begin_ok H n r Hr Hmax) as Hb. destruct (pairs r) as [|p l].
  - exists zero_iter. split; [done|]. destruct fuel as [|fuel]; [lia|]. apply iterate_end.
  - destruct Hb as (it & Hb & Hp). exists it. split; [done|]. apply (iterate_next _ _ _ _ _ _ _ Hp). cbn in Hf. lia.
Qed.

Lemma iterate_down fuel n s w :
  tree23 H r -> (length (pairs r) < fuel)%nat ->
  exists it, qBTree_end (BDesc n r) = Ok it /\
    iterate qBTreeIterator_prev fuel it body s w = along body (rev (pairs r)) s w.
Proof using Hmax.
  intros Hr Hf. destruct (end_ok H n r Hr Hmax) as [[E He]|(p & l & it & E & He & Hp)]; rewrite E in *.
  - exists zero_iter. split; [done|]. destruct fuel as [|fuel]; [cbn in Hf; lia|]. apply iterate_end.
  - exists it. split; [done|]. rewrite rev_app_distr. apply (iterate_prev _ _ _ _ _ _ _ Hp).
    rewrite length_app in Hf. cbn in Hf. lia.
Qed.

End over_a_tree.

Section test.
Context (TESTNUM : Z).

(** A search has found a pair with the value [i + 1]. *)
Definition has_value (search : Z * qBTreeIterator) (i : Z) : io unit :=
  let '(stat, testiter) := search in
  expect (stat =? 0);;
  expect (qBTreeIterator_isvalid testiter);;
  p ← lift_res (qBTreeIterator_deref testiter);
  p ← lift_res (some_pair p);
  expect (read_int (value p) =? i + 1).

Definition put (i : Z) (desc : qBTreeDescriptor) : io qBTreeDescriptor :=
  '(stat, desc) ← qBTree__insert int_comparator desc (int4 i) 4 (int4 (i + 1)) 4;
  fatalerr;;
  expect (stat =? 0);;
  mret desc.

Definition get (desc : qBTreeDescriptor) (i : Z) (_ : unit) : io unit :=
  search ← lift_res (qBTree__ptr_at int_comparator desc (int4 i));
  fatalerr;;
  has_value search i.

Definition drop_odd (i : Z) (desc : qBTreeDescriptor) : io qBTreeDescriptor :=
  if i mod 2 =? 0 then mret desc else
  '(stat, testiter) ← lift_res (qBTree__ptr_at int_comparator desc (int4 i));
  expect (stat =? 0);;
  '(stat, desc) ← qBTree__erase int_comparator desc testiter;
  expect (stat =? 0);;
  mret desc.

Definition get_even (desc : qBTreeDescriptor) (i : Z) (_ : unit) : io unit :=
  search ← lift_res (qBTree__ptr_at int_comparator desc (int4 i));
  if i mod 2 =? 0 then has_value search i else expect (search.1 =? -1).

(** The key of the pair is the counter, which goes on by [d]. *)
Definition count (d : Z) (p : qPair) (curr : Z) : io Z :=
  expect (read_int (key p) =? curr);;
  mret (curr + d).

Definition btree_test : io Z :=
  let N := Z.to_nat TESTNUM in
  desc ← for_loop 0 N put qBTree_constructor;
  expect (size desc =? TESTNUM);;
  for_loop 0 N (get desc) tt;;
  it ← lift_res (qBTree_begin desc);
  curr ← iterate qBTreeIterator_next (S N) it (count 1) 0;
  expect (curr =? TESTNUM);;
  it ← lift_res (qBTree_end desc);
  curr ← iterate qBTreeIterator_prev (S N) it (count (-1)) (TESTNUM - 1);
  expect (curr =? -1);;
  desc ← for_loop 0 N drop_odd desc;
  expect (size desc =? Z.quot TESTNUM 2);;
  for_loop 0 N (get_even desc) tt;;
  mret 0.

(** ** It passes *)

Context (Hrange : 0 <= TESTNUM < 2 ^ 31).

Abbreviation btree_ok := (BTreeSpec.btree_ok (dom := int_key) (comp := int_comparator)).

Definition pair_of (i : Z) : qPair := Pair (int4 i) (int4 (i + 1)).

(** The tree holds the integers [l], all in the range of the test. *)
Definition holds (desc : qBTreeDescriptor) (l : list Z) : Prop :=
  btree_ok desc /\ pairs (root desc) = pair_of <$> l /\ Forall (fun j => 0 <= j < TESTNUM) l.

Lemma find_ints i l :
  0 <= i < TESTNUM -> Forall (fun j => 0 <= j < TESTNUM) l ->
  find_pair int_comparator (int4 i) (pair_of <$> l) = if bool_decide (i ∈ l) then Some (pair_of i) else None.
Proof using Hrange.
  intros Hi. induction 1 as [|j l Hj _ IH]; [by rewrite bool_decide_eq_false_2 by set_solver|].
  rewrite fmap_cons. cbn [find_pair key pair_of]. rewrite ccmp_int4, IH by lia.
  destruct (Z.eqb_spec (i - j) 0) as [E|E].
  - assert (i = j) as -> by lia. by rewrite bool_decide_eq_true_2 by left.
  - rewrite (bool_decide_ext (i ∈ j :: l) (i ∈ l)); [done|]. rewrite elem_of_cons. split; [intros [->|?]; [lia|done]|by right].
Qed.

Lemma holds_range desc l i : holds desc l -> i ∈ l -> 0 <= i < TESTNUM.
Proof using Type. intros (_ & _ & H) Hi. exact (proj1 (list.Forall_forall _ _) H i Hi). Qed.

Lemma holds_size desc l : holds desc l -> size desc = Z.of_nat (length l).
Proof using Type. intros ((_ & _ & ->) & -> & _). unfold blen. by rewrite length_fmap. Qed.

Lemma seq_fits desc l : holds desc l -> (length l <= Z.to_nat TESTNUM)%nat -> size desc + 1 < 2 ^ 32.
Proof using Hrange. intros ->%holds_size Hl. lia. Qed.

(** The search of a key in the range. *)
Lemma search_int desc l i :
  holds desc l -> (length l <= Z.to_nat TESTNUM)%nat -> 0 <= i < TESTNUM ->
  if bool_decide (i ∈ l) then
    exists it, qBTree__ptr_at int_comparator desc (int4 i) = Ok (0, it) /\
      qBTreeIterator_isvalid it = true /\ qBTreeIterator_deref it = Ok (Some (pair_of i))
  else qBTree__ptr_at int_comparator desc (int4 i) = Ok (-1, zero_iter).
Proof using Hrange.
  intros H Hl Hi. pose proof (seq_fits desc l H Hl). destruct H as (Hok & El & Hr).
  pose proof (ptr_at_ok (int4 i) desc Hok (int4_key i ltac:(lia)) ltac:(lia)) as E.
  rewrite El, find_ints in E by done. destruct (bool_decide (i ∈ l)); [|done].
  destruct E as (_ & it & _ & _ & _ & E & Hv & Ed & _). by exists it.
Qed.

Lemma has_value_ok desc l i w :
  holds desc l -> (length l <= Z.to_nat TESTNUM)%nat -> i ∈ l ->
  exists it, qBTree__ptr_at int_comparator desc (int4 i) = Ok (0, it) /\ has_value (0, it) i w = Ok (tt, w).
Proof using Hrange.
  intros H Hl Hi. pose proof (holds_range desc l i H Hi) as Hir. pose proof (search_int desc l i H Hl Hir) as E.
  rewrite bool_decide_eq_true_2 in E by done. destruct E as (it & E & Hv & Ed).
  exists it. split; [done|]. unfold has_value. do 2 erewrite prog_bind_ok by (by apply expect_ok).
  rewrite Ed. do 2 erewrite prog_bind_ok by reflexivity.
  apply expect_ok. cbn [pair_of value]. rewrite read_int4 by lia. apply Z.eqb_refl.
Qed.

Lemma get_ok desc i w :
  holds desc (seqZ 0 TESTNUM) -> w_err w = 0 -> 0 <= i < TESTNUM -> get desc i tt w = Ok (tt, w).
Proof using Hrange.
  intros H He Hi. destruct (has_value_ok desc _ i w H) as (it & E & Hv);
    [by rewrite length_seqZ|apply elem_of_seqZ; lia|].
  unfold get. rewrite E. erewrite prog_bind_ok by reflexivity.
  by rewrite (prog_bind_ok _ _ _ _ _ (fatalerr_ok w He)).
Qed.

(** *** The loops *)

Lemma put_last i desc w :
  0 <= i < TESTNUM -> holds desc (seqZ 0 i) -> clean w ->
  exists desc' w', put i desc w = Ok (desc', w') /\ holds desc' (seqZ 0 (i + 1)) /\ clean w'.
Proof using Hrange.
  intros Hi H [Hm He]. pose proof H as (Hok & El & Hr).
  assert (Hlt : Forall (fun p => int_key (key p) /\ ccmp int_comparator (key p) (key (pair_of i)) < 0) (pair_of <$> seqZ 0 i)).
  { apply list.Forall_fmap, list.Forall_forall. intros j Hj%elem_of_seqZ. unfold compose. cbn [key pair_of].
    rewrite ccmp_int4 by lia. split; [apply int4_key; lia|lia]. }
  assert (Es : pairs_step int_comparator (BInsert (int4 i) (int4 (i + 1))) (pair_of <$> seqZ 0 i) =
    ((0, None), pair_of <$> seqZ 0 (i + 1))).
  { cbn [pairs_step]. rewrite find_ints; [|lia|apply Forall_seqZ; intros; lia].
    rewrite bool_decide_eq_false_2 by (rewrite elem_of_seqZ; lia). f_equal.
    change (Pair _ _) with (pair_of i). rewrite (insert_pair_last (dom := int_key) (pair_of i) _ (int4_key i ltac:(lia)) Hlt).
    rewrite seqZ_app, fmap_app by lia. done. }
  destruct (btree_step_refines (BInsert (int4 i) (int4 (i + 1))) desc w Hok (int4_key i ltac:(lia)))
    as (d' & Hok' & E & El').
  - cbn [appends]. rewrite El. apply forallb_forall. intros p Hp%list_elem_of_In.
    apply Z.ltb_lt. exact (proj2 (proj1 (list.Forall_forall _ _) Hlt p Hp)).
  - apply (seq_fits desc _ H). rewrite length_seqZ. lia.
  - done.
  - rewrite El, Es in E, El'. cbn [fst snd btree_step] in E, El'.
    apply prog_bind_inv in E as ([st d1] & w1 & E & [= -> -> Ew]).
    exists d', w1. split; [|split; [split_and!; [done|done|apply Forall_seqZ; intros; lia]|by rewrite Ew]].
    unfold put. rewrite (prog_bind_ok _ _ _ _ _ E). cbv beta iota.
    assert (He1 : w_err w1 = 0) by (by rewrite Ew).
    by rewrite (prog_bind_ok _ _ _ _ _ (fatalerr_ok w1 He1)).
Qed.

Lemma put_loop w :
  clean w -> exists desc w', for_loop 0 (Z.to_nat TESTNUM) put qBTree_constructor w = Ok (desc, w') /\
    holds desc (seqZ 0 TESTNUM) /\ clean w'.
Proof using Hrange.
  intros Hc. apply (for_loop_ok (fun i desc w => holds desc (seqZ 0 i) /\ clean w)); [lia| |].
  - split; [|done]. split; [apply btree_empty_ok|]. by split; [|constructor].
  - intros i desc w1 Hi [H Hc1]. by apply put_last.
Qed.

(** A loop that changes nothing. *)
Lemma checks_loop body w :
  (forall i, 0 <= i < TESTNUM -> body i tt w = Ok (tt, w)) ->
  for_loop 0 (Z.to_nat TESTNUM) body tt w = Ok (tt, w).
Proof using Hrange.
  intros Hb. destruct (for_loop_ok (fun _ _ w' => w' = w) body TESTNUM (Z.to_nat TESTNUM) 0 tt w)
    as ([] & w' & E & ->); [lia|done| |done].
  intros i [] w1 Hi ->. exists tt, w. split; [by apply Hb|done].
Qed.

Lemma count_ok d i w : 0 <= i < TESTNUM -> count d (pair_of i) i w = Ok (i + d, w).
Proof using Hrange.
  intros Hi. unfold count. erewrite prog_bind_ok; [done|].
  apply expect_ok. cbn [key pair_of]. rewrite read_int4 by lia. apply Z.eqb_refl.
Qed.

Lemma count_keys i n w :
  0 <= i -> 0 <= n -> i + n <= TESTNUM -> along (count 1) (pair_of <$> seqZ i n) i w = Ok (i + n, w).
Proof using Hrange.
  intros Hi Hn. revert i Hi. pattern n. apply natlike_ind; [| |done]; clear n Hn.
  - intros i Hi _. by rewrite Z.add_0_r.
  - intros n Hn IH i Hi Hle. rewrite seqZ_cons by lia. cbn [fmap list_fmap along]. erewrite prog_bind_ok by (apply count_ok; lia).
    replace (Z.pred (Z.succ n)) with n by lia. rewrite IH by lia. do 2 f_equal. lia.
Qed.

Lemma count_down n w :
  0 <= n <= TESTNUM -> along (count (-1)) (rev (pair_of <$> seqZ 0 n)) (n - 1) w = Ok (-1, w).
Proof using Hrange.
  intros [Hn Hle]. revert Hle. pattern n. apply natlike_ind; [| |done]; clear n Hn.
  - done.
  - intros n Hn IH Hle. replace (Z.succ n) with (n + 1) by lia.
    rewrite seqZ_app, fmap_app, rev_app_distr by lia. change (seqZ (0 + n) 1) with [n].
    cbn [fmap list_fmap rev app along].
    replace (n + 1 - 1) with n by lia. erewrite prog_bind_ok by (apply count_ok; lia).
    replace (n + -1) with (n - 1) by lia. apply IH. lia.
Qed.

Lemma remove_pairs i l :
  0 <= i < TESTNUM -> Forall (fun j => 0 <= j < TESTNUM) l -> NoDup l ->
  remove_pair int_comparator (int4 i) (pair_of <$> l) = pair_of <$> List.filter (fun j => negb (i =? j)) l.
Proof using Hrange.
  intros Hi Hl Hd. induction Hl as [|j l Hj Hl IH]; [done|]. apply list.NoDup_cons in Hd as [Hnj Hd].
  rewrite fmap_cons. cbn [remove_pair List.filter key pair_of]. rewrite ccmp_int4 by lia.
  destruct (Z.eqb_spec (i - j) 0) as [E|E].
  - assert (i = j) as -> by lia. rewrite Z.eqb_refl. cbn [negb]. f_equal. symmetry.
    rewrite (filter_ext_in _ (fun _ => true)); [apply filter_true|].
    intros x Hx%list_elem_of_In. destruct (Z.eqb_spec j x) as [->|]; done.
  - rewrite (proj2 (Z.eqb_neq i j)) by lia. cbn [negb]. rewrite IH by done. done.
Qed.

Lemma left_after_short i : (length (left_after TESTNUM i) <= Z.to_nat TESTNUM)%nat.
Proof using Type. unfold left_after. etrans; [apply filter_length_le|]. by rewrite length_seqZ. Qed.

Lemma left_after_NoDup i : NoDup (left_after TESTNUM i).
Proof using Type. apply NoDup_ListNoDup, List.NoDup_filter, NoDup_ListNoDup, NoDup_seqZ. Qed.

Lemma drop_one i desc w :
  0 <= i < TESTNUM -> holds desc (left_after TESTNUM i) -> clean w ->
  exists desc' w', drop_odd i desc w = Ok (desc', w') /\
    holds desc' (left_after TESTNUM (i + 1)) /\ clean w'.
Proof using Hrange.
  intros Hi H Hc. unfold drop_odd. rewrite left_after_step.
  destruct (Z.eqb_spec (i mod 2) 0) as [E|E]; [by exists desc, w|].
  assert (Hin : i ∈ left_after TESTNUM i) by (apply left_after_in; lia).
  pose proof (search_int desc _ i H (left_after_short i) Hi) as Hs. rewrite bool_decide_eq_true_2 in Hs by done.
  destruct Hs as (it & Es & _). pose proof (seq_fits desc _ H (left_after_short i)) as Hsz.
  destruct H as (Hok & El & Hr).
  destruct (btree_step_refines (BErase (int4 i)) desc w Hok (int4_key i ltac:(lia)) eq_refl Hsz (proj1 Hc))
    as (d' & Hok' & Et & El').
  cbn [btree_step pairs_step] in Et, El'. rewrite El, find_ints, bool_decide_eq_true_2 in Et, El' by done.
  cbn [fst snd] in Et, El'. rewrite remove_pairs in El' by (done || apply left_after_NoDup).
  rewrite Es in Et |- *.
  apply prog_bind_inv in Et as ([? ?] & ? & [= <- <- <-] & Et). cbn [Z.eqb negb] in Et.
  apply prog_bind_inv in Et as ([st d1] & w1 & Et & [= -> -> Ew]).
  exists d', w1. split; [|split; [split_and!; [done|done|]|by rewrite Ew]].
  - erewrite prog_bind_ok by reflexivity. cbv beta iota. erewrite prog_bind_ok by (by apply expect_ok).
    by rewrite (prog_bind_ok _ _ _ _ _ Et).
  - pose proof (left_after_range TESTNUM (i + 1)) as Hr'. rewrite left_after_step in Hr'.
    by rewrite (proj2 (Z.eqb_neq _ _)) in Hr'.
Qed.

Lemma drop_loop desc w :
  holds desc (seqZ 0 TESTNUM) -> clean w ->
  exists desc' w', for_loop 0 (Z.to_nat TESTNUM) drop_odd desc w = Ok (desc', w') /\
    holds desc' (left_after TESTNUM TESTNUM) /\ clean w'.
Proof using Hrange.
  intros H Hc. apply (for_loop_ok (fun i desc w => holds desc (left_after TESTNUM i) /\ clean w)); [lia| |].
  - by rewrite left_after_all.
  - intros i d w1 Hi [Hd Hc1]. by apply drop_one.
Qed.

Lemma get_even_ok desc i w :
  holds desc (left_after TESTNUM TESTNUM) -> 0 <= i < TESTNUM -> get_even desc i tt w = Ok (tt, w).
Proof using Hrange.
  intros H Hi. unfold get_even. pose proof (left_after_in TESTNUM TESTNUM i) as Hin.
  destruct (Z.eqb_spec (i mod 2) 0) as [E|E].
  - destruct (has_value_ok desc _ i w H (left_after_short _)) as (it & Es & Hv); [apply Hin; split; [lia|by left]|].
    rewrite Es. by erewrite prog_bind_ok by reflexivity.
  - pose proof (search_int desc _ i H (left_after_short _) Hi) as Hs.
    rewrite bool_decide_eq_false_2 in Hs by (rewrite Hin; lia). rewrite Hs.
    by erewrite prog_bind_ok by reflexivity.
Qed.

(** C39. The test of the B-tree passes.  For every even number of elements that an
    [int] can count, the whole program of btree_test.c returns 0: every
    insertion, search, step forwards and backwards and erasure gives what the
    program compares it with. *)
Theorem btree_test_passes w :
  TESTNUM mod 2 = 0 -> mem_ok w -> w_err w = 0 -> exists w', btree_test w = Ok (0, w').
Proof using Hrange.
  intros Heven Hm He. unfold btree_test. cbv zeta.
  destruct (put_loop w (conj Hm He)) as (desc & w1 & E & H & Hc). rewrite (prog_bind_ok _ _ _ _ _ E).
  pose proof (holds_size desc _ H) as Hsz. rewrite length_seqZ in Hsz.
  erewrite prog_bind_ok by (apply expect_ok, Z.eqb_eq; lia).
  rewrite (prog_bind_ok _ _ _ _ _ (checks_loop (get desc) w1 ltac:(intros; apply get_ok; [done|apply Hc|done]))).
  pose proof H as (([h Hh] & _ & Hl) & El & _). destruct desc as [n r]. cbn [root size] in *.
  pose proof (height_small h r Hh ltac:(lia)) as Hmax.
  assert (Hf : (length (pairs r) < S (Z.to_nat TESTNUM))%nat) by (rewrite El, length_fmap, length_seqZ; lia).
  destruct (iterate_up h r Hmax (count 1) _ n 0 w1 Hh Hf) as (it & -> & Eu).
  erewrite prog_bind_ok by reflexivity. rewrite El, count_keys in Eu by lia. rewrite (prog_bind_ok _ _ _ _ _ Eu).
  erewrite prog_bind_ok by (apply expect_ok, Z.eqb_eq; lia).
  destruct (iterate_down h r Hmax (count (-1)) _ n (TESTNUM - 1) w1 Hh Hf) as (it' & -> & Ed).
  erewrite prog_bind_ok by reflexivity. rewrite El, count_down in Ed by lia. rewrite (prog_bind_ok _ _ _ _ _ Ed).
  erewrite prog_bind_ok by (by apply expect_ok).
  destruct (drop_loop _ w1 H Hc) as (d' & w2 & E2 & H2 & _). rewrite (prog_bind_ok _ _ _ _ _ E2).
  pose proof (holds_size d' _ H2) as Hs2. rewrite left_after_half in Hs2 by (done || lia).
  erewrite prog_bind_ok by (apply expect_ok, Z.eqb_eq; rewrite Hs2; by rewrite Z.quot_div_nonneg by lia).
  rewrite (prog_bind_ok _ _ _ _ _ (checks_loop (get_even d') w2 ltac:(intros; by apply get_even_ok))).
  by exists w2.
Qed.

End test.

(** ** Witness *)

Lemma btree_test_passes_witness : exists w', btree_test 10000000 (start []) = Ok (0, w').
Proof. by apply (btree_test_passes 10000000). Defined.
