(* ===== verification/Serialization.v ===== *)
(** * Serialization (zhwkre/serialization.h, zhwkre/serialization/serialization.c)

    [qSerialize] turns a list whose elements may be lists themselves into a list
    of strings, one for each level of the nesting; [qUnserialize] builds the lists
    again, from the deepest level up.  An element is a list when its bytes start
    with a list descriptor, which begins with a magic word; the descriptor points
    to nodes elsewhere.  The nodes of all these lists share one memory, and a
    descriptor is in the bytes of an element: [list_descriptor] is its layout, a
    pointer the address of a node.

    The strings of the result belong to it alone: they use the lists of QList.v as
    they are.  Reads of integers at odd addresses are those of x86-64. *)

From Stdlib Require Strings.String.
From S2P Require Import Prelude Layout World Chain Bss QList QMap.
Local Open Scope Z_scope.

(** ** The memory of the lists *)

Record memory : Type := Mem {
  m_nodes : gmap positive link;
  m_cells : gmap positive (cell (list byte));
  m_brk : positive
}.

(** The fields of a descriptor. *)
Record ends : Type := Ends {
  e_head : option positive;
  e_tail : option positive;
  e_size : Z
}.

Definition in_mem (m : memory) (e : ends) : qListDescriptor (list byte) :=
  LDesc (e_head e) (e_tail e) (e_size e) (m_nodes m) (m_cells m) (m_brk m).

Definition mem_of (d : qListDescriptor (list byte)) : memory := Mem (lnodes d) (cells d) (lbrk d).
Definition ends_in (d : qListDescriptor (list byte)) : ends := Ends (head d) (tail d) (size d).

(** [q__List_push_back(&e, b, n)], its result ignored. *)
Definition push_back (m : memory) (e : ends) (b : list byte) (n : Z) : io (ends * memory) :=
  '(_, d) ← q__List_push_back (in_mem m e) b n;
  mret (ends_in d, mem_of d).

(** [struct q__ListDescriptor] (zhwkre/listd.h). *)
Definition list_descriptor : cstruct :=
  [("ldmagic"%string, CBytes 10); ("head"%string, CInt false 8);
   ("tail"%string, CInt false 8); ("size"%string, CInt false 4)].

Definition Q__LD_MAGIC : list byte := Strings.String.list_byte_of_string "__listdesc".

(** A pointer as the bytes hold it; NULL is 0. *)
Definition ptr (p : option positive) : Z := match p with Some i => Zpos i | None => 0 end.
Definition pointer (z : Z) : option positive := match z with Zpos i => Some i | _ => None end.

Definition load_ends (b : list byte) : ends :=
  Ends (pointer (getf list_descriptor "head" b)) (pointer (getf list_descriptor "tail" b))
    (getf list_descriptor "size" b).

Definition store_ends (e : ends) (b : list byte) : list byte :=
  setf list_descriptor "size" (e_size e)
    (setf list_descriptor "tail" (ptr (e_tail e))
      (setf list_descriptor "head" (ptr (e_head e)) b)).

(** The magic has no NUL: [strncmp] compares its ten characters. *)
Definition q__List_islist (b : list byte) (n : Z) : bool :=
  if n <? sizeof list_descriptor then false
  else bool_decide (getb list_descriptor "ldmagic" b = Q__LD_MAGIC).

(** ** Serialization *)

Abbreviation dataset_t := (qListDescriptor qBinarySafeString).

(** [sizeof(qBinarySafeString)] *)
Definition sizeof_bss : Z := 16.

(** [qbss_append(bss, b.str, b.size)] *)
Definition bss_cat (bss b : qBinarySafeString) : io qBinarySafeString :=
  match str b with
  | Some s => q__bss_append bss s (Bss.size b)
  | None => pundef
  end.

(** [q__bss_append(it->data, s, n)]: the string in a node is changed in place. *)
Definition append_at (d : dataset_t) (it : option positive) (s : list byte) (n : Z) : io dataset_t :=
  match it with
  | Some i =>
      match cells d !! i with
      | Some (Some b, k) =>
          b ← q__bss_append b s n;
          mret (set_cells (<[i := (Some b, k)]> (cells d)) d)
      | _ => pundef
      end
  | None => pundef
  end.

Definition append_bss_at (d : dataset_t) (it : option positive) (b : qBinarySafeString) : io dataset_t :=
  match str b with
  | Some s => append_at d it s (Bss.size b)
  | None => pundef
  end.

(** [for(...; nextcntr < n; nextcntr++) it = it->next;] *)
Fixpoint advance (n : nat) (d : dataset_t) (it : option positive) : res (option positive) :=
  match n with
  | O => Ok it
  | S n' =>
      match it with
      | None => Undef
      | Some i => it' ← qListIterator_next d i; advance n' d it'
      end
  end.

(** One turn of the loop over the levels of an inner list: they are appended to
    those of the outer one, from the second on; the strings of the missing levels
    are moved. *)
Definition append_level (c : cell qBinarySafeString) '((retcnt, rdesc) : Z * dataset_t)
  : io ((Z * dataset_t) * bool) :=
  match c with
  | (None, _) => pundef
  | (Some b, _) =>
      it ← lift_res (advance (Z.to_nat retcnt) rdesc (head rdesc));
      rdesc ← match it with
              | None => '(_, d) ← q__List_push_back rdesc b sizeof_bss; mret d
              | Some _ => append_bss_at rdesc it b
              end;
      mret ((s32 (retcnt + 1), rdesc), false)
  end.

(** The nodes of [irdesc] are not freed. *)
Definition append_levels (rdesc irdesc : dataset_t) : io dataset_t :=
  '(_, rdesc) ← qList_foreach irdesc (fun _ => append_level) (1, rdesc);
  mret rdesc.

(** One turn of the loop over the elements; [serialize] is the recursive call. *)
Definition serialize_element (serialize : ends -> qBinarySafeString -> io dataset_t)
    (prefix : qBinarySafeString) (c : cell (list byte)) '((counter, rdesc) : Z * dataset_t)
  : io ((Z * dataset_t) * bool) :=
  match c with
  | (None, _) => pundef
  | (Some b, n) =>
      rdesc ← append_bss_at rdesc (head rdesc) prefix;
      rdesc ← append_at rdesc (head rdesc) (le_enc 4 counter) 4;
      rdesc ← append_at rdesc (head rdesc) (le_enc 4 n) 4;
      rdesc ← append_at rdesc (head rdesc) b n;
      if negb (q__List_islist b n) then mret ((u32 (counter + 1), rdesc), false) else
      tmpiprefix ← qbss_constructor;
      tmpiprefix ← bss_cat tmpiprefix prefix;
      tmpiprefix ← q__bss_append tmpiprefix (le_enc 4 counter) 4;
      irdesc ← serialize (load_ends b) tmpiprefix;
      qbss_destructor tmpiprefix;;
      rdesc ← append_levels rdesc irdesc;
      mret ((u32 (counter + 1), rdesc), false)
  end.

(** The fuel bounds the depth of the nesting: a list that contains itself is
    serialized for ever. *)
Fixpoint q__list_serialize (fuel : nat) (m : memory) (desc : ends) (prefix : qBinarySafeString)
  : io dataset_t :=
  match fuel with
  | O => fun _ => Diverged
  | S fuel' =>
      buffer ← qbss_constructor;
      '(_, rdesc) ← q__List_push_back qList_constructor buffer sizeof_bss;
      '(_, rdesc) ← qList_foreach (in_mem m desc)
        (fun _ => serialize_element (q__list_serialize fuel' m) prefix) (0, rdesc);
      mret rdesc
  end.

Definition qSerialize (fuel : nat) (m : memory) (data : list byte) (len : Z) : io dataset_t :=
  if q__List_islist data len then
    prefix ← qbss_constructor;
    q__list_serialize fuel m (load_ends data) prefix
  else
    tmpbss ← qbss_constructor;
    tmpbss ← q__bss_append tmpbss data len;
    '(_, rdesc) ← q__List_push_back qList_constructor tmpbss sizeof_bss;
    mret rdesc.

(** ** Unserialization *)

Definition Q_DEFAULT_MAXHASHV : Z := 131.

Definition q__uhashf : qHashFuncProto := fun s n =>
  fold_left (fun tmpr c => u32 (u32 (tmpr + byte_to_Z c) * 131)) (btake n s) 0 mod 131.

(** [*(unsigned int* )(buf + pos)] *)
Definition read_uint (buf : list byte) (pos : Z) : res Z :=
  if (0 <=? pos) && (pos + 4 <=? blen buf) then Ok (le_dec (bslice pos 4 buf)) else Undef.

Section unserialization.

(** The bytes of [tmphouse] before [q__List_initdesc]. *)
Context (junk : nat -> byte).

(** [qListDescriptor tmphouse = qList_constructor();] *)
Definition fresh_list : list byte :=
  store_ends (Ends None None 0) (bstore 0 Q__LD_MAGIC (junk <$> seq 0 (Z.to_nat (sizeof list_descriptor)))).

(** The variables of the loop: the offset of [stringiter] in the string, the lists
    by prefix, the list of the top level, and the memory. *)
Record ustate : Type := UState {
  u_pos : Z;
  u_lists : qMap;
  u_items : ends;
  u_mem : memory
}.

(** The sublist of the element, if it has one, is in the map of the level below;
    the element's descriptor is made to point to it. *)
Definition take_sister (previous_data : option qMap) (prefix_num : Z) (tmprefix : qBinarySafeString)
    (tmpcnt : Z) (tmpdata : list byte) : io (list byte) :=
  match previous_data with
  | None => mret tmpdata
  | Some prev =>
      tmpmd ←
        (if prefix_num =? 0 then q__Map_ptr_at prev (le_enc 4 tmpcnt) 4 q__uhashf
         else
           tmpsearcher ← qbss_constructor;
           tmpsearcher ← bss_cat tmpsearcher tmprefix;
           tmpsearcher ← q__bss_append tmpsearcher (le_enc 4 tmpcnt) 4;
           tmpmd ← q__Map_ptr_at prev (content tmpsearcher) (Bss.size tmpsearcher) q__uhashf;
           qbss_destructor tmpsearcher;;
           mret tmpmd);
      match tmpmd ≫= value with
      | None => mret tmpdata
      | Some tmpsister =>
          if blen tmpdata <? end_at 0 list_descriptor then pundef
          else mret (store_ends (load_ends tmpsister) tmpdata)
      end
  end.

(** The element joins its siblings, or starts their list. *)
Definition join_siblings (lists : qMap) (m : memory) (tmprefix : qBinarySafeString)
    (tmpdata : list byte) (tmpsize : Z) : io (qMap * memory) :=
  tmpaddress ← q__Map_ptr_at lists (content tmprefix) (Bss.size tmprefix) q__uhashf;
  match tmpaddress with
  | Some md =>
      match value md with
      | None => pundef
      | Some tmpsiblings =>
          '(e, m) ← push_back m (load_ends tmpsiblings) tmpdata tmpsize;
          lists ← store_value lists (content tmprefix) (Bss.size tmprefix) q__uhashf
                    (store_ends e tmpsiblings);
          mret (lists, m)
      end
  | None =>
      '(e, m) ← push_back m (load_ends fresh_list) tmpdata tmpsize;
      '(_, lists) ← q__Map_insert lists (content tmprefix) (store_ends e fresh_list)
                      (Bss.size tmprefix) (sizeof list_descriptor) q__uhashf;
      mret (lists, m)
  end.

(** One turn of the loop.  [tmpdata] is not freed, its allocation is not tested.
    An element of the top level goes to [itemslist], whether [previous_data] is
    NULL or not. *)
Definition unserialize_element (prefix_num : Z) (previous_data : option qMap) (buf : list byte)
    (u : ustate) : io ustate :=
  tmprefix ← qbss_constructor;
  tmprefix ← (if 0 <? prefix_num
              then q__bss_append tmprefix (bdrop (u_pos u) buf) (u32 (prefix_num * 4))
              else mret tmprefix);
  let pos := u_pos u + prefix_num * 4 in
  tmpcnt ← lift_res (read_uint buf pos);
  tmpsize ← lift_res (read_uint buf (pos + 4));
  let pos := pos + 8 in
  ok ← malloc;
  if negb ok then pundef else
  tmpdata ← lift_res (memcpy (zeros tmpsize) 0 (bdrop pos buf) tmpsize);
  tmpdata ← take_sister previous_data prefix_num tmprefix tmpcnt tmpdata;
  '(lists, m) ← (if prefix_num =? 0 then mret (u_lists u, u_mem u)
                 else join_siblings (u_lists u) (u_mem u) tmprefix tmpdata tmpsize);
  '(items, m) ← (if prefix_num =? 0 then push_back m (u_items u) tmpdata tmpsize
                 else mret (u_items u, m));
  qbss_destructor tmprefix;;
  mret (UState (pos + tmpsize) lists items m).

Fixpoint unserialize_loop (fuel : nat) (prefix_num : Z) (previous_data : option qMap)
    (buf : list byte) (sz : Z) (u : ustate) : io ustate :=
  match fuel with
  | O => fun _ => Diverged
  | S fuel' =>
      if u_pos u =? sz then mret u else
      u ← unserialize_element prefix_num previous_data buf u;
      unserialize_loop fuel' prefix_num previous_data buf sz u
  end.

(** The map [lists] is only cleared: its array is not freed. *)
Fixpoint q__list_unserialize (fuel : nat) (m : memory) (dataset : dataset_t)
    (previous_data : option qMap) : io (ends * memory) :=
  match fuel with
  | O => fun _ => Diverged
  | S fuel' =>
      match tail dataset with
      | None => pundef
      | Some t =>
          c ← lift_res (qListIterator_deref dataset t);
          match c with
          | (None, _) => pundef
          | (Some lbss, _) =>
              lists ← qMap_constructor Q_DEFAULT_MAXHASHV;
              let prefix_num := u32 (size dataset - 1) in
              let buf := default [] (str lbss) in
              u ← unserialize_loop (S (length buf)) prefix_num previous_data buf (Bss.size lbss)
                    (UState 0 lists (Ends None None 0) m);
              if prefix_num =? 0 then
                q__Map_clear (u_lists u);;
                mret (u_items u, u_mem u)
              else
                tmpng ← q__List_copy dataset;
                '(_, tmpng) ← q__List_pop_back tmpng;
                tmpretld ← q__list_unserialize fuel' (u_mem u) tmpng (Some (u_lists u));
                q__Map_clear (u_lists u);;
                q__List_destructor tmpng;;
                mret tmpretld
          end
      end
  end.

(** What the [void*] returned points to. *)
Inductive unserialized : Type :=
| AList (e : ends)
| ABlock (b : list byte).

(** The levels are the elements of the data set: the fuel is their number. *)
Definition qUnserialize (m : memory) (dataset : dataset_t) (isList : bool)
  : io (unserialized * memory) :=
  if isList then
    ok ← malloc;
    '(buffer, m) ← q__list_unserialize (S (Z.to_nat (size dataset))) m dataset None;
    if negb ok then pundef else mret (AList buffer, m)
  else
    bss ← qbss_constructor;
    match head dataset with
    | None => pundef
    | Some h =>
        c ← lift_res (qListIterator_deref dataset h);
        match c with
        | (None, _) => pundef
        | (Some b, _) =>
            bss ← bss_cat bss b;
            match str bss with
            | Some s => mret (ABlock s, m)
            | None => pundef
            end
        end
    end.

End unserialization.
