(* ===== verification/SerialTrees.v ===== *)
(** * Nested lists (for zhwkre/serialization/serialization.c)

    What a list whose elements may be lists holds, as a tree, and the strings that
    the serialization makes of it, one for each level.  A record of a string is the
    path to the element (the indexes of the lists it is in, four bytes each), its
    index, its size and its bytes. *)

From S2P Require Import Prelude Layout World Chain Bss QList QMap Serialization.
Local Open Scope Z_scope.

(** ** Trees *)

Local Unset Elimination Schemes.

(** The bytes of an element, and the elements of the list they describe. *)
Inductive item : Type :=
| Item (data : list byte) (sub : list item).

Definition data (it : item) : list byte := match it with Item d _ => d end.
Definition sub (it : item) : list item := match it with Item _ s => s end.

Lemma item_ind (P : item -> Prop) :
  (forall d s, Forall P s -> P (Item d s)) -> forall it, P it.
Proof.
  intros H. fix IH 1. intros [d s]. apply H. induction s as [|x s IHs]; constructor; [apply IH|done].
Qed.

Definition islist (b : list byte) : bool := q__List_islist b (blen b).

(** The fields [data] and [size] of the node of an element. *)
Definition entry (it : item) : list byte * Z := (data it, blen (data it)).

(** The list [e] has the elements [l], at addresses below [b]. *)
Definition list_at (b : positive) (m : memory) (e : ends) (l : list item) : Prop :=
  exists xs, rep (in_mem m e) xs /\ values xs = entry <$> l /\ Forall (fun i => (i < b)%positive) (addrs xs).

Fixpoint item_at (b : positive) (m : memory) (it : item) : Prop :=
  match it with
  | Item d s =>
      if islist d then list_at b m (load_ends d) s /\ foldr (fun x P => item_at b m x /\ P) True s
      else s = []
  end.

(** The list [e] in the memory [m] is the tree [l], all of it below [b]. *)
Definition holds (b : positive) (m : memory) (e : ends) (l : list item) : Prop :=
  list_at b m e l /\ Forall (item_at b m) l.

(** What the tree does not depend on the memory for: only lists have elements, and
    the descriptor of an empty list has NULL pointers. *)
Fixpoint item_wf (it : item) : Prop :=
  match it with
  | Item d s =>
      (islist d = false -> s = []) /\ (islist d = true -> s = [] -> load_ends d = Ends None None 0) /\
      foldr (fun x P => item_wf x /\ P) True s
  end.

(** ** Levels *)

(** The elements at depth [k], with their paths and indexes. *)
Definition record : Type := list byte * nat * item.

Fixpoint at_level (k : nat) (p : list byte) (l : list item) : list record :=
  match k with
  | O => imap (fun i it => (p, i, it)) l
  | S k' => concat (imap (fun i it => at_level k' (p ++ le_enc 4 (Z.of_nat i)) (sub it)) l)
  end.

Definition record_bytes (r : record) : list byte :=
  r.1.1 ++ le_enc 4 (Z.of_nat r.1.2) ++ le_enc 4 (blen (data r.2)) ++ data r.2.

Definition level (k : nat) (p : list byte) (l : list item) : list byte :=
  concat (record_bytes <$> at_level k p l).

Fixpoint item_depth (it : item) : nat :=
  match it with
  | Item d s => if islist d then S (foldr (fun x n => Nat.max (item_depth x) n) O s) else O
  end.

Definition depth (l : list item) : nat := S (foldr (fun x n => Nat.max (item_depth x) n) O l).

(** The blocks that the serialization of a list leaves allocated: the three of the
    first string (its node, the element of the node, its buffer), two for each
    further one, whose buffer comes from an inner list, and all that the
    serialization of the inner lists has allocated, which is never freed. *)
Fixpoint item_blocks (it : item) : Z :=
  match it with
  | Item d s => if islist d then 2 * Z.of_nat (item_depth it) + 1 + foldr (fun x n => item_blocks x + n) 0 s else 0
  end.

Definition serial_blocks (l : list item) : Z :=
  2 * Z.of_nat (depth l) + 1 + foldr (fun x n => item_blocks x + n) 0 l.

(** The elements of the list and of those in it. *)
Definition elements (n : nat) (l : list item) : nat := sum_list ((fun k => length (at_level k [] l)) <$> seq 0 n).

(** The strings of the tree [l] whose path is [p]. *)
Definition levels (p : list byte) (l : list item) : list (list byte) :=
  (fun k => level k p l) <$> seq 0 (depth l).

(** Every string is shorter than 2^31 bytes. *)
Definition small (p : list byte) (l : list item) : Prop := forall k, blen (level k p l) < 2 ^ 31.

(** ** Lemmas on the trees *)

Lemma foldr_and {A} (P : A -> Prop) l : foldr (fun x Q => P x /\ Q) True l <-> Forall P l.
Proof. induction l as [|x l IH]; cbn; [split; [constructor|done]|]. by rewrite IH, Forall_cons_iff. Qed.

Lemma item_at_eq b m it :
  item_at b m it <-> if islist (data it) then holds b m (load_ends (data it)) (sub it) else sub it = [].
Proof. destruct it as [d s]. cbn. unfold holds. destruct (islist d); [|done]. by rewrite foldr_and. Qed.

Lemma item_wf_eq it :
  item_wf it <-> (islist (data it) = false -> sub it = []) /\
    (islist (data it) = true -> sub it = [] -> load_ends (data it) = Ends None None 0) /\
    Forall item_wf (sub it).
Proof. destruct it as [d s]. cbn. by rewrite foldr_and. Qed.

Lemma list_at_nil b m e : list_at b m e [] -> e = Ends None None 0.
Proof.
  intros (xs & H & E & _). apply fmap_nil_inv in E as ->.
  destruct e as [h t n]. pose proof (rep_head _ _ H). pose proof (rep_tail _ _ H). pose proof (rep_size _ _ H).
  cbn in *. by subst.
Qed.

Lemma item_at_wf b m it : item_at b m it -> item_wf it.
Proof.
  induction it as [d s IH] using item_ind. rewrite item_at_eq, item_wf_eq. cbn [data sub].
  destruct (islist d); [intros [Hl Hs]|intros ->; split_and!; try done; constructor].
  split_and!; [done| |].
  - intros _ ->. by apply (list_at_nil b m).
  - rewrite list.Forall_forall in IH, Hs |- *. intros x Hx. apply IH; [done|by apply Hs].
Qed.

Lemma holds_wf b m e l : holds b m e l -> Forall item_wf l.
Proof. intros [_ H]. eapply list.Forall_impl; [exact H|]. intros. by eapply item_at_wf. Qed.

(** ** Lemmas on the levels *)

Lemma at_level_snoc k p l x :
  at_level k p (l ++ [x]) = at_level k p l ++
    match k with
    | O => [(p, length l, x)]
    | S k' => at_level k' (p ++ le_enc 4 (Z.of_nat (length l))) (sub x)
    end.
Proof.
  destruct k as [|k]; cbn [at_level]; rewrite imap_app; cbn; [by rewrite Nat.add_0_r|].
  by rewrite concat_app, Nat.add_0_r; cbn; rewrite app_nil_r.
Qed.

Lemma level_snoc k p l x :
  level k p (l ++ [x]) = level k p l ++
    match k with
    | O => record_bytes (p, length l, x)
    | S k' => level k' (p ++ le_enc 4 (Z.of_nat (length l))) (sub x)
    end.
Proof.
  unfold level. rewrite at_level_snoc, fmap_app, concat_app. f_equal. destruct k; [|done].
  apply app_nil_r.
Qed.

Lemma level_mono k p l1 l2 : blen (level k p l1) <= blen (level k p (l1 ++ l2)).
Proof.
  induction l2 as [|x l2 IH] using rev_ind; [rewrite app_nil_r; lia|].
  rewrite app_assoc, level_snoc, blen_app. pose proof (blen_nonneg
    match k with O => record_bytes (p, length (l1 ++ l2), x)
    | S k' => level k' (p ++ le_enc 4 (Z.of_nat (length (l1 ++ l2)))) (sub x) end). lia.
Qed.

Lemma small_prefix p l1 l2 : small p (l1 ++ l2) -> small p l1.
Proof. intros H k. pose proof (level_mono k p l1 l2). specialize (H k). lia. Qed.

(** The strings of an element's list, and its path, are short too. *)
Lemma small_sub p l1 x l2 :
  small p (l1 ++ x :: l2) ->
  small (p ++ le_enc 4 (Z.of_nat (length l1))) (sub x) /\
  blen (level 0 p l1) + (blen p + (4 + (4 + blen (data x)))) < 2 ^ 31.
Proof.
  intros H. replace (l1 ++ x :: l2) with ((l1 ++ [x]) ++ l2) in H by (by rewrite <- app_assoc).
  apply small_prefix in H. split.
  - intros k. specialize (H (S k)). rewrite level_snoc, blen_app in H.
    pose proof (blen_nonneg (level (S k) p l1)). lia.
  - specialize (H O). rewrite level_snoc in H. unfold record_bytes in H. cbn [fst snd] in H.
    rewrite !blen_app, !blen_le_enc in H. lia.
Qed.

Lemma depth_nil : depth [] = 1%nat.
Proof. done. Qed.

Lemma item_depth_eq it : item_depth it = if islist (data it) then depth (sub it) else O.
Proof. by destruct it. Qed.

Lemma depth_max l : (forall x, x ∈ l -> (item_depth x < depth l)%nat) /\
  (depth l <> 1%nat -> exists x, x ∈ l /\ depth l = S (item_depth x)).
Proof.
  unfold depth. induction l as [|x l [IH1 IH2]]; cbn [foldr]; [split; [set_solver|lia]|]. split.
  - intros y [<-|Hy]%elem_of_cons; [lia|]. specialize (IH1 y Hy). lia.
  - intros Hd. destruct (Nat.max_spec (item_depth x) (foldr (fun x n => Nat.max (item_depth x) n) O l))
      as [[_ E]|[_ E]]; rewrite E in *.
    + destruct (IH2 Hd) as (y & Hy & Ey). exists y. split; [by right|done].
    + exists x. split; [by left|done].
Qed.

Lemma depth_snoc l x : depth (l ++ [x]) = Nat.max (depth l) (S (item_depth x)).
Proof. unfold depth. induction l as [|y l IH]; cbn [app foldr]; lia. Qed.

Lemma item_blocks_eq it : item_blocks it = if islist (data it) then serial_blocks (sub it) else 0.
Proof. destruct it as [d s]. cbn. by destruct (islist d). Qed.

Lemma serial_blocks_snoc l x :
  serial_blocks (l ++ [x]) =
    serial_blocks l + 2 * (Z.of_nat (depth (l ++ [x])) - Z.of_nat (depth l)) + item_blocks x.
Proof.
  unfold serial_blocks. rewrite foldr_app. cbn [foldr].
  assert (H : forall n, foldr (fun x n => item_blocks x + n) n l = foldr (fun x n => item_blocks x + n) 0 l + n).
  { intros n. induction l as [|y l IH]; cbn [foldr]; [lia|]. rewrite IH. lia. }
  rewrite H. lia.
Qed.

Lemma elements_S n l : elements (S n) l = (elements n l + length (at_level n [] l))%nat.
Proof. unfold elements. rewrite seq_S, fmap_app, sum_list_with_app. cbn. lia. Qed.

(** Beyond the depth there is nothing. *)
Lemma at_level_deep k : forall p l, Forall item_wf l -> (depth l <= k)%nat -> at_level k p l = [].
Proof.
  induction k as [|k IH]; intros p l Hwf Hk; [unfold depth in Hk; lia|]. cbn [at_level].
  apply concat_nil_Forall. apply list.Forall_forall. intros r (i & x & -> & Hx)%elem_of_lookup_imap.
  apply list.list_elem_of_lookup_2 in Hx. rewrite list.Forall_forall in Hwf.
  pose proof (Hwf x Hx) as Hw. apply item_wf_eq in Hw as (Hn & _ & Hs).
  pose proof (proj1 (depth_max l) x Hx) as Hd. rewrite item_depth_eq in Hd.
  destruct (islist (data x)); [apply IH; [done|lia]|]. rewrite Hn by done. by destruct k.
Qed.

Lemma level_deep k p l : Forall item_wf l -> (depth l <= k)%nat -> level k p l = [].
Proof. intros Hwf Hk. unfold level. by rewrite at_level_deep. Qed.

(** Every level but the last has an element. *)
Lemma at_level_nonempty k : forall p l, (S k < depth l)%nat -> at_level k p l <> [].
Proof.
  induction k as [|k IH]; intros p l Hk; destruct (proj2 (depth_max l)) as (x & Hx & Ed); [lia| |lia|].
  - destruct l; [set_solver|done].
  - cbn [at_level]. intros E. apply concat_nil_Forall in E.
    apply list_elem_of_lookup in Hx as [i Hi]. rewrite item_depth_eq in Ed.
    destruct (islist (data x)); [|lia].
    rewrite list.Forall_forall in E. apply (IH (p ++ le_enc 4 (Z.of_nat i)) (sub x)); [lia|].
    apply E. apply elem_of_lookup_imap. eauto.
Qed.

Lemma elem_of_level k p l q i it :
  (q, i, it) ∈ at_level (S k) p l <->
  exists j x, l !! j = Some x /\ (q, i, it) ∈ at_level k (p ++ le_enc 4 (Z.of_nat j)) (sub x).
Proof.
  cbn [at_level]. rewrite list_elem_of_In, in_concat. split.
  - intros (r & Hr & Hin). apply list_elem_of_In in Hr, Hin.
    apply elem_of_lookup_imap in Hr as (j & x & -> & Hx). eauto.
  - intros (j & x & Hx & Hin). exists (at_level k (p ++ le_enc 4 (Z.of_nat j)) (sub x)).
    split; [|by apply list_elem_of_In]. apply list_elem_of_In, elem_of_lookup_imap. eauto.
Qed.

(** A path is longer by four bytes at each level. *)
Lemma at_level_path k : forall p l q i it,
  (q, i, it) ∈ at_level k p l -> exists s, q = p ++ s /\ blen s = 4 * Z.of_nat k.
Proof.
  induction k as [|k IH]; intros p l q i it.
  - intros (j & x & [= -> -> ->] & _)%elem_of_lookup_imap. exists []. by rewrite app_nil_r.
  - intros (j & x & _ & Hr)%elem_of_level. apply IH in Hr as (s & -> & Hs). exists (le_enc 4 (Z.of_nat j) ++ s). rewrite <- app_assoc. split; [done|].
    rewrite blen_app, blen_le_enc. lia.
Qed.

Lemma record_le k p l r : r ∈ at_level k p l -> blen (record_bytes r) <= blen (level k p l).
Proof.
  intros (l1 & l2 & E)%list.list_elem_of_split. unfold level. rewrite E, fmap_app, fmap_cons, concat_app. cbn [concat].
  rewrite !blen_app. pose proof (blen_nonneg (concat (record_bytes <$> l1))).
  pose proof (blen_nonneg (concat (record_bytes <$> l2))). lia.
Qed.

(** Strings that are short bound the depth. *)
Lemma depth_small p l : small p l -> 4 * Z.of_nat (depth l) < 2 ^ 31.
Proof.
  intros H. destruct (decide (depth l <= 1)%nat); [lia|].
  destruct (at_level (depth l - 2) p l) as [|[[q i] it] rs] eqn:E.
  { destruct (at_level_nonempty (depth l - 2) p l ltac:(lia) E). }
  assert (Hr : (q, i, it) ∈ at_level (depth l - 2) p l) by (rewrite E; by left).
  pose proof (record_le _ _ _ _ Hr) as Hle. apply at_level_path in Hr as (s & -> & Hs).
  specialize (H (depth l - 2)%nat). unfold record_bytes in Hle. cbn [fst snd] in Hle.
  rewrite !blen_app, !blen_le_enc, Hs in Hle. pose proof (blen_nonneg p). pose proof (blen_nonneg (data it)). lia.
Qed.

(** A record takes eight bytes at least. *)
Lemma level_length k p l : 8 * Z.of_nat (length (at_level k p l)) <= blen (level k p l).
Proof.
  unfold level. induction (at_level k p l) as [|r rs IH]; [done|]. rewrite fmap_cons. cbn [concat length].
  unfold record_bytes at 1. rewrite !blen_app, !blen_le_enc. pose proof (blen_nonneg r.1.1).
  pose proof (blen_nonneg (data r.2)). lia.
Qed.

Lemma small_length p l : small p l -> Z.of_nat (length l) < 2 ^ 28.
Proof.
  intros H. pose proof (level_length 0 p l) as Hl. cbn [at_level] in Hl. rewrite length_imap in Hl.
  specialize (H O). lia.
Qed.

(** ** The elements of one list *)

(** The elements, in order, of the records whose path is [q]. *)
Definition group (q : list byte) (rs : list record) : list item :=
  (filter (fun r : record => r.1.1 = q) rs).*2.

Lemma group_app q rs1 rs2 : group q (rs1 ++ rs2) = group q rs1 ++ group q rs2.
Proof. unfold group. by rewrite list.filter_app, fmap_app. Qed.

Lemma group_none q rs : (forall r, r ∈ rs -> r.1.1 <> q) -> group q rs = [].
Proof.
  unfold group. induction rs as [|r rs IH]; intros H; [done|].
  rewrite filter_cons_False by (apply H; by left). apply IH. intros r' Hr. apply H. by right.
Qed.

Lemma group_one q i it : group q [(q, i, it)] = [it].
Proof. unfold group. by rewrite filter_cons_True. Qed.

Lemma group_other q p i it : p <> q -> group q [(p, i, it)] = [].
Proof. intros H. apply group_none. by intros r [-> | ?%elem_of_nil]%elem_of_cons. Qed.

Lemma group_list q : forall l, group q (imap (fun i it => (q, i, it)) l) = l.
Proof.
  induction l as [|x l IH] using rev_ind; [done|]. rewrite imap_app, group_app, IH. f_equal. apply group_one.
Qed.

(** Only one list can have the path. *)
Lemma group_concat q (f : nat -> item -> list record) l j x :
  l !! j = Some x -> (forall i y r, l !! i = Some y -> i <> j -> r ∈ f i y -> r.1.1 <> q) ->
  group q (concat (imap f l)) = group q (f j x).
Proof.
  intros Hj Hne.
  assert (Hnil : forall l' k, (forall i y r, l' !! i = Some y -> r ∈ f (k + i)%nat y -> r.1.1 <> q) ->
    group q (concat (imap (fun i => f (k + i)%nat) l')) = []).
  { intros l'. induction l' as [|y l' IH]; intros k H; [done|]. cbn [imap concat]. rewrite group_app.
    rewrite group_none by (intros r; by apply (H O y)). cbn [app].
    rewrite (imap_ext _ (fun i => f (S k + i)%nat)) by (intros; cbn; f_equal; lia).
    apply IH. intros i z r Hi Hr. apply (H (S i) z r Hi). by replace (k + S i)%nat with (S k + i)%nat by lia. }
  rewrite <- (list.take_drop_middle l j x Hj) at 1. rewrite imap_app, concat_app, group_app. cbn [imap concat].
  pose proof (lookup_lt_Some _ _ _ Hj) as Hlt. rewrite length_take_le by lia. rewrite Nat.add_0_r, group_app.
  change (imap f (take j l)) with (imap (fun i => f (0 + i)%nat) (take j l)).
  rewrite (Hnil (take j l) O). 2:{ intros i y r Hi. apply lookup_take_Some in Hi as [Hi Hij]. apply Hne; [done|lia]. }
  rewrite (imap_ext _ (fun i => f (S j + i)%nat)) by (intros; cbn; f_equal; lia).
  rewrite Hnil, app_nil_r; [done|]. intros i y r Hi. rewrite lookup_drop in Hi. apply Hne; [done|lia].
Qed.

Lemma le_enc_inj i j :
  Z.of_nat i < 2 ^ 32 -> Z.of_nat j < 2 ^ 32 -> le_enc 4 (Z.of_nat i) = le_enc 4 (Z.of_nat j) -> i = j.
Proof.
  intros Hi Hj E. apply (f_equal le_dec) in E. rewrite !le_dec_enc in E.
  change (8 * Z.of_nat 4) with 32 in E. rewrite !uwrap_small in E by lia. lia.
Qed.

(** The records one level below an element, with its path and index as their
    path, are those of its sublist. *)
Lemma group_children k : forall p l q i it,
  small p l -> (q, i, it) ∈ at_level k p l ->
  group (q ++ le_enc 4 (Z.of_nat i)) (at_level (S k) p l) = sub it /\ Z.of_nat i < 2 ^ 28.
Proof.
  induction k as [|k IH]; intros p l q i it Hs Hin.
  - cbn [at_level] in Hin. apply elem_of_lookup_imap in Hin as (j & x & [= -> -> ->] & Hj).
    pose proof (small_length _ _ Hs) as Hl. pose proof (lookup_lt_Some _ _ _ Hj). split; [|lia].
    cbn [at_level]. rewrite (group_concat _ _ _ _ _ Hj); [apply group_list|].
    intros i y r Hi Hne (n & z & -> & _)%elem_of_lookup_imap. cbn. intros E. apply (inj (app p)) in E.
    apply lookup_lt_Some in Hi. apply Hne, le_enc_inj; [lia..|done].
  - apply elem_of_level in Hin as (j & x & Hj & Hin). pose proof (small_length _ _ Hs) as Hl.
    pose proof (lookup_lt_Some _ _ _ Hj) as Hlt.
    assert (Hsub : small (p ++ le_enc 4 (Z.of_nat j)) (sub x)).
    { pose proof (list.take_drop_middle l j x Hj) as E. rewrite <- E in Hs. apply small_sub in Hs as [Hs _].
      by rewrite length_take_le in Hs by lia. }
    destruct (IH _ _ _ _ _ Hsub Hin) as [<- Hi]. split; [|done]. remember (S k) as k1.
    cbn [at_level]. apply (group_concat _ (fun j x => at_level k1 (p ++ le_enc 4 (Z.of_nat j)) (sub x)) _ _ _ Hj).
    intros n y [[q' n'] y'] Hn Hne Hr. cbn. intros ->. apply at_level_path in Hr as (s & Hq & _).
    apply at_level_path in Hin as (s' & -> & _). rewrite <- !app_assoc in Hq. apply (inj (app p)) in Hq.
    apply app_inj_1 in Hq as [E _]; [|by rewrite !length_le_enc].
    apply lookup_lt_Some in Hn. apply Hne. symmetry. apply le_enc_inj; [lia..|done].
Qed.

Lemma at_level_wf k : forall p l r, Forall item_wf l -> r ∈ at_level k p l -> item_wf r.2.
Proof.
  induction k as [|k IH]; intros p l [[q i] it] Hwf Hr; rewrite list.Forall_forall in Hwf.
  - apply elem_of_lookup_imap in Hr as (j & x & -> & Hx). apply Hwf. by eapply list.list_elem_of_lookup_2.
  - apply elem_of_level in Hr as (j & x & Hx & Hr). apply list.list_elem_of_lookup_2, Hwf, item_wf_eq in Hx.
    by eapply IH; [apply Hx|].
Qed.

Lemma at_level_items p l : (at_level 0 p l).*2 = l.
Proof. cbn [at_level]. induction l as [|x l IH] using rev_ind; [done|]. by rewrite imap_app, fmap_app, IH. Qed.
