(* ===== verification/SerialFacts.v ===== *)
(** * What the serialization writes

    [qSerialize] of a nested list gives the strings [levels] of SerialTrees.v:
    each level is written by appending in place to strings in the nodes of the
    result, and the levels of an inner list are merged into those of the outer
    one. *)

From S2P Require Import Prelude Layout World Chain Bss QList QMap Serialization SerialTrees.
Local Open Scope Z_scope.

(** ** Data sets *)

(** The data set [d] has the strings [Ls]. *)
Definition strings_ok (xs : list (positive * (qBinarySafeString * Z))) (Ls : list (list byte)) : Prop :=
  Forall2 (fun x L => bss_ok x.2.1 /\ content x.2.1 = L) xs Ls.

Definition dataset_ok (d : dataset_t) (Ls : list (list byte)) : Prop :=
  exists xs, rep d xs /\ strings_ok xs Ls.

(** [w'] is [w] with [n] blocks more, and no allocation will fail. *)
Definition allocated (n : Z) (w w' : world) : Prop := mem_ok w' /\ w_live w' = w_live w + n.

Lemma content_size b : bss_ok b -> blen (content b) = Bss.size b.
Proof.
  intros (buf & Es & Hb & Hs & _ & H2 & _). unfold content. rewrite Es. apply blen_btake. cbn. lia.
Qed.

(** Appending one string to another. *)
Lemma bss_cat_ok a b w :
  bss_ok a -> bss_ok b -> mem_ok w -> blen (content a) + blen (content b) < 2 ^ 31 ->
  exists c, bss_cat a b w = Ok (c, w) /\ bss_ok c /\ content c = content a ++ content b.
Proof.
  intros Ha Hb Hm Hl. pose proof (content_size a Ha) as Sa. pose proof (content_size b Hb) as Sb.
  destruct Hb as (buf & Es & Hbuf & Hs & _ & H2 & _). unfold bss_cat. rewrite Es.
  destruct (q__bss_append_ok a buf (Bss.size b) w Ha Hm ltac:(lia) ltac:(lia)) as (c & E & Hc & _ & Ec).
  exists c. split_and!; [done|done|]. rewrite Ec. unfold content at 3. by rewrite Es.
Qed.

Lemma advance_ok d n : forall p l,
  chain (lnodes d) p l None -> (n <= length l)%nat -> advance n d (first_of l None) = Ok (l !! n).
Proof.
  induction n as [|n IH]; intros p l Hc Hn; cbn [advance]; [by destruct l|].
  destruct l as [|i l]; [cbn in Hn; lia|]. cbn [first_of chain] in *. destruct Hc as [E Hc].
  unfold qListIterator_next. rewrite E. cbn [mbind res_bind next]. apply (IH (Some i)); [done|cbn in Hn; lia].
Qed.

(** The node of a data set with index [n]. *)
Lemma advance_dataset d xs Ls n :
  rep d xs -> strings_ok xs Ls -> (n <= length Ls)%nat -> advance n d (head d) = Ok (addrs xs !! n).
Proof.
  intros H H2 Hn. rewrite (rep_head _ _ H). apply (advance_ok d n None); [apply H|].
  unfold addrs. rewrite length_fmap, (Forall2_length H2). done.
Qed.

Lemma append_at_ok d L1 L L2 it s n w :
  dataset_ok d (L1 ++ L :: L2) -> advance (length L1) d (head d) = Ok it -> mem_ok w ->
  0 <= n <= blen s -> blen L + n < 2 ^ 31 ->
  exists d', append_at d it s n w = Ok (d', w) /\ dataset_ok d' (L1 ++ (L ++ btake n s) :: L2).
Proof.
  intros (xs & H & H2) Hit Hm Hn Hl. pose proof H2 as Hx.
  apply Forall2_app_inv_r in Hx as (x1 & x2 & H1 & (x & x3 & [Hb Hc] & H3 & ->)%Forall2_cons_inv_r & ->).
  rewrite (advance_dataset d _ _ _ H H2) in Hit by (rewrite length_app; cbn; lia).
  assert (E : addrs (x1 ++ x :: x3) !! length L1 = Some x.1).
  { unfold addrs. rewrite fmap_app, fmap_cons. apply list_lookup_middle.
    by rewrite length_fmap, (Forall2_length H1). }
  rewrite E in Hit. injection Hit as <-. unfold append_at. rewrite (rep_lookup _ _ _ _ H).
  destruct (q__bss_append_ok x.2.1 s n w Hb Hm Hn) as (b & Eb & Hb' & _ & Hc').
  { rewrite <- content_size, Hc by done. lia. }
  rewrite (prog_bind_ok _ _ _ _ _ Eb). eexists. split; [reflexivity|].
  destruct x as [i u]. exists (x1 ++ (i, (b, u.2)) :: x3). split; [apply (rep_update d x1 i u (b, u.2) x3 H)|].
  apply Forall2_app; [done|]. constructor; [|done]. split; [done|]. cbn [fst snd] in *. by rewrite Hc', Hc.
Qed.

(** The string of another data set appended. *)
Lemma append_bss_at_ok d L1 L L2 it b w :
  dataset_ok d (L1 ++ L :: L2) -> advance (length L1) d (head d) = Ok it -> mem_ok w ->
  bss_ok b -> blen L + blen (content b) < 2 ^ 31 ->
  exists d', append_bss_at d it b w = Ok (d', w) /\ dataset_ok d' (L1 ++ (L ++ content b) :: L2).
Proof.
  intros H Hit Hm Hb Hl. pose proof (content_size b Hb) as Sb.
  destruct Hb as (buf & Es & Hbuf & Hs & _ & H2 & _). unfold append_bss_at. rewrite Es.
  destruct (append_at_ok d L1 L L2 it buf (Bss.size b) w H Hit Hm) as (d' & E & Hd); [lia|lia|].
  exists d'. split; [done|]. unfold content. by rewrite Es.
Qed.

Lemma push_string_ok d Ls b w :
  dataset_ok d Ls -> bss_ok b -> mem_ok w ->
  exists d', q__List_push_back d b sizeof_bss w = Ok ((0, d'), grown w) /\ dataset_ok d' (Ls ++ [content b]).
Proof.
  intros (xs & H & H2) Hb Hm. destruct (push_back_ok d xs b sizeof_bss w H Hm) as (d' & E & H').
  exists d'. split; [done|]. eexists. split; [exact H'|]. apply Forall2_app; [done|]. by repeat constructor.
Qed.

(** The only string of a data set. *)
Lemma first_string d L :
  dataset_ok d [L] ->
  exists h b n, head d = Some h /\ qListIterator_deref d h = Ok (Some b, n) /\ bss_ok b /\ content b = L.
Proof.
  intros (xs & Hr & (x & xs' & [Hb Hc] & ->%Forall2_nil_inv_r & ->)%Forall2_cons_inv_r).
  exists x.1, x.2.1, x.2.2. split_and!; [by rewrite (rep_head _ _ Hr)| |done|done].
  unfold qListIterator_deref. by rewrite (rep_lookup d [] x []).
Qed.

(** A data set of one string. *)
Lemma single_string b w :
  bss_ok b -> mem_ok w ->
  exists d, q__List_push_back qList_constructor b sizeof_bss w = Ok ((0, d), grown w) /\ dataset_ok d [content b].
Proof.
  intros Hb Hm. apply (push_string_ok qList_constructor []); [|done|done].
  exists []. split; [apply rep_constructor|constructor].
Qed.

(** ** Merging levels *)

Fixpoint merge (Ls Ms : list (list byte)) : list (list byte) :=
  match Ls, Ms with
  | [], _ => Ms
  | _, [] => Ls
  | L :: Ls', M :: Ms' => (L ++ M) :: merge Ls' Ms'
  end.

Lemma merge_nil_r Ls : merge Ls [] = Ls.
Proof. by destruct Ls. Qed.

Lemma merge_seq (f g : nat -> list byte) a b : forall s,
  (forall k, (s + a <= k)%nat -> f k = []) -> (forall k, (s + b <= k)%nat -> g k = []) ->
  merge (f <$> seq s a) (g <$> seq s b) = (fun k => f k ++ g k) <$> seq s (Nat.max a b).
Proof.
  revert b. induction a as [|a IH]; intros b s Hf Hg; cbn [Nat.max seq fmap list_fmap merge].
  - apply list_fmap_ext. intros i k Hk. apply lookup_seq in Hk as [-> _]. by rewrite Hf by lia.
  - destruct b as [|b]; cbn [seq fmap list_fmap merge].
    + apply (f_equal2 cons); [by rewrite (Hg s), app_nil_r by lia|]. apply (list_fmap_ext f).
      intros i k Hk. apply lookup_seq in Hk as [-> _]. rewrite Hg, app_nil_r by lia. done.
    + apply (f_equal2 cons); [done|]. apply IH; intros k Hk; [apply Hf|apply Hg]; lia.
Qed.

(** The loop over the levels of an inner list, the first [length D] of the outer
    one behind it. *)
Lemma append_loop_ok xs : forall Ms D Ls d w,
  strings_ok xs Ms -> dataset_ok d (D ++ Ls) -> mem_ok w ->
  Forall (fun L => blen L < 2 ^ 31) (merge Ls Ms) -> Z.of_nat (length D + length Ms) < 2 ^ 31 ->
  exists n d' w', visit xs (fun _ => append_level) (Z.of_nat (length D), d) w = Ok ((n, d'), w') /\
    dataset_ok d' (D ++ merge Ls Ms) /\ allocated (2 * (blen (merge Ls Ms) - blen Ls)) w w'.
Proof.
  induction xs as [|[i [b k]] xs IH]; intros Ms D Ls d w Hx Hd Hm Hs Hl; cbn [visit].
  { apply Forall2_nil_inv_l in Hx as ->. rewrite merge_nil_r. exists (Z.of_nat (length D)), d, w.
    split_and!; [done..|split; [done|lia]]. }
  apply Forall2_cons_inv_l in Hx as (M & Ms' & [Hb Hc] & Hx & ->). cbn [fst snd length append_level] in *.
  unfold append_level at 1. rewrite Nat2Z.id. assert (Hn : s32 (Z.of_nat (length D) + 1) = Z.of_nat (length D + 1))
    by (rewrite swrap_small; lia).
  destruct Ls as [|L Ls]; cbn [merge] in *.
  - rewrite app_nil_r in Hd. destruct Hd as (ys & Hr & Hy).
    rewrite (advance_dataset d ys D (length D) Hr Hy) by lia. pose proof (Forall2_length Hy) as Hlen.
    rewrite lookup_ge_None_2 by (unfold addrs; rewrite length_fmap; lia).
    destruct (push_string_ok d D b w) as (d1 & E1 & Hd1); [by exists ys|done|done|].
    erewrite prog_bind_ok by (erewrite prog_bind_ok by reflexivity; cbv beta iota;
      erewrite prog_bind_ok by (erewrite prog_bind_ok by exact E1; reflexivity); reflexivity).
    cbv beta iota. rewrite Hn, Hc in *. replace (length D + 1)%nat with (length (D ++ [M])) by (by rewrite length_app).
    destruct (IH Ms' (D ++ [M]) [] d1 (grown w) Hx) as (n & d' & w' & E & Hd' & Hm').
    + by rewrite app_nil_r.
    + done.
    + by apply Forall_cons_iff in Hs as [_ Hs].
    + rewrite length_app. cbn. lia.
    + exists n, d', w'. rewrite <- app_assoc in Hd'. split_and!; [exact E|exact Hd'|].
      destruct Hm' as [Hm' Hw']. split; [done|]. rewrite Hw'. cbn [merge]. rewrite blen_cons.
      change (blen []) with 0. cbn [grown w_live set_live]. lia.
  - destruct (advance (length D) d (head d)) as [[j|]| | | |] eqn:Ej.
    2-6: exfalso; destruct Hd as (ys & Hr & Hy);
      rewrite (advance_dataset d ys _ (length D) Hr Hy) in Ej by (rewrite length_app; cbn; lia); try done.
    2:{ injection Ej as Ej. apply lookup_ge_None in Ej. unfold addrs in Ej.
        rewrite length_fmap, (Forall2_length Hy), length_app in Ej. cbn in Ej. lia. }
    apply Forall_cons_iff in Hs as [HL Hs]. rewrite blen_app in HL.
    destruct (append_bss_at_ok d D L Ls (Some j) b w Hd Ej Hm Hb) as (d1 & E1 & Hd1); [rewrite Hc; lia|].
    erewrite prog_bind_ok by (erewrite prog_bind_ok by reflexivity; cbv beta iota;
      erewrite prog_bind_ok by exact E1; reflexivity).
    cbv beta iota. rewrite Hn, Hc in *.
    replace (length D + 1)%nat with (length (D ++ [L ++ M])) by (by rewrite length_app).
    destruct (IH Ms' (D ++ [L ++ M]) Ls d1 w Hx) as (n & d' & w' & E & Hd' & Hm').
    + by rewrite <- app_assoc.
    + done.
    + done.
    + rewrite length_app. cbn. lia.
    + exists n, d', w'. rewrite <- app_assoc in Hd'. split_and!; [exact E|exact Hd'|].
      destruct Hm' as [Hm' Hw']. split; [done|]. rewrite Hw', !blen_cons. lia.
Qed.

Lemma append_levels_ok d L Ls ir Ms w :
  dataset_ok d (L :: Ls) -> dataset_ok ir Ms -> mem_ok w ->
  Forall (fun L => blen L < 2 ^ 31) (merge Ls Ms) -> Z.of_nat (length Ms) < 2 ^ 31 - 1 ->
  exists d' w', append_levels d ir w = Ok (d', w') /\ dataset_ok d' (L :: merge Ls Ms) /\
    allocated (2 * (blen (merge Ls Ms) - blen Ls)) w w'.
Proof.
  intros Hd (xs & Hr & Hx) Hm Hs Hl. unfold append_levels.
  destruct (append_loop_ok xs Ms [L] Ls d w Hx Hd Hm Hs) as (n & d' & w' & E & Hd' & Hm'); [cbn; lia|].
  exists d', w'. split; [|done]. rewrite <- (foreach_ok ir xs _ _ _ Hr) in E.
  by erewrite prog_bind_ok by exact E.
Qed.

(** ** The strings of a list *)

Lemma bss_new_ok w :
  mem_ok w -> exists b, qbss_constructor w = Ok (b, set_live (w_live w + 1) w) /\ bss_ok b /\ content b = [].
Proof. intros Hm. eexists. split; [by apply qbss_constructor_eq|]. split; [apply qbss_new_ok|done]. Qed.

(** The four pieces of a record. *)
Lemma append_record_ok d L Ls (prefix : qBinarySafeString) i n (b : list byte) w :
  dataset_ok d (L :: Ls) -> bss_ok prefix -> mem_ok w -> n = blen b ->
  blen L + (blen (content prefix) + (4 + (4 + blen b))) < 2 ^ 31 ->
  exists d', dataset_ok d' ((L ++ content prefix ++ le_enc 4 i ++ le_enc 4 n ++ b) :: Ls) /\
    forall f : dataset_t -> io ((Z * dataset_t) * bool), (d ← append_bss_at d (head d) prefix;
     d ← append_at d (head d) (le_enc 4 i) 4;
     d ← append_at d (head d) (le_enc 4 n) 4;
     d ← append_at d (head d) b n; f d) w = f d' w.
Proof.
  intros Hd Hp Hm -> Hl. pose proof (blen_nonneg b). pose proof (blen_nonneg (content prefix)).
  destruct (append_bss_at_ok d [] L Ls (head d) prefix w Hd eq_refl Hm Hp) as (d1 & E1 & H1); [lia|].
  destruct (append_at_ok d1 [] _ Ls (head d1) (le_enc 4 i) 4 w H1 eq_refl Hm) as (d2 & E2 & H2);
    [by rewrite blen_le_enc|rewrite blen_app; lia|].
  destruct (append_at_ok d2 [] _ Ls (head d2) (le_enc 4 (blen b)) 4 w H2 eq_refl Hm) as (d3 & E3 & H3);
    [by rewrite blen_le_enc|rewrite !blen_app, btake_all by (by rewrite blen_le_enc); rewrite blen_le_enc; lia|].
  destruct (append_at_ok d3 [] _ Ls (head d3) b (blen b) w H3 eq_refl Hm) as (d4 & E4 & H4);
    [lia|rewrite !blen_app, !btake_all by (by rewrite blen_le_enc); rewrite !blen_le_enc; lia|].
  exists d4. split.
  2:{ intros f. rewrite (prog_bind_ok _ _ _ _ _ E1), (prog_bind_ok _ _ _ _ _ E2), (prog_bind_ok _ _ _ _ _ E3).
      by rewrite (prog_bind_ok _ _ _ _ _ E4). }
  rewrite !btake_all in H4 by (by rewrite ?blen_le_enc). by rewrite <- !app_assoc in H4.
Qed.

Lemma le_enc_uwrap n z : le_enc n (uwrap (8 * Z.of_nat n) z) = le_enc n z.
Proof. rewrite <- (le_dec_enc n z). rewrite <- (length_le_enc n z) at 1. apply le_enc_dec. Qed.

Definition deeper (p : list byte) (l : list item) : list (list byte) :=
  (fun k => level (S k) p l) <$> seq 0 (pred (depth l)).

Lemma levels_cons p l : levels p l = level 0 p l :: deeper p l.
Proof.
  unfold levels, deeper, depth. cbn [seq pred fmap list_fmap]. apply (f_equal2 cons); [done|].
  rewrite <- fmap_S_seq, <- list_fmap_compose. done.
Qed.

Lemma blen_deeper p l : blen (deeper p l) = Z.of_nat (depth l) - 1.
Proof. unfold deeper, blen, depth. rewrite length_fmap, length_seq. lia. Qed.

(** The levels after one more element. *)
Lemma deeper_snoc p l x :
  Forall item_wf (l ++ [x]) ->
  deeper p (l ++ [x]) =
    if islist (data x) then merge (deeper p l) (levels (p ++ le_enc 4 (Z.of_nat (length l))) (sub x))
    else deeper p l.
Proof.
  intros [Hl Hx]%list.Forall_app. apply Forall_cons_iff in Hx as [Hx _].
  apply item_wf_eq in Hx as (Hn & _ & Hs). unfold deeper. rewrite depth_snoc, item_depth_eq.
  destruct (islist (data x)).
  - unfold levels. rewrite merge_seq.
    + replace (pred (Nat.max (depth l) (S (depth (sub x))))) with (Nat.max (pred (depth l)) (depth (sub x)))
        by (unfold depth; lia).
      apply (list_fmap_ext (fun k => level (S k) p (l ++ [x]))). intros i k _. by rewrite level_snoc.
    + intros k Hk. apply level_deep; [done|]. unfold depth in *. lia.
    + intros k Hk. apply level_deep; [done|lia].
  - replace (Nat.max (depth l) 1) with (depth l) by (unfold depth; lia).
    apply (list_fmap_ext (fun k => level (S k) p (l ++ [x]))). intros i k _. rewrite level_snoc, Hn by done.
    replace (level k _ []) with (@nil byte); [by rewrite app_nil_r|]. by destruct k.
Qed.

Lemma depth_pos l : (1 <= depth l)%nat.
Proof. unfold depth. lia. Qed.

Section serialize_loop.
Context (fuel : nat) (b : positive) (m : memory).
Context (recursive : forall e l prefix w, holds b m e l -> bss_ok prefix -> (depth l <= fuel)%nat ->
  small (content prefix) l -> mem_ok w ->
  exists d w', q__list_serialize fuel m e prefix w = Ok (d, w') /\
    dataset_ok d (levels (content prefix) l) /\ allocated (serial_blocks l) w w').

(** The levels of an inner list are short: they are parts of the outer ones. *)
Lemma merged_small p l x l2 :
  Forall item_wf (l ++ x :: l2) -> small p (l ++ x :: l2) -> islist (data x) = true ->
  Forall (fun L => blen L < 2 ^ 31) (merge (deeper p l) (levels (p ++ le_enc 4 (Z.of_nat (length l))) (sub x))).
Proof using Type.
  intros Hwf Hs Hx. replace (l ++ x :: l2) with ((l ++ [x]) ++ l2) in * by (by rewrite <- app_assoc).
  apply list.Forall_app in Hwf as [Hwf _]. apply small_prefix in Hs.
  pose proof (deeper_snoc p l x Hwf) as E. rewrite Hx in E. rewrite <- E. unfold deeper.
  apply List.Forall_map, list.Forall_forall. intros k _. apply Hs.
Qed.

Lemma serialize_list_ok prefix l x l2 d w :
  Forall (item_at b m) (l ++ x :: l2) -> small (content prefix) (l ++ x :: l2) -> bss_ok prefix -> mem_ok w ->
  (depth (l ++ x :: l2) <= S fuel)%nat -> islist (data x) = true ->
  dataset_ok d ((level 0 (content prefix) (l ++ [x])) :: deeper (content prefix) l) ->
  exists d' w', (tmpiprefix ← qbss_constructor;
      tmpiprefix ← bss_cat tmpiprefix prefix;
      tmpiprefix ← q__bss_append tmpiprefix (le_enc 4 (u32 (Z.of_nat (length l)))) 4;
      irdesc ← q__list_serialize fuel m (load_ends (data x)) tmpiprefix;
      qbss_destructor tmpiprefix;;
      rdesc ← append_levels d irdesc;
      mret ((u32 (u32 (Z.of_nat (length l)) + 1), rdesc), false)) w =
    Ok ((u32 (Z.of_nat (S (length l))), d', false), w') /\
    dataset_ok d' (levels (content prefix) (l ++ [x])) /\
    allocated (serial_blocks (l ++ [x]) - serial_blocks l) w w'.
Proof using Type*.
  intros Hat Hs Hp Hm Hdep Hx Hd.
  assert (Hwf : Forall item_wf (l ++ x :: l2))
    by (eapply list.Forall_impl; [exact Hat|]; intros; by eapply item_at_wf).
  destruct (small_sub _ _ _ _ Hs) as [Hsub Hlen].
  pose proof (blen_nonneg (level 0 (content prefix) l)) as Hl0. pose proof (blen_nonneg (data x)) as Hd0. destruct (bss_new_ok w Hm) as (t0 & E0 & H0 & C0).
  rewrite (prog_bind_ok _ _ _ _ _ E0).
  destruct (bss_cat_ok t0 prefix (set_live (w_live w + 1) w) H0 Hp Hm) as (t1 & E1 & H1 & C1);
    [rewrite C0, blen_nil; lia|]. rewrite (prog_bind_ok _ _ _ _ _ E1). rewrite C0 in C1. cbn [app] in C1.
  pose proof (content_size t1 H1) as S1. rewrite C1 in S1.
  destruct (q__bss_append_ok t1 (le_enc 4 (u32 (Z.of_nat (length l)))) 4 (set_live (w_live w + 1) w) H1 Hm)
    as (t2 & E2 & H2 & _ & C2); [by rewrite blen_le_enc|lia|]. rewrite (prog_bind_ok _ _ _ _ _ E2).
  rewrite btake_all, C1 in C2 by (by rewrite blen_le_enc).
  pose proof (le_enc_uwrap 4 (Z.of_nat (length l))) as Ele. change (8 * Z.of_nat 4) with 32 in Ele.
  rewrite Ele in C2. pose proof Hat as Hatx. apply list.Forall_app in Hatx as [_ Hatx].
  apply Forall_cons_iff in Hatx as [Hatx _]. apply item_at_eq in Hatx. rewrite Hx in Hatx.
  assert (Hdx : (depth (sub x) <= fuel)%nat).
  { pose proof (proj1 (depth_max (l ++ x :: l2)) x ltac:(set_solver)) as Hd'.
    rewrite item_depth_eq, Hx in Hd'. lia. }
  destruct (recursive (load_ends (data x)) (sub x) t2 (set_live (w_live w + 1) w) Hatx H2 Hdx)
    as (ir & w1 & E3 & Hir & Hm1); [by rewrite C2|done|]. rewrite (prog_bind_ok _ _ _ _ _ E3), C2 in *.
  destruct H2 as (buf & Es & _). unfold qbss_destructor. rewrite Es. erewrite prog_bind_ok by reflexivity.
  destruct (append_levels_ok d _ _ ir _ (set_live (w_live w1 - 1) w1) Hd Hir (proj1 Hm1)) as (d' & w' & E4 & Hd' & Hm').
  { by eapply merged_small. }
  { unfold levels. rewrite length_fmap, length_seq. pose proof (depth_small _ _ Hsub). lia. }
  rewrite (prog_bind_ok _ _ _ _ _ E4). exists d', w'.
  rewrite u32_len_succ, levels_cons, deeper_snoc, Hx.
  2:{ replace (l ++ x :: l2) with ((l ++ [x]) ++ l2) in Hwf by (by rewrite <- app_assoc).
      by apply list.Forall_app in Hwf as [Hwf _]. }
  split_and!; [unfold mret, prog_ret; do 5 f_equal; lia|done|].
  destruct Hm1 as [_ Hw1], Hm' as [Hm' Hw']. split; [done|]. rewrite Hw'. cbn [w_live set_live] in *. rewrite Hw1.
  rewrite serial_blocks_snoc, item_blocks_eq, Hx. pose proof (deeper_snoc (content prefix) l x) as Ed.
  rewrite Hx in Ed. rewrite <- Ed, !blen_deeper; [lia|].
  replace (l ++ x :: l2) with ((l ++ [x]) ++ l2) in Hwf by (by rewrite <- app_assoc).
  by apply list.Forall_app in Hwf as [Hwf _].
Qed.

Lemma serialize_loop_ok prefix : forall l2 xs l d w,
  values xs = entry <$> l2 -> Forall (item_at b m) (l ++ l2) -> small (content prefix) (l ++ l2) ->
  bss_ok prefix -> mem_ok w -> (depth (l ++ l2) <= S fuel)%nat -> dataset_ok d (levels (content prefix) l) ->
  exists n d' w', visit xs (fun _ => serialize_element (q__list_serialize fuel m) prefix)
      (u32 (Z.of_nat (length l)), d) w = Ok ((n, d'), w') /\
    dataset_ok d' (levels (content prefix) (l ++ l2)) /\
    allocated (serial_blocks (l ++ l2) - serial_blocks l) w w'.
Proof using Type*.
  induction l2 as [|x l2 IH]; intros xs l d w Hv Hat Hs Hp Hm Hdep Hd.
  { apply fmap_nil_inv in Hv as ->. rewrite app_nil_r. eexists _, d, w.
    split_and!; [done..|split; [done|lia]]. }
  destruct xs as [|[i e] xs]; [done|]. cbn in Hv. injection Hv as -> Hv. cbn [visit fst snd entry].
  destruct (small_sub _ _ _ _ Hs) as [_ Hlen].
  assert (Happ : l ++ x :: l2 = (l ++ [x]) ++ l2) by (by rewrite <- app_assoc).
  assert (Hwf : Forall item_wf (l ++ [x])).
  { rewrite Happ in Hat. apply list.Forall_app in Hat as [Hat _].
    eapply list.Forall_impl; [exact Hat|]. intros. by eapply item_at_wf. }
  pose proof (le_enc_uwrap 4 (Z.of_nat (length l))) as Ele. change (8 * Z.of_nat 4) with 32 in Ele.
  rewrite levels_cons in Hd.
  assert (Hstep : exists d' w', serialize_element (q__list_serialize fuel m) prefix
      (Some (data x), blen (data x)) (u32 (Z.of_nat (length l)), d) w =
      Ok ((u32 (Z.of_nat (S (length l))), d', false), w') /\
      dataset_ok d' (levels (content prefix) (l ++ [x])) /\
      allocated (serial_blocks (l ++ [x]) - serial_blocks l) w w').
  { unfold serialize_element.
    destruct (append_record_ok d (level 0 (content prefix) l) (deeper (content prefix) l) prefix (u32 (Z.of_nat (length l))) (blen (data x)) (data x) w) as (d4 & H4 & E4);
      [exact Hd|exact Hp|exact Hm|done|exact Hlen|]. rewrite E4. clear E4. rewrite Ele in H4.
    pose proof (level_snoc 0 (content prefix) l x) as E0. unfold record_bytes in E0. cbn [fst snd] in E0.
    rewrite <- E0 in H4. fold (islist (data x)). destruct (islist (data x)) eqn:Hx; cbn [negb].
    - by apply (serialize_list_ok prefix l x l2).
    - exists d4, w. rewrite u32_len_succ, levels_cons, deeper_snoc, Hx by done.
      split_and!; [unfold mret, prog_ret; do 5 f_equal; lia|done|split; [done|]].
      rewrite serial_blocks_snoc, item_blocks_eq, depth_snoc, item_depth_eq, Hx.
      pose proof (depth_pos l). lia. }
  destruct Hstep as (d1 & w1 & E1 & Hd1 & Hm1). rewrite (prog_bind_ok _ _ _ _ _ E1). cbv beta iota.
  rewrite Happ in *. destruct (IH xs (l ++ [x]) d1 w1 Hv) as (n & d' & w' & E & Hd' & Hm'); try done; [apply Hm1|].
  rewrite length_app, Nat.add_1_r in E. exists n, d', w'. split_and!; [done|done|].
  destruct Hm1 as [_ Hw1], Hm' as [Hm' Hw']. split; [done|lia].
Qed.

End serialize_loop.

Lemma serialize_ok fuel : forall b m e l prefix w,
  holds b m e l -> bss_ok prefix -> (depth l <= fuel)%nat -> small (content prefix) l -> mem_ok w ->
  exists d w', q__list_serialize fuel m e prefix w = Ok (d, w') /\
    dataset_ok d (levels (content prefix) l) /\ allocated (serial_blocks l) w w'.
Proof.
  induction fuel as [|fuel IH]; intros b m e l prefix w H Hp Hdep Hs Hm; [unfold depth in Hdep; lia|].
  cbn [q__list_serialize]. destruct (bss_new_ok w Hm) as (b0 & E0 & H0 & C0). rewrite (prog_bind_ok _ _ _ _ _ E0).
  destruct (single_string b0 (set_live (w_live w + 1) w) H0 Hm) as (d0 & E1 & Hd0).
  rewrite (prog_bind_ok _ _ _ _ _ E1), C0 in *. cbv beta iota. destruct H as [(xs & Hr & Hv & _) Hat].
  destruct (serialize_loop_ok fuel b m (IH b m) prefix l xs [] d0 (grown (set_live (w_live w + 1) w)))
    as (n & d & w' & E & Hd & Hm'); try done.
  rewrite <- (foreach_ok _ xs _ _ _ Hr) in E.
  exists d, w'. split_and!; [by erewrite prog_bind_ok by exact E|done|].
  destruct Hm' as [Hm' Hw']. split; [done|]. rewrite Hw'. change (serial_blocks []) with 3. cbn [grown w_live set_live app]. lia.
Qed.

Lemma serialize_ok_item fuel b m it w :
  item_at b m it -> mem_ok w -> (depth (sub it) <= fuel)%nat -> small [] (sub it) ->
  blen (data it) < 2 ^ 31 ->
  exists d w', qSerialize fuel m (data it) (blen (data it)) w = Ok (d, w') /\
    allocated (if islist (data it) then 1 + serial_blocks (sub it) else 3) w w' /\
    dataset_ok d (if islist (data it) then levels [] (sub it) else [data it]).
Proof.
  intros H Hm Hf Hs Hl. apply item_at_eq in H. unfold qSerialize. fold (islist (data it)).
  destruct (bss_new_ok w Hm) as (b0 & E0 & H0 & C0). destruct (islist (data it)).
  - rewrite (prog_bind_ok _ _ _ _ _ E0).
    destruct (serialize_ok fuel b m (load_ends (data it)) (sub it) b0 (set_live (w_live w + 1) w) H H0 Hf)
      as (d & w' & E & Hd & Hm'); [by rewrite C0|done|]. rewrite C0 in Hd. exists d, w'.
    split_and!; [done| |done]. destruct Hm' as [Hm' Hw']. split; [done|]. rewrite Hw'. cbn [w_live set_live]. lia.
  - rewrite (prog_bind_ok _ _ _ _ _ E0). pose proof (content_size b0 H0) as S0. rewrite C0, blen_nil in S0.
    pose proof (blen_nonneg (data it)) as Hlen.
    destruct (q__bss_append_ok b0 (data it) (blen (data it)) (set_live (w_live w + 1) w) H0 Hm) as (b1 & E1 & H1 & _ & C1);
      [lia|lia|]. rewrite (prog_bind_ok _ _ _ _ _ E1).
    destruct (single_string b1 (set_live (w_live w + 1) w) H1 Hm) as (d & E2 & Hd).
    rewrite (prog_bind_ok _ _ _ _ _ E2). exists d, (grown (set_live (w_live w + 1) w)).
    split_and!; [done|split; [done|cbn [grown w_live set_live]; lia]|]. by rewrite C1, C0, btake_all in Hd by lia.
Qed.

(** C22. Serialization.  For a list of any nesting, whose levels are shorter than
    2^31 bytes each, [qSerialize] terminates and returns one string for each
    level: the concatenation of the records (path, index, size, bytes) of the
    elements at that depth, in order.  Of an element that is not a list it returns
    the bytes alone.  The blocks it leaves allocated are counted: three for each
    string returned and, never to be freed, the prefix and what the inner lists'
    strings were made of. *)
Theorem serialize_spec fuel b m it w :
  item_at b m it -> mem_ok w -> (depth (sub it) <= fuel)%nat -> small [] (sub it) ->
  blen (data it) < 2 ^ 31 ->
  exists d w', qSerialize fuel m (data it) (blen (data it)) w = Ok (d, w') /\
    allocated (if islist (data it) then 1 + serial_blocks (sub it) else 3) w w' /\
    dataset_ok d (if islist (data it) then levels [] (sub it) else [data it]).
Proof. apply serialize_ok_item. Qed.

(** ** A nested list *)

Definition blank_list : list byte := Q__LD_MAGIC ++ zeros 30.

(** The list of one byte, and the list of a list of two bytes and that list. *)
Definition inner_ex : list byte := store_ends (Ends (Some 1%positive) (Some 1%positive) 1) blank_list.
Definition outer_ex : list byte := store_ends (Ends (Some 2%positive) (Some 3%positive) 2) blank_list.

Definition tree_ex : item :=
  Item outer_ex [Item (le_enc 2 513) []; Item inner_ex [Item (le_enc 1 7) []]].

Definition memory_ex : memory :=
  Mem (<[1%positive := Link None None]> (<[2%positive := Link None (Some 3%positive)]>
         (<[3%positive := Link (Some 2%positive) None]> ∅)))
    (<[1%positive := (Some (le_enc 1 7), 1)]> (<[2%positive := (Some (le_enc 2 513), 2)]>
       (<[3%positive := (Some inner_ex, 40)]> ∅))) 4.

Lemma tree_ex_at : item_at 4 memory_ex tree_ex.
Proof.
  unfold tree_ex. rewrite item_at_eq. change (islist (data _)) with true. cbn [data sub]. split.
  - exists [(2%positive, (le_enc 2 513, 2)); (3%positive, (inner_ex, 40))]. split; [split|].
    + apply (bool_decide_unpack _). by vm_compute.
    + repeat split.
    + repeat constructor.
    + done.
    + done.
    + done.
    + repeat constructor.
    + split; [done|]. repeat constructor.
  - constructor; [done|]. constructor; [|constructor].
    rewrite item_at_eq. change (islist (data _)) with true. cbn [data sub]. split.
    + exists [(1%positive, (le_enc 1 7, 1))]. split; [split|].
      * apply list.NoDup_singleton.
      * repeat split.
      * repeat constructor.
      * done.
      * done.
      * done.
      * repeat constructor.
      * split; [done|]. repeat constructor.
    + repeat constructor.
Qed.

Lemma tree_ex_small : small [] (sub tree_ex).
Proof.
  intros k. do 2 (destruct k as [|k]; [by vm_compute|]).
  rewrite level_deep; [done| |unfold depth; vm_compute; lia].
  pose proof (item_at_wf _ _ _ tree_ex_at) as H. by apply item_wf_eq in H as (_ & _ & H).
Qed.

Lemma serialize_spec_witness :
  exists d w', qSerialize 2 memory_ex outer_ex 40 (start []) = Ok (d, w') /\
    dataset_ok d (levels [] (sub tree_ex)).
Proof.
  destruct (serialize_spec 2 4 memory_ex tree_ex (start []) tree_ex_at eq_refl ltac:(vm_compute; lia)
    tree_ex_small ltac:(vm_compute; done)) as (d & w' & E & _ & Hd).
  exists d, w'. split; [exact E|exact Hd].
Defined.
