(* ===== verification/SerialRound.v ===== *)
(** * What the unserialization builds

    From the strings of a nested list, [qUnserialize] builds a list with the same
    elements in the same order, sublists included, in memory that was free: the
    result differs from the list serialized by the addresses in the descriptors
    only. *)

From S2P Require Import Prelude Layout World Chain Bss QList QMap Serialization SerialTrees SerialFacts.
Local Open Scope Z_scope.

(** ** Descriptors in bytes *)

(** A list without the addresses and the size in its descriptor. *)
Definition blank (b : list byte) : list byte := if islist b then bstore 16 (zeros 20) b else b.

Fixpoint strip (it : item) : item :=
  match it with Item d s => Item (blank d) (strip <$> s) end.

Definition ends_ok (e : ends) : Prop :=
  ptr (e_head e) < 2 ^ 64 /\ ptr (e_tail e) < 2 ^ 64 /\ 0 <= e_size e < 2 ^ 32.

Lemma pointer_ptr p : pointer (ptr p) = p.
Proof. by destruct p. Qed.

Lemma ptr_nonneg p : 0 <= ptr p.
Proof. by destruct p. Qed.

Lemma islist_long b : islist b = true -> fits list_descriptor b.
Proof.
  unfold islist, q__List_islist, fits. change (sizeof list_descriptor) with 40.
  destruct (Z.ltb_spec (blen b) 40); [done|lia].
Qed.

Lemma blen_store_ends e b : fits list_descriptor b -> blen (store_ends e b) = blen b.
Proof. intros H. unfold store_ends. rewrite !blen_setf; [done|..]; fits. Qed.

Lemma load_store_ends e b : fits list_descriptor b -> ends_ok e -> load_ends (store_ends e b) = e.
Proof.
  intros H (Hh & Ht & Hs). unfold load_ends, store_ends. layout.
  pose proof (ptr_nonneg (e_head e)). pose proof (ptr_nonneg (e_tail e)).
  rewrite !uwrap_small, !pointer_ptr by lia. by destruct e.
Qed.

Lemma load_ends_ok b : ends_ok (load_ends b).
Proof.
  assert (H : forall z, 0 <= z < 2 ^ 64 -> ptr (pointer z) < 2 ^ 64) by (intros [|p|p] ?; done || cbn; lia).
  split_and!; try apply H; apply (uwrap_range 64) || apply (uwrap_range 32); lia.
Qed.

Lemma islist_store_ends e b : fits list_descriptor b -> islist (store_ends e b) = islist b.
Proof.
  intros H. unfold islist, q__List_islist. rewrite blen_store_ends by done.
  unfold store_ends. by layout.
Qed.

(** A store inside of what a later store covers. *)
Lemma bstore_covered (off off' : Z) (bs bs' b : list byte) :
  0 <= off -> off <= off' -> off' + blen bs' <= off + blen bs -> off + blen bs <= blen b ->
  bstore off bs (bstore off' bs' b) = bstore off bs b.
Proof.
  intros. pose proof (blen_nonneg bs'). unfold bstore. f_equal; [|f_equal].
  - unfold btake. rewrite take_app_le by blia. rewrite take_take. f_equal. lia.
  - unfold bdrop. rewrite drop_app_ge by blia. rewrite drop_app_ge by blia. rewrite drop_drop. f_equal. blia.
Qed.

Lemma store_ends_eq e b :
  store_ends e b = bstore 32 (le_enc 4 (e_size e)) (bstore 24 (le_enc 8 (ptr (e_tail e)))
    (bstore 16 (le_enc 8 (ptr (e_head e))) b)).
Proof. reflexivity. Qed.

Lemma blank_store_ends e b : islist b = true -> blank (store_ends e b) = blank b.
Proof.
  intros Hb. pose proof (islist_long b Hb) as H. unfold blank. rewrite islist_store_ends, Hb by done.
  rewrite store_ends_eq. unfold fits in H. change (sizeof list_descriptor) with 40 in H.
  set (b1 := bstore 16 _ b). assert (H1 : blen b1 = blen b) by (apply blen_bstore; rewrite ?blen_le_enc; lia).
  set (b2 := bstore 24 _ b1). assert (H2 : blen b2 = blen b1) by (apply blen_bstore; rewrite ?blen_le_enc; lia).
  assert (Hz : blen (zeros 20) = 20) by done.
  rewrite bstore_covered; rewrite ?Hz, ?blen_le_enc; [|lia..]. unfold b2.
  rewrite bstore_covered; rewrite ?Hz, ?blen_le_enc; [|lia..]. unfold b1.
  rewrite bstore_covered; rewrite ?Hz, ?blen_le_enc; [done|lia..].
Qed.

(** ** Several lists in one memory *)

Definition same_at (m m' : memory) (i : positive) : Prop :=
  m_nodes m' !! i = m_nodes m !! i /\ m_cells m' !! i = m_cells m !! i.

(** [m'] is [m] with changes from [b] on. *)
Definition extends (b : positive) (m m' : memory) : Prop :=
  (m_brk m <= m_brk m')%positive /\ forall i, (i < b)%positive -> same_at m m' i.

Lemma extends_refl b m : extends b m m.
Proof. by split. Qed.

Lemma extends_trans b b' m1 m2 m3 :
  (b <= b')%positive -> extends b m1 m2 -> extends b' m2 m3 -> extends b m1 m3.
Proof.
  intros Hb [L1 H1] [L2 H2]. split; [lia|]. intros i Hi. destruct (H1 i Hi), (H2 i ltac:(lia)).
  split; congruence.
Qed.

Lemma rep_frame m m' e xs :
  rep (in_mem m e) xs -> (m_brk m <= m_brk m')%positive -> (forall i, i ∈ addrs xs -> same_at m m' i) ->
  rep (in_mem m' e) xs.
Proof.
  intros [Hnd Hch Hc Hh Ht Hs Hf] Hb Hsame. split; try done.
  - revert Hch. apply chain_frame. intros i Hi. apply Hsame, Hi.
  - revert Hc. apply cells_frame. intros i Hi. apply Hsame, Hi.
  - eapply fresh_weaken; [|exact Hf]. done.
Qed.

Lemma list_at_frame b m m' e l : list_at b m e l -> extends b m m' -> list_at b m' e l.
Proof.
  intros (xs & Hr & Hv & Hb) [Hbrk Hsame]. exists xs. split_and!; [|done|done].
  apply (rep_frame m); [done|done|]. intros i Hi. apply Hsame. rewrite list.Forall_forall in Hb. by apply Hb.
Qed.

Lemma item_at_frame b m m' it : item_at b m it -> extends b m m' -> item_at b m' it.
Proof.
  intros H He. induction it as [d s IH] using item_ind. rewrite item_at_eq in *. cbn [data sub] in *.
  destruct (islist d); [|done]. destruct H as [Hl Hs]. split; [by eapply list_at_frame|].
  rewrite list.Forall_forall in *. intros x Hx. apply IH; [done|by apply Hs].
Qed.

Lemma items_at_frame b m m' l : Forall (item_at b m) l -> extends b m m' -> Forall (item_at b m') l.
Proof. intros H He. eapply list.Forall_impl; [exact H|]. intros. by eapply item_at_frame. Qed.

Lemma holds_frame b m m' e l : holds b m e l -> extends b m m' -> holds b m' e l.
Proof. intros [H1 H2] He. split; [by eapply list_at_frame|by eapply items_at_frame]. Qed.

Lemma list_at_above b b' m e l : (b <= b')%positive -> list_at b m e l -> list_at b' m e l.
Proof. intros Hb (xs & Hr & Hv & Hf). exists xs. split_and!; [done|done|]. by eapply fresh_weaken. Qed.

Lemma item_at_above b b' m it : (b <= b')%positive -> item_at b m it -> item_at b' m it.
Proof.
  intros Hb H. induction it as [d s IH] using item_ind. rewrite item_at_eq in *. cbn [data sub] in *.
  destruct (islist d); [|done]. destruct H as [Hl Hs]. split; [by eapply list_at_above|].
  rewrite list.Forall_forall in *. intros x Hx. apply IH; [done|by apply Hs].
Qed.

(** An empty list is one in any memory. *)
Lemma holds_nil b m : holds b m (Ends None None 0) [].
Proof. split; [|constructor]. exists []. split_and!; [split; try done; constructor|done|constructor]. Qed.

(** ** A list that grows *)

(** The list [e], with the nodes [xs] from [b] on, holds what [l] holds up to
    addresses; the sublists of its elements are below [b]. *)
Definition growing (b : positive) (m : memory) (e : ends) (xs : list (positive * (list byte * Z)))
    (l : list item) : Prop :=
  rep (in_mem m e) xs /\ Forall (fun i => (b <= i)%positive) (addrs xs) /\
  exists its, values xs = entry <$> its /\ Forall (item_at b m) its /\ strip <$> its = strip <$> l.

Lemma growing_nil b m : growing b m (Ends None None 0) [] [].
Proof. split_and!; [split; try done; constructor|constructor|by exists []]. Qed.

Lemma growing_holds b m e xs l :
  growing b m e xs l -> exists its, holds (m_brk m) m e its /\ strip <$> its = strip <$> l.
Proof.
  intros (Hr & Hb & its & Hv & Hat & Es). exists its. split; [|done]. split.
  - exists xs. split_and!; [done|done|apply (rep_fresh _ _ Hr)].
  - destruct xs as [|x xs].
    { symmetry in Hv. apply fmap_nil_inv in Hv as ->. constructor. }
    eapply list.Forall_impl; [exact Hat|]. intros it. apply item_at_above.
    apply Forall_cons_iff in Hb as [Hx _]. pose proof (rep_fresh _ _ Hr) as Hf.
    apply Forall_cons_iff in Hf as [Hf _]. cbn in *. lia.
Qed.

Lemma growing_frame b m m' e xs l :
  growing b m e xs l -> extends b m m' -> (forall i, i ∈ addrs xs -> same_at m m' i) -> growing b m' e xs l.
Proof.
  intros (Hr & Hb & its & Hv & Hat & Es) He Hs. split_and!; [|done|].
  - apply (rep_frame m); [done|apply He|done].
  - exists its. split_and!; [done|by eapply items_at_frame|done].
Qed.

Lemma growing_ends b m e xs l : growing b m e xs l -> Zpos (m_brk m) < 2 ^ 64 -> ends_ok e.
Proof.
  intros (Hr & _) Hb. assert (Hp : forall p, (forall i, p = Some i -> i ∈ addrs xs) -> ptr p < 2 ^ 64).
  { intros [i|] Hi; [|done]. pose proof (rep_fresh _ _ Hr) as Hf. rewrite list.Forall_forall in Hf.
    specialize (Hf i (Hi i eq_refl)). cbn in *. lia. }
  split_and!.
  - apply Hp. intros i Ei. pose proof (rep_head _ _ Hr) as Eh. cbn in Eh. rewrite Ei in Eh.
    destruct (addrs xs); [done|]. injection Eh as ->. by left.
  - apply Hp. intros i Ei. pose proof (rep_tail _ _ Hr) as Et. cbn in Et. rewrite Ei in Et.
    destruct (last_cases (addrs xs)) as [E|(l' & q & E)]; rewrite E in *; [done|].
    rewrite last_of_snoc in Et. injection Et as ->. set_solver.
  - pose proof (rep_size _ _ Hr) as Es. cbn in Es. rewrite Es. apply uwrap_range. lia.
  - pose proof (rep_size _ _ Hr) as Es. cbn in Es. rewrite Es. apply uwrap_range. lia.
Qed.

(** One more element. *)
Lemma growing_push b m e xs l it it' w :
  growing b m e xs l -> item_at b m it' -> strip it' = strip it -> (b <= m_brk m)%positive -> mem_ok w ->
  exists e' m', push_back m e (data it') (blen (data it')) w = Ok ((e', m'), grown w) /\
    growing b m' e' (xs ++ [(m_brk m, entry it')]) (l ++ [it]) /\ m_brk m' = Pos.succ (m_brk m) /\
    extends b m m' /\ forall i, i ∉ addrs xs -> i <> m_brk m -> same_at m m' i.
Proof.
  intros (Hr & Hb & its & Hv & Hat & Es) Hit Est Hbrk Hm.
  destruct (push_back_frame (in_mem m e) xs (data it') (blen (data it')) w Hr Hm) as (d & E & Hd & Hlb & Hout).
  assert (Hext : extends b m (mem_of d)).
  { split; [cbn; rewrite Hlb; cbn; lia|]. intros i Hi. apply Hout; [|cbn; lia].
    intros Hin. rewrite list.Forall_forall in Hb. specialize (Hb i Hin). lia. }
  exists (ends_in d), (mem_of d). unfold push_back. rewrite (prog_bind_ok _ _ _ _ _ E).
  split; [done|]. split_and!; [|exact Hlb|done|exact Hout]. split_and!.
  - by destruct d.
  - unfold addrs in *. rewrite fmap_app. apply list.Forall_app. split; [done|]. by repeat constructor.
  - exists (its ++ [it']). split_and!.
    + unfold values in *. rewrite !fmap_app, Hv. done.
    + apply list.Forall_app. split; [by eapply items_at_frame|]. repeat constructor. by eapply item_at_frame.
    + rewrite !fmap_app, Es. cbn. by rewrite Est.
Qed.

(** ** The lists of one level *)

Lemma hash_range n (k : list byte) : blen k = n -> 0 <= q__uhashf k n < Q_DEFAULT_MAXHASHV.
Proof. intros _. by apply Z.mod_pos_bound. Qed.

(** The map [M] in the hash map of the level [k]. *)
Abbreviation map_at k := (map_ok (4 * Z.of_nat k) (sizeof list_descriptor) Q_DEFAULT_MAXHASHV q__uhashf).

(** The map [M] has, for each path, the list of the elements met in the records
    [R]; the nodes [G] of different lists are different. *)
Record lists_ok (b : positive) (k : nat) (m : memory) (M : gmap (list byte) (list byte))
    (G : list byte -> list (positive * (list byte * Z))) (R : list record) : Prop := ListsOk {
  lists_each q : blen q = 4 * Z.of_nat k ->
    match M !! q with
    | None => group q R = []
    | Some v => blen v = sizeof list_descriptor /\ group q R <> [] /\
        growing b m (load_ends v) (G q) (group q R)
    end;
  lists_apart p q i : p <> q -> blen p = 4 * Z.of_nat k -> blen q = 4 * Z.of_nat k ->
    is_Some (M !! p) -> is_Some (M !! q) -> i ∈ addrs (G p) -> i ∉ addrs (G q)
}.

(** The hash map [lists] has [n] entries, the lists of the records [R]. *)
Definition built (b : positive) (k : nat) (m : memory) (lists : qMap) (n : nat) (R : list record) : Prop :=
  exists M G, map_at k lists M /\ base.size M = n /\ (n <= length R)%nat /\ lists_ok b k m M G R.

Lemma built_nil b k m lists : map_at k lists ∅ -> built b k m lists 0 [].
Proof.
  intros H. exists ∅, (fun _ => []). split_and!; [done|done|done|split].
  - intros q _. by rewrite lookup_empty.
  - intros p q i _ _ _ [? E]. by rewrite lookup_empty in E.
Qed.

Lemma lists_fresh b k m M G R q i :
  lists_ok b k m M G R -> blen q = 4 * Z.of_nat k -> is_Some (M !! q) -> i ∈ addrs (G q) ->
  (i < m_brk m)%positive.
Proof.
  intros H Hq [v E] Hi. pose proof (lists_each _ _ _ _ _ _ H q Hq) as Hv. rewrite E in Hv.
  destruct Hv as (_ & _ & Hr & _). pose proof (rep_fresh _ _ Hr) as Hf. rewrite list.Forall_forall in Hf.
  by apply Hf.
Qed.

(** One list with one more element, the others as they are. *)
Lemma lists_put b k m M G R p i it v xs x m' :
  lists_ok b k m M G R -> blen p = 4 * Z.of_nat k -> blen v = sizeof list_descriptor ->
  xs = [] \/ (xs = G p /\ is_Some (M !! p)) -> x.1 = m_brk m ->
  growing b m' (load_ends v) (xs ++ [x]) (group p R ++ [it]) -> extends b m m' ->
  (forall j, j ∉ addrs xs -> j <> m_brk m -> same_at m m' j) ->
  lists_ok b k m' (<[p := v]> M) (fun q => if decide (q = p) then xs ++ [x] else G q) (R ++ [(p, i, it)]).
Proof.
  intros H Hp Hv Hxs Hx Hg He Hs.
  assert (Hxs' : forall q j, q <> p -> blen q = 4 * Z.of_nat k -> is_Some (M !! q) -> j ∈ addrs (G q) ->
    j ∉ addrs (xs ++ [x])).
  { intros q j Hq Hlq Mq Hj. rewrite addrs_app, elem_of_app. pose proof (lists_fresh _ _ _ _ _ _ _ _ H Hlq Mq Hj).
    intros [Hin|Hin]; [|cbn in Hin; assert (j = x.1) by set_solver; subst j; lia].
    destruct Hxs as [->|[-> Mp]]; [by apply elem_of_nil in Hin|].
    by apply (lists_apart _ _ _ _ _ _ H q p j). }
  split.
  - intros q Hq. rewrite group_app. destruct (decide (q = p)) as [->|Hne].
    + rewrite lookup_insert_eq, group_one. split_and!; [done| |done]. by destruct (group p R).
    + rewrite lookup_insert_ne, group_other, app_nil_r by done.
      pose proof (lists_each _ _ _ _ _ _ H q Hq) as Hq'. destruct (M !! q) as [v'|] eqn:Eq; [|done].
      destruct Hq' as (? & ? & Hgr). split_and!; [done|done|]. apply (growing_frame b m); [done|done|].
      assert (Hsq : is_Some (M !! q)) by (by exists v').
      intros j Hj. pose proof (lists_fresh _ _ _ _ _ _ _ _ H Hq Hsq Hj). apply Hs; [|lia].
      intros Hin. apply (Hxs' q j); [done..|]. rewrite addrs_app. set_solver.
  - intros p' q j Hne Hlp Hlq Mp Mq. destruct (decide (p' = p)) as [->|Hp'], (decide (q = p)) as [->|Hq']; [done| | |].
    + rewrite lookup_insert_ne in Mq by done. intros Hj Hj'. by apply (Hxs' q j).
    + rewrite lookup_insert_ne in Mp by done. by apply Hxs'.
    + rewrite lookup_insert_ne in Mp, Mq by done. by apply (lists_apart _ _ _ _ _ _ H).
Qed.

Section unserialize_facts.
Context (junk : nat -> byte).

Lemma blen_fresh_list : blen (fresh_list junk) = sizeof list_descriptor.
Proof.
  unfold fresh_list. rewrite blen_store_ends.
  - rewrite blen_bstore; [|done|]; unfold blen; rewrite length_fmap, length_seq; done.
  - unfold fits. rewrite blen_bstore; [|done|]; unfold blen; rewrite length_fmap, length_seq; done.
Qed.

Lemma load_fresh_list : load_ends (fresh_list junk) = Ends None None 0.
Proof.
  unfold fresh_list. apply load_store_ends; [|done].
  unfold fits. rewrite blen_bstore; [|done|]; unfold blen; rewrite length_fmap, length_seq; done.
Qed.

Lemma join_siblings_ok b k m lists n R tmprefix p i it it' w :
  built b k m lists n R -> bss_ok tmprefix -> content tmprefix = p -> blen p = 4 * Z.of_nat k ->
  item_at b m it' -> strip it' = strip it -> (b <= m_brk m)%positive -> Zpos (m_brk m) < 2 ^ 64 - 1 -> mem_ok w ->
  exists lists' m' n' w',
    join_siblings junk lists m tmprefix (data it') (blen (data it')) w = Ok ((lists', m'), w') /\
    built b k m' lists' n' (R ++ [(p, i, it)]) /\ m_brk m' = Pos.succ (m_brk m) /\ extends b m m' /\
    allocated (2 + 4 * (Z.of_nat n' - Z.of_nat n)) w w'.
Proof using Type.
  intros (M & G & Hmap & En & Hsz & HL) Hb Hc Hp Hit Est Hbrk Hlim Hm.
  pose proof (content_size _ Hb) as Hs. rewrite Hc, Hp in Hs. unfold join_siblings. rewrite Hc, <- Hs.
  pose proof (hash_range (4 * Z.of_nat k)) as Hh.
  rewrite (prog_bind_ok _ _ _ _ _ (map_ptr_at_ok _ _ _ _ Hh lists M p w Hmap Hp)).
  pose proof (lists_each _ _ _ _ _ _ HL p Hp) as Heach.
  assert (Hfin : forall e' m' lists' v xs, map_at k lists' (<[p := v]> M) -> blen v = sizeof list_descriptor ->
    load_ends v = e' -> xs = [] \/ (xs = G p /\ is_Some (M !! p)) ->
    growing b m' e' (xs ++ [(m_brk m, entry it')]) (group p R ++ [it]) -> extends b m m' ->
    (forall j, j ∉ addrs xs -> j <> m_brk m -> same_at m m' j) ->
    built b k m' lists' (base.size (<[p := v]> M)) (R ++ [(p, i, it)])).
  { intros e' m' lists' v xs Hmap' Hv <- Hxs Hg He Hsame.
    eexists _, _. split_and!;
      [exact Hmap'|done| |apply (lists_put b k m M G R p i it v xs (m_brk m, entry it') m'); done].
    rewrite length_app, map_size_insert. cbn [length]. destruct (M !! p); cbn in *; lia. }
  destruct (M !! p) as [v|] eqn:EM; cbn [fmap option_fmap option_map pack value].
  - destruct Heach as (Hv & _ & Hg). cbn [fst snd pack value].
    destruct (growing_push b m (load_ends v) (G p) (group p R) it it' w Hg Hit Est Hbrk Hm)
      as (e' & m' & E & Hg' & Hbrk' & He & Hsame).
    rewrite (prog_bind_ok _ _ _ _ _ E). cbv beta iota.
    assert (Hok : ends_ok e') by (apply (growing_ends _ _ _ _ _ Hg'); rewrite Hbrk'; lia).
    assert (Hfits : fits list_descriptor v) by (by apply fits_exact).
    destruct (store_value_ok _ _ _ _ Hh lists M p (store_ends e' v) v (grown w) Hmap Hp) as (lists' & E' & Hmap');
      [by rewrite blen_store_ends|done|].
    rewrite (prog_bind_ok _ _ _ _ _ E'). exists lists', m', (base.size (<[p := store_ends e' v]> M)), (grown w).
    split_and!; [done| |done|done|split; [done|rewrite map_size_insert, EM; cbn [pred Nat.add]; cbn [grown w_live set_live]; cbn; lia]].
    eapply Hfin; [exact Hmap'|by rewrite blen_store_ends|by apply load_store_ends|by right|exact Hg'|done|done].
  - rewrite load_fresh_list.
    destruct (growing_push b m (Ends None None 0) [] [] it it' w (growing_nil b m) Hit Est Hbrk Hm)
      as (e' & m' & E & Hg' & Hbrk' & He & Hsame).
    rewrite (prog_bind_ok _ _ _ _ _ E). cbv beta iota.
    assert (Hok : ends_ok e') by (apply (growing_ends _ _ _ _ _ Hg'); rewrite Hbrk'; lia).
    assert (Hfits : fits list_descriptor (fresh_list junk)) by (by apply fits_exact, blen_fresh_list).
    destruct (map_insert_ok _ _ _ _ Hh lists M p (store_ends e' (fresh_list junk)) (grown w) Hmap) as (lists' & w' & E' & Hmap' & Hm' & Hw');
      [done|done|by rewrite blen_store_ends, blen_fresh_list|].
    rewrite (prog_bind_ok _ _ _ _ _ E').
    exists lists', m', (base.size (<[p := store_ends e' (fresh_list junk)]> M)), w'. rewrite EM in Hw'.
    split_and!; [done| |done|done|split; [done|rewrite Hw', map_size_insert, EM; cbn [grown w_live set_live]; cbn; lia]].
    eapply Hfin; [exact Hmap'|by rewrite blen_store_ends, blen_fresh_list|by apply load_store_ends|by left| |done|done].
    by rewrite Heach.
Qed.
(** ** Sublists *)

(** The map of the level below has the sublist of the element of a record, unless
    it has no elements; at the deepest level there are no sublists. *)
Definition sister_ok (b : positive) (k : nat) (m : memory) (prev : option qMap) (r : record) : Prop :=
  match prev with
  | None => sub r.2 = []
  | Some lists =>
      exists M, map_at (S k) lists M /\
        match M !! (r.1.1 ++ le_enc 4 (Z.of_nat r.1.2)) with
        | None => sub r.2 = []
        | Some v => blen v = sizeof list_descriptor /\ sub r.2 <> [] /\
            exists s, holds b m (load_ends v) s /\ strip <$> s = strip <$> sub r.2
        end
  end.

Lemma sister_frame b k m m' prev r : extends b m m' -> sister_ok b k m prev r -> sister_ok b k m' prev r.
Proof using Type.
  intros He. destruct prev as [lists|]; [|done]. intros (M & HM & H). exists M. split; [done|].
  destruct (M !! _); [|done]. destruct H as (Hv & Hn & s & Hs & E). split_and!; [done|done|].
  exists s. split; [by eapply holds_frame|done].
Qed.

Lemma islist_sub it : item_wf it -> sub it <> [] -> islist (data it) = true.
Proof using Type. intros (H & _)%item_wf_eq Hn. destruct (islist (data it)); [done|]. by destruct (Hn (H eq_refl)). Qed.

(** An element without sublist can be taken as it is. *)
Lemma lone_item b m it : item_wf it -> sub it = [] -> item_at b m (Item (data it) []) /\ strip (Item (data it) []) = strip it.
Proof using Type.
  intros (_ & He & _)%item_wf_eq Hn. destruct it as [d s]. cbn [data sub] in *. subst s. split; [|done].
  rewrite item_at_eq. cbn [data sub]. destruct (islist d) eqn:E; [|done]. rewrite He by done. apply holds_nil.
Qed.

(** The search for the sublist. *)
Lemma find_sister_ok k prev M tmprefix (i : nat) w :
  map_at (S k) prev M -> bss_ok tmprefix -> blen (content tmprefix) = 4 * Z.of_nat k ->
  4 * Z.of_nat k + 4 < 2 ^ 31 -> mem_ok w ->
  exists w', (if Z.of_nat k =? 0 then q__Map_ptr_at prev (le_enc 4 (Z.of_nat i)) 4 q__uhashf
      else
        tmpsearcher ← qbss_constructor;
        tmpsearcher ← bss_cat tmpsearcher tmprefix;
        tmpsearcher ← q__bss_append tmpsearcher (le_enc 4 (Z.of_nat i)) 4;
        tmpmd ← q__Map_ptr_at prev (content tmpsearcher) (Bss.size tmpsearcher) q__uhashf;
        qbss_destructor tmpsearcher;;
        mret tmpmd) w =
    Ok ((fun v => (pack (4 * Z.of_nat (S k)) (sizeof list_descriptor) (content tmprefix ++ le_enc 4 (Z.of_nat i), v)).1)
        <$> M !! (content tmprefix ++ le_enc 4 (Z.of_nat i)), w') /\ allocated 0 w w'.
Proof using Type.
  intros HM Hb Hl Hk Hm. pose proof (hash_range (4 * Z.of_nat (S k))) as Hh.
  pose proof (map_ptr_at_ok _ (sizeof list_descriptor) _ _ Hh prev M (content tmprefix ++ le_enc 4 (Z.of_nat i))) as Hat.
  destruct (Z.eqb_spec (Z.of_nat k) 0) as [E|E].
  - exists w. split; [|split; [done|lia]]. assert (content tmprefix = []) as Ec.
    { destruct (content tmprefix); [done|]. rewrite blen_cons in Hl. pose proof (blen_nonneg l). lia. }
    rewrite Ec in *. cbn [app] in *. replace (4 * Z.of_nat (S k)) with 4 in * by lia.
    apply Hat; [done|by rewrite blen_le_enc].
  - destruct (bss_new_ok w Hm) as (t0 & E0 & H0 & C0). rewrite (prog_bind_ok _ _ _ _ _ E0).
    destruct (bss_cat_ok t0 tmprefix (set_live (w_live w + 1) w) H0 Hb Hm) as (t1 & E1 & H1 & C1);
      [rewrite C0, blen_nil; lia|]. rewrite (prog_bind_ok _ _ _ _ _ E1). rewrite C0 in C1. cbn [app] in C1.
    pose proof (content_size t1 H1) as S1. rewrite C1 in S1.
    destruct (q__bss_append_ok t1 (le_enc 4 (Z.of_nat i)) 4 (set_live (w_live w + 1) w) H1 Hm)
      as (t2 & E2 & H2 & S2 & C2); [by rewrite blen_le_enc|lia|]. rewrite (prog_bind_ok _ _ _ _ _ E2).
    rewrite btake_all, C1 in C2 by (by rewrite blen_le_enc). rewrite C2.
    replace (Bss.size t2) with (4 * Z.of_nat (S k)) by lia.
    erewrite prog_bind_ok by (apply Hat; [exact HM|rewrite blen_app, blen_le_enc; lia]).
    destruct H2 as (buf & Es & _). unfold qbss_destructor. rewrite Es. erewrite prog_bind_ok by reflexivity.
    eexists. split; [reflexivity|split; [done|cbn [w_live set_live]; lia]].
Qed.

Lemma take_sister_ok b k m prev tmprefix i it w :
  sister_ok b k m prev (content tmprefix, i, it) -> item_wf it -> bss_ok tmprefix ->
  blen (content tmprefix) = 4 * Z.of_nat k -> 4 * Z.of_nat k + 4 < 2 ^ 31 -> mem_ok w ->
  exists it' w', take_sister prev (Z.of_nat k) tmprefix (Z.of_nat i) (data it) w = Ok (data it', w') /\
    item_at b m it' /\ strip it' = strip it /\ blen (data it') = blen (data it) /\ allocated 0 w w'.
Proof using Type.
  intros Hs Hwf Hb Hl Hk Hm. destruct prev as [prev|]; cbn [sister_ok take_sister fst snd] in *.
  2:{ exists (Item (data it) []), w. destruct (lone_item b m it Hwf Hs). split_and!; try done. split; [done|lia]. }
  destruct Hs as (M & HM & Hs). destruct (find_sister_ok k prev M tmprefix i w HM Hb Hl Hk Hm) as (w' & E & Hm').
  rewrite (prog_bind_ok _ _ _ _ _ E). destruct (M !! _) as [v|]; cbn [fmap option_fmap option_map mbind option_bind].
  2:{ exists (Item (data it) []), w'. destruct (lone_item b m it Hwf Hs). by split_and!. }
  destruct Hs as (Hv & Hn & s & Hh & Es). cbn [pack fst snd value].
  pose proof (islist_sub it Hwf Hn) as Hd. pose proof (islist_long _ Hd) as Hf. pose proof Hf as Hlen.
  unfold fits in Hlen. change (sizeof list_descriptor) with 40 in Hlen.
  change (end_at 0 list_descriptor) with 36. rewrite (proj2 (Z.ltb_ge _ _)) by lia.
  pose proof (load_ends_ok v) as Hends.
  exists (Item (store_ends (load_ends v) (data it)) s), w'. split_and!; [done| | | |done]; cbn [data].
  - rewrite item_at_eq. cbn [data sub]. rewrite islist_store_ends, Hd, load_store_ends by done. done.
  - destruct it as [d s0]. cbn in *. by rewrite blank_store_ends, Es.
  - by rewrite blen_store_ends.
Qed.
(** ** One record *)

(** What the loop has done for the records [R] of the level [k]; the map has [n]
    entries. *)
Definition level_ok (b : positive) (k : nat) (u : ustate) (n : nat) (R : list record) : Prop :=
  Zpos (m_brk (u_mem u)) = Zpos b + Z.of_nat (length R) /\
  match k with
  | O => n = O /\ map_at O (u_lists u) ∅ /\ exists xs, growing b (u_mem u) (u_items u) xs R.*2
  | S _ => built b k (u_mem u) (u_lists u) n R
  end.

Lemma read_uint_ok (A T : list byte) n :
  0 <= n < 2 ^ 32 -> read_uint (A ++ le_enc 4 n ++ T) (blen A) = Ok n.
Proof using Type.
  intros Hn. unfold read_uint. pose proof (blen_nonneg A). pose proof (blen_nonneg T).
  rewrite !blen_app, blen_le_enc. rewrite !(proj2 (Z.leb_le _ _)) by lia. cbn [andb].
  rewrite bslice_mid by (by rewrite blen_le_enc). rewrite le_dec_enc. f_equal. by apply uwrap_small.
Qed.

Lemma copy_out_ok (d T : list byte) : memcpy (zeros (blen d)) 0 (d ++ T) (blen d) = Ok d.
Proof using Type.
  pose proof (blen_nonneg d). pose proof (blen_nonneg T).
  rewrite memcpy_ok by (rewrite ?blen_zeros, ?blen_app by lia; lia). rewrite btake_app, bstore_0. f_equal.
  replace (bdrop (blen d) (zeros (blen d))) with (@nil byte); [by rewrite app_nil_r|].
  symmetry. apply drop_ge. blia.
Qed.

(** The index, the size and the bytes of a record. *)
Lemma read_record_ok (A T : list byte) n d :
  0 <= n < 2 ^ 32 -> blen d < 2 ^ 32 ->
  let buf := A ++ le_enc 4 n ++ le_enc 4 (blen d) ++ d ++ T in
  read_uint buf (blen A) = Ok n /\ read_uint buf (blen A + 4) = Ok (blen d) /\
  memcpy (zeros (blen d)) 0 (bdrop (blen A + 8) buf) (blen d) = Ok d.
Proof using Type.
  intros Hn Hd buf. pose proof (blen_nonneg d). split_and!.
  - by apply read_uint_ok.
  - replace (blen A + 4) with (blen (A ++ le_enc 4 n)) by (rewrite blen_app, blen_le_enc; lia).
    unfold buf. rewrite app_assoc. apply read_uint_ok. lia.
  - replace (blen A + 8) with (blen (A ++ le_enc 4 n ++ le_enc 4 (blen d))) by (rewrite !blen_app, !blen_le_enc; lia).
    unfold buf. replace (A ++ le_enc 4 n ++ le_enc 4 (blen d) ++ d ++ T)
      with ((A ++ le_enc 4 n ++ le_enc 4 (blen d)) ++ d ++ T) by (by rewrite <- !app_assoc).
    rewrite bdrop_app. apply copy_out_ok.
Qed.

(** The path of the record. *)
Lemma read_prefix_ok k (q A T : list byte) w :
  blen q = 4 * Z.of_nat k -> 4 * Z.of_nat k < 2 ^ 31 -> mem_ok w ->
  exists t w', (tmprefix ← qbss_constructor;
      (if 0 <? Z.of_nat k then q__bss_append tmprefix (bdrop (blen A) (A ++ q ++ T)) (u32 (Z.of_nat k * 4))
       else mret tmprefix)) w = Ok (t, w') /\ bss_ok t /\ content t = q /\ allocated 1 w w'.
Proof using Type.
  intros Hq Hk Hm. destruct (bss_new_ok w Hm) as (t0 & E0 & H0 & C0). rewrite (prog_bind_ok _ _ _ _ _ E0).
  destruct (Z.ltb_spec 0 (Z.of_nat k)) as [Hpos|Hz].
  - rewrite bdrop_app, uwrap_small by lia. pose proof (content_size t0 H0) as S0. rewrite C0, blen_nil in S0.
    pose proof (blen_nonneg T).
    destruct (q__bss_append_ok t0 (q ++ T) (Z.of_nat k * 4) (set_live (w_live w + 1) w) H0 Hm) as (t & E & Ht & _ & Ct);
      [rewrite blen_app; lia|lia|]. exists t, (set_live (w_live w + 1) w). split_and!; [done|done| |done].
    rewrite Ct, C0. apply btake_app_eq. lia.
  - assert (q = []) as -> by (destruct q; [done|rewrite blen_cons in Hq; pose proof (blen_nonneg q); lia]).
    eexists _, _. split; [reflexivity|]. by split_and!.
Qed.

(** Where the element goes. *)
Lemma place_ok b k u n R tmprefix q i it it' w :
  level_ok b k u n R -> bss_ok tmprefix -> content tmprefix = q -> blen q = 4 * Z.of_nat k ->
  item_at b (u_mem u) it' -> strip it' = strip it -> Zpos (m_brk (u_mem u)) < 2 ^ 64 - 1 -> mem_ok w ->
  exists lists items m n' w', ('(lists, m) ← (if Z.of_nat k =? 0 then mret (u_lists u, u_mem u)
          else join_siblings junk (u_lists u) (u_mem u) tmprefix (data it') (blen (data it')));
        '(items, m) ← (if Z.of_nat k =? 0 then push_back m (u_items u) (data it') (blen (data it'))
          else mret (u_items u, m)); mret (lists, items, m)) w = Ok ((lists, items, m), w') /\
    (forall pos, level_ok b k (UState pos lists items m) n' (R ++ [(q, i, it)])) /\ extends b (u_mem u) m /\
    allocated (2 + 4 * (Z.of_nat n' - Z.of_nat n)) w w'.
Proof using Type.
  intros [Hbrk Hlev] Hb Hc Hq Hit Est Hlim Hm. unfold level_ok. cbn [u_mem u_lists u_items].
  rewrite length_app. cbn [length]. destruct k as [|k].
  - cbn [Z.of_nat Z.eqb]. destruct Hlev as (-> & Hmap & xs & Hg).
    destruct (growing_push b (u_mem u) (u_items u) xs R.*2 it it' w Hg Hit Est ltac:(lia) Hm)
      as (e' & m' & E & Hg' & Hbrk' & He & _).
    erewrite prog_bind_ok by reflexivity. cbv beta iota. rewrite (prog_bind_ok _ _ _ _ _ E).
    eexists _, _, _, O, _. split; [reflexivity|].
    split_and!; [|done|split; [done|cbn [grown w_live set_live]; lia]]. intros _. split; [lia|].
    split; [done|]. split; [done|]. eexists. rewrite fmap_app. exact Hg'.
  - replace (Z.of_nat (S k) =? 0) with false by (symmetry; apply Z.eqb_neq; lia).
    destruct (join_siblings_ok b (S k) (u_mem u) (u_lists u) n R tmprefix q i it it' w Hlev Hb Hc Hq Hit Est)
      as (lists' & m' & n' & w' & E & Hbuilt & Hbrk' & He & Hm'); [lia|done|done|].
    rewrite (prog_bind_ok _ _ _ _ _ E). cbv beta iota. erewrite prog_bind_ok by reflexivity.
    eexists _, _, _, n', _. split; [reflexivity|]. split_and!; [|done|done]. intros _. split; [lia|done].
Qed.

Lemma element_ok b k u n R prev q i it (A T : list byte) w :
  level_ok b k u n R -> sister_ok b k (u_mem u) prev (q, i, it) -> item_wf it -> blen q = 4 * Z.of_nat k ->
  Z.of_nat i < 2 ^ 32 -> blen (record_bytes (q, i, it)) < 2 ^ 31 -> u_pos u = blen A ->
  Zpos (m_brk (u_mem u)) < 2 ^ 64 - 1 -> mem_ok w ->
  exists u' n' w', unserialize_element junk (Z.of_nat k) prev (A ++ record_bytes (q, i, it) ++ T) u w = Ok (u', w') /\
    level_ok b k u' n' (R ++ [(q, i, it)]) /\ u_pos u' = blen (A ++ record_bytes (q, i, it)) /\
    extends b (u_mem u) (u_mem u') /\ allocated (3 + 4 * (Z.of_nat n' - Z.of_nat n)) w w'.
Proof using Type.
  intros Hlev Hsis Hwf Hq Hi Hrec Hpos Hlim Hm. pose proof (blen_nonneg (data it)).
  unfold record_bytes in *. cbn [fst snd] in *. rewrite !blen_app, !blen_le_enc in Hrec.
  rewrite <- !app_assoc. unfold unserialize_element. rewrite Hpos.
  set (T1 := le_enc 4 (Z.of_nat i) ++ le_enc 4 (blen (data it)) ++ data it ++ T).
  destruct (read_prefix_ok k q A T1 w Hq ltac:(lia) Hm) as (t & w1 & E1 & Ht & Ct & Hm1 & Hw1).
  apply prog_bind_inv in E1 as (t0 & w0 & E0 & E1).
  rewrite (prog_bind_ok _ _ _ _ _ E0), (prog_bind_ok _ _ _ _ _ E1). clear t0 w0 E0 E1.
  replace (blen A + Z.of_nat k * 4) with (blen (A ++ q)) by (rewrite blen_app; lia).
  destruct (read_record_ok (A ++ q) T (Z.of_nat i) (data it)) as (R1 & R2 & R3); [lia|lia|].
  fold T1 in R1, R2, R3. rewrite <- app_assoc in R1, R2, R3.
  rewrite R1. erewrite prog_bind_ok by reflexivity. rewrite R2. erewrite prog_bind_ok by reflexivity.
  rewrite (prog_bind_ok _ _ _ _ _ (malloc_ok w1 Hm1)). cbn [negb].
  rewrite R3. erewrite prog_bind_ok by reflexivity. rewrite <- Ct in Hsis.
  destruct (take_sister_ok b k (u_mem u) prev t i it (set_live (w_live w1 + 1) w1) Hsis Hwf Ht)
    as (it' & w2 & E2 & Hit & Est & Elen & Hm2 & Hw2); [by rewrite Ct|lia|done|].
  rewrite (prog_bind_ok _ _ _ _ _ E2), <- Elen.
  destruct (place_ok b k u n R t q i it it' w2 Hlev Ht Ct Hq Hit Est Hlim Hm2)
    as (lists & items & m & n' & w3 & E3 & Hlev' & He & Hm3 & Hw3).
  apply prog_bind_inv in E3 as ([lists1 m1] & w4 & E4 & E3). rewrite (prog_bind_ok _ _ _ _ _ E4). cbv beta iota.
  apply prog_bind_inv in E3 as ([items1 m2] & w5 & E5 & E3). rewrite (prog_bind_ok _ _ _ _ _ E5). cbv beta iota.
  injection E3 as -> -> -> ->. destruct Ht as (buf & Es & _). unfold qbss_destructor. rewrite Es.
  erewrite prog_bind_ok by reflexivity. eexists _, n', _. split; [reflexivity|].
  split_and!; [apply Hlev'| |done|split; [done|cbn [w_live set_live] in *; lia]]. cbn [u_pos]. rewrite Elen, !blen_app, !blen_le_enc. lia.
Qed.

(** ** One level *)

Lemma level_loop_ok b k prev sz (T : list byte) : forall R2 fuel R1 u n (A : list byte) w,
  level_ok b k u n R1 -> Forall (sister_ok b k (u_mem u) prev) R2 ->
  Forall (fun r => item_wf r.2 /\ blen r.1.1 = 4 * Z.of_nat k /\ Z.of_nat r.1.2 < 2 ^ 32) R2 ->
  u_pos u = blen A -> sz = blen (A ++ concat (record_bytes <$> R2)) -> sz < 2 ^ 31 -> (length R2 < fuel)%nat ->
  Zpos b + Z.of_nat (length (R1 ++ R2)) < 2 ^ 64 - 1 -> mem_ok w ->
  exists u' n' w', unserialize_loop junk fuel (Z.of_nat k) prev (A ++ concat (record_bytes <$> R2) ++ T) sz u w = Ok (u', w') /\
    level_ok b k u' n' (R1 ++ R2) /\ extends b (u_mem u) (u_mem u') /\
    allocated (3 * blen R2 + 4 * (Z.of_nat n' - Z.of_nat n)) w w'.
Proof using Type.
  induction R2 as [|[[q i] it] R2 IH]; intros fuel R1 u n A w Hlev Hsis Hok Hpos Hsz Hlt Hf Hlim Hm;
    (destruct fuel as [|fuel]; [cbn in Hf; lia|]); cbn [unserialize_loop].
  - cbn in Hsz. rewrite app_nil_r in *. rewrite Hpos, Hsz, Z.eqb_refl. exists u, n, w.
    split_and!; [done|done|apply extends_refl|split; [done|change (blen []) with 0; lia]].
  - rewrite fmap_cons in *. cbn [concat] in *. apply Forall_cons_iff in Hsis as [Hs Hsis].
    apply Forall_cons_iff in Hok as [(Hwf & Hq & Hi) Hok]. cbn [fst snd] in *.
    set (X := concat (record_bytes <$> R2)) in *. pose proof (blen_nonneg X). pose proof (blen_nonneg A).
    rewrite !blen_app in Hsz.
    assert (Hr : 8 <= blen (record_bytes (q, i, it))).
    { unfold record_bytes. cbn [fst snd]. rewrite !blen_app, !blen_le_enc. pose proof (blen_nonneg q).
      pose proof (blen_nonneg (data it)). lia. }
    rewrite Hpos. destruct (Z.eqb_spec (blen A) sz); [lia|].
    rewrite <- (app_assoc (record_bytes (q, i, it)) X T). rewrite length_app in Hlim. cbn [length] in *.
    destruct (element_ok b k u n R1 prev q i it A (X ++ T) w Hlev Hs Hwf Hq Hi) as (u1 & n1 & w1 & E & Hlev1 & Hpos1 & He & Hm1 & Hw1);
      [lia|done|destruct Hlev as [-> _]; lia|done|].
    rewrite (prog_bind_ok _ _ _ _ _ E).
    destruct (IH fuel (R1 ++ [(q, i, it)]) u1 n1 (A ++ record_bytes (q, i, it)) w1 Hlev1)
      as (u' & n' & w' & E' & Hlev' & He' & Hm' & Hw').
    + eapply list.Forall_impl; [exact Hsis|]. intros r. by apply sister_frame.
    + done.
    + done.
    + rewrite !blen_app. fold X. lia.
    + done.
    + lia.
    + rewrite !length_app. cbn. lia.
    + done.
    + exists u', n', w'. rewrite <- !app_assoc in *. fold X in E'.
      split_and!; [done|done|by eapply extends_trans|split; [done|rewrite blen_cons; lia]].
Qed.
(** The lists of a level are the sublists of the elements above it. *)
Lemma sisters_above b k m lists n l :
  built b (S k) m lists n (at_level (S k) [] l) -> small [] l ->
  Forall (sister_ok (m_brk m) k m (Some lists)) (at_level k [] l).
Proof using Type.
  intros (M & G & HM & _ & _ & HL) Hs. apply list.Forall_forall. intros [[q i] it] Hr.
  destruct (group_children k [] l q i it Hs Hr) as [Hg _]. cbn [sister_ok fst snd].
  exists M. split; [done|]. apply at_level_path in Hr as (s & -> & Hl). cbn [app] in *.
  pose proof (lists_each _ _ _ _ _ _ HL (s ++ le_enc 4 (Z.of_nat i))) as He.
  rewrite Hg in He. specialize (He ltac:(rewrite blen_app, blen_le_enc; lia)).
  destruct (M !! _) as [v|]; [|done]. destruct He as (Hv & Hn & Hgr). split_and!; [done|done|].
  by eapply growing_holds.
Qed.

(** The records of a level are what its string says. *)
Lemma level_records k l :
  small [] l -> Forall item_wf l ->
  Forall (fun r : record => item_wf r.2 /\ blen r.1.1 = 4 * Z.of_nat k /\ Z.of_nat r.1.2 < 2 ^ 32) (at_level k [] l).
Proof using Type.
  intros Hs Hwf. apply list.Forall_forall. intros [[q i] it] Hr. split_and!; cbn [fst snd].
  - by apply (at_level_wf k [] l (q, i, it)).
  - by apply at_level_path in Hr as (s & -> & Hl).
  - destruct (group_children k [] l q i it Hs Hr) as [_ ?]. lia.
Qed.

(** The last string of a data set. *)
Lemma last_string d Ls L :
  dataset_ok d (Ls ++ [L]) ->
  exists t b n, tail d = Some t /\ qListIterator_deref d t = Ok (Some b, n) /\ bss_ok b /\ content b = L /\
    size d = u32 (blen Ls + 1).
Proof using Type.
  intros (xs & Hr & H2). pose proof (Forall2_length H2) as Hlen.
  apply Forall2_app_inv_r in H2 as (ys & zs & _ & (x & zs' & [Hb Hc] & ->%Forall2_nil_inv_r & ->)%Forall2_cons_inv_r & ->).
  exists x.1, x.2.1, x.2.2. split_and!; [by eapply rep_snoc_tail| |done|done|].
  - unfold qListIterator_deref. by rewrite (rep_lookup d ys x []).
  - rewrite (rep_size _ _ Hr). unfold blen. rewrite Hlen, length_app. cbn. f_equal. lia.
Qed.

(** The data set without its last string, as a copy. *)
Lemma copy_but_last d Ls L w :
  dataset_ok d (Ls ++ [L]) -> mem_ok w ->
  exists d' w', (tmpng ← q__List_copy d; q__List_pop_back tmpng) w = Ok ((0, d'), w') /\ dataset_ok d' Ls /\
    allocated (2 * blen Ls) w w'.
Proof using Type.
  intros (xs & Hr & H2) Hm.
  destruct (list_copy_destroy d (values xs) w) as [(r & E & ys & Hr' & Hv) _]; [by exists xs|done|].
  rewrite (prog_bind_ok _ _ _ _ _ E).
  assert (H2' : strings_ok ys (Ls ++ [L])).
  { unfold strings_ok in *. apply (Forall2_fmap_l snd (fun x L => bss_ok x.1 /\ content x.1 = L)).
    change (ys.*2) with (values ys). rewrite Hv. by apply Forall2_fmap_l. }
  apply Forall2_app_inv_r in H2' as (zs & us & Hz & (x & us' & _ & ->%Forall2_nil_inv_r & ->)%Forall2_cons_inv_r & ->).
  edestruct (pop_back_ok r zs x) as (d' & E' & Hd'); [done|]. exists d'. eexists. split; [exact E'|].
  split; [by exists zs|split; [done|]]. cbn [w_live set_live].
  replace (blen (values xs)) with (blen Ls + 1); [lia|]. unfold blen, values. rewrite length_fmap.
  apply Forall2_length in H2. rewrite length_app in H2. cbn in H2. lia.
Qed.

Lemma destroy_ok d Ls w :
  dataset_ok d Ls -> mem_ok w -> exists d' w', q__List_destructor d w = Ok ((0, d'), w') /\ allocated (- (2 * blen Ls)) w w'.
Proof using Type.
  intros (xs & Hr & H2) Hm.
  destruct (list_copy_destroy d (values xs) w) as [_ (d' & E & _)]; [by exists xs|done|].
  eexists d', _. split; [exact E|]. split; [done|]. cbn [w_live set_live].
  apply Forall2_length in H2. unfold blen, values. rewrite length_fmap, H2. lia.
Qed.

(** The loop on the string of the level [k]. *)
Lemma level_run k m prev l b w :
  Forall item_wf l -> small [] l -> bss_ok b -> content b = level k [] l ->
  Forall (sister_ok (m_brk m) k m prev) (at_level k [] l) -> Zpos (m_brk m) + 2 ^ 28 < 2 ^ 64 - 1 -> mem_ok w ->
  exists u' n w', (lists ← qMap_constructor Q_DEFAULT_MAXHASHV;
      unserialize_loop junk (S (length (default [] (str b)))) (Z.of_nat k) prev (default [] (str b)) (Bss.size b)
        (UState 0 lists (Ends None None 0) m)) w = Ok (u', w') /\
    level_ok (m_brk m) k u' n (at_level k [] l) /\ extends (m_brk m) m (u_mem u') /\
    allocated (1 + 3 * blen (at_level k [] l) + 4 * Z.of_nat n) w w'.
Proof using Type.
  intros Hwf Hs Hb Hc Hsis Hlim Hm. pose proof (content_size b Hb) as Hsz. pose proof (level_length k [] l) as Hlen.
  pose proof (Hs k) as Hlt. rewrite <- Hc, Hsz in *.
  destruct (map_constructor_ok (4 * Z.of_nat k) (sizeof list_descriptor) Q_DEFAULT_MAXHASHV q__uhashf (hash_range _) w Hm)
    as (lists & E & Hmap). rewrite (prog_bind_ok _ _ _ _ _ E).
  destruct Hb as (buf & Es & Hbuf & Hsize & _ & H2 & _). unfold content in Hc. rewrite Es in *. cbn [default] in *.
  destruct (level_loop_ok (m_brk m) k prev (Bss.size b) (bdrop (Bss.size b) buf) (at_level k [] l) (S (length buf)) []
    (UState 0 lists (Ends None None 0) m) 0 [] (set_live (w_live w + 1) w)) as (u' & n & w' & E' & Hlev & He & Hm' & Hw'); try done.
  - split; [cbn; lia|]. destruct k; [split; [done|]; split; [done|]; exists []; apply growing_nil|by apply built_nil].
  - by apply level_records.
  - cbn [app]. fold (level k [] l). rewrite <- Hc. symmetry. apply blen_btake. cbn. lia.
  - unfold blen in *. lia.
  - cbn [app]. lia.
  - exists u', n, w'. split_and!; [|done|done|split; [done|cbn [w_live set_live] in Hw'; lia]]. cbn [app] in E'. fold (level k [] l) in E'.
    rewrite <- Hc in E'. change (id buf) with buf in *. by rewrite btake_bdrop in E'.
Qed.

Lemma clear_ok k lists M w :
  map_at k lists M -> Z.of_nat (base.size M) < 2 ^ 32 -> mem_ok w ->
  exists m' w', q__Map_clear lists w = Ok ((0, m'), w') /\ allocated (- (4 * Z.of_nat (base.size M))) w w'.
Proof using Type.
  intros HM Hsz Hm. destruct (map_clear _ (sizeof list_descriptor) _ _ (hash_range (4 * Z.of_nat k)) lists M w Hm ltac:(done)) as [_ H].
  destruct (H HM Hsz) as (m' & E & _). eexists m', _. split; [exact E|]. split; [done|cbn [w_live set_live]; lia].
Qed.

Lemma unserialize_ok l : Forall item_wf l -> small [] l -> forall k fuel m prev dataset w,
  (k < fuel)%nat -> dataset_ok dataset ((fun j => level j [] l) <$> seq 0 (S k)) ->
  Forall (sister_ok (m_brk m) k m prev) (at_level k [] l) ->
  Zpos (m_brk m) + (Z.of_nat k + 1) * 2 ^ 28 < 2 ^ 64 - 1 -> 4 * Z.of_nat k + 4 < 2 ^ 31 -> mem_ok w ->
  exists e m' w' l', q__list_unserialize junk fuel m dataset prev w = Ok ((e, m'), w') /\
    holds (m_brk m') m' e l' /\ strip <$> l' = strip <$> l /\ extends (m_brk m) m m' /\
    allocated (Z.of_nat (S k) + 3 * Z.of_nat (elements (S k) l)) w w'.
Proof using Type.
  intros Hwf Hs. induction k as [|k IH]; intros fuel m prev dataset w Hf Hd Hsis Hlim Hk Hm;
    (destruct fuel as [|fuel]; [lia|]); cbn [q__list_unserialize].
  - destruct (last_string dataset [] (level 0 [] l) Hd) as (t & b & n & Et & Ed & Hb & Hc & Esz).
    rewrite Et, Ed, Esz. erewrite prog_bind_ok by reflexivity. cbv beta iota.
    change (u32 (u32 (blen [] + 1) - 1)) with (Z.of_nat 0).
    destruct (level_run 0 m prev l b w) as (u & n1 & w1 & E & Hlev & He & Hm1 & Hw1); [done..|lia|done|].
    apply prog_bind_inv in E as (lists & w0 & E0 & E). rewrite (prog_bind_ok _ _ _ _ _ E0), (prog_bind_ok _ _ _ _ _ E).
    change (Z.of_nat 0 =? 0) with true. cbv iota. destruct Hlev as (_ & -> & HM & xs & Hg).
    destruct (clear_ok 0 _ _ w1 HM) as (m1 & w2 & E2 & Hm2 & Hw2); [done|done|]. rewrite (prog_bind_ok _ _ _ _ _ E2).
    rewrite at_level_items in Hg. apply growing_holds in Hg as (l' & Hl' & Es).
    exists (u_items u), (u_mem u), w2, l'. split_and!; try done. split; [done|].
    rewrite Hw2, Hw1, elements_S, map_size_empty. unfold blen. change (elements 0 l) with O. lia.
  - rewrite (seq_S (S k) 0), fmap_app in Hd. set (Ls := (fun j => level j [] l) <$> seq 0 (S k)) in *.
    change (dataset_ok dataset (Ls ++ [level (S k) [] l])) in Hd.
    destruct (last_string dataset Ls (level (S k) [] l) Hd) as (t & b & n & Et & Ed & Hb & Hc & Esz).
    assert (HLs : blen Ls = Z.of_nat (S k)) by (unfold blen, Ls; by rewrite length_fmap, length_seq).
    rewrite Et, Ed, Esz. erewrite prog_bind_ok by reflexivity. cbv beta iota.
    rewrite u32_len_pred. replace (blen Ls + 1 - 1) with (Z.of_nat (S k)) by lia. rewrite uwrap_small by lia.
    destruct (level_run (S k) m prev l b w) as (u & n1 & w1 & E & Hlev & He & Hm1 & Hw1); [done..|lia|done|].
    apply prog_bind_inv in E as (lists & w0 & E0 & E). rewrite (prog_bind_ok _ _ _ _ _ E0), (prog_bind_ok _ _ _ _ _ E).
    replace (Z.of_nat (S k) =? 0) with false by (symmetry; apply Z.eqb_neq; lia).
    destruct Hlev as [Hbrk Hbuilt].
    destruct (copy_but_last dataset Ls _ w1 Hd Hm1) as (d' & w2 & E2 & Hd' & Hm2 & Hw2).
    apply prog_bind_inv in E2 as (d0 & w3 & E3 & E2). rewrite (prog_bind_ok _ _ _ _ _ E3), (prog_bind_ok _ _ _ _ _ E2).
    cbv beta iota. pose proof (level_length (S k) [] l) as Hlen. pose proof (Hs (S k)) as Hlt.
    destruct (IH fuel (u_mem u) (Some (u_lists u)) d' w2) as (e & m' & w4 & l' & E4 & Hl' & Es & He' & Hm4 & Hw4);
      [lia|done|by eapply sisters_above|lia|lia|done|].
    rewrite (prog_bind_ok _ _ _ _ _ E4). destruct Hbuilt as (M & G & HM & HMn & HMsz & _).
    destruct (clear_ok (S k) _ _ w4 HM) as (m1 & w5 & E5 & Hm5 & Hw5); [lia|done|]. rewrite (prog_bind_ok _ _ _ _ _ E5).
    destruct (destroy_ok d' Ls w5 Hd' Hm5) as (d1 & w6 & E6 & Hm6 & Hw6). rewrite (prog_bind_ok _ _ _ _ _ E6).
    exists e, m', w6, l'. split_and!; [done|done|done| |split; [done|]].
    2:{ rewrite Hw6, Hw5, Hw4, Hw2, Hw1, (elements_S (S k)), HMn, HLs. unfold blen. lia. }
    eapply extends_trans; [|exact He|exact He']. apply He.
Qed.
End unserialize_facts.

(** ** The round trip *)

(** The strings of a whole list, unserialized. *)
Lemma unserialize_list_ok junk l m d w :
  Forall item_wf l -> small [] l -> dataset_ok d (levels [] l) -> Zpos (m_brk m) < 2 ^ 63 -> mem_ok w ->
  exists e m' w' l', qUnserialize junk m d true w = Ok ((AList e, m'), w') /\
    holds (m_brk m') m' e l' /\ strip <$> l' = strip <$> l /\ extends (m_brk m) m m' /\
    allocated (1 + Z.of_nat (depth l) + 3 * Z.of_nat (elements (depth l) l)) w w'.
Proof.
  intros Hwf Hs Hd Hlim Hm. pose proof (depth_small _ _ Hs) as Hdep.
  assert (Hsz : size d = Z.of_nat (depth l)).
  { destruct Hd as (xs & Hr & H2). rewrite (rep_size _ _ Hr). apply Forall2_length in H2. unfold levels in H2.
    rewrite length_fmap, length_seq in H2. unfold blen. rewrite H2. apply uwrap_small. lia. }
  unfold qUnserialize. rewrite (prog_bind_ok _ _ _ _ _ (malloc_ok w Hm)), Hsz.
  destruct (unserialize_ok junk l Hwf Hs (pred (depth l)) (S (Z.to_nat (Z.of_nat (depth l)))) m None d
    (set_live (w_live w + 1) w)) as (e & m' & w' & l' & E & Hl' & Es & He & Hm' & Hw').
  - lia.
  - exact Hd.
  - apply list.Forall_forall. intros [[q i] it] Hr. cbn [sister_ok snd].
    destruct (group_children _ [] l q i it Hs Hr) as [<- _]. by rewrite at_level_deep.
  - unfold depth in *. lia.
  - unfold depth in *. lia.
  - done.
  - rewrite (prog_bind_ok _ _ _ _ _ E). exists e, m', w', l'. split_and!; try done. split; [done|].
    rewrite Hw'. pose proof (depth_pos l). replace (S (pred (depth l))) with (depth l) by lia.
    cbn [w_live set_live]. lia.
Qed.

(** C21. Round trip.  A list of any nesting, serialized and unserialized, in the
    same memory or another one, gives a list with the same elements in the same
    order, recursively: an element has the same bytes, up to the addresses and the
    size in its descriptor if it is a list, and its sublist has the same elements.
    The result is built of new nodes: what was in the memory is unchanged.  The
    blocks allocated are counted: besides the strings and what their making leaks
    ([serialize_spec]) the new descriptor and two blocks for each element, and, never
    to be freed, one block for each element and one for each level.  Bytes
    that are not a list come back at the start of the block returned.  Every call
    terminates without undefined behaviour. *)
Theorem serialization_roundtrip junk fuel b m m2 it w :
  item_at b m it -> mem_ok w -> (depth (sub it) <= fuel)%nat -> small [] (sub it) ->
  blen (data it) < 2 ^ 31 -> Zpos (m_brk m2) < 2 ^ 63 ->
  exists d w1 r m' w', qSerialize fuel m (data it) (blen (data it)) w = Ok (d, w1) /\
    qUnserialize junk m2 d (islist (data it)) w1 = Ok ((r, m'), w') /\ extends (m_brk m2) m2 m' /\
    match r with
    | AList e => exists l, holds (m_brk m') m' e l /\ strip <$> l = strip <$> sub it /\
        w_live w' = w_live w + (1 + serial_blocks (sub it)) +
          (1 + Z.of_nat (depth (sub it)) + 3 * Z.of_nat (elements (depth (sub it)) (sub it)))
    | ABlock s => islist (data it) = false /\ btake (blen (data it)) s = data it /\ w_live w' = w_live w + 4
    end.
Proof.
  intros H Hm Hf Hs Hl Hlim. destruct (serialize_ok_item fuel b m it w H Hm Hf Hs Hl) as (d & w1 & E & [Hm1 Hw1] & Hd).
  exists d, w1. destruct (islist (data it)) eqn:Hi.
  - apply item_at_wf, item_wf_eq in H as (_ & _ & Hwf).
    destruct (unserialize_list_ok junk (sub it) m2 d w1 Hwf Hs Hd Hlim Hm1) as (e & m' & w' & l' & E' & Hl' & Es & He & _ & Hw').
    exists (AList e), m', w'. split_and!; [done|done|done|]. exists l'. split_and!; [done|done|lia].
  - destruct (first_string d (data it) Hd) as (h & c & n & Eh & Ec & Hb & Hc).
    unfold qUnserialize. destruct (bss_new_ok w1 Hm1) as (b0 & E0 & H0 & C0).
    destruct (bss_cat_ok b0 c (set_live (w_live w1 + 1) w1) H0 Hb Hm1) as (b1 & E1 & H1 & C1);
      [rewrite C0, Hc, blen_nil; lia|].
    rewrite C0, Hc in C1. cbn [app] in C1. pose proof (content_size b1 H1) as S1. rewrite C1 in S1.
    destruct H1 as (s & Es & _). unfold content in C1. rewrite Es in C1. cbn [default] in C1.
    exists (ABlock s), m2, (set_live (w_live w1 + 1) w1). split_and!; [done| |apply extends_refl|done| |cbn [w_live set_live]; lia].
    + rewrite (prog_bind_ok _ _ _ _ _ E0), Eh, Ec. erewrite prog_bind_ok by reflexivity. cbv beta iota.
      rewrite (prog_bind_ok _ _ _ _ _ E1), Es. done.
    + rewrite S1. exact C1.
Qed.

Lemma serialization_roundtrip_witness :
  exists d w1 e m' w' l, qSerialize 2 memory_ex outer_ex 40 (start []) = Ok (d, w1) /\
    qUnserialize (fun _ => Byte.x5a) memory_ex d true w1 = Ok ((AList e, m'), w') /\
    holds (m_brk m') m' e l /\ strip <$> l = strip <$> sub tree_ex.
Proof.
  destruct (serialization_roundtrip (fun _ => Byte.x5a) 2 4 memory_ex memory_ex tree_ex (start []) tree_ex_at eq_refl
    ltac:(vm_compute; lia) tree_ex_small ltac:(vm_compute; done) ltac:(vm_compute; done))
    as (d & w1 & r & m' & w' & E & E' & _ & Hr).
  destruct r as [e|s]; [|destruct Hr as [Hr _]; discriminate Hr]. destruct Hr as (l & Hl & Es & _).
  exists d, w1, e, m', w', l. split_and!; [exact E|exact E'|exact Hl|exact Es].
Defined.
